(** * BGZIP data chunk source: a shallow embedding of
      cpp/src/io/text/bgzip_data_chunk_source.cu

    The reader parses BGZIP blocks from a host stream, stages them in two
    block groups (current / previous), decompresses a group on demand and
    serves byte ranges of the decompressed data.

    Conventions of the embedding:
    - [std::size_t] and the other unsigned types are [Z] with the wrap-around
      written out ([wrap64], [wrap16]); [int] values stay far from the limits
      of [int] and are plain [Z];
    - buffers are [list byte];
    - a C++ exception is the [Err] case of [result];
    - the CUDA stream/event calls only order asynchronous work and have no
      counterpart here: device buffers are updated in program order. *)

From Stdlib Require Import ZArith List Lia Bool.
From Stdlib Require String.
Import String.StringSyntax.
From Stdlib Require Import Strings.Byte.
Import ListNotations.

Local Open Scope Z_scope.
Local Open Scope string_scope.

(* ------------------------------------------------------------------ *)
(** ** Machine integers and bytes *)

Definition wrap16 (x : Z) : Z := x mod 2 ^ 16.
Definition wrap64 (x : Z) : Z := x mod 2 ^ 64.

Definition byte_val (b : byte) : Z := Z.of_N (Byte.to_N b).

Definition byte_of (z : Z) : byte :=
  match Byte.of_N (Z.to_N (z mod 256)) with
  | Some b => b
  | None => x00
  end.

Definition zlen {A} (l : list A) : Z := Z.of_nat (length l).
Definition ztake {A} (n : Z) (l : list A) : list A := firstn (Z.to_nat n) l.
Definition zdrop {A} (n : Z) (l : list A) : list A := skipn (Z.to_nat n) l.

(* ------------------------------------------------------------------ *)
(** ** Errors *)

(** [logic_error] is what CUDF_EXPECTS and CUDF_FAIL throw, [ios_failure] is
    the stream's exception (failbit is armed by the constructor),
    [length_error] is a vector asked to grow past its maximal size.
    [out_of_fuel] belongs to the embedding only: the loops are given fuel, and
    [read_header_fuel_enough], [read_next_compressed_chunk_fuel_enough] and
    [skip_bytes_fuel_enough] show that it is never returned. *)
Inductive error : Type :=
| logic_error (msg : String.string)
| ios_failure
| length_error
| out_of_fuel.

Inductive result (A : Type) : Type :=
| Ok (a : A)
| Err (e : error).
Arguments Ok {A} a.
Arguments Err {A} e.

Definition bind {A B} (m : result A) (k : A -> result B) : result B :=
  match m with
  | Ok a => k a
  | Err e => Err e
  end.

Notation "x <- m ;; k" := (bind m (fun x => k))
  (at level 61, m at next level, right associativity).
Notation "' p <- m ;; k" := (bind m (fun x => let p := x in k))
  (at level 61, p pattern, m at next level, right associativity).

Definition CUDF_EXPECTS (cond : bool) (msg : String.string) : result unit :=
  if cond then Ok tt else Err (logic_error msg).

(** The error taxonomy of the reader, by the message of the failed check. *)
Definition format_messages : list String.string :=
  [ "malformed BGZIP header";
    "invalid extra field length";
    "malformed BGZIP extra subfield";
    "missing BGZIP size extra subfield" ].

Definition is_format_error (e : error) : bool :=
  match e with
  | logic_error msg =>
      existsb (String.eqb msg) format_messages
  | _ => false
  end.

Definition is_bounds_error (e : error) : bool :=
  match e with
  | logic_error msg =>
      String.eqb msg "out of bounds"
      || String.eqb msg "local part of virtual offset is out of bounds"
  | _ => false
  end.

(* ------------------------------------------------------------------ *)
(** ** The host stream

    A [std::istream] over a file, with [exceptions(failbit)] armed: the file
    contents, the get position and the eofbit.  Any operation that would set
    failbit returns [Err ios_failure]. *)

Record istream : Type := mk_istream {
  stream_data : list byte;
  stream_pos : Z;
  stream_eof : bool
}.

Definition stream_size (s : istream) : Z := zlen (stream_data s).

(** [read(buf, n)]: the sentry fails on a stream whose eofbit is set; a short
    read (also a negative count, for which no byte is extracted) sets
    eofbit and failbit. *)
Definition stream_read (n : Z) (s : istream) : result (list byte * istream) :=
  if stream_eof s then Err ios_failure
  else if n <? 0 then Err ios_failure
  else if n <=? Z.max 0 (stream_size s - stream_pos s) then
    Ok (ztake n (zdrop (stream_pos s) (stream_data s)),
        mk_istream (stream_data s) (stream_pos s + n) false)
  else Err ios_failure.

(** [peek()]: fails on a stream whose eofbit is set, sets eofbit when no byte
    is left. *)
Definition stream_peek (s : istream) : result istream :=
  if stream_eof s then Err ios_failure
  else if stream_size s <=? stream_pos s then
    Ok (mk_istream (stream_data s) (stream_pos s) true)
  else Ok s.

(** [seekg(off, std::ios_base::cur)]: clears eofbit first; seeking before the
    start of the file fails, seeking past its end does not. *)
Definition stream_seekg_cur (off : Z) (s : istream) : result istream :=
  if stream_pos s + off <? 0 then Err ios_failure
  else Ok (mk_istream (stream_data s) (stream_pos s + off) false).

(** An open file positioned at its start. *)
Definition open_stream (bytes : list byte) : istream := mk_istream bytes 0 false.

(* ------------------------------------------------------------------ *)
(** ** The platform: what the reader takes from outside

    The byte order of the host (read_int copies raw bytes into an integer)
    and the two external decompression backends, each given by what it
    produces for one compressed block. *)

Inductive endianness : Type := little_endian | big_endian.

Record platform : Type := mk_platform {
  host_byte_order : endianness;
  nvcomp_all_enabled : bool;
  nvcomp_deflate : list byte -> list byte;
  gpuinflate_block : list byte -> list byte
}.

(* ------------------------------------------------------------------ *)
(** ** read_int *)

(** The integer whose object representation, lowest address first, is [bs]. *)
Fixpoint le_value (bs : list byte) : Z :=
  match bs with
  | [] => 0
  | b :: rest => Z.lor (byte_val b) (Z.shiftl (le_value rest) 8)
  end.

Definition native_value (host : endianness) (bs : list byte) : Z :=
  match host with
  | little_endian => le_value bs
  | big_endian => le_value (rev bs)
  end.

(** [read_int<IntType>(data)] with [sizeof(IntType) = w]: a memcpy of [w]
    bytes into a value-initialised integer. *)
Definition read_int (host : endianness) (w : nat) (data : list byte) : Z :=
  native_value host (firstn w data).

(* ------------------------------------------------------------------ *)
(** ** BGZIP header and footer *)

Record bgzip_header : Type := mk_header {
  block_size : Z;
  extra_length : Z
}.

Definition data_size (h : bgzip_header) : Z :=
  block_size h - extra_length h - 20.

Record bgzip_footer : Type := mk_footer {
  decompressed_size_field : Z
}.

(** [stream.read(buffer.data(), n)] into a std::array: the first bytes of the
    array are overwritten. *)
Definition buffer_store (bytes buffer : list byte) : list byte :=
  bytes ++ skipn (length bytes) buffer.

Definition expected_header : list Z := [31; 139; 8; 4].

Section Parser.
Variable P : platform.

(** The [while (extra_offset < extra_length)] loop of read_header;
    [extra_offset] is a uint16_t. *)
Fixpoint read_header_loop (fuel : nat) (extra_len extra_offset : Z)
         (buffer : list byte) (s : istream) : result (bgzip_header * istream) :=
  match fuel with
  | O => Err out_of_fuel
  | S fuel' =>
      if extra_offset <? extra_len then
        let remaining_size := extra_len - extra_offset in
        _ <- CUDF_EXPECTS (remaining_size >=? 4) "invalid extra field length" ;;
        '(bytes, s) <- stream_read 4 s ;;
        let buffer := buffer_store bytes buffer in
        let extra_offset := wrap16 (extra_offset + 4) in
        let subfield_size := read_int (host_byte_order P) 2 (skipn 2 buffer) in
        if (byte_val (nth 0 buffer x00) =? 66) && (byte_val (nth 1 buffer x00) =? 67)
        then
          _ <- CUDF_EXPECTS (subfield_size =? 2) "malformed BGZIP extra subfield" ;;
          '(bytes, s) <- stream_read 2 s ;;
          let buffer := buffer_store bytes buffer in
          s <- stream_seekg_cur (remaining_size - 6) s ;;
          let block_size_minus_one := read_int (host_byte_order P) 2 buffer in
          Ok (mk_header (block_size_minus_one + 1) extra_len, s)
        else
          s <- stream_seekg_cur subfield_size s ;;
          read_header_loop fuel' extra_len (wrap16 (extra_offset + subfield_size))
                           buffer s
      else Err (logic_error "missing BGZIP size extra subfield")
  end.

Definition read_header (s : istream) : result (bgzip_header * istream) :=
  '(buffer, s) <- stream_read 12 s ;;
  _ <- CUDF_EXPECTS
         (forallb (fun '(e, b) => e =? byte_val b)
                  (combine expected_header buffer))
         "malformed BGZIP header" ;;
  let extra_len := read_int (host_byte_order P) 2 (skipn 10 buffer) in
  read_header_loop (S (length (stream_data s))) extra_len 0 buffer s.

Definition read_footer (s : istream) : result (bgzip_footer * istream) :=
  '(buffer, s) <- stream_read 8 s ;;
  Ok (mk_footer (read_int (host_byte_order P) 4 (skipn 4 buffer)), s).

End Parser.

(* ------------------------------------------------------------------ *)
(** ** Block groups: [decompression_blocks] *)

(** One entry of [d_decompression_results]. *)
Record compression_result : Type := mk_compression_result {
  bytes_written : Z;
  status_success : bool
}.

(** A device span: begin offset inside its buffer, and size. *)
Definition span : Type := (Z * Z)%type.

Record decompression_blocks : Type := mk_blocks {
  h_compressed_blocks : list byte;
  h_compressed_offsets : list Z;
  h_decompressed_offsets : list Z;
  d_compressed_blocks : list byte;
  d_decompressed_blocks : list byte;
  d_compressed_offsets : list Z;
  d_decompressed_offsets : list Z;
  d_compressed_spans : list span;
  d_decompressed_spans : list span;
  d_decompression_results : list compression_result;
  compressed_size_with_headers : Z;
  max_decompressed_size : Z;
  available_decompressed_size : Z;
  read_pos : Z;
  is_decompressed : bool
}.

(** The constructor: empty buffers, one 0 pushed on each offset table. *)
Definition new_blocks : decompression_blocks :=
  mk_blocks [] [0] [0] [] [] [] [] [] [] [] 0 0 0 0 false.

(** [v.resize(n)] of a vector: keep the first [n] elements, value-initialise
    the new ones. *)
Definition vec_resize {A} (n : Z) (d : A) (v : list A) : list A :=
  ztake n v ++ repeat d (Z.to_nat n - length v).

(** Overwrite [buf] from offset [off] on with [bytes]. *)
Definition write_at (off : Z) (bytes buf : list byte) : list byte :=
  ztake off buf ++ bytes ++ zdrop (off + zlen bytes) buf.

Definition num_blocks (g : decompression_blocks) : Z :=
  wrap64 (zlen (h_compressed_offsets g) - 1).

Definition compressed_size (g : decompression_blocks) : Z :=
  last (h_compressed_offsets g) 0.

Definition decompressed_size (g : decompression_blocks) : Z :=
  last (h_decompressed_offsets g) 0.

Definition remaining_size (g : decompression_blocks) : Z :=
  wrap64 (available_decompressed_size g - read_pos g).

Definition reset (g : decompression_blocks) : decompression_blocks :=
  mk_blocks []
            (vec_resize 1 0 (h_compressed_offsets g))
            (vec_resize 1 0 (h_decompressed_offsets g))
            [] [] [] [] [] [] []
            0 0 0 0 false.

(** [read_block]: grow the host buffer by [data_size] bytes and read the
    payload into its end.  [data_size] is an int added to a size_t; a
    request of 2^63 bytes or more cannot be allocated. *)
Definition read_block (header : bgzip_header) (s : istream)
           (g : decompression_blocks) : result (decompression_blocks * istream) :=
  let new_size := wrap64 (zlen (h_compressed_blocks g) + data_size header) in
  if 2 ^ 63 <=? new_size then Err length_error else
  let resized := vec_resize new_size x00 (h_compressed_blocks g) in
  '(bytes, s) <- stream_read (data_size header) s ;;
  Ok (mk_blocks (write_at (compressed_size g) bytes resized)
                (h_compressed_offsets g) (h_decompressed_offsets g)
                (d_compressed_blocks g) (d_decompressed_blocks g)
                (d_compressed_offsets g) (d_decompressed_offsets g)
                (d_compressed_spans g) (d_decompressed_spans g)
                (d_decompression_results g)
                (compressed_size_with_headers g) (max_decompressed_size g)
                (available_decompressed_size g) (read_pos g)
                (is_decompressed g),
      s).

Definition add_block_offsets (header : bgzip_header) (footer : bgzip_footer)
           (g : decompression_blocks) : decompression_blocks :=
  mk_blocks (h_compressed_blocks g)
            (h_compressed_offsets g
               ++ [wrap64 (compressed_size g + data_size header)])
            (h_decompressed_offsets g
               ++ [wrap64 (decompressed_size g + decompressed_size_field footer)])
            (d_compressed_blocks g) (d_decompressed_blocks g)
            (d_compressed_offsets g) (d_decompressed_offsets g)
            (d_compressed_spans g) (d_decompressed_spans g)
            (d_decompression_results g)
            (compressed_size_with_headers g)
            (Z.max (decompressed_size_field footer) (max_decompressed_size g))
            (available_decompressed_size g) (read_pos g)
            (is_decompressed g).

Definition set_read_pos (p : Z) (g : decompression_blocks) : decompression_blocks :=
  mk_blocks (h_compressed_blocks g)
            (h_compressed_offsets g) (h_decompressed_offsets g)
            (d_compressed_blocks g) (d_decompressed_blocks g)
            (d_compressed_offsets g) (d_decompressed_offsets g)
            (d_compressed_spans g) (d_decompressed_spans g)
            (d_decompression_results g)
            (compressed_size_with_headers g) (max_decompressed_size g)
            (available_decompressed_size g) p
            (is_decompressed g).

Definition set_available (a : Z) (g : decompression_blocks) : decompression_blocks :=
  mk_blocks (h_compressed_blocks g)
            (h_compressed_offsets g) (h_decompressed_offsets g)
            (d_compressed_blocks g) (d_decompressed_blocks g)
            (d_compressed_offsets g) (d_decompressed_offsets g)
            (d_compressed_spans g) (d_decompressed_spans g)
            (d_decompression_results g)
            (compressed_size_with_headers g) (max_decompressed_size g)
            a (read_pos g)
            (is_decompressed g).

Definition consume_bytes (size : Z) (g : decompression_blocks)
  : result decompression_blocks :=
  _ <- CUDF_EXPECTS (size <=? remaining_size g) "out of bounds" ;;
  Ok (set_read_pos (wrap64 (read_pos g + size)) g).

(** *** decompress *)

(** [bgzip_nvcomp_transform_functor]: offsets to spans. *)
Definition bgzip_nvcomp_transform_functor (t : (Z * Z) * (Z * Z)) : span * span :=
  let '((compressed_begin, compressed_end), (decompressed_begin, decompressed_end)) := t in
  ((compressed_begin, wrap64 (compressed_end - compressed_begin)),
   (decompressed_begin, wrap64 (decompressed_end - decompressed_begin))).

(** The zip iterator over both offset tables and their successors, for
    [n] blocks. *)
Definition offset_it (co do : list Z) (n : Z) : list ((Z * Z) * (Z * Z)) :=
  ztake n (combine (combine co (tl co)) (combine do (tl do))).

Definition span_read (sp : span) (buf : list byte) : list byte :=
  ztake (snd sp) (zdrop (fst sp) buf).

(** A backend writes at most the size of the output span. *)
Definition span_write (sp : span) (bytes buf : list byte) : list byte :=
  write_at (fst sp) (ztake (snd sp) bytes) buf.

(** Both backends decompress every block of the batch from its compressed
    span into its decompressed span and record one result per block. *)
Fixpoint run_backend (decode : list byte -> list byte)
         (spans : list (span * span)) (src dst : list byte)
  : list byte * list compression_result :=
  match spans with
  | [] => (dst, [])
  | (c, d) :: rest =>
      let out := decode (span_read c src) in
      let '(dst', results) := run_backend decode rest src (span_write d out dst) in
      (dst', mk_compression_result (Z.min (zlen out) (snd d))
                                   (zlen out <=? snd d) :: results)
  end.

(** Which backend was launched, and on how many blocks. *)
Inductive backend_call : Type :=
| batched_decompress (blocks : Z) (max_size total_size : Z)
| gpuinflate (blocks : Z).

Section Decompress.
Variable P : platform.

(** [decompress]: the new state of the group and the backend launches it
    made.  Freshly allocated device memory is modelled as zero bytes; the
    span tables are resized to [num_blocks] and then overwritten, entry by
    entry, by the transform. *)
Definition decompress (g : decompression_blocks)
  : decompression_blocks * list backend_call :=
  if is_decompressed g then (g, []) else
  let dcb := h_compressed_blocks g in
  let dco := h_compressed_offsets g in
  let ddo := h_decompressed_offsets g in
  let ddb := vec_resize (decompressed_size g) x00 (d_decompressed_blocks g) in
  let spans := map bgzip_nvcomp_transform_functor (offset_it dco ddo (num_blocks g)) in
  let cspans := map fst spans in
  let dspans := map snd spans in
  let results0 := vec_resize (num_blocks g) (mk_compression_result 0 false)
                             (d_decompression_results g) in
  let '(ddb, results, calls) :=
    if decompressed_size g >? 0 then
      if nvcomp_all_enabled P then
        let '(b, r) := run_backend (nvcomp_deflate P) (combine cspans dspans) dcb ddb in
        (b, r, [batched_decompress (zlen cspans) (max_decompressed_size g)
                                   (decompressed_size g)])
      else
        let '(b, r) := run_backend (gpuinflate_block P) (combine cspans dspans) dcb ddb in
        (b, r, [gpuinflate (zlen cspans)])
    else (ddb, results0, [])
  in
  (mk_blocks (h_compressed_blocks g)
             (h_compressed_offsets g) (h_decompressed_offsets g)
             dcb ddb dco ddo cspans dspans results
             (compressed_size_with_headers g) (max_decompressed_size g)
             (available_decompressed_size g) (read_pos g)
             true,
   calls).

End Decompress.

(* ------------------------------------------------------------------ *)
(** ** The reader: [bgzip_data_chunk_reader] *)

Record reader : Type := mk_reader {
  _data_stream : istream;
  _prev_blocks : decompression_blocks;
  _curr_blocks : decompression_blocks;
  _local_end : Z;
  _compressed_pos : Z;
  _compressed_end : Z
}.

Definition chunk_load_size : Z := 2 ^ 24.

(** A device-to-device copy of [n] bytes starting at [src + off]. *)
Definition memcpy_from (src : list byte) (off n : Z) : list byte :=
  ztake n (zdrop off src).

Section Reader.
Variable P : platform.

(** The [while (_curr_blocks.decompressed_size() < requested_size)] loop. *)
Fixpoint read_chunk_loop (fuel : nat) (requested_size : Z) (r : reader)
  : result reader :=
  match fuel with
  | O => Err out_of_fuel
  | S fuel' =>
      if decompressed_size (_curr_blocks r) <? requested_size then
        if stream_eof (_data_stream r) then Ok r else
        s <- stream_peek (_data_stream r) ;;
        if stream_eof s || (_compressed_pos r >? _compressed_end r) then
          Ok (mk_reader s (_prev_blocks r) (_curr_blocks r)
                        (_local_end r) (_compressed_pos r) (_compressed_end r))
        else
          '(header, s) <- read_header P s ;;
          '(curr, s) <- read_block header s (_curr_blocks r) ;;
          '(footer, s) <- read_footer P s ;;
          let curr := add_block_offsets header footer curr in
          if _compressed_pos r =? _compressed_end r then
            let curr :=
              set_available
                (wrap64 (available_decompressed_size curr + _local_end r)) curr in
            Ok (mk_reader s (_prev_blocks r) curr (_local_end r)
                          (wrap64 (_compressed_pos r + block_size header))
                          (_compressed_end r))
          else
            let curr :=
              set_available
                (wrap64 (available_decompressed_size curr
                         + decompressed_size_field footer)) curr in
            read_chunk_loop fuel' requested_size
              (mk_reader s (_prev_blocks r) curr (_local_end r)
                         (wrap64 (_compressed_pos r + block_size header))
                         (_compressed_end r))
      else Ok r
  end.

Definition read_next_compressed_chunk (requested_size : Z) (r : reader)
  : result reader :=
  (* std::swap(_curr_blocks, _prev_blocks), then _curr_blocks.reset() *)
  let r := mk_reader (_data_stream r) (_curr_blocks r) (reset (_prev_blocks r))
                     (_local_end r) (_compressed_pos r) (_compressed_end r) in
  read_chunk_loop (S (length (stream_data (_data_stream r)))) requested_size r.

(** The constructor, on an open stream. *)
Definition bgzip_data_chunk_reader (input_stream : istream)
           (virtual_begin virtual_end : Z) : result reader :=
  let r := mk_reader input_stream new_blocks new_blocks
                     (Z.land virtual_end 65535)
                     (Z.shiftr virtual_begin 16)
                     (Z.shiftr virtual_end 16) in
  s <- stream_seekg_cur (_compressed_pos r) (_data_stream r) ;;
  r <- read_next_compressed_chunk chunk_load_size
         (mk_reader s (_prev_blocks r) (_curr_blocks r)
                    (_local_end r) (_compressed_pos r) (_compressed_end r)) ;;
  let local_pos := Z.land virtual_begin 65535 in
  if local_pos >? 0 then
    _ <- CUDF_EXPECTS
           ((zlen (h_compressed_offsets (_curr_blocks r)) >? 1)
            && (local_pos <? nth 1 (h_compressed_offsets (_curr_blocks r)) 0))
           "local part of virtual offset is out of bounds" ;;
    curr <- consume_bytes local_pos (_curr_blocks r) ;;
    Ok (mk_reader (_data_stream r) (_prev_blocks r) curr
                  (_local_end r) (_compressed_pos r) (_compressed_end r))
  else Ok r.

(** The [while (read_size > _curr_blocks.remaining_size())] loop of
    skip_bytes; returns what is left of [read_size]. *)
Fixpoint skip_bytes_loop (fuel : nat) (read_size : Z) (r : reader)
  : result (Z * reader) :=
  match fuel with
  | O => Err out_of_fuel
  | S fuel' =>
      if read_size >? remaining_size (_curr_blocks r) then
        let read_size := wrap64 (read_size - remaining_size (_curr_blocks r)) in
        curr <- consume_bytes (remaining_size (_curr_blocks r)) (_curr_blocks r) ;;
        r <- read_next_compressed_chunk chunk_load_size
               (mk_reader (_data_stream r) (_prev_blocks r) curr
                          (_local_end r) (_compressed_pos r) (_compressed_end r)) ;;
        if stream_eof (_data_stream r) then Ok (read_size, r) else
        s <- stream_peek (_data_stream r) ;;
        let r := mk_reader s (_prev_blocks r) (_curr_blocks r)
                           (_local_end r) (_compressed_pos r) (_compressed_end r) in
        if stream_eof s || (_compressed_pos r >? _compressed_end r) then
          Ok (read_size, r)
        else skip_bytes_loop fuel' read_size r
      else Ok (read_size, r)
  end.

Definition skip_bytes (read_size : Z) (r : reader) : result reader :=
  '(read_size, r) <-
    skip_bytes_loop (S (length (stream_data (_data_stream r)))) read_size r ;;
  let read_size := Z.min read_size (remaining_size (_curr_blocks r)) in
  curr <- consume_bytes read_size (_curr_blocks r) ;;
  Ok (mk_reader (_data_stream r) (_prev_blocks r) curr
                (_local_end r) (_compressed_pos r) (_compressed_end r)).

(** [get_next_chunk]: the bytes of the returned device buffer and the new
    state of the reader. *)
Definition get_next_chunk (read_size : Z) (r : reader)
  : result (list byte * reader) :=
  if read_size <=? remaining_size (_curr_blocks r) then
    let curr := fst (decompress P (_curr_blocks r)) in
    let data := vec_resize read_size x00 [] in
    let data :=
      write_at 0 (memcpy_from (d_decompressed_blocks curr) (read_pos curr) read_size)
               data in
    curr <- consume_bytes read_size curr ;;
    Ok (data, mk_reader (_data_stream r) (_prev_blocks r) curr
                        (_local_end r) (_compressed_pos r) (_compressed_end r))
  else
    r <- read_next_compressed_chunk read_size r ;;
    let prev := fst (decompress P (_prev_blocks r)) in
    let curr := fst (decompress P (_curr_blocks r)) in
    let read_size :=
      Z.min read_size (wrap64 (remaining_size prev + remaining_size curr)) in
    let data := vec_resize read_size x00 [] in
    let data :=
      write_at 0 (memcpy_from (d_decompressed_blocks prev) (read_pos prev)
                              (remaining_size prev))
               data in
    let data :=
      write_at (remaining_size prev)
               (memcpy_from (d_decompressed_blocks curr) (read_pos curr)
                            (wrap64 (read_size - remaining_size prev)))
               data in
    let read_size := wrap64 (read_size - remaining_size prev) in
    prev <- consume_bytes (remaining_size prev) prev ;;
    curr <- consume_bytes read_size curr ;;
    Ok (data, mk_reader (_data_stream r) prev curr
                        (_local_end r) (_compressed_pos r) (_compressed_end r)).

End Reader.

(* ------------------------------------------------------------------ *)
(** ** Well-formed BGZIP streams

    What a BGZIP writer produces, block by block: the gzip magic, six bytes
    the reader ignores (MTIME, XFL, OS), XLEN, the extra field with the BC
    subfield somewhere in it, the DEFLATE payload, CRC32 and ISIZE. *)

Fixpoint le_bytes (w : nat) (z : Z) : list byte :=
  match w with
  | O => []
  | S w' => byte_of z :: le_bytes w' (z / 256)
  end.

Record subfield : Type := mk_subfield {
  sf_id1 : byte;
  sf_id2 : byte;
  sf_data : list byte
}.

Definition encode_subfield (f : subfield) : list byte :=
  sf_id1 f :: sf_id2 f :: le_bytes 2 (zlen (sf_data f)) ++ sf_data f.

Record bgzf_block : Type := mk_block {
  blk_fixed : list byte;        (* MTIME, XFL, OS *)
  blk_pre : list subfield;      (* extra subfields in front of BC *)
  blk_post : list subfield;     (* extra subfields behind BC *)
  blk_payload : list byte;      (* compressed data *)
  blk_crc : list byte;          (* CRC32 *)
  blk_content : list byte       (* the data the payload decompresses to *)
}.

(** The subfield that carries the size of the block, minus one. *)
Definition bc_subfield (size : Z) : subfield :=
  mk_subfield x42 x43 (le_bytes 2 (size - 1)).

Definition subfields_size (fs : list subfield) : Z :=
  zlen (concat (map encode_subfield fs)).

Definition blk_xlen (b : bgzf_block) : Z :=
  subfields_size (blk_pre b) + 6 + subfields_size (blk_post b).

Definition blk_size (b : bgzf_block) : Z :=
  12 + blk_xlen b + zlen (blk_payload b) + 8.

Definition blk_subfields (b : bgzf_block) : list subfield :=
  blk_pre b ++ bc_subfield (blk_size b) :: blk_post b.

Definition encode_header (b : bgzf_block) : list byte :=
  map byte_of expected_header ++ blk_fixed b ++ le_bytes 2 (blk_xlen b)
  ++ concat (map encode_subfield (blk_subfields b)).

Definition encode_footer (b : bgzf_block) : list byte :=
  blk_crc b ++ le_bytes 4 (zlen (blk_content b)).

Definition encode_block (b : bgzf_block) : list byte :=
  encode_header b ++ blk_payload b ++ encode_footer b.

Definition encode_stream (bs : list bgzf_block) : list byte :=
  concat (map encode_block bs).

Definition is_bc (f : subfield) : bool :=
  (byte_val (sf_id1 f) =? 66) && (byte_val (sf_id2 f) =? 67).

Record valid_block (b : bgzf_block) : Prop := mk_valid_block {
  vb_fixed : length (blk_fixed b) = 6%nat;
  vb_crc : length (blk_crc b) = 4%nat;
  vb_pre : forall f, In f (blk_pre b) -> is_bc f = false;
  vb_size : blk_size b <= 65536;
  vb_content : zlen (blk_content b) <= 65536
}.


(* ------------------------------------------------------------------ *)
(** ** Specification-side definitions *)

(** The value of a little-endian field stored in [bs]: the sum of
    [bs[i] * 256^i]. *)
Definition little_endian_sum (bs : list byte) : Z :=
  fold_right Z.add 0
    (map (fun i => byte_val (nth i bs x00) * 256 ^ Z.of_nat i)
         (seq 0 (length bs))).

(** The invariant of the read position of a block group; both fields are
    std::size_t. *)
Definition pos_inv (g : decompression_blocks) : Prop :=
  0 <= read_pos g
  /\ read_pos g <= available_decompressed_size g
  /\ available_decompressed_size g < 2 ^ 64.

Definition reader_pos_inv (r : reader) : Prop :=
  pos_inv (_prev_blocks r) /\ pos_inv (_curr_blocks r).

(** A table of cumulative offsets never decreases. *)
Fixpoint nondecreasingb (l : list Z) : bool :=
  match l with
  | x :: rest =>
      match rest with
      | y :: _ => (x <=? y) && nondecreasingb rest
      | [] => true
      end
  | [] => true
  end.


(** The states a block group goes through in the hands of the reader: it is
    constructed, reset, extended by one block (header, payload and footer
    parsed from the stream, as in the body of read_next_compressed_chunk),
    given its available size, consumed from, and decompressed. *)
Inductive reachable_blocks (P : platform) : decompression_blocks -> Prop :=
| reach_new : reachable_blocks P new_blocks
| reach_reset g : reachable_blocks P g -> reachable_blocks P (reset g)
| reach_block g header footer s0 s1 g' s2 s3 :
    reachable_blocks P g ->
    0 <= stream_pos s0 ->
    read_header P s0 = Ok (header, s1) ->
    read_block header s1 g = Ok (g', s2) ->
    read_footer P s2 = Ok (footer, s3) ->
    reachable_blocks P (add_block_offsets header footer g')
| reach_available g a :
    reachable_blocks P g -> reachable_blocks P (set_available a g)
| reach_consume g size g' :
    reachable_blocks P g -> consume_bytes size g = Ok g' ->
    reachable_blocks P g'
| reach_decompress g :
    reachable_blocks P g -> reachable_blocks P (fst (decompress P g)).

(** What holds of every group the reader can build, whatever its size: the
    tables start with 0 and have the same length, the compressed offsets
    never decrease and end with the size of the host buffer. *)
Record blocks_inv (g : decompression_blocks) : Prop := mk_blocks_inv {
  bi_same_length :
    length (h_compressed_offsets g) = length (h_decompressed_offsets g);
  bi_compressed_head : hd_error (h_compressed_offsets g) = Some 0;
  bi_decompressed_head : hd_error (h_decompressed_offsets g) = Some 0;
  bi_compressed_mono : nondecreasingb (h_compressed_offsets g) = true;
  bi_host_size : zlen (h_compressed_blocks g) = compressed_size g;
  bi_compressed_size : compressed_size g < 2 ^ 63
}.

(** A stream over [done ++ todo] whose get position is behind [done]. *)
Definition stream_at (done todo : list byte) : istream :=
  mk_istream (done ++ todo) (zlen done) false.

(** The first four bytes are the gzip magic with FEXTRA set. *)
Definition magic_ok (m : list byte) : bool :=
  forallb (fun '(e, b) => e =? byte_val b) (combine expected_header m).

(** What the extra field of a header holds, for an extra field that is a
    sequence of whole subfields [fs] followed by at most three stray bytes
    [tail]. *)
Inductive extra_outcome : Type :=
| extra_found (block_size_minus_one : Z)
| extra_bad_size_subfield
| extra_short
| extra_missing.

Fixpoint find_block_size (fs : list subfield) (tail : list byte) : extra_outcome :=
  match fs with
  | [] =>
      match tail with
      | [] => extra_missing
      | _ :: _ => extra_short
      end
  | f :: rest =>
      if is_bc f then
        if zlen (sf_data f) =? 2 then extra_found (little_endian_sum (sf_data f))
        else extra_bad_size_subfield
      else find_block_size rest tail
  end.

(** The three failure conditions the specification lists for read_header:
    a wrong magic, an extra field that runs out inside a subfield, no
    subfield tagged BC. *)
Definition listed_header_failure (m : list byte) (fs : list subfield)
           (tail : list byte) : bool :=
  negb (magic_ok m)
  || negb (zlen tail =? 0)
  || negb (existsb is_bc fs).

Definition is_format_failure {A} (res : result A) : bool :=
  match res with
  | Ok _ => false
  | Err e => is_format_error e
  end.

Definition header_bytes (m fixed : list byte) (fs : list subfield)
           (tail : list byte) : list byte :=
  m ++ fixed
    ++ le_bytes 2 (zlen (concat (map encode_subfield fs) ++ tail))
    ++ concat (map encode_subfield fs) ++ tail.

(** ** Concrete inputs used by examples *)

(** A little-endian host on which "compression" stores the data as it is. *)
Definition stored_platform : platform :=
  mk_platform little_endian true (fun payload => payload) (fun payload => payload).

Definition zero_bytes (n : nat) : list byte := repeat x00 n.

(** The result of read_header on a header whose extra field has the outcome
    [o]: [d] is what lies before the extra field, [t] behind it. *)
Definition header_result (xl : Z) (d extra t : list byte) (o : extra_outcome)
  : result (bgzip_header * istream) :=
  match o with
  | extra_found v => Ok (mk_header (v + 1) xl, stream_at (d ++ extra) t)
  | extra_bad_size_subfield => Err (logic_error "malformed BGZIP extra subfield")
  | extra_short => Err (logic_error "invalid extra field length")
  | extra_missing => Err (logic_error "missing BGZIP size extra subfield")
  end.

Definition outcome_found (o : extra_outcome) : bool :=
  match o with
  | extra_found _ => true
  | _ => false
  end.

(** A toy codec standing in for DEFLATE: a payload of two bytes [b; n] is a
    run of [n] bytes [b], any other payload is stored data. *)
Definition run_length_decode (payload : list byte) : list byte :=
  match payload with
  | [b; n] => repeat b (Z.to_nat (byte_val n))
  | _ => payload
  end.

Definition run_length_platform : platform :=
  mk_platform little_endian true run_length_decode run_length_decode.

(** Ten bytes that compress to a payload of two. *)
Definition run_block : bgzf_block :=
  mk_block (zero_bytes 6) [] [] [x61; x0a] (zero_bytes 4) (repeat x61 10).

(** A run of no bytes: a payload of two bytes for no data. *)
Definition empty_run_block : bgzf_block :=
  mk_block (zero_bytes 6) [] [] [x61; x00] (zero_bytes 4) [].

(** Three bytes stored as they are. *)
Definition stored_block : bgzf_block :=
  mk_block (zero_bytes 6) [] [] [x78; x79; x7a] (zero_bytes 4) [x78; x79; x7a].

(** The empty block that ends a BGZIP file. *)
Definition eof_block : bgzf_block :=
  mk_block (zero_bytes 6) [] [] [] (zero_bytes 4) [].

Definition whole_file : Z := 2 ^ 64 - 1.

(* ------------------------------------------------------------------ *)
(** ** The reader against a well-formed file *)

(** The decompression backend that [decompress] launches. *)
Definition selected_backend (P : platform) : list byte -> list byte :=
  if nvcomp_all_enabled P then nvcomp_deflate P else gpuinflate_block P.

Definition contents (bs : list bgzf_block) : list byte :=
  concat (map blk_content bs).

Definition payloads (bs : list bgzf_block) : list byte :=
  concat (map blk_payload bs).

(** Cumulative offsets of consecutive chunks, starting at [start]. *)
Fixpoint offsets_from (start : Z) (chunks : list (list byte)) : list Z :=
  match chunks with
  | [] => [start]
  | c :: rest => start :: offsets_from (start + zlen c) rest
  end.

(** The decompressed bytes of the blocks [rest], the first of which starts
    at file offset [pos], that lie before the virtual end
    ([cend], [lend]): whole blocks that start before [cend], and the first
    [lend] bytes of the block that starts at [cend]. *)
Fixpoint in_range (cend lend pos : Z) (rest : list bgzf_block) : list byte :=
  match rest with
  | [] => []
  | b :: rest' =>
      if pos >? cend then []
      else if pos =? cend then ztake lend (blk_content b)
      else blk_content b ++ in_range cend lend (pos + blk_size b) rest'
  end.

(** The virtual end points into the data of a block, if it points at a
    block at all. *)
Definition end_inside (cend lend : Z) (all : list bgzf_block) : Prop :=
  0 <= lend
  /\ forall passed b rest,
       all = passed ++ b :: rest ->
       zlen (encode_stream passed) = cend ->
       lend <= zlen (blk_content b).

(** The group [g] stages the blocks [gb], a run of consecutive blocks of
    the file [all]. *)
Record group_rep (all : list bgzf_block) (g : decompression_blocks)
       (gb : list bgzf_block) : Prop := mk_group_rep {
  gr_segment : exists before after, all = before ++ gb ++ after;
  gr_payload : h_compressed_blocks g = payloads gb;
  gr_coffsets : h_compressed_offsets g = offsets_from 0 (map blk_payload gb);
  gr_doffsets : h_decompressed_offsets g = offsets_from 0 (map blk_content gb);
  gr_read_pos : 0 <= read_pos g <= available_decompressed_size g;
  gr_available : available_decompressed_size g <= zlen (contents gb);
  gr_device : is_decompressed g = true -> d_decompressed_blocks g = contents gb
}.

(** The bytes of the group that the reader may still hand out. *)
Definition group_data (g : decompression_blocks) (gb : list bgzf_block) : list byte :=
  zdrop (read_pos g) (ztake (available_decompressed_size g) (contents gb)).

(** The reader [r] over the file [all] has exactly the bytes [todo] left to
    deliver: the unread bytes of the current group, then the bytes in range
    of the blocks that are still in the stream. *)
Definition reader_rep (all : list bgzf_block) (r : reader) (todo : list byte) : Prop :=
  exists passed rest pb gb,
    all = passed ++ rest
    /\ stream_data (_data_stream r) = encode_stream all
    /\ stream_pos (_data_stream r) = zlen (encode_stream passed)
    /\ (stream_eof (_data_stream r) = true -> rest = [])
    /\ _compressed_pos r = zlen (encode_stream passed)
    /\ end_inside (_compressed_end r) (_local_end r) all
    /\ group_rep all (_prev_blocks r) pb
    /\ read_pos (_prev_blocks r) = available_decompressed_size (_prev_blocks r)
    /\ group_rep all (_curr_blocks r) gb
    /\ todo = group_data (_curr_blocks r) gb
              ++ in_range (_compressed_end r) (_local_end r) (_compressed_pos r) rest.

(** A file of well-formed blocks that the backend of the platform
    decompresses correctly, small enough for its offsets to be virtual
    offsets (48 bits). *)
Record valid_file (P : platform) (all : list bgzf_block) : Prop := mk_valid_file {
  vf_host : host_byte_order P = little_endian;
  vf_blocks : Forall valid_block all;
  vf_backend : forall b, In b all -> selected_backend P (blk_payload b) = blk_content b;
  vf_size : zlen (encode_stream all) < 2 ^ 48 - 1
}.

(** Successive get_next_chunk calls with the given sizes: the chunks they
    return, in order. *)
Fixpoint read_chunks (P : platform) (sizes : list Z) (r : reader)
  : result (list (list byte) * reader) :=
  match sizes with
  | [] => Ok ([], r)
  | n :: rest =>
      '(chunk, r) <- get_next_chunk P n r ;;
      '(chunks, r) <- read_chunks P rest r ;;
      Ok (chunk :: chunks, r)
  end.

(** The spans the transform computes for consecutive blocks. *)
Fixpoint spans_of (ca da : Z) (gb : list bgzf_block) : list (span * span) :=
  match gb with
  | [] => []
  | b :: rest =>
      ((ca, zlen (blk_payload b)), (da, zlen (blk_content b)))
        :: spans_of (ca + zlen (blk_payload b)) (da + zlen (blk_content b)) rest
  end.


(** The group after read_block has appended a payload to the host buffer. *)
Definition append_payload (payload : list byte) (g : decompression_blocks)
  : decompression_blocks :=
  mk_blocks (h_compressed_blocks g ++ payload)
            (h_compressed_offsets g) (h_decompressed_offsets g)
            (d_compressed_blocks g) (d_decompressed_blocks g)
            (d_compressed_offsets g) (d_decompressed_offsets g)
            (d_compressed_spans g) (d_decompressed_spans g)
            (d_decompression_results g)
            (compressed_size_with_headers g) (max_decompressed_size g)
            (available_decompressed_size g) (read_pos g)
            (is_decompressed g).


(** The total of a list of request sizes. *)
Definition sum_sizes (sizes : list Z) : Z := fold_right Z.add 0 sizes.

(** A small file: ten compressed bytes, three stored bytes, the end marker. *)
Definition example_file : list bgzf_block := [run_block; stored_block; eof_block].

(** A stream whose first block claims 2^24 bytes of data in its footer and
    is followed by twelve bytes that are no BGZIP header. *)
Definition broken_stream : list byte :=
  encode_header eof_block ++ zero_bytes 4 ++ le_bytes 4 (2 ^ 24) ++ zero_bytes 12.

(** The two offset tables of both groups start with 0. *)
Definition heads_zero (r : reader) : Prop :=
  hd_error (h_decompressed_offsets (_prev_blocks r)) = Some 0
  /\ hd_error (h_decompressed_offsets (_curr_blocks r)) = Some 0.

(** The states of a reader over the file [all]: constructed with virtual
    offsets whose compressed parts are block starts (or lie behind the last
    block) and whose end points into the data of its block, then used
    through get_next_chunk and skip_bytes. *)
Inductive reachable_reader (P : platform) (all : list bgzf_block) : reader -> Prop :=
| reach_constructed passed rest cend lend lp r :
    all = passed ++ rest ->
    end_inside cend lend all ->
    0 <= cend -> lend < 65536 -> 0 <= lp < 65536 ->
    bgzip_data_chunk_reader P (open_stream (encode_stream all))
      (Z.shiftl (zlen (encode_stream passed)) 16 + lp) (Z.shiftl cend 16 + lend)
    = Ok r ->
    reachable_reader P all r
| reach_get_next_chunk r n data r' :
    reachable_reader P all r -> 0 <= n ->
    get_next_chunk P n r = Ok (data, r') ->
    reachable_reader P all r'
| reach_skip_bytes r n r' :
    reachable_reader P all r -> 0 <= n < 2 ^ 64 ->
    skip_bytes P n r = Ok r' ->
    reachable_reader P all r'.

(* ------------------------------------------------------------------ *)
(** ** Host-to-device copies *)

(** [cudaMemcpyAsync(dst, src, src.size() * sizeof(T), ...)]: the first
    elements of [dst] are overwritten by [src]. *)
Definition memcpy_over {A} (src dst : list A) : list A :=
  src ++ zdrop (zlen src) dst.

(** [copy_to_device(host, device, stream)]: resize the device vector to the
    size of the host vector, then copy the host vector over it. *)
Definition copy_to_device {A} (d : A) (host device : list A) : list A :=
  memcpy_over host (vec_resize (zlen host) d device).

(* ------------------------------------------------------------------ *)
(** ** The data chunk source: [bgzip_data_chunk_source] *)

Record bgzip_data_chunk_source : Type := mk_source {
  _filename : String.string;
  _virtual_begin : Z;
  _virtual_end : Z
}.

(** The files that can be opened for reading, by name. *)
Definition file_system : Type := String.string -> option (list byte).

(** [create_reader]: open the file and construct a reader on it.  An
    [std::ifstream] over a file that cannot be opened has failbit set, and
    the first statement of the reader's constructor, [exceptions(failbit)],
    throws on such a stream. *)
Definition create_reader (P : platform) (fs : file_system)
           (src : bgzip_data_chunk_source) : result reader :=
  match fs (_filename src) with
  | Some bytes =>
      bgzip_data_chunk_reader P (open_stream bytes)
                              (_virtual_begin src) (_virtual_end src)
  | None => Err ios_failure
  end.

(** [make_source_from_bgzip_file(filename, virtual_begin, virtual_end)]. *)
Definition make_source_from_bgzip_file_range (filename : String.string)
           (virtual_begin virtual_end : Z) : bgzip_data_chunk_source :=
  mk_source filename virtual_begin virtual_end.

(** [make_source_from_bgzip_file(filename)]: the range from 0 to
    [std::numeric_limits<uint64_t>::max()]. *)
Definition make_source_from_bgzip_file (filename : String.string)
  : bgzip_data_chunk_source :=
  mk_source filename 0 (2 ^ 64 - 1).

(* ------------------------------------------------------------------ *)
(** ** Further specification-side definitions *)



(** The reader after [peek()] on its stream. *)
Definition with_stream (s : istream) (r : reader) : reader :=
  mk_reader s (_prev_blocks r) (_curr_blocks r)
            (_local_end r) (_compressed_pos r) (_compressed_end r).

(** The reader after one pass through the body of the accumulation loop
    that read [header] and [footer], staged the block in [curr] and left
    the stream at [s]. *)
Definition with_block (header : bgzip_header) (footer : bgzip_footer)
           (curr : decompression_blocks) (s : istream) (r : reader) : reader :=
  let curr := add_block_offsets header footer curr in
  mk_reader s (_prev_blocks r)
            (set_available
               (wrap64 (available_decompressed_size curr
                        + (if _compressed_pos r =? _compressed_end r
                           then _local_end r
                           else decompressed_size_field footer)))
               curr)
            (_local_end r)
            (wrap64 (_compressed_pos r + block_size header))
            (_compressed_end r).

(** The states of a reader over an arbitrary file [bytes]: constructed on
    the opened file with any virtual offsets, then used through
    get_next_chunk and skip_bytes; offsets and sizes are uint64_t and
    std::size_t values. *)
Inductive reader_of (P : platform) (bytes : list byte) : reader -> Prop :=
| of_constructor vb ve r :
    0 <= vb < 2 ^ 64 -> 0 <= ve < 2 ^ 64 ->
    bgzip_data_chunk_reader P (open_stream bytes) vb ve = Ok r ->
    reader_of P bytes r
| of_get_next_chunk r n data r' :
    reader_of P bytes r ->
    0 <= n < 2 ^ 64 ->
    get_next_chunk P n r = Ok (data, r') ->
    reader_of P bytes r'
| of_skip_bytes r n r' :
    reader_of P bytes r ->
    0 <= n < 2 ^ 64 ->
    skip_bytes P n r = Ok r' ->
    reader_of P bytes r'.

(** What every such reader keeps: the file, a get position that is no
    negative offset, and offset tables that start with 0. *)
Definition stream_inv (bytes : list byte) (r : reader) : Prop :=
  stream_data (_data_stream r) = bytes
  /\ 0 <= stream_pos (_data_stream r)
  /\ heads_zero r.

(** The bytes [todo] cut into consecutive chunks of the given sizes, the
    last ones shorter or empty when the bytes run out. *)
Fixpoint chunks_of (sizes : list Z) (todo : list byte) : list (list byte) :=
  match sizes with
  | [] => []
  | n :: rest => ztake n todo :: chunks_of rest (zdrop n todo)
  end.

(** The spans [spans] lie one behind the other in their buffer, from offset
    [start] to offset [stop], without gap or overlap. *)
Fixpoint tiles (start : Z) (spans : list span) (stop : Z) : Prop :=
  match spans with
  | [] => start = stop
  | sp :: rest => fst sp = start /\ 0 <= snd sp /\ tiles (start + snd sp) rest stop
  end.

(** The span between two consecutive offsets, as the transform computes
    it. *)
Definition span_between (be : Z * Z) : span :=
  (fst be, wrap64 (snd be - fst be)).

(* ------------------------------------------------------------------ *)
(** ** Truncated files *)

(** The stream [s] over a file of which only the first [c] bytes are
    there. *)
Definition truncate_stream (c : Z) (s : istream) : istream :=
  mk_istream (ztake c (stream_data s)) (stream_pos s) (stream_eof s).

Definition truncate_reader (c : Z) (r : reader) : reader :=
  with_stream (truncate_stream c (_data_stream r)) r.

(** The stream stands at the start of a block of the file [all], or behind
    its last block. *)
Definition at_block_start (all : list bgzf_block) (s : istream) : Prop :=
  exists done rest,
    all = done ++ rest
    /\ stream_data s = encode_stream all
    /\ stream_pos s = zlen (encode_stream done).

(** Open the file, construct a reader on the whole of it and read chunks
    of the given sizes. *)
Definition read_file (P : platform) (bytes : list byte) (sizes : list Z)
  : result (list (list byte)) :=
  r <- bgzip_data_chunk_reader P (open_stream bytes) 0 whole_file ;;
  '(chunks, _) <- read_chunks P sizes r ;;
  Ok chunks.

(** The number of blocks a group holds. *)
Definition blocks_held (g : decompression_blocks) : Z :=
  zlen (h_decompressed_offsets g) - 1.

(** A group built from a file of [size] bytes: every block takes at least
    24 bytes of the file and makes less than 2^32 bytes available. *)
Definition size_bound (size : Z) (g : decompression_blocks) : Prop :=
  0 <= blocks_held g
  /\ available_decompressed_size g <= 2 ^ 32 * blocks_held g
  /\ 24 * blocks_held g <= size.

Definition group_bound (size : Z) (g : decompression_blocks) : Prop :=
  pos_inv g /\ size_bound size g.

Definition bounded_reader (bytes : list byte) (r : reader) : Prop :=
  stream_inv bytes r
  /\ group_bound (zlen bytes) (_prev_blocks r)
  /\ group_bound (zlen bytes) (_curr_blocks r)
  /\ 0 <= _local_end r < 2 ^ 32.

(* ------------------------------------------------------------------ *)
(** ** The host side of the reader *)

(** A group without its device buffers. *)
Definition host_view (g : decompression_blocks) : decompression_blocks :=
  mk_blocks (h_compressed_blocks g)
            (h_compressed_offsets g) (h_decompressed_offsets g)
            [] [] [] [] [] [] []
            (compressed_size_with_headers g) (max_decompressed_size g)
            (available_decompressed_size g) (read_pos g)
            (is_decompressed g).

(** Two groups, two readers that differ in their device buffers only. *)
Definition same_host (g g' : decompression_blocks) : Prop :=
  host_view g = host_view g'.

Definition same_host_reader (r r' : reader) : Prop :=
  _data_stream r = _data_stream r'
  /\ same_host (_prev_blocks r) (_prev_blocks r')
  /\ same_host (_curr_blocks r) (_curr_blocks r')
  /\ _local_end r = _local_end r'
  /\ _compressed_pos r = _compressed_pos r'
  /\ _compressed_end r = _compressed_end r'.

(** Two runs end alike: with the same error, or with related results. *)
Definition same_outcome {A} (R : A -> A -> Prop) (m m' : result A) : Prop :=
  match m, m' with
  | Ok a, Ok a' => R a a'
  | Err e, Err e' => e = e'
  | _, _ => False
  end.

(** Construct a reader on the file and read chunks of the given sizes. *)
Definition read_range (P : platform) (bytes : list byte) (vb ve : Z)
           (sizes : list Z) : result (list (list byte) * reader) :=
  r <- bgzip_data_chunk_reader P (open_stream bytes) vb ve ;;
  read_chunks P sizes r.
(* ------------------------------------------------------------------ *)
(** * Basic facts *)

(** ** Integers and bytes *)

Lemma wrap64_small (x : Z) : 0 <= x < 2 ^ 64 -> wrap64 x = x.
Proof. intros H. unfold wrap64. apply Z.mod_small. exact H. Qed.

Lemma wrap16_small (x : Z) : 0 <= x < 2 ^ 16 -> wrap16 x = x.
Proof. intros H. unfold wrap16. apply Z.mod_small. exact H. Qed.

Lemma wrap64_range (x : Z) : 0 <= wrap64 x < 2 ^ 64.
Proof. unfold wrap64. apply Z.mod_pos_bound. reflexivity. Qed.

Lemma byte_val_range (b : byte) : 0 <= byte_val b < 256.
Proof.
  unfold byte_val. pose proof (Byte.to_N_bounded b). lia.
Qed.

Lemma byte_val_of (z : Z) : byte_val (byte_of z) = z mod 256.
Proof.
  unfold byte_val, byte_of.
  assert (Hr : 0 <= z mod 256 < 256) by (apply Z.mod_pos_bound; lia).
  destruct (Byte.of_N (Z.to_N (z mod 256))) eqn:E.
  - apply Byte.to_of_N in E. rewrite E. lia.
  - exfalso. revert E.
    assert (Hn : (Z.to_N (z mod 256) < 256)%N) by lia.
    destruct (Byte.of_N (Z.to_N (z mod 256))) eqn:E'; [discriminate|].
    intros _. apply Byte.of_N_None_iff in E'. lia.
Qed.

Lemma byte_lor_shift (b : byte) (v : Z) :
  Z.lor (byte_val b) (Z.shiftl v 8) = byte_val b + 256 * v.
Proof.
  pose proof (byte_val_range b) as Hb.
  assert (Hland : Z.land (byte_val b) (Z.shiftl v 8) = 0).
  2:{ pose proof (Z.add_lor_land (byte_val b) (Z.shiftl v 8)) as Hadd.
      rewrite Hland in Hadd.
      assert (Hs : Z.shiftl v 8 = 256 * v)
        by (rewrite Z.shiftl_mul_pow2 by lia; change (2 ^ 8) with 256; lia).
      lia. }
  apply Z.bits_inj'. intros n Hn. rewrite Z.land_spec, Z.bits_0.
  destruct (Z.ltb_spec n 8) as [Hlt|Hge].
  - rewrite (Z.shiftl_spec_low v 8 n) by lia. apply andb_false_r.
  - rewrite (Z.bits_above_log2 (byte_val b) n); [reflexivity|lia|].
    destruct (Z.eq_dec (byte_val b) 0) as [E|E].
    + rewrite E. simpl. lia.
    + apply Z.log2_lt_pow2; [lia|].
      apply Z.lt_le_trans with (2 ^ 8); [change (2 ^ 8) with 256; lia|].
      apply Z.pow_le_mono_r; lia.
Qed.

Lemma le_value_cons (b : byte) (bs : list byte) :
  le_value (b :: bs) = byte_val b + 256 * le_value bs.
Proof. simpl. apply byte_lor_shift. Qed.

Lemma le_value_range (bs : list byte) :
  0 <= le_value bs < 256 ^ zlen bs.
Proof.
  induction bs as [|b bs IH].
  - simpl. unfold zlen. simpl. lia.
  - rewrite le_value_cons. unfold zlen in *. simpl length.
    rewrite Nat2Z.inj_succ, Z.pow_succ_r by lia.
    pose proof (byte_val_range b). lia.
Qed.

Lemma le_value_le_bytes (w : nat) (z : Z) :
  le_value (le_bytes w z) = z mod 256 ^ Z.of_nat w.
Proof.
  revert z. induction w as [|w IH]; intros z.
  - simpl. rewrite Z.mod_1_r. reflexivity.
  - cbn [le_bytes]. rewrite le_value_cons, byte_val_of, IH.
    rewrite Nat2Z.inj_succ, Z.pow_succ_r by lia.
    rewrite Z.rem_mul_r by lia. reflexivity.
Qed.

Lemma length_le_bytes (w : nat) (z : Z) : length (le_bytes w z) = w.
Proof. revert z. induction w; intros; simpl; auto. Qed.

(** ** read_int and byte order *)

Lemma sum_scale (c : Z) (h : nat -> Z) (l : list nat) :
  fold_right Z.add 0 (map (fun i => c * h i) l)
  = c * fold_right Z.add 0 (map h l).
Proof. induction l as [|i l IH]; simpl; [lia|]. rewrite IH. lia. Qed.

Lemma le_value_sum (bs : list byte) : le_value bs = little_endian_sum bs.
Proof.
  induction bs as [|b bs IH].
  - reflexivity.
  - rewrite le_value_cons, IH. unfold little_endian_sum.
    cbn [length seq map fold_right nth Z.of_nat].
    rewrite <- seq_shift, map_map, <- sum_scale.
    rewrite Z.pow_0_r, Z.mul_1_r. f_equal. f_equal.
    apply map_ext. intros i. cbn [nth].
    rewrite Nat2Z.inj_succ, Z.pow_succ_r by lia. lia.
Qed.

(** C3 (as amended): read_int copies the bytes into a native integer, so
    on a little-endian host, which the source assumes, the value of a field
    is the sum of [byte[i] * 256^i]; on a big-endian host it is that sum for
    the bytes in reverse order. *)
Theorem read_int_native_byte_order (w : nat) (data : list byte) :
  read_int little_endian w data = little_endian_sum (firstn w data)
  /\ read_int big_endian w data = little_endian_sum (rev (firstn w data)).
Proof.
  unfold read_int, native_value. split; apply le_value_sum.
Qed.

(** C3 as stated fails: on a big-endian host the two bytes [01 00] are read
    as 256, not as 1. *)
Lemma read_int_big_endian_host_counterexample :
  ~ (forall (host : endianness) (w : nat) (data : list byte),
        read_int host w data = little_endian_sum (firstn w data)).
Proof.
  intros H. specialize (H big_endian 2%nat [x01; x00]).
  vm_compute in H. discriminate H.
Qed.

(** ** decompress is memoized *)

Lemma decompress_sets_flag (P : platform) (g : decompression_blocks) :
  is_decompressed (fst (decompress P g)) = true.
Proof.
  unfold decompress. destruct (is_decompressed g) eqn:E; [exact E|].
  destruct (decompressed_size g >? 0); [destruct (nvcomp_all_enabled P)|];
    repeat match goal with
           | |- context [run_backend ?d ?s ?a ?b] => destruct (run_backend d s a b)
           end; reflexivity.
Qed.

(** C6: a second decompress on the same group changes nothing, device
    buffers included, and launches no backend; of the operations of a block
    group only reset clears the flag, every other one leaves it as it is. *)
Theorem decompress_idempotent (P : platform) (g : decompression_blocks) :
  decompress P (fst (decompress P g)) = (fst (decompress P g), [])
  /\ is_decompressed (fst (decompress P g)) = true
  /\ is_decompressed (reset g) = false
  /\ (forall header footer,
         is_decompressed (add_block_offsets header footer g) = is_decompressed g)
  /\ (forall header s,
         match read_block header s g with
         | Ok (g', _) => is_decompressed g' = is_decompressed g
         | Err _ => True
         end)
  /\ (forall size,
         match consume_bytes size g with
         | Ok g' => is_decompressed g' = is_decompressed g
         | Err _ => True
         end)
  /\ (forall a, is_decompressed (set_available a g) = is_decompressed g).
Proof.
  pose proof (decompress_sets_flag P g) as Hflag.
  repeat split; auto.
  - unfold decompress at 1. rewrite Hflag. reflexivity.
  - intros header s. unfold read_block.
    destruct (2 ^ 63 <=? _); [exact I|].
    destruct (stream_read (data_size header) s) as [[bytes s']|e]; simpl; auto.
  - intros size. unfold consume_bytes, CUDF_EXPECTS.
    destruct (size <=? remaining_size g); simpl; auto.
Qed.

(* ------------------------------------------------------------------ *)
(** * The read position stays inside the available bytes *)

(** Destructs the head computation of a monadic goal or hypothesis. *)
Ltac step_bind :=
  match goal with
  | |- context [bind ?m _] =>
      let E := fresh "E" in destruct m eqn:E; cbn [bind]
  end.

Lemma decompress_scalars (P : platform) (g : decompression_blocks) :
  let g' := fst (decompress P g) in
  read_pos g' = read_pos g
  /\ available_decompressed_size g' = available_decompressed_size g
  /\ h_compressed_blocks g' = h_compressed_blocks g
  /\ h_compressed_offsets g' = h_compressed_offsets g
  /\ h_decompressed_offsets g' = h_decompressed_offsets g
  /\ max_decompressed_size g' = max_decompressed_size g.
Proof.
  unfold decompress. destruct (is_decompressed g); [simpl; auto 10|].
  destruct (decompressed_size g >? 0); [destruct (nvcomp_all_enabled P)|];
    repeat match goal with
           | |- context [run_backend ?d ?s ?a ?b] => destruct (run_backend d s a b)
           end; simpl; auto 10.
Qed.

Lemma decompress_pos_inv (P : platform) (g : decompression_blocks) :
  pos_inv g -> pos_inv (fst (decompress P g)).
Proof.
  unfold pos_inv. destruct (decompress_scalars P g) as (-> & -> & _). auto.
Qed.

Lemma decompress_remaining (P : platform) (g : decompression_blocks) :
  remaining_size (fst (decompress P g)) = remaining_size g.
Proof.
  unfold remaining_size. destruct (decompress_scalars P g) as (-> & -> & _).
  reflexivity.
Qed.

Lemma pos_inv_remaining (g : decompression_blocks) :
  pos_inv g ->
  remaining_size g = available_decompressed_size g - read_pos g.
Proof.
  unfold pos_inv, remaining_size. intros H. apply wrap64_small. lia.
Qed.

Lemma reset_pos_inv (g : decompression_blocks) : pos_inv (reset g).
Proof. unfold pos_inv, reset. simpl. lia. Qed.

Lemma consume_bytes_spec (size : Z) (g : decompression_blocks) :
  consume_bytes size g =
  if size <=? remaining_size g
  then Ok (set_read_pos (wrap64 (read_pos g + size)) g)
  else Err (logic_error "out of bounds").
Proof.
  unfold consume_bytes, CUDF_EXPECTS. destruct (size <=? remaining_size g); reflexivity.
Qed.

Lemma consume_bytes_pos_inv (size : Z) (g g' : decompression_blocks) :
  pos_inv g -> 0 <= size -> consume_bytes size g = Ok g' -> pos_inv g'.
Proof.
  intros Hg Hs. rewrite consume_bytes_spec, (pos_inv_remaining g Hg).
  destruct (Z.leb_spec size (available_decompressed_size g - read_pos g)); [|discriminate].
  intros [= <-]. unfold pos_inv in *. cbn [set_read_pos read_pos available_decompressed_size].
  rewrite wrap64_small by lia. lia.
Qed.

Lemma read_block_scalars (h : bgzip_header) (s s' : istream)
      (g g' : decompression_blocks) :
  read_block h s g = Ok (g', s') ->
  read_pos g' = read_pos g
  /\ available_decompressed_size g' = available_decompressed_size g
  /\ h_compressed_offsets g' = h_compressed_offsets g
  /\ h_decompressed_offsets g' = h_decompressed_offsets g
  /\ is_decompressed g' = is_decompressed g
  /\ d_decompressed_blocks g' = d_decompressed_blocks g.
Proof.
  unfold read_block. destruct (2 ^ 63 <=? _); [discriminate|].
  destruct (stream_read (data_size h) s) as [[bytes s1]|e]; cbn [bind]; [|discriminate].
  intros [= <- <-]. simpl. auto 10.
Qed.

Lemma add_block_offsets_scalars (h : bgzip_header) (f : bgzip_footer)
      (g : decompression_blocks) :
  read_pos (add_block_offsets h f g) = read_pos g
  /\ available_decompressed_size (add_block_offsets h f g)
     = available_decompressed_size g.
Proof. split; reflexivity. Qed.

Lemma set_available_pos_inv (a : Z) (g : decompression_blocks) :
  read_pos g = 0 -> pos_inv (set_available (wrap64 a) g).
Proof.
  intros H. unfold pos_inv. simpl. rewrite H.
  pose proof (wrap64_range a). lia.
Qed.

Lemma read_chunk_loop_pos_inv (P : platform) (fuel : nat) (n : Z) (r r' : reader) :
  pos_inv (_prev_blocks r) ->
  pos_inv (_curr_blocks r) ->
  read_pos (_curr_blocks r) = 0 ->
  read_chunk_loop P fuel n r = Ok r' ->
  reader_pos_inv r'
  /\ read_pos (_curr_blocks r') = 0
  /\ _prev_blocks r' = _prev_blocks r.
Proof.
  revert r r'. induction fuel as [|fuel IH]; intros r r' Hprev Hcurr Hzero; simpl;
    [discriminate|].
  destruct (decompressed_size (_curr_blocks r) <? n).
  2:{ intros [= <-]. unfold reader_pos_inv. auto. }
  destruct (stream_eof (_data_stream r)).
  { intros [= <-]. unfold reader_pos_inv. auto. }
  destruct (stream_peek (_data_stream r)) as [s1|e]; cbn [bind]; [|discriminate].
  destruct (stream_eof s1 || (_compressed_pos r >? _compressed_end r)).
  { intros [= <-]. unfold reader_pos_inv. simpl. auto. }
  destruct (read_header P s1) as [[header s2]|e]; cbn [bind]; [|discriminate].
  destruct (read_block header s2 (_curr_blocks r)) as [[curr s3]|e] eqn:Hrb;
    cbn [bind]; [|discriminate].
  destruct (read_footer P s3) as [[footer s4]|e]; cbn [bind]; [|discriminate].
  apply read_block_scalars in Hrb. destruct Hrb as (Hrp & Hav & _).
  assert (Hz : read_pos (add_block_offsets header footer curr) = 0)
    by (simpl; congruence).
  destruct (_compressed_pos r =? _compressed_end r).
  - intros [= <-]. unfold reader_pos_inv. cbn [_prev_blocks _curr_blocks].
    split; [split; [exact Hprev|apply set_available_pos_inv; exact Hz]|].
    split; [exact Hz|reflexivity].
  - intros Hloop. apply IH in Hloop; cbn [_prev_blocks _curr_blocks]; auto.
    apply set_available_pos_inv. exact Hz.
Qed.

Lemma read_next_compressed_chunk_pos_inv (P : platform) (n : Z) (r r' : reader) :
  pos_inv (_curr_blocks r) ->
  read_next_compressed_chunk P n r = Ok r' ->
  reader_pos_inv r'
  /\ read_pos (_curr_blocks r') = 0
  /\ _prev_blocks r' = _curr_blocks r.
Proof.
  intros Hcurr. unfold read_next_compressed_chunk. intros H.
  apply read_chunk_loop_pos_inv in H; simpl; auto using reset_pos_inv.
Qed.

Lemma skip_bytes_loop_pos_inv (P : platform) (fuel : nat) (n n' : Z) (r r' : reader) :
  reader_pos_inv r ->
  0 <= n ->
  skip_bytes_loop P fuel n r = Ok (n', r') ->
  reader_pos_inv r' /\ 0 <= n'.
Proof.
  revert n n' r r'. induction fuel as [|fuel IH]; intros n n' r r' Hinv Hn; simpl;
    [discriminate|].
  destruct (n >? remaining_size (_curr_blocks r)).
  2:{ intros [= <- <-]. auto. }
  destruct Hinv as [Hprev Hcurr].
  destruct (consume_bytes _ (_curr_blocks r)) as [curr|e] eqn:Hc; cbn [bind];
    [|discriminate].
  apply consume_bytes_pos_inv in Hc; auto.
  2:{ unfold remaining_size. apply wrap64_range. }
  destruct (read_next_compressed_chunk P chunk_load_size _) as [r1|e] eqn:Hnext;
    cbn [bind]; [|discriminate].
  apply read_next_compressed_chunk_pos_inv in Hnext; [|exact Hc].
  destruct Hnext as (Hinv1 & _).
  pose proof (wrap64_range (n - remaining_size (_curr_blocks r))) as Hw.
  destruct (stream_eof (_data_stream r1)).
  { intros [= <- <-]. split; [exact Hinv1|lia]. }
  destruct (stream_peek (_data_stream r1)) as [s1|e]; cbn [bind]; [|discriminate].
  destruct (stream_eof s1 || _).
  { intros [= <- <-]. split; [exact Hinv1|lia]. }
  apply IH; [exact Hinv1|lia].
Qed.

Lemma skip_bytes_pos_inv (P : platform) (n : Z) (r r' : reader) :
  reader_pos_inv r -> 0 <= n -> skip_bytes P n r = Ok r' -> reader_pos_inv r'.
Proof.
  intros Hinv Hn. unfold skip_bytes.
  destruct (skip_bytes_loop P _ n r) as [[n1 r1]|e] eqn:Hl; cbn [bind]; [|discriminate].
  apply skip_bytes_loop_pos_inv in Hl; auto. destruct Hl as [[Hp Hc] Hn1].
  destruct (consume_bytes _ (_curr_blocks r1)) as [curr|e] eqn:Hcons; cbn [bind];
    [|discriminate].
  intros [= <-]. split; [exact Hp|]. cbn [_curr_blocks].
  apply consume_bytes_pos_inv in Hcons; auto.
  pose proof (wrap64_range (available_decompressed_size (_curr_blocks r1)
                            - read_pos (_curr_blocks r1))).
  unfold remaining_size. lia.
Qed.

Lemma get_next_chunk_pos_inv (P : platform) (n : Z) (r r' : reader)
      (data : list byte) :
  reader_pos_inv r -> 0 <= n ->
  get_next_chunk P n r = Ok (data, r') -> reader_pos_inv r'.
Proof.
  intros [Hp Hc] Hn. unfold get_next_chunk.
  destruct (n <=? remaining_size (_curr_blocks r)).
  - destruct (consume_bytes n _) as [curr|e] eqn:Hcons; cbn [bind]; [|discriminate].
    intros [= _ <-]. split; [exact Hp|]. cbn [_curr_blocks].
    apply consume_bytes_pos_inv in Hcons; auto using decompress_pos_inv.
  - destruct (read_next_compressed_chunk P n r) as [r1|e] eqn:Hnext; cbn [bind];
      [|discriminate].
    apply read_next_compressed_chunk_pos_inv in Hnext; [|exact Hc].
    destruct Hnext as ([Hp1 Hc1] & _).
    destruct (consume_bytes _ (fst (decompress P (_prev_blocks r1))))
      as [prev|e] eqn:Hcp; cbn [bind]; [|discriminate].
    destruct (consume_bytes _ (fst (decompress P (_curr_blocks r1))))
      as [curr|e] eqn:Hcc; cbn [bind]; [|discriminate].
    intros [= _ <-]. split; cbn [_prev_blocks _curr_blocks].
    + apply consume_bytes_pos_inv in Hcp; auto using decompress_pos_inv.
      unfold remaining_size. apply wrap64_range.
    + apply consume_bytes_pos_inv in Hcc; auto using decompress_pos_inv.
      apply wrap64_range.
Qed.

Lemma new_blocks_pos_inv : pos_inv new_blocks.
Proof. unfold pos_inv. simpl. lia. Qed.

Lemma constructor_pos_inv (P : platform) (s : istream) (vb ve : Z) (r : reader) :
  bgzip_data_chunk_reader P s vb ve = Ok r -> reader_pos_inv r.
Proof.
  unfold bgzip_data_chunk_reader. cbn [_data_stream _prev_blocks _curr_blocks
    _local_end _compressed_pos _compressed_end].
  destruct (stream_seekg_cur _ s) as [s1|e]; cbn [bind]; [|discriminate].
  destruct (read_next_compressed_chunk P chunk_load_size _) as [r1|e] eqn:Hnext;
    cbn [bind]; [|discriminate].
  apply read_next_compressed_chunk_pos_inv in Hnext;
    [|apply new_blocks_pos_inv].
  destruct Hnext as ([Hp Hc] & _).
  destruct (Z.gtb_spec (Z.land vb 65535) 0) as [Hpos|Hzero].
  - destruct (CUDF_EXPECTS _ _); cbn [bind]; [|discriminate].
    destruct (consume_bytes _ _) as [curr|e] eqn:Hcons; cbn [bind]; [|discriminate].
    intros [= <-]. split; [exact Hp|]. cbn [_curr_blocks].
    apply consume_bytes_pos_inv in Hcons; auto. lia.
  - intros [= <-]. split; assumption.
Qed.

(** C9: [read_pos <= available_decompressed_size] holds for both block groups
    of a constructed reader and after every operation that returns, for
    requests that are std::size_t values; consume_bytes refuses, with the
    out-of-bounds error, every size above the unread bytes. *)
Theorem read_pos_invariant (P : platform) :
  (forall s vb ve,
      match bgzip_data_chunk_reader P s vb ve with
      | Ok r => reader_pos_inv r
      | Err _ => True
      end)
  /\ (forall g, pos_inv (reset g))
  /\ (forall g size, pos_inv g -> 0 <= size ->
        match consume_bytes size g with
        | Ok g' => pos_inv g' /\ read_pos g' = read_pos g + size
        | Err _ => available_decompressed_size g - read_pos g < size
        end)
  /\ (forall g size, pos_inv g ->
        available_decompressed_size g - read_pos g < size ->
        consume_bytes size g = Err (logic_error "out of bounds"))
  /\ (forall r n, reader_pos_inv r ->
        match read_next_compressed_chunk P n r with
        | Ok r' => reader_pos_inv r'
        | Err _ => True
        end)
  /\ (forall r n, reader_pos_inv r -> 0 <= n ->
        match get_next_chunk P n r with
        | Ok (_, r') => reader_pos_inv r'
        | Err _ => True
        end)
  /\ (forall r n, reader_pos_inv r -> 0 <= n ->
        match skip_bytes P n r with
        | Ok r' => reader_pos_inv r'
        | Err _ => True
        end).
Proof.
  split; [|split; [|split; [|split; [|split; [|split]]]]].
  - intros s vb ve.
    destruct (bgzip_data_chunk_reader P s vb ve) as [r|e] eqn:E; [|exact I].
    eapply constructor_pos_inv; eassumption.
  - apply reset_pos_inv.
  - intros g size Hg Hs.
    destruct (consume_bytes size g) as [g'|e] eqn:E.
    + split; [eapply consume_bytes_pos_inv; eassumption|].
      revert E. rewrite consume_bytes_spec, (pos_inv_remaining g Hg).
      destruct (Z.leb_spec size (available_decompressed_size g - read_pos g));
        [|discriminate].
      intros [= <-]. simpl. unfold pos_inv in Hg. apply wrap64_small. lia.
    + revert E. rewrite consume_bytes_spec, (pos_inv_remaining g Hg).
      destruct (Z.leb_spec size (available_decompressed_size g - read_pos g));
        [discriminate|]. intros _. assumption.
  - intros g size Hg Hlt. rewrite consume_bytes_spec, (pos_inv_remaining g Hg).
    destruct (Z.leb_spec size (available_decompressed_size g - read_pos g));
      [lia|reflexivity].
  - intros r n [Hp Hc].
    destruct (read_next_compressed_chunk P n r) as [r'|e] eqn:E; [|exact I].
    apply read_next_compressed_chunk_pos_inv in E; tauto.
  - intros r n Hr Hn.
    destruct (get_next_chunk P n r) as [[data r']|e] eqn:E; [|exact I].
    eapply get_next_chunk_pos_inv; eassumption.
  - intros r n Hr Hn.
    destruct (skip_bytes P n r) as [r'|e] eqn:E; [|exact I].
    eapply skip_bytes_pos_inv; eassumption.
Qed.

(* ------------------------------------------------------------------ *)
(** * Lists with integer sizes *)

Lemma zlen_nonneg {A} (l : list A) : 0 <= zlen l.
Proof. unfold zlen. lia. Qed.

Lemma zlen_app {A} (a b : list A) : zlen (a ++ b) = zlen a + zlen b.
Proof. unfold zlen. rewrite length_app. lia. Qed.

Lemma zlen_cons {A} (x : A) (l : list A) : zlen (x :: l) = 1 + zlen l.
Proof. unfold zlen. simpl length. lia. Qed.

Lemma zlen_nil {A} : zlen (@nil A) = 0.
Proof. reflexivity. Qed.

Lemma zlen_ztake {A} (n : Z) (l : list A) :
  0 <= n <= zlen l -> zlen (ztake n l) = n.
Proof. unfold zlen, ztake. intros H. rewrite length_firstn. lia. Qed.

Lemma zlen_zdrop {A} (n : Z) (l : list A) :
  0 <= n <= zlen l -> zlen (zdrop n l) = zlen l - n.
Proof. unfold zlen, zdrop. intros H. rewrite length_skipn. lia. Qed.

Lemma ztake_app_exact {A} (a b : list A) : ztake (zlen a) (a ++ b) = a.
Proof.
  unfold ztake, zlen. rewrite Nat2Z.id, firstn_app, Nat.sub_diag, firstn_all.
  simpl. apply app_nil_r.
Qed.

Lemma zdrop_app_exact {A} (a b : list A) : zdrop (zlen a) (a ++ b) = b.
Proof.
  unfold zdrop, zlen. rewrite Nat2Z.id, skipn_app, Nat.sub_diag, skipn_all.
  reflexivity.
Qed.

Lemma ztake_all {A} (n : Z) (l : list A) : zlen l <= n -> ztake n l = l.
Proof. unfold ztake, zlen. intros H. apply firstn_all2. lia. Qed.

Lemma zdrop_all {A} (n : Z) (l : list A) : zlen l <= n -> zdrop n l = [].
Proof. unfold zdrop, zlen. intros H. apply skipn_all2. lia. Qed.

Lemma zdrop_0 {A} (l : list A) : zdrop 0 l = l.
Proof. reflexivity. Qed.

Lemma ztake_0 {A} (l : list A) : ztake 0 l = [].
Proof. reflexivity. Qed.

Lemma ztake_zdrop {A} (n : Z) (l : list A) : ztake n l ++ zdrop n l = l.
Proof. apply firstn_skipn. Qed.

Lemma zlen_repeat {A} (x : A) (n : nat) : zlen (repeat x n) = Z.of_nat n.
Proof. unfold zlen. rewrite repeat_length. reflexivity. Qed.

(** ** Stream operations *)

Lemma stream_read_ok (n : Z) (s s' : istream) (bytes : list byte) :
  0 <= stream_pos s ->
  stream_read n s = Ok (bytes, s') ->
  0 <= n
  /\ zlen bytes = n
  /\ bytes = ztake n (zdrop (stream_pos s) (stream_data s))
  /\ s' = mk_istream (stream_data s) (stream_pos s + n) false
  /\ (0 < n -> stream_pos s + n <= stream_size s).
Proof.
  intros Hpos. unfold stream_read.
  destruct (stream_eof s); [discriminate|].
  destruct (Z.ltb_spec n 0); [discriminate|].
  destruct (Z.leb_spec n (Z.max 0 (stream_size s - stream_pos s))); [|discriminate].
  intros [= <- <-]. repeat split; try lia.
  unfold stream_size in *.
  destruct (Z.le_gt_cases (stream_pos s) (zlen (stream_data s))).
  - rewrite zlen_ztake; [reflexivity|]. rewrite zlen_zdrop by lia. lia.
  - assert (n = 0) by lia. subst n. reflexivity.
Qed.

Lemma stream_seekg_ok (off : Z) (s s' : istream) :
  stream_seekg_cur off s = Ok s' ->
  s' = mk_istream (stream_data s) (stream_pos s + off) false
  /\ 0 <= stream_pos s + off.
Proof.
  unfold stream_seekg_cur. destruct (Z.ltb_spec (stream_pos s + off) 0); [discriminate|].
  intros [= <-]. auto.
Qed.

Lemma stream_peek_ok (s s' : istream) :
  stream_peek s = Ok s' ->
  stream_eof s = false
  /\ stream_data s' = stream_data s
  /\ stream_pos s' = stream_pos s
  /\ (stream_eof s' = true <-> stream_size s <= stream_pos s).
Proof.
  unfold stream_peek. destruct (stream_eof s) eqn:E; [discriminate|].
  destruct (Z.leb_spec (stream_size s) (stream_pos s)); intros [= <-]; simpl.
  - repeat split; auto.
  - repeat split; auto; try congruence; lia.
Qed.

(** ** Ranges of the parsed fields *)

Lemma native_value_range (host : endianness) (bs : list byte) :
  0 <= native_value host bs < 256 ^ zlen bs.
Proof.
  destruct host; simpl.
  - apply le_value_range.
  - replace (zlen bs) with (zlen (rev bs)) by (unfold zlen; now rewrite length_rev).
    apply le_value_range.
Qed.

Lemma read_int_range (host : endianness) (w : nat) (data : list byte) :
  0 <= read_int host w data < 256 ^ Z.of_nat w.
Proof.
  unfold read_int. pose proof (native_value_range host (firstn w data)) as H.
  assert (zlen (firstn w data) <= Z.of_nat w)
    by (unfold zlen; rewrite length_firstn; lia).
  split; [lia|]. eapply Z.lt_le_trans; [apply H|].
  apply Z.pow_le_mono_r; [lia|assumption].
Qed.

(** ** What a successful read_header, read_footer and read_block give *)

Lemma read_header_loop_ok (P : platform) (fuel : nat) (xl off : Z)
      (buffer : list byte) (s s' : istream) (h : bgzip_header) :
  0 <= stream_pos s ->
  read_header_loop P fuel xl off buffer s = Ok (h, s') ->
  extra_length h = xl
  /\ 1 <= block_size h <= 65536
  /\ stream_data s' = stream_data s
  /\ stream_pos s + 4 <= stream_pos s'
  /\ stream_eof s' = false.
Proof.
  revert off buffer s. induction fuel as [|fuel IH]; intros off buffer s Hpos;
    cbn [read_header_loop]; [discriminate|].
  destruct (off <? xl); [|discriminate].
  destruct (Z.geb_spec (xl - off) 4) as [Hrem|]; cbn [CUDF_EXPECTS bind];
    [|discriminate].
  destruct (stream_read 4 s) as [[b4 s1]|e] eqn:Hr4; cbn [bind]; [|discriminate].
  apply stream_read_ok in Hr4; [|exact Hpos].
  destruct Hr4 as (_ & _ & _ & -> & _).
  destruct (_ && _).
  - destruct (_ =? 2); cbn [CUDF_EXPECTS bind]; [|discriminate].
    destruct (stream_read 2 _) as [[b2 s2]|e] eqn:Hr2; cbn [bind]; [|discriminate].
    apply stream_read_ok in Hr2; [|simpl; lia].
    destruct Hr2 as (_ & _ & _ & -> & _). cbn [stream_data stream_pos] in *.
    destruct (stream_seekg_cur _ _) as [s3|e] eqn:Hsk; cbn [bind]; [|discriminate].
    apply stream_seekg_ok in Hsk. destruct Hsk as [-> Hsk].
    cbn [stream_data stream_pos] in *.
    intros [= <- <-]. cbn [extra_length block_size stream_data stream_pos stream_eof].
    pose proof (read_int_range (host_byte_order P) 2
                  (buffer_store b2 (buffer_store b4 buffer))) as Hri.
    change (256 ^ Z.of_nat 2) with 65536 in Hri.
    repeat split; auto; lia.
  - destruct (stream_seekg_cur _ _) as [s3|e] eqn:Hsk; cbn [bind]; [|discriminate].
    apply stream_seekg_ok in Hsk. destruct Hsk as [-> Hsk].
    cbn [stream_data stream_pos] in *.
    intros Hloop. apply IH in Hloop; [|cbn [stream_pos]; lia].
    cbn [stream_data stream_pos] in Hloop.
    destruct Hloop as (? & ? & ? & ? & ?).
    pose proof (read_int_range (host_byte_order P) 2
                  (skipn 2 (buffer_store b4 buffer))) as Hri.
    change (256 ^ Z.of_nat 2) with 65536 in Hri.
    repeat split; auto; lia.
Qed.

Lemma read_header_ok (P : platform) (s s' : istream) (h : bgzip_header) :
  0 <= stream_pos s ->
  read_header P s = Ok (h, s') ->
  0 <= extra_length h <= 65535
  /\ 1 <= block_size h <= 65536
  /\ stream_data s' = stream_data s
  /\ stream_pos s + 16 <= stream_pos s'
  /\ stream_eof s' = false.
Proof.
  intros Hpos. unfold read_header.
  destruct (stream_read 12 s) as [[buffer s1]|e] eqn:Hr; cbn [bind]; [|discriminate].
  apply stream_read_ok in Hr; [|exact Hpos]. destruct Hr as (_ & _ & _ & -> & _).
  destruct (forallb _ _); cbn [CUDF_EXPECTS bind]; [|discriminate].
  intros Hloop. apply read_header_loop_ok in Hloop; [|simpl; lia].
  cbn [stream_data stream_pos] in Hloop. destruct Hloop as (Hx & ? & ? & ? & ?).
  pose proof (read_int_range (host_byte_order P) 2 (skipn 10 buffer)) as Hri.
  change (256 ^ Z.of_nat 2) with 65536 in Hri.
  repeat split; auto; lia.
Qed.

Lemma read_footer_ok (P : platform) (s s' : istream) (f : bgzip_footer) :
  0 <= stream_pos s ->
  read_footer P s = Ok (f, s') ->
  0 <= decompressed_size_field f < 2 ^ 32
  /\ s' = mk_istream (stream_data s) (stream_pos s + 8) false
  /\ stream_pos s + 8 <= stream_size s.
Proof.
  intros Hpos. unfold read_footer.
  destruct (stream_read 8 s) as [[buffer s1]|e] eqn:Hr; cbn [bind]; [|discriminate].
  apply stream_read_ok in Hr; [|exact Hpos]. destruct Hr as (_ & _ & _ & -> & Hsz).
  intros [= <- <-]. cbn [decompressed_size_field].
  pose proof (read_int_range (host_byte_order P) 4 (skipn 4 buffer)) as Hri.
  change (256 ^ Z.of_nat 4) with (2 ^ 32) in Hri.
  assert (H8 : 0 < 8) by lia. specialize (Hsz H8).
  cbn [stream_pos stream_data] in *.
  split; [exact Hri|]. split; [reflexivity|lia].
Qed.

Lemma vec_resize_grow {A} (n : Z) (d : A) (v : list A) :
  zlen v <= n -> vec_resize n d v = v ++ repeat d (Z.to_nat (n - zlen v)).
Proof.
  intros H. unfold vec_resize. rewrite ztake_all by exact H.
  f_equal. f_equal. unfold zlen. lia.
Qed.

Lemma write_at_end (bytes buf : list byte) (pad : list byte) :
  zlen pad = zlen bytes ->
  write_at (zlen buf) bytes (buf ++ pad) = buf ++ bytes.
Proof.
  intros H. unfold write_at. rewrite ztake_app_exact. f_equal.
  rewrite zdrop_all; [apply app_nil_r|]. rewrite zlen_app. lia.
Qed.

(** In a group whose host buffer has the size its offset table says,
    read_block appends the payload. *)
Lemma read_block_ok (h : bgzip_header) (s s' : istream)
      (g g' : decompression_blocks) :
  0 <= stream_pos s ->
  zlen (h_compressed_blocks g) = compressed_size g ->
  compressed_size g < 2 ^ 63 ->
  data_size h < 2 ^ 63 ->
  read_block h s g = Ok (g', s') ->
  exists bytes,
    stream_read (data_size h) s = Ok (bytes, s')
    /\ 0 <= data_size h
    /\ zlen bytes = data_size h
    /\ compressed_size g + data_size h < 2 ^ 63
    /\ h_compressed_blocks g' = h_compressed_blocks g ++ bytes.
Proof.
  intros Hpos Hlen Hcs Hds. unfold read_block.
  destruct (Z.leb_spec (2 ^ 63) (wrap64 (zlen (h_compressed_blocks g) + data_size h)))
    as [|Hsmall]; [discriminate|].
  destruct (stream_read (data_size h) s) as [[bytes s1]|e] eqn:Hr; cbn [bind];
    [|discriminate].
  pose proof Hr as Hr'. apply stream_read_ok in Hr'; [|exact Hpos].
  destruct Hr' as (Hnn & Hbl & _).
  pose proof (zlen_nonneg (h_compressed_blocks g)) as Hcn.
  rewrite wrap64_small in Hsmall by lia.
  rewrite wrap64_small by lia.
  intros [= <- <-]. exists bytes. cbn [h_compressed_blocks].
  repeat split; auto; try lia.
  rewrite vec_resize_grow by lia. rewrite <- Hlen.
  apply write_at_end. rewrite zlen_repeat. lia.
Qed.

(* ------------------------------------------------------------------ *)
(** * The offset tables of a block group *)

Lemma nondecreasingb_snoc (l : list Z) (x : Z) :
  l <> [] ->
  nondecreasingb (l ++ [x]) = nondecreasingb l && (last l 0 <=? x).
Proof.
  induction l as [|a l IH]; [congruence|]. intros _.
  destruct l as [|b l].
  - simpl. rewrite andb_true_r. reflexivity.
  - change (nondecreasingb ((a :: b :: l) ++ [x]))
      with ((a <=? b) && nondecreasingb ((b :: l) ++ [x])).
    rewrite IH by congruence.
    change (nondecreasingb (a :: b :: l)) with ((a <=? b) && nondecreasingb (b :: l)).
    change (last (a :: b :: l) 0) with (last (b :: l) 0).
    rewrite andb_assoc. reflexivity.
Qed.

Lemma hd_error_snoc {A} (l : list A) (x a : A) :
  hd_error l = Some a -> hd_error (l ++ [x]) = Some a.
Proof. destruct l; simpl; congruence. Qed.

Lemma hd_error_nonempty {A} (l : list A) (a : A) :
  hd_error l = Some a -> l <> [].
Proof. destruct l; simpl; congruence. Qed.

Lemma vec_resize_one (l : list Z) :
  hd_error l = Some 0 -> vec_resize 1 0 l = [0].
Proof. destruct l as [|a l]; simpl; [discriminate|]. intros [= ->]. reflexivity. Qed.


Lemma consume_bytes_fields (size : Z) (g g' : decompression_blocks) :
  consume_bytes size g = Ok g' ->
  g' = set_read_pos (wrap64 (read_pos g + size)) g /\ size <= remaining_size g.
Proof.
  rewrite consume_bytes_spec.
  destruct (Z.leb_spec size (remaining_size g)); [|discriminate].
  intros [= <-]. auto.
Qed.

Lemma new_blocks_inv : blocks_inv new_blocks.
Proof. constructor; reflexivity. Qed.

Lemma reset_blocks_inv (g : decompression_blocks) :
  blocks_inv g -> blocks_inv (reset g).
Proof.
  intros [Hl Hc Hd Hm Hs Hb]. unfold reset.
  constructor; cbn [h_compressed_offsets h_decompressed_offsets h_compressed_blocks];
    unfold compressed_size; cbn [h_compressed_offsets];
    rewrite ?(vec_resize_one _ Hc), ?(vec_resize_one _ Hd); reflexivity.
Qed.

Lemma add_block_blocks_inv (P : platform) (g g' : decompression_blocks)
      (header : bgzip_header) (footer : bgzip_footer) (s0 s1 s2 : istream) :
  blocks_inv g ->
  0 <= stream_pos s0 ->
  read_header P s0 = Ok (header, s1) ->
  read_block header s1 g = Ok (g', s2) ->
  blocks_inv (add_block_offsets header footer g')
  /\ 0 <= stream_pos s2
  /\ compressed_size (add_block_offsets header footer g')
     = compressed_size g + data_size header
  /\ 0 <= data_size header.
Proof.
  intros [Hl Hc Hd Hm Hs Hb] Hpos Hrh Hrb.
  apply read_header_ok in Hrh; [|exact Hpos].
  destruct Hrh as (Hxl & Hbs & _ & Hp1 & _).
  pose proof Hrb as Hsc. apply read_block_scalars in Hsc.
  destruct Hsc as (_ & _ & Hco & Hdo & _).
  apply read_block_ok in Hrb; auto; try lia.
  2:{ unfold data_size. lia. }
  destruct Hrb as (bytes & Hrd & Hds & Hbl & Hsum & Hcb).
  apply stream_read_ok in Hrd; [|lia]. destruct Hrd as (_ & _ & _ & -> & _).
  assert (Hcs : compressed_size g' = compressed_size g)
    by (unfold compressed_size; rewrite Hco; reflexivity).
  assert (Hnew : compressed_size (add_block_offsets header footer g')
                 = compressed_size g + data_size header).
  { unfold compressed_size at 1. cbn [add_block_offsets h_compressed_offsets].
    rewrite last_last, Hcs. apply wrap64_small.
    assert (0 <= compressed_size g); [|lia].
    rewrite <- Hs. apply zlen_nonneg. }
  split; [|split; [cbn [stream_pos]; lia|split; [exact Hnew|exact Hds]]].
  constructor; rewrite ?Hnew;
    cbn [add_block_offsets h_compressed_offsets h_decompressed_offsets
         h_compressed_blocks].
  - rewrite !length_app, Hco, Hdo, Hl. reflexivity.
  - rewrite Hco. apply hd_error_snoc. exact Hc.
  - rewrite Hdo. apply hd_error_snoc. exact Hd.
  - rewrite Hco, nondecreasingb_snoc by (eapply hd_error_nonempty; exact Hc).
    rewrite Hm. cbn [andb]. apply Z.leb_le.
    fold (compressed_size g). rewrite Hcs, wrap64_small; [lia|].
    assert (0 <= compressed_size g); [|lia].
    rewrite <- Hs. apply zlen_nonneg.
  - rewrite Hcb, zlen_app. lia.
  - lia.
Qed.

Lemma decompress_blocks_inv (P : platform) (g : decompression_blocks) :
  blocks_inv g -> blocks_inv (fst (decompress P g)).
Proof.
  intros [Hl Hc Hd Hm Hs Hb].
  destruct (decompress_scalars P g) as (_ & _ & Hcb & Hco & Hdo & _).
  constructor; unfold compressed_size; rewrite ?Hcb, ?Hco, ?Hdo; assumption.
Qed.

Lemma reachable_blocks_inv (P : platform) (g : decompression_blocks) :
  reachable_blocks P g -> blocks_inv g.
Proof.
  induction 1 as [|g _ IH|g header footer s0 s1 g' s2 s3 _ IH Hpos Hrh Hrb Hrf
                  |g a _ IH|g size g' _ IH Hc|g _ IH].
  - apply new_blocks_inv.
  - apply reset_blocks_inv. exact IH.
  - eapply add_block_blocks_inv; eassumption.
  - destruct IH. constructor; assumption.
  - apply consume_bytes_fields in Hc. destruct Hc as [-> _].
    destruct IH. constructor; assumption.
  - apply decompress_blocks_inv. exact IH.
Qed.

Lemma reachable_decompressed_offsets (P : platform) (g : decompression_blocks) :
  reachable_blocks P g ->
  zlen (h_compressed_offsets g) <= 2 ^ 32 ->
  nondecreasingb (h_decompressed_offsets g) = true
  /\ 0 <= decompressed_size g
     <= (2 ^ 32 - 1) * (zlen (h_compressed_offsets g) - 1).
Proof.
  induction 1 as [|g Hg IH|g header footer s0 s1 g' s2 s3 Hg IH Hpos Hrh Hrb Hrf
                  |g a _ IH|g size g' _ IH Hc|g _ IH]; intros Hlen.
  - split; [reflexivity|]. unfold decompressed_size. simpl. lia.
  - apply reachable_blocks_inv in Hg. destruct Hg as [_ Hc Hd _ _ _].
    unfold decompressed_size, reset. cbn [h_decompressed_offsets h_compressed_offsets].
    rewrite (vec_resize_one _ Hc), (vec_resize_one _ Hd). simpl.
    split; [reflexivity|lia].
  - apply reachable_blocks_inv in Hg.
    pose proof Hrb as Hsc. apply read_block_scalars in Hsc.
    destruct Hsc as (_ & _ & Hco & Hdo & _).
    destruct (add_block_blocks_inv P g g' header footer s0 s1 s2 Hg Hpos Hrh Hrb)
      as (_ & Hp2 & _).
    apply read_footer_ok in Hrf; [|exact Hp2]. destruct Hrf as (Hf & _).
    assert (Hds : decompressed_size g' = decompressed_size g)
      by (unfold decompressed_size; rewrite Hdo; reflexivity).
    assert (Hfinal : decompressed_size (add_block_offsets header footer g')
                     = wrap64 (decompressed_size g + decompressed_size_field footer)).
    { unfold decompressed_size at 1.
      cbn [add_block_offsets h_decompressed_offsets].
      rewrite last_last, Hds. reflexivity. }
    rewrite Hfinal. revert Hlen.
    cbn [add_block_offsets h_compressed_offsets h_decompressed_offsets].
    rewrite Hco, Hdo, Hds, zlen_app. change (zlen [_]) with 1. intros Hlen.
    destruct IH as [Hmono Hsize]; [lia|].
    rewrite wrap64_small by nia.
    rewrite nondecreasingb_snoc
      by (eapply hd_error_nonempty; apply (bi_decompressed_head g Hg)).
    rewrite Hmono. cbn [andb]. fold (decompressed_size g).
    split; [apply Z.leb_le; lia|nia].
  - exact (IH Hlen).
  - apply consume_bytes_fields in Hc. destruct Hc as [-> _]. exact (IH Hlen).
  - destruct (decompress_scalars P g) as (_ & _ & _ & Hco & Hdo & _).
    unfold decompressed_size in *. rewrite Hco, Hdo in *. exact (IH Hlen).
Qed.


(* ------------------------------------------------------------------ *)
(** * read_header on a header laid out in subfields *)

Lemma stream_at_app (d x t : list byte) :
  mk_istream (d ++ x ++ t) (zlen d + zlen x) false = stream_at (d ++ x) t.
Proof. unfold stream_at. rewrite zlen_app, app_assoc. reflexivity. Qed.

Lemma stream_read_at (n : Z) (d x t : list byte) :
  zlen x = n ->
  stream_read n (stream_at d (x ++ t)) = Ok (x, stream_at (d ++ x) t).
Proof.
  intros <-. unfold stream_read, stream_at, stream_size.
  cbn [stream_eof stream_pos stream_data].
  pose proof (zlen_nonneg x). pose proof (zlen_nonneg t). pose proof (zlen_nonneg d).
  destruct (Z.ltb_spec (zlen x) 0); [lia|].
  rewrite !zlen_app.
  destruct (Z.leb_spec (zlen x) (Z.max 0 (zlen d + (zlen x + zlen t) - zlen d))); [|lia].
  rewrite zdrop_app_exact, ztake_app_exact, <- app_assoc. reflexivity.
Qed.

Lemma stream_seekg_at (n : Z) (d x t : list byte) :
  zlen x = n ->
  stream_seekg_cur n (stream_at d (x ++ t)) = Ok (stream_at (d ++ x) t).
Proof.
  intros <-. unfold stream_seekg_cur, stream_at. cbn [stream_pos stream_data].
  pose proof (zlen_nonneg x). pose proof (zlen_nonneg d).
  destruct (Z.ltb_spec (zlen d + zlen x) 0); [lia|].
  rewrite zlen_app, <- app_assoc. reflexivity.
Qed.

Lemma le_bytes_2_value (n : Z) :
  0 <= n <= 65535 -> le_value (le_bytes 2 n) = n.
Proof.
  intros H. rewrite le_value_le_bytes. change (256 ^ Z.of_nat 2) with 65536.
  apply Z.mod_small. lia.
Qed.

Lemma zlen_le_bytes (w : nat) (z : Z) : zlen (le_bytes w z) = Z.of_nat w.
Proof. unfold zlen. rewrite length_le_bytes. reflexivity. Qed.

Lemma length_encode_subfield (f : subfield) :
  zlen (encode_subfield f) = 4 + zlen (sf_data f).
Proof.
  unfold encode_subfield. rewrite !zlen_cons, zlen_app, zlen_le_bytes. lia.
Qed.

Lemma length_subfields (fs : list subfield) :
  (length fs <= length (concat (map encode_subfield fs)))%nat.
Proof.
  induction fs as [|f fs IH]; cbn [map concat length]; [lia|].
  rewrite length_app.
  assert (H : (4 <= length (encode_subfield f))%nat)
    by (unfold encode_subfield; cbn [length];
        rewrite length_app, length_le_bytes; lia).
  lia.
Qed.

Lemma nth_buffer_store_0 (a : byte) (r buf : list byte) (d : byte) :
  nth 0 (buffer_store (a :: r) buf) d = a.
Proof. reflexivity. Qed.

Lemma nth_buffer_store_1 (a b : byte) (r buf : list byte) (d : byte) :
  nth 1 (buffer_store (a :: b :: r) buf) d = b.
Proof. reflexivity. Qed.

Lemma read_subfield_length (a b : byte) (len : Z) (buf : list byte) :
  0 <= len <= 65535 ->
  read_int little_endian 2 (skipn 2 (buffer_store (a :: b :: le_bytes 2 len) buf))
  = len.
Proof.
  intros H. unfold read_int, buffer_store. cbn [le_bytes app skipn firstn native_value].
  change [byte_of len; byte_of (len / 256)] with (le_bytes 2 len).
  apply le_bytes_2_value. exact H.
Qed.

Lemma read_payload_int (data buf : list byte) :
  length data = 2%nat ->
  read_int little_endian 2 (buffer_store data buf) = little_endian_sum data.
Proof.
  intros H. destruct data as [|p [|q [|x data]]]; try discriminate.
  unfold read_int, buffer_store. cbn [app firstn native_value].
  apply le_value_sum.
Qed.

Lemma header_result_app (xl : Z) (d a e t : list byte) (o : extra_outcome) :
  header_result xl (d ++ a) e t o = header_result xl d (a ++ e) t o.
Proof. destruct o; cbn [header_result]; rewrite <- ?app_assoc; reflexivity. Qed.

Lemma read_header_loop_subfields (P : platform) (xl : Z) (t : list byte)
      (fs : list subfield) :
  host_byte_order P = little_endian ->
  xl <= 65535 ->
  forall (fuel : nat) (off : Z) (d buffer tail : list byte),
    (length fs < fuel)%nat ->
    0 <= off ->
    zlen tail <= 3 ->
    (forall f, In f fs -> zlen (sf_data f) <= 65535) ->
    off + zlen (concat (map encode_subfield fs) ++ tail) = xl ->
    read_header_loop P fuel xl off buffer
      (stream_at d ((concat (map encode_subfield fs) ++ tail) ++ t))
    = header_result xl d (concat (map encode_subfield fs) ++ tail) t
                    (find_block_size fs tail).
Proof.
  intros Hle Hxl. induction fs as [|f fs IH]; intros fuel off d buffer tail Hfuel Hoff Htail Hfs Hsum.
  - destruct fuel as [|fuel]; [simpl in Hfuel; lia|]. cbn [read_header_loop map concat app find_block_size] in *.
    destruct tail as [|b tail].
    + rewrite zlen_nil in Hsum. destruct (Z.ltb_spec off xl); [lia|]. reflexivity.
    + rewrite zlen_cons in *. pose proof (zlen_nonneg tail).
      destruct (Z.ltb_spec off xl); [|lia].
      destruct (Z.geb_spec (xl - off) 4); [lia|]. reflexivity.
  - destruct fuel as [|fuel]; [simpl in Hfuel; lia|].
    assert (Hlen : 0 <= zlen (sf_data f) <= 65535).
    { split; [apply zlen_nonneg|apply Hfs; left; reflexivity]. }
    cbn [map concat] in *.
    set (C := concat (map encode_subfield fs)) in *.
    replace (((encode_subfield f ++ C) ++ tail) ++ t)
      with (encode_subfield f ++ ((C ++ tail) ++ t))
      by (rewrite <- !app_assoc; reflexivity).
    replace ((encode_subfield f ++ C) ++ tail)
      with (encode_subfield f ++ (C ++ tail)) in *
      by (rewrite <- !app_assoc; reflexivity).
    rewrite zlen_app, length_encode_subfield in Hsum.
    pose proof (zlen_nonneg (C ++ tail)) as Hrest.
    set (R := (C ++ tail) ++ t).
    cbn [read_header_loop find_block_size].
    destruct (Z.ltb_spec off xl); [|lia].
    destruct (Z.geb_spec (xl - off) 4); [|lia].
    cbn [CUDF_EXPECTS bind].
    change (encode_subfield f)
      with ((sf_id1 f :: sf_id2 f :: le_bytes 2 (zlen (sf_data f))) ++ sf_data f).
    set (b4 := sf_id1 f :: sf_id2 f :: le_bytes 2 (zlen (sf_data f))).
    assert (Hb4 : zlen b4 = 4)
      by (unfold b4; rewrite !zlen_cons, zlen_le_bytes; lia).
    rewrite <- (app_assoc b4 (sf_data f) R).
    rewrite (stream_read_at 4 d b4 _ Hb4). cbn [bind].
    assert (Hsub : read_int little_endian 2 (skipn 2 (buffer_store b4 buffer))
                   = zlen (sf_data f))
      by (apply read_subfield_length; exact Hlen).
    change (nth 0 (buffer_store b4 buffer) x00) with (sf_id1 f).
    change (nth 1 (buffer_store b4 buffer) x00) with (sf_id2 f).
    rewrite Hle, !Hsub. unfold is_bc.
    destruct ((byte_val (sf_id1 f) =? 66) && (byte_val (sf_id2 f) =? 67)) eqn:Hbc.
    + destruct (Z.eqb_spec (zlen (sf_data f)) 2) as [H2|H2];
        cbn [CUDF_EXPECTS bind header_result]; [|reflexivity].
      rewrite (stream_read_at 2 (d ++ b4) (sf_data f) R H2). cbn [bind].
      unfold R.
      rewrite (stream_seekg_at (xl - off - 6) ((d ++ b4) ++ sf_data f) (C ++ tail) t)
        by lia.
      cbn [bind]. rewrite read_payload_int by (unfold zlen in H2; lia).
      rewrite <- !app_assoc. reflexivity.
    + rewrite (stream_seekg_at (zlen (sf_data f)) (d ++ b4) (sf_data f) R eq_refl).
      cbn [bind].
      rewrite (wrap16_small (off + 4)) by (change (2 ^ 16) with 65536; lia).
      rewrite wrap16_small by (change (2 ^ 16) with 65536; lia).
      unfold R. rewrite IH; try lia.
      * rewrite !header_result_app, <- !app_assoc. reflexivity.
      * simpl in Hfuel. lia.
      * intros f0 Hf0. apply Hfs. right. exact Hf0.
Qed.

Lemma combine_app_r {A B} (l : list A) (a b : list B) :
  length l = length a -> combine l (a ++ b) = combine l a.
Proof.
  revert a. induction l as [|x l IH]; intros [|y a]; simpl; try discriminate; auto.
  intros [= H]. rewrite IH by exact H. reflexivity.
Qed.

Lemma skipn_app_exact {A} (n : nat) (a b : list A) :
  length a = n -> skipn n (a ++ b) = b.
Proof.
  intros <-. rewrite skipn_app, Nat.sub_diag, skipn_all. reflexivity.
Qed.

Lemma read_header_subfields_result (P : platform) (d m fixed : list byte)
      (fs : list subfield) (tail t : list byte) :
  host_byte_order P = little_endian ->
  length m = 4%nat ->
  length fixed = 6%nat ->
  zlen tail <= 3 ->
  (forall f, In f fs -> zlen (sf_data f) <= 65535) ->
  zlen (concat (map encode_subfield fs) ++ tail) <= 65535 ->
  let extra := concat (map encode_subfield fs) ++ tail in
  read_header P (stream_at d (header_bytes m fixed fs tail ++ t))
  = (if magic_ok m
     then header_result (zlen extra) (d ++ m ++ fixed ++ le_bytes 2 (zlen extra))
                        extra t (find_block_size fs tail)
     else Err (logic_error "malformed BGZIP header")).
Proof.
  intros Hle Hm Hfixed Htail Hfs Hxl extra.
  unfold read_header, header_bytes. fold extra.
  set (xl := zlen extra) in *.
  replace ((m ++ fixed ++ le_bytes 2 xl ++ extra) ++ t)
    with ((m ++ fixed ++ le_bytes 2 xl) ++ (extra ++ t))
    by (rewrite <- !app_assoc; reflexivity).
  rewrite (stream_read_at 12 d (m ++ fixed ++ le_bytes 2 xl)).
  2:{ rewrite !zlen_app, zlen_le_bytes. unfold zlen. rewrite Hm, Hfixed. reflexivity. }
  cbn [bind].
  rewrite (combine_app_r expected_header m) by (rewrite Hm; reflexivity).
  fold (magic_ok m).
  destruct (magic_ok m); cbn [CUDF_EXPECTS bind]; [|reflexivity].
  assert (Hskip : skipn 10 (m ++ fixed ++ le_bytes 2 xl) = le_bytes 2 xl).
  { rewrite app_assoc. apply skipn_app_exact. rewrite length_app. lia. }
  rewrite Hle, Hskip.
  assert (Hx : read_int little_endian 2 (le_bytes 2 xl) = xl).
  { unfold read_int. rewrite firstn_all2 by (rewrite length_le_bytes; lia).
    apply le_bytes_2_value. subst xl. split; [apply zlen_nonneg|exact Hxl]. }
  rewrite Hx. subst extra.
  rewrite (read_header_loop_subfields P xl t fs Hle Hxl); auto; try lia.
  cbn [stream_at stream_data]. rewrite !length_app.
  pose proof (length_subfields fs). lia.
Qed.

(** C7 (as amended): on a little-endian host, for a header whose extra
    field is a sequence of whole subfields followed by at most three stray
    bytes, read_header fails with a format error exactly when the magic
    differs from {31,139,8,4}, or stray bytes are reached before the BC
    subfield, or the first subfield tagged {66,67} declares a length other
    than 2, or no subfield carries that tag; otherwise it returns the 16-bit
    little-endian payload of that subfield plus one, with extra_length, and
    leaves the stream behind the extra field. *)
Theorem read_header_on_subfields (P : platform) (d m fixed : list byte)
        (fs : list subfield) (tail t : list byte) :
  host_byte_order P = little_endian ->
  length m = 4%nat ->
  length fixed = 6%nat ->
  zlen tail <= 3 ->
  (forall f, In f fs -> zlen (sf_data f) <= 65535) ->
  zlen (concat (map encode_subfield fs) ++ tail) <= 65535 ->
  let extra := concat (map encode_subfield fs) ++ tail in
  let res := read_header P (stream_at d (header_bytes m fixed fs tail ++ t)) in
  res = (if magic_ok m
         then header_result (zlen extra) (d ++ m ++ fixed ++ le_bytes 2 (zlen extra))
                            extra t (find_block_size fs tail)
         else Err (logic_error "malformed BGZIP header"))
  /\ is_format_failure res
     = negb (magic_ok m) || negb (outcome_found (find_block_size fs tail)).
Proof.
  intros Hle Hm Hfixed Htail Hfs Hxl extra res.
  assert (Hres : res = (if magic_ok m
         then header_result (zlen extra) (d ++ m ++ fixed ++ le_bytes 2 (zlen extra))
                            extra t (find_block_size fs tail)
         else Err (logic_error "malformed BGZIP header")))
    by (apply read_header_subfields_result; assumption).
  split; [exact Hres|]. rewrite Hres.
  destruct (magic_ok m); [|reflexivity].
  destruct (find_block_size fs tail); reflexivity.
Qed.

(** C7 as stated fails: a header with the right magic whose only subfield is
    tagged BC, lies wholly inside the extra field, but declares 4 bytes of
    payload, is refused ("malformed BGZIP extra subfield"), which is none
    of the three listed failures. *)
Lemma read_header_size_subfield_counterexample :
  let m := map byte_of expected_header in
  let fs := [mk_subfield x42 x43 [x1b; x00; x00; x00]] in
  let s := stream_at [] (header_bytes m (zero_bytes 6) fs [] ++ zero_bytes 8) in
  ~ (is_format_failure (read_header stored_platform s) = true
     <-> listed_header_failure m fs [] = true).
Proof.
  intros m fs s [H _].
  assert (Hf : is_format_failure (read_header stored_platform s) = true)
    by (vm_compute; reflexivity).
  specialize (H Hf). vm_compute in H. discriminate H.
Qed.

Lemma read_header_on_subfields_witness :
  let m := map byte_of expected_header in
  let fs := [mk_subfield x41 x41 [x07]; mk_subfield x42 x43 [x1b; x00]] in
  read_header stored_platform
    (stream_at [] (header_bytes m (zero_bytes 6) fs [] ++ zero_bytes 10))
  = Ok (mk_header 28 11,
        stream_at (header_bytes m (zero_bytes 6) fs []) (zero_bytes 10)).
Proof.
  intros m fs.
  refine (eq_trans
            (proj1 (read_header_on_subfields stored_platform [] m (zero_bytes 6)
                      fs [] (zero_bytes 10) eq_refl eq_refl eq_refl _ _ _))
            _).
  - vm_compute. discriminate.
  - intros f [<-|[<-|[]]]; vm_compute; discriminate.
  - vm_compute. discriminate.
  - vm_compute. reflexivity.
Defined.

(* ------------------------------------------------------------------ *)
(** * The constructor and the local part of virtual_begin *)

(** C2 (the code departs from it): the constructor compares the local
    offset with [h_compressed_offsets[1]], the size of the first block's
    compressed payload, not with its decompressed size.  With a first block
    of ten bytes compressed to two, the local offset 1 is accepted and the
    valid local offsets 2 and 5 are refused; with a first block that holds
    no data in a payload of two bytes, the local offset 1 is accepted and
    one byte of the next block is consumed. *)
Lemma constructor_checks_compressed_offset :
  let s := open_stream (encode_stream [run_block; eof_block]) in
  let s' := open_stream (encode_stream [empty_run_block; stored_block; eof_block]) in
  5 < zlen (blk_content run_block)
  /\ bgzip_data_chunk_reader run_length_platform s 5 whole_file
     = Err (logic_error "local part of virtual offset is out of bounds")
  /\ bgzip_data_chunk_reader run_length_platform s 2 whole_file
     = Err (logic_error "local part of virtual offset is out of bounds")
  /\ bgzip_data_chunk_reader run_length_platform s 1 whole_file
     <> Err (logic_error "local part of virtual offset is out of bounds")
  /\ zlen (blk_content empty_run_block) < 1
  /\ match bgzip_data_chunk_reader run_length_platform s' 1 whole_file with
     | Ok r => read_pos (_curr_blocks r) = 1
     | Err _ => False
     end.
Proof.
  intros s s'. split; [reflexivity|].
  split; [vm_compute; reflexivity|].
  split; [vm_compute; reflexivity|].
  split; [vm_compute; discriminate|].
  split; [reflexivity|vm_compute; reflexivity].
Defined.

(* ------------------------------------------------------------------ *)
(** * One well-formed block in the stream *)

Lemma subfields_size_app (a b : list subfield) :
  subfields_size (a ++ b) = subfields_size a + subfields_size b.
Proof. unfold subfields_size. rewrite map_app, concat_app, zlen_app. reflexivity. Qed.

Lemma subfields_size_cons (f : subfield) (fs : list subfield) :
  subfields_size (f :: fs) = 4 + zlen (sf_data f) + subfields_size fs.
Proof.
  unfold subfields_size. cbn [map concat].
  rewrite zlen_app, length_encode_subfield. reflexivity.
Qed.

Lemma subfields_size_nonneg (fs : list subfield) : 0 <= subfields_size fs.
Proof. apply zlen_nonneg. Qed.

Lemma subfield_data_bound (fs : list subfield) (f : subfield) :
  In f fs -> zlen (sf_data f) <= subfields_size fs.
Proof.
  induction fs as [|g fs IH]; [intros []|].
  rewrite subfields_size_cons. pose proof (subfields_size_nonneg fs) as Hn.
  pose proof (zlen_nonneg (sf_data g)) as Hg.
  intros [->|Hin]; [lia|]. specialize (IH Hin). lia.
Qed.

Lemma blk_subfields_size (b : bgzf_block) :
  subfields_size (blk_subfields b) = blk_xlen b.
Proof.
  unfold blk_subfields, blk_xlen.
  rewrite subfields_size_app, subfields_size_cons.
  unfold bc_subfield. cbn [sf_data]. rewrite zlen_le_bytes. lia.
Qed.

Lemma blk_size_lower (b : bgzf_block) : 26 + zlen (blk_payload b) <= blk_size b.
Proof.
  unfold blk_size, blk_xlen.
  pose proof (subfields_size_nonneg (blk_pre b)).
  pose proof (subfields_size_nonneg (blk_post b)). lia.
Qed.

Lemma zlen_encode_header (b : bgzf_block) :
  valid_block b -> zlen (encode_header b) = 12 + blk_xlen b.
Proof.
  intros Hv. unfold encode_header.
  rewrite !zlen_app, zlen_le_bytes. fold (subfields_size (blk_subfields b)).
  rewrite blk_subfields_size.
  assert (Hm : zlen (map byte_of expected_header) = 4) by reflexivity.
  assert (Hf : zlen (blk_fixed b) = 6)
    by (unfold zlen; rewrite (vb_fixed b Hv); reflexivity).
  lia.
Qed.

Lemma zlen_encode_footer (b : bgzf_block) :
  valid_block b -> zlen (encode_footer b) = 8.
Proof.
  intros Hv. unfold encode_footer. rewrite zlen_app, zlen_le_bytes.
  unfold zlen. rewrite (vb_crc b Hv). reflexivity.
Qed.

Lemma zlen_encode_block (b : bgzf_block) :
  valid_block b -> zlen (encode_block b) = blk_size b.
Proof.
  intros Hv. unfold encode_block.
  rewrite !zlen_app, zlen_encode_header, zlen_encode_footer by exact Hv.
  unfold blk_size. lia.
Qed.

Lemma find_block_size_bc (pre post : list subfield) (size : Z) :
  (forall f, In f pre -> is_bc f = false) ->
  find_block_size (pre ++ bc_subfield size :: post) []
  = extra_found (little_endian_sum (le_bytes 2 (size - 1))).
Proof.
  intros Hpre. induction pre as [|f pre IH]; cbn [app find_block_size].
  - unfold bc_subfield at 1 2. cbn [is_bc sf_id1 sf_id2 sf_data].
    change (is_bc (mk_subfield x42 x43 (le_bytes 2 (size - 1)))) with true.
    cbn match. rewrite zlen_le_bytes. reflexivity.
  - rewrite (Hpre f) by (left; reflexivity).
    apply IH. intros g Hg. apply Hpre. right. exact Hg.
Qed.

Lemma read_header_valid_block (P : platform) (b : bgzf_block) (d t : list byte) :
  host_byte_order P = little_endian ->
  valid_block b ->
  read_header P (stream_at d (encode_header b ++ t))
  = Ok (mk_header (blk_size b) (blk_xlen b), stream_at (d ++ encode_header b) t).
Proof.
  intros Hle Hv.
  pose proof (blk_size_lower b) as Hlow. pose proof (vb_size b Hv) as Hup.
  pose proof (zlen_nonneg (blk_payload b)) as Hpay.
  assert (Hx : blk_xlen b <= 65535) by (unfold blk_size in *; lia).
  pose proof (blk_subfields_size b) as Hsub. unfold subfields_size in Hsub.
  assert (Htail : zlen (@nil byte) <= 3) by (unfold zlen; simpl; lia).
  assert (Hfs : forall f, In f (blk_subfields b) -> zlen (sf_data f) <= 65535).
  { intros f Hf. apply subfield_data_bound in Hf.
    fold (subfields_size (blk_subfields b)) in Hsub. lia. }
  assert (Hxl : zlen (concat (map encode_subfield (blk_subfields b)) ++ []) <= 65535)
    by (rewrite app_nil_r, Hsub; exact Hx).
  pose proof (read_header_subfields_result P d (map byte_of expected_header)
                (blk_fixed b) (blk_subfields b) [] t Hle eq_refl (vb_fixed b Hv)
                Htail Hfs Hxl) as Hres.
  cbv zeta in Hres.
  unfold header_bytes in Hres. rewrite !app_nil_r in Hres.
  unfold encode_header. rewrite Hsub in Hres. rewrite Hres.
  change (magic_ok (map byte_of expected_header)) with true. cbn match.
  unfold blk_subfields at 2.
  rewrite find_block_size_bc by (apply (vb_pre b Hv)).
  cbn [header_result]. rewrite <- le_value_sum, le_bytes_2_value by lia.
  rewrite <- !app_assoc. repeat f_equal. lia.
Qed.

Lemma read_footer_valid_block (P : platform) (b : bgzf_block) (d t : list byte) :
  host_byte_order P = little_endian ->
  valid_block b ->
  read_footer P (stream_at d (encode_footer b ++ t))
  = Ok (mk_footer (zlen (blk_content b)), stream_at (d ++ encode_footer b) t).
Proof.
  intros Hle Hv. unfold read_footer.
  rewrite (stream_read_at 8) by (apply zlen_encode_footer; exact Hv).
  cbn [bind]. rewrite Hle. unfold encode_footer at 1.
  rewrite (skipn_app_exact 4) by (apply (vb_crc b Hv)).
  unfold read_int. rewrite firstn_all2 by (rewrite length_le_bytes; lia).
  cbn [native_value]. rewrite le_value_le_bytes.
  rewrite Z.mod_small; [reflexivity|].
  pose proof (vb_content b Hv). pose proof (zlen_nonneg (blk_content b)).
  change (256 ^ Z.of_nat 4) with 4294967296. lia.
Qed.

(* ------------------------------------------------------------------ *)
(** * Offsets, spans and the backend *)

Lemma ztake_app_more {A} (n : Z) (a b : list A) :
  0 <= n -> ztake (zlen a + n) (a ++ b) = a ++ ztake n b.
Proof.
  intros H. unfold ztake, zlen.
  replace (Z.to_nat (Z.of_nat (length a) + n)) with (length a + Z.to_nat n)%nat by lia.
  apply firstn_app_2.
Qed.

Lemma zdrop_app_more {A} (n : Z) (a b : list A) :
  0 <= n -> zdrop (zlen a + n) (a ++ b) = zdrop n b.
Proof.
  intros H. unfold zdrop, zlen.
  replace (Z.to_nat (Z.of_nat (length a) + n)) with (length a + Z.to_nat n)%nat by lia.
  rewrite skipn_app.
  replace (length a + Z.to_nat n - length a)%nat with (Z.to_nat n) by lia.
  rewrite skipn_all2 by lia. reflexivity.
Qed.

Lemma zdrop_zdrop {A} (a b : Z) (l : list A) :
  0 <= a -> 0 <= b -> zdrop a (zdrop b l) = zdrop (a + b) l.
Proof.
  intros Ha Hb. unfold zdrop. rewrite skipn_skipn. f_equal. lia.
Qed.

Lemma zlen_vec_resize {A} (n : Z) (d : A) (v : list A) :
  0 <= n -> zlen (vec_resize n d v) = n.
Proof.
  intros H. unfold vec_resize, zlen, ztake.
  rewrite length_app, length_firstn, repeat_length. lia.
Qed.

Lemma offsets_from_length (a : Z) (cs : list (list byte)) :
  length (offsets_from a cs) = S (length cs).
Proof. revert a. induction cs; intros; simpl; auto. Qed.

Lemma offsets_from_last (a : Z) (cs : list (list byte)) (d : Z) :
  last (offsets_from a cs) d = a + zlen (concat cs).
Proof.
  revert a. induction cs as [|c cs IH]; intros a.
  - simpl. rewrite zlen_nil. lia.
  - cbn [offsets_from concat]. rewrite zlen_app.
    change (last (a :: offsets_from (a + zlen c) cs) d)
      with (match offsets_from (a + zlen c) cs with
            | [] => a
            | _ :: _ => last (offsets_from (a + zlen c) cs) d
            end).
    destruct (offsets_from (a + zlen c) cs) eqn:E.
    + pose proof (offsets_from_length (a + zlen c) cs) as Hl.
      rewrite E in Hl. discriminate.
    + rewrite <- E, IH. lia.
Qed.

Lemma offsets_from_snoc (a : Z) (cs : list (list byte)) (c : list byte) :
  offsets_from a (cs ++ [c])
  = offsets_from a cs ++ [a + zlen (concat cs) + zlen c].
Proof.
  revert a. induction cs as [|c0 cs IH]; intros a.
  - cbn [app offsets_from concat]. rewrite zlen_nil.
    replace (a + 0 + zlen c) with (a + zlen c) by lia. reflexivity.
  - cbn [app offsets_from concat]. rewrite IH, zlen_app.
    cbn [app].
    replace (a + zlen c0 + zlen (concat cs) + zlen c)
      with (a + (zlen c0 + zlen (concat cs)) + zlen c) by lia.
    reflexivity.
Qed.

Lemma combine_offsets_step (a x : Z) (cs : list (list byte)) :
  combine (a :: offsets_from x cs) (offsets_from x cs)
  = (a, x) :: combine (offsets_from x cs) (tl (offsets_from x cs)).
Proof. destruct cs; reflexivity. Qed.

Lemma transform_offsets (ca da : Z) (gb : list bgzf_block) :
  Forall valid_block gb ->
  map bgzip_nvcomp_transform_functor
      (combine (combine (offsets_from ca (map blk_payload gb))
                        (tl (offsets_from ca (map blk_payload gb))))
               (combine (offsets_from da (map blk_content gb))
                        (tl (offsets_from da (map blk_content gb)))))
  = spans_of ca da gb.
Proof.
  intros Hv. revert ca da. induction Hv as [|b gb Hb Hv IH]; intros ca da.
  - reflexivity.
  - cbn [map offsets_from tl spans_of].
    rewrite !combine_offsets_step.
    cbn [combine map bgzip_nvcomp_transform_functor].
    rewrite IH.
    pose proof (blk_size_lower b). pose proof (vb_size b Hb).
    pose proof (vb_content b Hb).
    pose proof (zlen_nonneg (blk_payload b)). pose proof (zlen_nonneg (blk_content b)).
    replace (ca + zlen (blk_payload b) - ca) with (zlen (blk_payload b)) by lia.
    replace (da + zlen (blk_content b) - da) with (zlen (blk_content b)) by lia.
    rewrite !wrap64_small by lia. reflexivity.
Qed.

Lemma length_spans_of (ca da : Z) (gb : list bgzf_block) :
  length (spans_of ca da gb) = length gb.
Proof. revert ca da. induction gb; intros; simpl; auto. Qed.

Lemma run_backend_blocks (decode : list byte -> list byte) (gb : list bgzf_block) :
  (forall b, In b gb -> decode (blk_payload b) = blk_content b) ->
  forall (ca da : Z) (cpre csuf dst : list byte),
    zlen cpre = ca ->
    0 <= da ->
    da + zlen (contents gb) <= zlen dst ->
    fst (run_backend decode (spans_of ca da gb) (cpre ++ payloads gb ++ csuf) dst)
    = ztake da dst ++ contents gb ++ zdrop (da + zlen (contents gb)) dst.
Proof.
  intros Hdec. induction gb as [|b gb IH]; intros ca da cpre csuf dst Hca Hda Hdst.
  - cbn [spans_of run_backend fst contents map concat app].
    rewrite zlen_nil, Z.add_0_r. symmetry. apply ztake_zdrop.
  - cbn [spans_of run_backend].
    unfold payloads, contents in *. cbn [map concat] in *.
    fold (payloads gb) in *. fold (contents gb) in *.
    rewrite zlen_app in Hdst.
    pose proof (zlen_nonneg (blk_content b)) as Hcb.
    pose proof (zlen_nonneg (contents gb)) as Hcg.
    assert (Hread : span_read (ca, zlen (blk_payload b))
                              (cpre ++ (blk_payload b ++ payloads gb) ++ csuf)
                    = blk_payload b).
    { unfold span_read. cbn [fst snd]. rewrite <- Hca, zdrop_app_exact.
      rewrite <- app_assoc. apply ztake_app_exact. }
    rewrite Hread, (Hdec b) by (left; reflexivity).
    set (dst' := span_write (da, zlen (blk_content b)) (blk_content b) dst).
    assert (Hdst' : dst' = ztake da dst ++ blk_content b
                           ++ zdrop (da + zlen (blk_content b)) dst).
    { unfold dst', span_write, write_at. cbn [fst snd].
      rewrite (ztake_all (zlen (blk_content b))) by lia. reflexivity. }
    assert (Htk : zlen (ztake da dst) = da) by (apply zlen_ztake; lia).
    destruct (run_backend decode _ _ dst') as [out results] eqn:Hrun.
    cbn [fst].
    assert (Hout : out = fst (run_backend decode
                     (spans_of (ca + zlen (blk_payload b)) (da + zlen (blk_content b)) gb)
                     (cpre ++ (blk_payload b ++ payloads gb) ++ csuf) dst'))
      by (rewrite Hrun; reflexivity).
    rewrite Hout.
    replace (cpre ++ (blk_payload b ++ payloads gb) ++ csuf)
      with ((cpre ++ blk_payload b) ++ payloads gb ++ csuf)
      by (rewrite <- !app_assoc; reflexivity).
    rewrite IH.
    + assert (Hlen : zlen (ztake da dst ++ blk_content b) = da + zlen (blk_content b))
        by (rewrite zlen_app; lia).
      assert (F1 : ztake (da + zlen (blk_content b)) dst'
                   = ztake da dst ++ blk_content b).
      { rewrite Hdst', app_assoc, <- Hlen. apply ztake_app_exact. }
      assert (F2 : zdrop (da + zlen (blk_content b) + zlen (contents gb)) dst'
                   = zdrop (da + (zlen (blk_content b) + zlen (contents gb))) dst).
      { rewrite Hdst', app_assoc, <- Hlen, zdrop_app_more by lia.
        rewrite zdrop_zdrop by lia. f_equal. lia. }
      rewrite F1, F2. rewrite ?zlen_app, <- !app_assoc. reflexivity.
    + intros b' Hb'. apply Hdec. right. exact Hb'.
    + rewrite zlen_app. lia.
    + lia.
    + rewrite Hdst', !zlen_app, Htk, zlen_zdrop by lia. lia.
Qed.

(* ------------------------------------------------------------------ *)
(** * Sizes in a well-formed file *)

Lemma encode_stream_app (a b : list bgzf_block) :
  encode_stream (a ++ b) = encode_stream a ++ encode_stream b.
Proof. unfold encode_stream. rewrite map_app, concat_app. reflexivity. Qed.

Lemma encode_stream_cons (b : bgzf_block) (bs : list bgzf_block) :
  encode_stream (b :: bs) = encode_block b ++ encode_stream bs.
Proof. reflexivity. Qed.

Lemma contents_app (a b : list bgzf_block) :
  contents (a ++ b) = contents a ++ contents b.
Proof. unfold contents. rewrite map_app, concat_app. reflexivity. Qed.

Lemma payloads_app (a b : list bgzf_block) :
  payloads (a ++ b) = payloads a ++ payloads b.
Proof. unfold payloads. rewrite map_app, concat_app. reflexivity. Qed.

Lemma stream_sizes (bs : list bgzf_block) :
  Forall valid_block bs ->
  26 * zlen bs + zlen (payloads bs) <= zlen (encode_stream bs)
  /\ zlen (contents bs) <= 65536 * zlen bs.
Proof.
  induction 1 as [|b bs Hb Hbs IH].
  - unfold zlen. simpl. lia.
  - rewrite encode_stream_cons, zlen_app, zlen_encode_block by exact Hb.
    change (payloads (b :: bs)) with (blk_payload b ++ payloads bs).
    change (contents (b :: bs)) with (blk_content b ++ contents bs).
    rewrite !zlen_app, zlen_cons.
    pose proof (blk_size_lower b). pose proof (vb_content b Hb). lia.
Qed.

Lemma Forall_segment {A} (Q : A -> Prop) (l before seg after : list A) :
  Forall Q l -> l = before ++ seg ++ after -> Forall Q seg.
Proof.
  intros H ->. apply Forall_app in H. destruct H as [_ H].
  apply Forall_app in H. tauto.
Qed.

Lemma segment_sizes (all before seg after : list bgzf_block) :
  Forall valid_block all ->
  all = before ++ seg ++ after ->
  zlen (encode_stream before) + zlen (encode_stream seg) <= zlen (encode_stream all)
  /\ 26 * zlen seg + zlen (payloads seg) <= zlen (encode_stream all)
  /\ zlen (contents seg) <= 65536 * zlen seg.
Proof.
  intros Hall Heq.
  pose proof (Forall_segment _ _ _ _ _ Hall Heq) as Hseg.
  destruct (stream_sizes seg Hseg) as [H1 H2].
  subst all. rewrite !encode_stream_app, !zlen_app.
  pose proof (zlen_nonneg (encode_stream before)).
  pose proof (zlen_nonneg (encode_stream after)). lia.
Qed.

(* ------------------------------------------------------------------ *)
(** * Slices *)

Lemma ztake_app_le {A} (n : Z) (a b : list A) :
  n <= zlen a -> ztake n (a ++ b) = ztake n a.
Proof.
  intros H. unfold ztake, zlen in *. rewrite firstn_app.
  replace (Z.to_nat n - length a)%nat with 0%nat by lia.
  cbn [firstn]. apply app_nil_r.
Qed.

Lemma zdrop_app_le {A} (n : Z) (a b : list A) :
  n <= zlen a -> zdrop n (a ++ b) = zdrop n a ++ b.
Proof.
  intros H. unfold zdrop, zlen in *. rewrite skipn_app.
  replace (Z.to_nat n - length a)%nat with 0%nat by lia. reflexivity.
Qed.

Lemma ztake_app_ge {A} (n : Z) (a b : list A) :
  zlen a <= n -> ztake n (a ++ b) = a ++ ztake (n - zlen a) b.
Proof.
  intros H. replace n with (zlen a + (n - zlen a)) at 1 by lia.
  apply ztake_app_more. lia.
Qed.

Lemma zdrop_app_ge {A} (n : Z) (a b : list A) :
  zlen a <= n -> zdrop n (a ++ b) = zdrop (n - zlen a) b.
Proof.
  intros H. replace n with (zlen a + (n - zlen a)) at 1 by lia.
  apply zdrop_app_more. lia.
Qed.

Lemma ztake_ztake {A} (n m : Z) (l : list A) :
  n <= m -> ztake n (ztake m l) = ztake n l.
Proof.
  intros H. unfold ztake. rewrite firstn_firstn. f_equal. lia.
Qed.

Lemma zdrop_ztake {A} (rp a : Z) (l : list A) :
  0 <= rp <= a -> zdrop rp (ztake a l) = ztake (a - rp) (zdrop rp l).
Proof.
  intros H. unfold zdrop, ztake. rewrite firstn_skipn_comm. repeat f_equal. lia.
Qed.

Lemma slice_of_take {A} (rp n a : Z) (l : list A) :
  0 <= rp -> rp + n <= a ->
  ztake n (zdrop rp (ztake a l)) = ztake n (zdrop rp l).
Proof.
  intros H1 H2. destruct (Z.le_gt_cases rp a).
  - rewrite zdrop_ztake by lia. apply ztake_ztake. lia.
  - unfold ztake. replace (Z.to_nat n) with 0%nat by lia. reflexivity.
Qed.

Lemma zlen_slice {A} (rp a : Z) (l : list A) :
  0 <= rp <= a -> a <= zlen l -> zlen (zdrop rp (ztake a l)) = a - rp.
Proof.
  intros H1 H2. rewrite zlen_zdrop; rewrite zlen_ztake; lia.
Qed.

Lemma write_at_full (x : list byte) (n : Z) :
  zlen x = n -> write_at 0 x (vec_resize n x00 []) = x.
Proof.
  intros H. unfold write_at. rewrite ztake_0. cbn [app].
  rewrite zdrop_all; [apply app_nil_r|].
  pose proof (zlen_nonneg x). rewrite zlen_vec_resize by lia. lia.
Qed.

Lemma write_at_two (x y : list byte) (n : Z) :
  zlen x + zlen y = n ->
  write_at (zlen x) y (write_at 0 x (vec_resize n x00 [])) = x ++ y.
Proof.
  intros H. pose proof (zlen_nonneg x). pose proof (zlen_nonneg y).
  unfold write_at at 2. rewrite ztake_0. cbn [app].
  unfold write_at. rewrite ztake_app_exact. f_equal.
  rewrite zdrop_app_more by lia.
  rewrite zdrop_all; [apply app_nil_r|].
  rewrite zlen_zdrop; rewrite zlen_vec_resize by lia; lia.
Qed.

(* ------------------------------------------------------------------ *)
(** * Block groups over a well-formed file *)

Lemma combine_fst_snd {A B} (l : list (A * B)) :
  combine (map fst l) (map snd l) = l.
Proof. induction l as [|[a b] l IH]; simpl; [|rewrite IH]; reflexivity. Qed.

Lemma zlen_zero_nil {A} (l : list A) : zlen l = 0 -> l = [].
Proof. destruct l; [reflexivity|]. rewrite zlen_cons. pose proof (zlen_nonneg l). lia. Qed.

Section File.
Variable P : platform.
Variable all : list bgzf_block.
Hypothesis Hfile : valid_file P all.

Lemma group_rep_sizes (g : decompression_blocks) (gb : list bgzf_block) :
  group_rep all g gb ->
  Forall valid_block gb
  /\ zlen gb < 2 ^ 48
  /\ zlen (payloads gb) < 2 ^ 48
  /\ zlen (contents gb) < 2 ^ 64
  /\ remaining_size g = available_decompressed_size g - read_pos g
  /\ decompressed_size g = zlen (contents gb)
  /\ compressed_size g = zlen (payloads gb)
  /\ num_blocks g = zlen gb.
Proof.
  intros [(before & after & Hseg) Hpay Hco Hdo Hrp Hav Hdev].
  destruct Hfile as [_ Hvalid _ Hsize].
  destruct (segment_sizes all before gb after Hvalid Hseg) as (_ & H1 & H2).
  pose proof (zlen_nonneg gb). pose proof (zlen_nonneg (payloads gb)).
  pose proof (zlen_nonneg (contents gb)).
  split; [eapply Forall_segment; eassumption|].
  split; [lia|]. split; [lia|]. split; [lia|].
  split; [unfold remaining_size; apply wrap64_small; lia|].
  split; [unfold decompressed_size; rewrite Hdo, offsets_from_last; reflexivity|].
  split; [unfold compressed_size; rewrite Hco, offsets_from_last; reflexivity|].
  unfold num_blocks. rewrite Hco. unfold zlen at 1.
  rewrite offsets_from_length, length_map.
  rewrite wrap64_small; unfold zlen in *; lia.
Qed.

Lemma decompress_group_rep (g : decompression_blocks) (gb : list bgzf_block) :
  group_rep all g gb ->
  group_rep all (fst (decompress P g)) gb
  /\ d_decompressed_blocks (fst (decompress P g)) = contents gb.
Proof.
  intros Hg.
  destruct (group_rep_sizes g gb Hg) as (Hvalid & Hn & Hp & Hc & _ & Hds & _ & Hnb).
  pose proof (decompress_scalars P g) as (Hs1 & Hs2 & Hs3 & Hs4 & Hs5 & _).
  pose proof (decompress_sets_flag P g) as Hflag.
  assert (Hdev : d_decompressed_blocks (fst (decompress P g)) = contents gb).
  { destruct Hg as [(before & after & Hseg) Hpay Hco Hdo Hrp Hav Hdev].
    unfold decompress. destruct (is_decompressed g) eqn:Hd; [apply Hdev; reflexivity|].
    rewrite Hds, Hnb.
    assert (Hspans : map bgzip_nvcomp_transform_functor
                         (offset_it (h_compressed_offsets g) (h_decompressed_offsets g)
                                    (zlen gb))
                     = spans_of 0 0 gb).
    { unfold offset_it, ztake. rewrite <- firstn_map, Hco, Hdo, transform_offsets
        by exact Hvalid.
      apply firstn_all2. rewrite length_spans_of. unfold zlen. lia. }
    rewrite Hspans, combine_fst_snd.
    pose proof (zlen_nonneg (contents gb)) as Hnn.
    assert (Hrun : forall decode,
               (forall b, In b gb -> decode (blk_payload b) = blk_content b) ->
               fst (run_backend decode (spans_of 0 0 gb) (h_compressed_blocks g)
                      (vec_resize (zlen (contents gb)) x00 (d_decompressed_blocks g)))
               = contents gb).
    { intros decode Hdec.
      replace (h_compressed_blocks g) with ([] ++ payloads gb ++ [])
        by (rewrite app_nil_r; symmetry; exact Hpay).
      rewrite run_backend_blocks; auto; try lia.
      - rewrite ztake_0, Z.add_0_l, zdrop_all, app_nil_r; [reflexivity|].
        rewrite zlen_vec_resize by lia. lia.
      - rewrite zlen_vec_resize by lia. lia. }
    assert (Hsel : forall b, In b gb -> selected_backend P (blk_payload b) = blk_content b).
    { intros b Hb. apply (vf_backend P all Hfile). rewrite Hseg.
      apply in_or_app. right. apply in_or_app. left. exact Hb. }
    destruct (Z.gtb_spec (zlen (contents gb)) 0) as [Hpos|Hzero].
    - unfold selected_backend in Hsel.
      destruct (nvcomp_all_enabled P);
        specialize (Hrun _ Hsel);
        destruct (run_backend _ _ _ _) as [out results];
        cbn [fst d_decompressed_blocks] in *; exact Hrun.
    - cbn [fst d_decompressed_blocks].
      assert (Hz : zlen (contents gb) = 0) by lia.
      rewrite Hz, (zlen_zero_nil _ Hz). reflexivity. }
  split; [|exact Hdev].
  destruct Hg as [Hseg Hpay Hco Hdo Hrp Hav Hdev'].
  constructor; rewrite ?Hs1, ?Hs2, ?Hs3, ?Hs4, ?Hs5; auto.
Qed.

(** ** Staging one block *)

Lemma append_payload_available (payload : list byte) (g : decompression_blocks) :
  available_decompressed_size (append_payload payload g)
  = available_decompressed_size g.
Proof. reflexivity. Qed.


Lemma data_size_valid_block (b : bgzf_block) :
  data_size (mk_header (blk_size b) (blk_xlen b)) = zlen (blk_payload b).
Proof. unfold data_size, blk_size. cbn [block_size extra_length]. lia. Qed.

Lemma read_block_valid_block (b : bgzf_block) (d t : list byte)
      (g : decompression_blocks) (gb : list bgzf_block) :
  group_rep all g gb ->
  zlen (payloads gb) + zlen (blk_payload b) < 2 ^ 63 ->
  read_block (mk_header (blk_size b) (blk_xlen b)) (stream_at d (blk_payload b ++ t)) g
  = Ok (append_payload (blk_payload b) g,
        stream_at (d ++ blk_payload b) t).
Proof.
  intros Hg Hsz.
  destruct (group_rep_sizes g gb Hg) as (_ & _ & _ & _ & _ & _ & Hcs & _).
  pose proof (gr_payload all g gb Hg) as Hpay.
  pose proof (zlen_nonneg (payloads gb)). pose proof (zlen_nonneg (blk_payload b)).
  unfold read_block. rewrite data_size_valid_block, Hpay.
  rewrite wrap64_small by lia.
  destruct (Z.leb_spec (2 ^ 63) (zlen (payloads gb) + zlen (blk_payload b))); [lia|].
  rewrite stream_read_at by reflexivity. cbn [bind].
  rewrite vec_resize_grow by lia. rewrite Hcs.
  rewrite write_at_end; [rewrite <- Hpay; reflexivity|]. rewrite zlen_repeat. lia.
Qed.

Lemma staged_group_rep (b : bgzf_block) (g : decompression_blocks)
      (gb before after : list bgzf_block) (a : Z) :
  group_rep all g gb ->
  all = before ++ (gb ++ [b]) ++ after ->
  is_decompressed g = false ->
  read_pos g = 0 ->
  0 <= a <= zlen (contents (gb ++ [b])) ->
  let g1 := append_payload (blk_payload b) g in
  let g2 := set_available a
              (add_block_offsets (mk_header (blk_size b) (blk_xlen b))
                                 (mk_footer (zlen (blk_content b))) g1) in
  group_rep all g2 (gb ++ [b])
  /\ read_pos g2 = 0
  /\ is_decompressed g2 = false
  /\ available_decompressed_size g2 = a.
Proof.
  intros Hg Hseg Hflag Hrp Ha g1 g2.
  destruct (group_rep_sizes g gb Hg) as (_ & _ & _ & _ & _ & Hds & Hcs & _).
  destruct Hfile as [_ Hvalid _ Hsize].
  destruct (segment_sizes all before (gb ++ [b]) after Hvalid Hseg) as (_ & H1 & H2).
  pose proof (zlen_nonneg (gb ++ [b])) as Hn.
  rewrite payloads_app, contents_app, !zlen_app in *.
  change (zlen (payloads [b])) with (zlen (blk_payload b ++ [])) in *.
  change (zlen (contents [b])) with (zlen (blk_content b ++ [])) in *.
  rewrite !app_nil_r in *.
  pose proof (zlen_nonneg (payloads gb)). pose proof (zlen_nonneg (blk_payload b)).
  pose proof (zlen_nonneg (contents gb)). pose proof (zlen_nonneg (blk_content b)).
  assert (Hcs1 : compressed_size g1 = zlen (payloads gb)) by exact Hcs.
  assert (Hds1 : decompressed_size g1 = zlen (contents gb)) by exact Hds.
  destruct Hg as [_ Hpay Hco Hdo _ _ _].
  split; [|split; [exact Hrp|split; [exact Hflag|reflexivity]]].
  constructor.
  - exists before, after. exact Hseg.
  - cbn [g2 g1 append_payload set_available add_block_offsets h_compressed_blocks].
    rewrite Hpay, payloads_app. unfold payloads at 3. cbn [map concat].
    rewrite app_nil_r. reflexivity.
  - cbn [g2 set_available add_block_offsets h_compressed_offsets].
    rewrite Hcs1, data_size_valid_block, map_app. cbn [map].
    rewrite offsets_from_snoc. fold (payloads gb).
    rewrite wrap64_small by lia. cbn [g1 append_payload h_compressed_offsets].
    rewrite Hco. reflexivity.
  - cbn [g2 set_available add_block_offsets h_decompressed_offsets
         decompressed_size_field].
    rewrite Hds1, map_app. cbn [map].
    rewrite offsets_from_snoc. fold (contents gb).
    rewrite wrap64_small by lia. cbn [g1 append_payload h_decompressed_offsets].
    rewrite Hdo. reflexivity.
  - cbn [g2 g1 append_payload set_available add_block_offsets read_pos available_decompressed_size].
    lia.
  - cbn [g2 set_available available_decompressed_size].
    rewrite contents_app, zlen_app.
    change (zlen (contents [b])) with (zlen (blk_content b ++ [])).
    rewrite app_nil_r. lia.
  - cbn [g2 g1 append_payload set_available add_block_offsets is_decompressed]. congruence.
Qed.

(** ** The accumulation loop *)

Lemma stream_at_rep (s : istream) (passed rest : list bgzf_block) :
  stream_data s = encode_stream (passed ++ rest) ->
  stream_pos s = zlen (encode_stream passed) ->
  stream_eof s = false ->
  s = stream_at (encode_stream passed) (encode_stream rest).
Proof.
  destruct s as [data pos e]. cbn [stream_data stream_pos stream_eof].
  intros -> -> ->. unfold stream_at. rewrite encode_stream_app. reflexivity.
Qed.

Lemma encode_stream_empty (rest : list bgzf_block) :
  Forall valid_block rest ->
  zlen (encode_stream rest) <= 0 -> rest = [].
Proof.
  intros Hv Hz. destruct rest as [|b rest]; [reflexivity|].
  apply stream_sizes in Hv. rewrite zlen_cons in Hv.
  pose proof (zlen_nonneg rest). pose proof (zlen_nonneg (payloads (b :: rest))). lia.
Qed.

Lemma in_range_past (cend lend pos : Z) (rest : list bgzf_block) :
  cend < pos -> in_range cend lend pos rest = [].
Proof.
  intros H. destruct rest as [|b rest]; [reflexivity|]. cbn [in_range].
  destruct (Z.gtb_spec pos cend); [reflexivity|lia].
Qed.

Lemma contents_snoc (gb : list bgzf_block) (b : bgzf_block) :
  contents (gb ++ [b]) = contents gb ++ blk_content b.
Proof.
  rewrite contents_app. unfold contents at 2. cbn [map concat].
  rewrite app_nil_r. reflexivity.
Qed.

Lemma encode_stream_snoc (passed : list bgzf_block) (b : bgzf_block) :
  encode_stream (passed ++ [b]) = encode_stream passed ++ encode_block b.
Proof.
  rewrite encode_stream_app. unfold encode_stream at 2. cbn [map concat].
  rewrite app_nil_r. reflexivity.
Qed.

Lemma read_chunk_loop_valid (n : Z) (prev : decompression_blocks)
      (lend cend : Z) (rest : list bgzf_block) :
  end_inside cend lend all ->
  forall (fuel : nat) (passed gb : list bgzf_block) (s : istream)
         (curr : decompression_blocks),
    (length rest < fuel)%nat ->
    all = passed ++ rest ->
    (exists before, passed = before ++ gb) ->
    stream_data s = encode_stream all ->
    stream_pos s = zlen (encode_stream passed) ->
    (stream_eof s = true -> rest = []) ->
    group_rep all curr gb ->
    read_pos curr = 0 ->
    available_decompressed_size curr = zlen (contents gb) ->
    is_decompressed curr = false ->
    exists loaded rest' s' curr',
      read_chunk_loop P fuel n
        (mk_reader s prev curr lend (zlen (encode_stream passed)) cend)
      = Ok (mk_reader s' prev curr' lend
                      (zlen (encode_stream (passed ++ loaded))) cend)
      /\ rest = loaded ++ rest'
      /\ stream_data s' = encode_stream all
      /\ stream_pos s' = zlen (encode_stream (passed ++ loaded))
      /\ (stream_eof s' = true -> rest' = [])
      /\ group_rep all curr' (gb ++ loaded)
      /\ read_pos curr' = 0
      /\ is_decompressed curr' = false
      /\ ztake (available_decompressed_size curr') (contents (gb ++ loaded))
           ++ in_range cend lend (zlen (encode_stream (passed ++ loaded))) rest'
         = contents gb ++ in_range cend lend (zlen (encode_stream passed)) rest
      /\ (n <= available_decompressed_size curr'
          \/ in_range cend lend (zlen (encode_stream (passed ++ loaded))) rest' = [])
      /\ (loaded = [] ->
          n <= decompressed_size curr \/ stream_eof s' = true
          \/ zlen (encode_stream passed) > cend).
Proof.
  intros Hend.
  induction rest as [|b rest1 IH];
    intros fuel passed gb s curr Hfuel Hall Hbefore Hdata Hpos Heof Hg Hrp Hav Hflag;
    (destruct fuel as [|fuel]; [simpl in Hfuel; lia|]);
    destruct (group_rep_sizes curr gb Hg) as (Hvgb & _ & Hpb & Hcb & _ & Hds & _ & _);
    cbn [read_chunk_loop _curr_blocks _data_stream _compressed_pos _compressed_end
         _prev_blocks _local_end].
  - (* nothing left in the stream *)
    exists [], [], (if decompressed_size curr <? n
                    then if stream_eof s then s
                         else mk_istream (stream_data s) (stream_pos s) true
                    else s), curr.
    rewrite !app_nil_r.
    assert (Hsize : stream_size s <= stream_pos s).
    { unfold stream_size. rewrite Hdata, Hpos, Hall, app_nil_r. lia. }
    split.
    { destruct (decompressed_size curr <? n); [|reflexivity].
      destruct (stream_eof s) eqn:He; [reflexivity|].
      unfold stream_peek. rewrite He.
      destruct (Z.leb_spec (stream_size s) (stream_pos s)); [|lia].
      cbn [bind stream_eof orb]. reflexivity. }
    split; [reflexivity|].
    split; [destruct (_ <? n); [destruct (stream_eof s)|]; assumption|].
    split; [destruct (_ <? n); [destruct (stream_eof s)|]; assumption|].
    split; [intros _; reflexivity|].
    split; [exact Hg|]. split; [exact Hrp|]. split; [exact Hflag|].
    split; [rewrite Hav, ztake_all by lia; reflexivity|].
    split; [right; reflexivity|].
    intros _. destruct (Z.ltb_spec (decompressed_size curr) n); [|left; lia].
    right. left. destruct (stream_eof s) eqn:He; [exact He|reflexivity].
  - (* a block is waiting *)
    assert (He : stream_eof s = false).
    { destruct (stream_eof s); [|reflexivity]. discriminate (Heof eq_refl). }
    destruct (Z.ltb_spec (decompressed_size curr) n) as [Hlt|Hge].
    2:{ (* enough is staged *)
      exists [], (b :: rest1), s, curr. rewrite !app_nil_r.
      repeat (split; [first [reflexivity|assumption]|]).
      split; [rewrite Hav, ztake_all by lia; reflexivity|].
      split; [left; lia|]. intros _. left. lia. }
    rewrite He.
    destruct Hfile as [Hle Hvalid Hback Hsize].
    assert (Hvb : valid_block b).
    { rewrite Hall in Hvalid. apply Forall_app in Hvalid. destruct Hvalid as [_ Hv].
      inversion Hv; assumption. }
    assert (Hsall : zlen (encode_stream all)
                    = zlen (encode_stream passed) + blk_size b + zlen (encode_stream rest1)).
    { rewrite Hall, encode_stream_app, encode_stream_cons, !zlen_app,
        zlen_encode_block by exact Hvb. lia. }
    pose proof (blk_size_lower b) as Hlow.
    pose proof (zlen_nonneg (blk_payload b)) as Hpn.
    pose proof (zlen_nonneg (encode_stream rest1)) as Hr1.
    pose proof (zlen_nonneg (encode_stream passed)) as Hp0.
    assert (Hpeek : stream_peek s = Ok s).
    { unfold stream_peek. rewrite He.
      destruct (Z.leb_spec (stream_size s) (stream_pos s)) as [Hle'|]; [|reflexivity].
      unfold stream_size in Hle'. rewrite Hdata, Hpos in Hle'. lia. }
    rewrite Hpeek. cbn [bind]. rewrite He. cbn [orb].
    destruct (Z.gtb_spec (zlen (encode_stream passed)) cend) as [Hpast|Hin].
    { (* the scan cursor is past the end of the range *)
      exists [], (b :: rest1), s, curr. rewrite !app_nil_r.
      repeat (split; [first [reflexivity|assumption]|]).
      split; [rewrite Hav, ztake_all by lia; reflexivity|].
      split; [right; apply in_range_past; lia|]. intros _. right. right. lia. }
    (* parse and stage the block *)
    rewrite Hall in Hdata.
    rewrite (stream_at_rep s passed (b :: rest1) Hdata Hpos He).
    rewrite encode_stream_cons. unfold encode_block at 1. rewrite <- !app_assoc.
    rewrite (read_header_valid_block P b _ _ Hle Hvb). cbn [bind].
    destruct Hbefore as [before Hbefore].
    assert (Hseg : all = before ++ (gb ++ [b]) ++ rest1).
    { rewrite Hall, Hbefore, <- !app_assoc. reflexivity. }
    destruct (segment_sizes all before (gb ++ [b]) rest1 Hvalid Hseg) as (_ & Hs1 & Hs2).
    rewrite payloads_app, !zlen_app in Hs1.
    change (zlen (payloads [b])) with (zlen (blk_payload b ++ [])) in Hs1.
    rewrite app_nil_r in Hs1.
    pose proof (zlen_nonneg (gb ++ [b])) as Hn1. rewrite zlen_app in Hn1.
    rewrite (read_block_valid_block b _ _ curr gb Hg) by lia. cbn [bind].
    rewrite (read_footer_valid_block P b _ _ Hle Hvb). cbn [bind].
    pose proof (vb_content b Hvb) as Hcont.
    pose proof (zlen_nonneg (blk_content b)) as Hcn.
    pose proof (zlen_nonneg (contents gb)) as Hcg.
    assert (Hcs : contents (gb ++ [b]) = contents gb ++ blk_content b)
      by apply contents_snoc.
    rewrite Hcs, !zlen_app in Hs2.
    change (zlen [b]) with 1 in *.
    pose proof (zlen_nonneg (payloads gb)) as Hpg.
    assert (Hes : zlen (encode_stream (passed ++ [b]))
                  = zlen (encode_stream passed) + blk_size b).
    { rewrite encode_stream_snoc, zlen_app, zlen_encode_block by exact Hvb. reflexivity. }
    assert (Hstream : stream_at
                        (((encode_stream passed ++ encode_header b) ++ blk_payload b)
                           ++ encode_footer b) (encode_stream rest1)
                      = stream_at (encode_stream (passed ++ [b])) (encode_stream rest1)).
    { rewrite encode_stream_snoc. unfold encode_block. rewrite <- !app_assoc. reflexivity. }
    rewrite Hstream.
    rewrite !(proj2 (add_block_offsets_scalars _ _ _)), !append_payload_available.
    cbn [block_size decompressed_size_field].
    rewrite (wrap64_small (zlen (encode_stream passed) + blk_size b)) by lia.
    rewrite <- Hes.
    destruct (Z.eqb_spec (zlen (encode_stream passed)) cend) as [Heq|Hneq].
    + (* the last block of the range *)
      destruct Hend as [Hl0 Hend].
      specialize (Hend passed b rest1 Hall Heq).
      rewrite Hav, wrap64_small by lia.
      destruct (staged_group_rep b curr gb before rest1 (zlen (contents gb) + lend)
                  Hg Hseg Hflag Hrp) as (Hg2 & Hrp2 & Hflag2 & Hav2).
      { rewrite Hcs, zlen_app. lia. }
      eexists [b], rest1, _, _.
      split; [reflexivity|].
      split; [reflexivity|].
      split; [cbn [stream_at stream_data]; rewrite <- encode_stream_app, Hall,
              <- app_assoc; reflexivity|].
      split; [reflexivity|].
      split; [cbn [stream_at stream_eof]; discriminate|].
      split; [exact Hg2|]. split; [exact Hrp2|]. split; [exact Hflag2|].
      rewrite in_range_past by lia.
      split.
      { rewrite Hav2, Hcs, app_nil_r, ztake_app_more by lia.
        cbn [in_range].
        destruct (Z.gtb_spec (zlen (encode_stream passed)) cend); [lia|].
        destruct (Z.eqb_spec (zlen (encode_stream passed)) cend); [|lia].
        reflexivity. }
      split; [right; reflexivity|]. intros Hnil. discriminate Hnil.
    + (* a block inside the range: go on *)
      rewrite Hav, wrap64_small by lia.
      destruct (staged_group_rep b curr gb before rest1
                  (zlen (contents gb) + zlen (blk_content b))
                  Hg Hseg Hflag Hrp) as (Hg2 & Hrp2 & Hflag2 & Hav2).
      { rewrite Hcs, zlen_app. lia. }
      edestruct (IH fuel (passed ++ [b]) (gb ++ [b])
                   (stream_at (encode_stream (passed ++ [b])) (encode_stream rest1))
                   (set_available (zlen (contents gb) + zlen (blk_content b))
                      (add_block_offsets (mk_header (blk_size b) (blk_xlen b))
                                         (mk_footer (zlen (blk_content b)))
                                         (append_payload (blk_payload b) curr)))) as
          (loaded & rest' & s' & curr' & Hrun & Hrest & Hd' & Hp' & He' & Hg' & Hrp'
           & Hfl' & Hdata' & Hstop & _);
        [| | | | | |exact Hg2|exact Hrp2| |exact Hflag2|].
      * simpl in Hfuel. lia.
      * rewrite Hall, <- app_assoc. reflexivity.
      * exists before. rewrite Hbefore, app_assoc. reflexivity.
      * cbn [stream_at stream_data]. rewrite <- encode_stream_app, Hall, <- app_assoc.
        reflexivity.
      * reflexivity.
      * cbn [stream_at stream_eof]. discriminate.
      * rewrite Hav2, Hcs, zlen_app. reflexivity.
      * rewrite <- !app_assoc in *. cbn [app] in *.
        exists (b :: loaded), rest', s', curr'.
        split; [exact Hrun|].
        split; [rewrite Hrest; reflexivity|].
        split; [exact Hd'|]. split; [exact Hp'|]. split; [exact He'|].
        split; [exact Hg'|]. split; [exact Hrp'|]. split; [exact Hfl'|].
        split.
        { rewrite Hdata', Hcs, Hes, <- app_assoc. cbn [in_range].
          destruct (Z.gtb_spec (zlen (encode_stream passed)) cend); [lia|].
          destruct (Z.eqb_spec (zlen (encode_stream passed)) cend); [lia|].
          reflexivity. }
        split; [exact Hstop|]. intros Hnil. discriminate Hnil.
Qed.

(** ** Loading the next chunk *)

Lemma reset_group_rep (g : decompression_blocks) (gb : list bgzf_block) :
  group_rep all g gb ->
  group_rep all (reset g) []
  /\ read_pos (reset g) = 0
  /\ available_decompressed_size (reset g) = zlen (contents [])
  /\ is_decompressed (reset g) = false.
Proof.
  intros [_ _ Hco Hdo _ _ _].
  assert (Hc : vec_resize 1 0 (h_compressed_offsets g) = [0]).
  { apply vec_resize_one. rewrite Hco. destruct (map blk_payload gb); reflexivity. }
  assert (Hd : vec_resize 1 0 (h_decompressed_offsets g) = [0]).
  { apply vec_resize_one. rewrite Hdo. destruct (map blk_content gb); reflexivity. }
  split; [|split; [reflexivity|split; reflexivity]].
  constructor; unfold reset;
    cbn [h_compressed_blocks h_compressed_offsets h_decompressed_offsets read_pos
         available_decompressed_size is_decompressed d_decompressed_blocks];
    rewrite ?Hc, ?Hd; try reflexivity; try discriminate.
  - exists [], all. reflexivity.
  - lia.
Qed.

Lemma blocks_in_stream (passed rest : list bgzf_block) :
  all = passed ++ rest ->
  (length rest <= length (encode_stream all))%nat.
Proof.
  intros Hall. destruct Hfile as [_ Hvalid _ _].
  destruct (stream_sizes all Hvalid) as [H1 _].
  pose proof (zlen_nonneg (payloads all)).
  assert (zlen rest <= zlen all).
  { rewrite Hall, zlen_app. pose proof (zlen_nonneg passed). lia. }
  unfold zlen in *. lia.
Qed.

Lemma read_next_compressed_chunk_valid (n : Z) (s : istream)
      (prev curr : decompression_blocks) (lend cend : Z)
      (passed rest pb gb : list bgzf_block) :
  end_inside cend lend all ->
  all = passed ++ rest ->
  stream_data s = encode_stream all ->
  stream_pos s = zlen (encode_stream passed) ->
  (stream_eof s = true -> rest = []) ->
  group_rep all prev pb ->
  exists loaded rest' s' curr',
    read_next_compressed_chunk P n
      (mk_reader s prev curr lend (zlen (encode_stream passed)) cend)
    = Ok (mk_reader s' curr curr' lend
                    (zlen (encode_stream (passed ++ loaded))) cend)
    /\ rest = loaded ++ rest'
    /\ stream_data s' = encode_stream all
    /\ stream_pos s' = zlen (encode_stream (passed ++ loaded))
    /\ (stream_eof s' = true -> rest' = [])
    /\ group_rep all curr' loaded
    /\ read_pos curr' = 0
    /\ is_decompressed curr' = false
    /\ ztake (available_decompressed_size curr') (contents loaded)
         ++ in_range cend lend (zlen (encode_stream (passed ++ loaded))) rest'
       = in_range cend lend (zlen (encode_stream passed)) rest
    /\ (n <= available_decompressed_size curr'
        \/ in_range cend lend (zlen (encode_stream (passed ++ loaded))) rest' = [])
    /\ (loaded = [] ->
        n <= 0 \/ stream_eof s' = true \/ zlen (encode_stream passed) > cend).
Proof.
  intros Hend Hall Hdata Hpos Heof Hprev.
  destruct (reset_group_rep prev pb Hprev) as (Hg & Hrp & Hav & Hflag).
  unfold read_next_compressed_chunk.
  cbn [_data_stream _prev_blocks _curr_blocks _local_end _compressed_pos _compressed_end].
  destruct (read_chunk_loop_valid n curr lend cend rest Hend
              (S (length (stream_data s))) passed [] s (reset prev))
    as (loaded & rest' & s' & curr' & Hrun & H1 & H2 & H3 & H4 & H5 & H6 & H7 & H8 & H9 & H10);
    auto.
  - rewrite Hdata. pose proof (blocks_in_stream passed rest Hall). lia.
  - exists passed. rewrite app_nil_r. reflexivity.
  - exists loaded, rest', s', curr'. cbn [app] in *.
    repeat (split; [assumption|]).
    intros Hl. destruct (H10 Hl) as [Hn|Hn]; [left|right; exact Hn].
    revert Hn. unfold decompressed_size, reset. cbn [h_decompressed_offsets].
    destruct Hprev as [_ _ _ Hdo _ _ _].
    rewrite vec_resize_one; [cbn [last]; lia|].
    rewrite Hdo. destruct (map blk_content pb); reflexivity.
Qed.

(** ** Consuming from a group *)

Lemma consume_group_rep (g : decompression_blocks) (gb : list bgzf_block) (k : Z) :
  group_rep all g gb ->
  0 <= k <= available_decompressed_size g - read_pos g ->
  consume_bytes k g = Ok (set_read_pos (read_pos g + k) g)
  /\ group_rep all (set_read_pos (read_pos g + k) g) gb
  /\ group_data (set_read_pos (read_pos g + k) g) gb = zdrop k (group_data g gb).
Proof.
  intros Hg Hk.
  destruct (group_rep_sizes g gb Hg) as (_ & _ & _ & Hc & Hrem & _).
  destruct Hg as [Hseg Hpay Hco Hdo Hrp Hav Hdev].
  split; [|split].
  - rewrite consume_bytes_spec, Hrem.
    destruct (Z.leb_spec k (available_decompressed_size g - read_pos g)); [|lia].
    rewrite wrap64_small by lia. reflexivity.
  - constructor; cbn [set_read_pos h_compressed_blocks h_compressed_offsets
                      h_decompressed_offsets read_pos available_decompressed_size
                      is_decompressed d_decompressed_blocks]; auto. lia.
  - unfold group_data. cbn [set_read_pos read_pos available_decompressed_size].
    rewrite zdrop_zdrop by lia. f_equal. lia.
Qed.

Lemma zlen_group_data (g : decompression_blocks) (gb : list bgzf_block) :
  group_rep all g gb ->
  zlen (group_data g gb) = available_decompressed_size g - read_pos g.
Proof.
  intros [_ _ _ _ Hrp Hav _]. unfold group_data. apply zlen_slice; lia.
Qed.

(** ** get_next_chunk delivers the next bytes *)

Lemma get_next_chunk_refines (r : reader) (todo : list byte) (n : Z) :
  reader_rep all r todo ->
  0 <= n ->
  exists r',
    get_next_chunk P n r = Ok (ztake n todo, r')
    /\ reader_rep all r' (zdrop n todo).
Proof.
  intros (passed & rest & pb & gb & Hall & Hdata & Hpos & Heof & Hcpos & Hend
          & Hprev & Hpdone & Hcurr & Htodo) Hn.
  destruct r as [s prev curr lend cpos cend].
  cbn [_data_stream _prev_blocks _curr_blocks _local_end _compressed_pos
       _compressed_end] in *.
  destruct (group_rep_sizes curr gb Hcurr) as (_ & _ & _ & Hcsz & Hrem & _).
  pose proof (gr_read_pos all curr gb Hcurr) as Hrp.
  pose proof (gr_available all curr gb Hcurr) as Hav.
  pose proof (zlen_group_data curr gb Hcurr) as Hgd.
  unfold get_next_chunk.
  cbn [_data_stream _prev_blocks _curr_blocks _local_end _compressed_pos
       _compressed_end].
  rewrite Hrem.
  destruct (Z.leb_spec n (available_decompressed_size curr - read_pos curr))
    as [Hfit|Hmore].
  - (* served from the current group *)
    destruct (decompress_group_rep curr gb Hcurr) as [Hdg Hdev].
    destruct (decompress_scalars P curr) as (Hs1 & Hs2 & _).
    rewrite Hdev, Hs1.
    destruct (consume_group_rep (fst (decompress P curr)) gb n Hdg)
      as (Hcons & Hg' & Hdata'); [rewrite Hs1, Hs2; lia|].
    rewrite Hcons. cbn [bind].
    assert (Hchunk : memcpy_from (contents gb) (read_pos curr) n = ztake n todo).
    { rewrite Htodo, ztake_app_le by lia. unfold memcpy_from, group_data.
      symmetry. apply slice_of_take; lia. }
    rewrite Hchunk, write_at_full.
    2:{ rewrite Htodo, ztake_app_le by lia. apply zlen_ztake. lia. }
    eexists. split; [reflexivity|].
    exists passed, rest, pb, gb.
    cbn [_data_stream _prev_blocks _curr_blocks _local_end _compressed_pos
         _compressed_end].
    repeat (split; [assumption|]).
    rewrite Hs1 in Hdata'. rewrite Hs1. rewrite Hdata'.
    assert (Hsame : group_data (fst (decompress P curr)) gb = group_data curr gb)
      by (unfold group_data; rewrite Hs1, Hs2; reflexivity).
    rewrite Hsame, Htodo. apply zdrop_app_le. lia.
  - (* the request goes over the end of the current group *)
    rewrite Hcpos.
    destruct (read_next_compressed_chunk_valid n s prev curr lend cend passed rest pb gb
                Hend Hall Hdata Hpos Heof Hprev)
      as (loaded & rest' & s' & curr' & Hrun & Hrest & Hd' & Hp' & He' & Hg' & Hrp'
          & Hfl' & Hsplit & Hstop & _).
    rewrite Hrun. cbn [bind _prev_blocks _curr_blocks _data_stream _local_end
                       _compressed_pos _compressed_end].
    destruct (decompress_group_rep curr gb Hcurr) as [Hdp Hdevp].
    destruct (decompress_group_rep curr' loaded Hg') as [Hdc Hdevc].
    destruct (decompress_scalars P curr) as (Hp1 & Hp2 & _).
    destruct (decompress_scalars P curr') as (Hc1 & Hc2 & _).
    destruct (group_rep_sizes curr' loaded Hg') as (_ & _ & _ & Hcsz' & Hrem' & _).
    pose proof (gr_read_pos all curr' loaded Hg') as Hrpc.
    pose proof (gr_available all curr' loaded Hg') as Havc.
    rewrite !decompress_remaining, Hrem, Hrem', Hdevp, Hdevc, Hp1, Hc1, Hrp'.
    set (p := available_decompressed_size curr - read_pos curr) in *.
    set (c := available_decompressed_size curr') in *.
    rewrite Z.sub_0_r in *.
    (* sizes of the whole file bound the sum *)
    assert (Hsum : p + c < 2 ^ 64).
    { destruct Hfile as [_ Hvalid _ Hsize].
      destruct (stream_sizes all Hvalid) as [Ha1 Ha2].
      destruct (gr_segment all curr gb Hcurr) as (b1 & a1 & Hseg1).
      destruct (gr_segment all curr' loaded Hg') as (b2 & a2 & Hseg2).
      destruct (segment_sizes all b1 gb a1 Hvalid Hseg1) as (_ & Hx1 & Hx2).
      destruct (segment_sizes all b2 loaded a2 Hvalid Hseg2) as (_ & Hy1 & Hy2).
      pose proof (zlen_nonneg (payloads gb)). pose proof (zlen_nonneg (payloads loaded)).
      unfold p, c. lia. }
    rewrite (wrap64_small (p + c)) by (unfold p, c in *; lia).
    set (rs := Z.min n (p + c)).
    assert (Hrs : p <= rs <= p + c) by (unfold rs, p, c in *; lia).
    rewrite (wrap64_small (rs - p)) by lia.
    destruct (consume_group_rep (fst (decompress P curr)) gb p Hdp)
      as (Hcons1 & Hgp & _); [rewrite Hp1, Hp2; unfold p; lia|].
    destruct (consume_group_rep (fst (decompress P curr')) loaded (rs - p) Hdc)
      as (Hcons2 & Hgc & Hdatac); [rewrite Hc1, Hc2, Hrp'; unfold c in *; lia|].
    rewrite Hcons1. cbn [bind]. rewrite Hcons2. cbn [bind].
    assert (Hprevdata : memcpy_from (contents gb) (read_pos curr) p = group_data curr gb).
    { unfold memcpy_from, group_data. rewrite zdrop_ztake by lia.
      reflexivity. }
    assert (Hcurrdata : memcpy_from (contents loaded) 0 (rs - p)
                        = ztake (rs - p) (ztake c (contents loaded))).
    { unfold memcpy_from. rewrite zdrop_0. symmetry. apply ztake_ztake. lia. }
    rewrite Hprevdata, Hcurrdata.
    assert (Hlenc : zlen (ztake (rs - p) (ztake c (contents loaded))) = rs - p).
    { apply zlen_ztake. rewrite zlen_ztake by (unfold c in *; lia). lia. }
    assert (Hw : write_at p (ztake (rs - p) (ztake c (contents loaded)))
                   (write_at 0 (group_data curr gb) (vec_resize rs x00 []))
                 = group_data curr gb ++ ztake (rs - p) (ztake c (contents loaded))).
    { rewrite <- Hgd at 1. apply write_at_two. rewrite Hgd, Hlenc. lia. }
    rewrite Hw.
    assert (Htodo' : todo = group_data curr gb
                            ++ ztake c (contents loaded)
                            ++ in_range cend lend
                                 (zlen (encode_stream (passed ++ loaded))) rest').
    { rewrite Htodo, Hcpos, <- Hsplit. reflexivity. }
    assert (Hlc : zlen (ztake c (contents loaded)) = c)
      by (apply zlen_ztake; unfold c in *; lia).
    assert (Htail : rs = n
                    \/ (p + c < n
                        /\ in_range cend lend (zlen (encode_stream (passed ++ loaded)))
                                    rest' = [])).
    { destruct (Z.le_gt_cases n (p + c)); [left; unfold rs; lia|right].
      split; [lia|]. destruct Hstop as [Hstop|Hstop]; [|exact Hstop].
      unfold c, p in *. lia. }
    eexists. split.
    + f_equal. f_equal. rewrite Htodo'.
      rewrite ztake_app_ge, Hgd by lia. f_equal.
      destruct Htail as [Hfull|[Hover Hnil]].
      * rewrite Hfull in *. rewrite ztake_app_le by lia. reflexivity.
      * rewrite Hnil, app_nil_r.
        rewrite (ztake_all (n - p)) by lia.
        apply ztake_all. unfold rs in *. lia.
    + exists (passed ++ loaded), rest', gb, loaded.
      cbn [_data_stream _prev_blocks _curr_blocks _local_end _compressed_pos
           _compressed_end].
      split; [rewrite Hall, Hrest, app_assoc; reflexivity|].
      split; [exact Hd'|]. split; [exact Hp'|]. split; [exact He'|].
      split; [reflexivity|]. split; [exact Hend|].
      split; [exact Hgp|].
      split; [cbn [set_read_pos read_pos available_decompressed_size];
              rewrite Hp1, Hp2; unfold p; lia|].
      split; [rewrite Hc1, Hrp' in Hgc; rewrite Hc1, Hrp'; exact Hgc|].
      rewrite Hc1, Hrp' in Hdatac. rewrite Hc1, Hrp', Hdatac.
      assert (Hsame : group_data (fst (decompress P curr')) loaded
                      = ztake c (contents loaded)).
      { unfold group_data. rewrite Hc1, Hc2, Hrp', zdrop_0. reflexivity. }
      rewrite Hsame, Htodo'.
      rewrite zdrop_app_ge, Hgd by lia.
      destruct Htail as [Hfull|[Hover Hnil]].
      * rewrite Hfull in *. apply zdrop_app_le. lia.
      * rewrite Hnil, !app_nil_r.
        rewrite (zdrop_all (n - p)) by lia.
        symmetry. apply zdrop_all. unfold rs in *. lia.
Qed.

(** ** skip_bytes drops the next bytes *)

Lemma stream_peek_rep (s : istream) (passed rest : list bgzf_block) :
  all = passed ++ rest ->
  stream_data s = encode_stream all ->
  stream_pos s = zlen (encode_stream passed) ->
  stream_eof s = false ->
  exists s',
    stream_peek s = Ok s'
    /\ stream_data s' = encode_stream all
    /\ stream_pos s' = zlen (encode_stream passed)
    /\ (stream_eof s' = true -> rest = []).
Proof.
  intros Hall Hdata Hpos He. unfold stream_peek. rewrite He.
  destruct (Z.leb_spec (stream_size s) (stream_pos s)) as [Hle|Hgt].
  - eexists. split; [reflexivity|]. cbn [stream_data stream_pos stream_eof].
    repeat (split; [assumption|]). intros _.
    apply encode_stream_empty.
    + destruct Hfile as [_ Hvalid _ _]. rewrite Hall in Hvalid.
      apply Forall_app in Hvalid. tauto.
    + unfold stream_size in Hle.
      rewrite Hdata, Hpos, Hall, encode_stream_app, zlen_app in Hle. lia.
  - exists s. split; [reflexivity|]. repeat (split; [assumption|]). congruence.
Qed.

Lemma skip_bytes_loop_valid (fuel : nat) :
  forall (n : Z) (r : reader) (passed rest pb gb : list bgzf_block),
    (length rest < fuel)%nat ->
    0 <= n < 2 ^ 64 ->
    all = passed ++ rest ->
    stream_data (_data_stream r) = encode_stream all ->
    stream_pos (_data_stream r) = zlen (encode_stream passed) ->
    (stream_eof (_data_stream r) = true -> rest = []) ->
    _compressed_pos r = zlen (encode_stream passed) ->
    end_inside (_compressed_end r) (_local_end r) all ->
    group_rep all (_prev_blocks r) pb ->
    read_pos (_prev_blocks r) = available_decompressed_size (_prev_blocks r) ->
    group_rep all (_curr_blocks r) gb ->
    let todo := group_data (_curr_blocks r) gb
                ++ in_range (_compressed_end r) (_local_end r) (_compressed_pos r) rest in
    exists n' r' todo',
      skip_bytes_loop P fuel n r = Ok (n', r')
      /\ reader_rep all r' todo'
      /\ 0 <= n'
      /\ zdrop n' todo' = zdrop n todo
      /\ (n' <= remaining_size (_curr_blocks r')
          \/ zlen todo' <= remaining_size (_curr_blocks r')).
Proof.
  induction fuel as [|fuel IH];
    intros n r passed rest pb gb Hfuel Hn Hall Hdata Hpos Heof Hcpos Hend Hprev Hpdone
           Hcurr todo; [lia|].
  destruct r as [s prev curr lend cpos cend].
  cbn [_data_stream _prev_blocks _curr_blocks _local_end _compressed_pos
       _compressed_end] in *.
  destruct (group_rep_sizes curr gb Hcurr) as (_ & _ & _ & Hcsz & Hrem & _).
  pose proof (gr_read_pos all curr gb Hcurr) as Hrp.
  pose proof (gr_available all curr gb Hcurr) as Hav.
  pose proof (zlen_group_data curr gb Hcurr) as Hgd.
  cbn [skip_bytes_loop _data_stream _prev_blocks _curr_blocks _local_end
       _compressed_pos _compressed_end].
  rewrite Hrem.
  set (p := available_decompressed_size curr - read_pos curr) in *.
  destruct (Z.gtb_spec n p) as [Hmore|Hfit].
  2:{ (* the rest of the skip fits in the current group *)
    exists n, (mk_reader s prev curr lend cpos cend), todo.
    split; [reflexivity|].
    split; [exists passed, rest, pb, gb; repeat (split; [assumption|]); reflexivity|].
    split; [lia|]. split; [reflexivity|]. left. cbn [_curr_blocks]. rewrite Hrem. lia. }
  rewrite wrap64_small by lia.
  destruct (consume_group_rep curr gb p Hcurr) as (Hcons & Hgdrained & Hdd);
    [unfold p; lia|].
  rewrite Hcons. cbn [bind]. rewrite Hcpos.
  destruct (read_next_compressed_chunk_valid chunk_load_size s prev
              (set_read_pos (read_pos curr + p) curr) lend cend passed rest pb gb
              Hend Hall Hdata Hpos Heof Hprev)
    as (loaded & rest' & s1 & curr1 & Hrun & Hrest & Hd1 & Hp1 & He1 & Hg1 & Hrp1
        & Hfl1 & Hsplit & Hstop & Hprogress).
  rewrite Hrun. cbn [bind _data_stream _prev_blocks _curr_blocks _local_end
                     _compressed_pos _compressed_end].
  assert (Hall1 : all = (passed ++ loaded) ++ rest')
    by (rewrite Hall, Hrest, app_assoc; reflexivity).
  pose proof (zlen_group_data curr1 loaded Hg1) as Hgd1.
  destruct (group_rep_sizes curr1 loaded Hg1) as (_ & _ & _ & _ & Hrem1 & _).
  set (todo1 := group_data curr1 loaded
                ++ in_range cend lend (zlen (encode_stream (passed ++ loaded))) rest').
  assert (Hdrop : zdrop (n - p) todo1 = zdrop n todo).
  { unfold todo, todo1. rewrite Hcpos, <- Hsplit.
    rewrite (zdrop_app_ge n) by lia. rewrite Hgd.
    unfold group_data. rewrite Hrp1, zdrop_0. reflexivity. }
  assert (Hdone : forall s2,
             stream_data s2 = encode_stream all ->
             stream_pos s2 = zlen (encode_stream (passed ++ loaded)) ->
             (stream_eof s2 = true -> rest' = []) ->
             in_range cend lend (zlen (encode_stream (passed ++ loaded))) rest' = [] ->
             exists n' r' todo',
               Ok (n - p, mk_reader s2 (set_read_pos (read_pos curr + p) curr) curr1 lend
                                    (zlen (encode_stream (passed ++ loaded))) cend)
               = Ok (n', r')
               /\ reader_rep all r' todo'
               /\ 0 <= n'
               /\ zdrop n' todo' = zdrop n todo
               /\ (n' <= remaining_size (_curr_blocks r')
                   \/ zlen todo' <= remaining_size (_curr_blocks r'))).
  { intros s2 Hd2 Hp2 He2 Hnil. eexists _, _, todo1. split; [reflexivity|].
    split.
    { exists (passed ++ loaded), rest', gb, loaded.
      cbn [_data_stream _prev_blocks _curr_blocks _local_end _compressed_pos
           _compressed_end].
      repeat (split; [first [assumption|reflexivity]|]).
      split; [cbn [set_read_pos read_pos available_decompressed_size]; unfold p; lia|].
      split; [exact Hg1|reflexivity]. }
    split; [lia|]. split; [exact Hdrop|]. right.
    cbn [_curr_blocks]. unfold todo1. rewrite Hnil, app_nil_r, Hgd1, Hrem1. lia. }
  destruct (stream_eof s1) eqn:Heof1.
  { apply Hdone; auto. rewrite (He1 eq_refl). reflexivity. }
  destruct (stream_peek_rep s1 (passed ++ loaded) rest' Hall1 Hd1 Hp1 Heof1)
    as (s2 & Hpeek & Hd2 & Hp2 & He2).
  rewrite Hpeek. cbn [bind _data_stream _prev_blocks _curr_blocks _local_end
                      _compressed_pos _compressed_end].
  destruct (stream_eof s2) eqn:Heof2; cbn [orb].
  { apply Hdone; auto. rewrite (He2 eq_refl). reflexivity. }
  destruct (Z.gtb_spec (zlen (encode_stream (passed ++ loaded))) cend) as [Hpast|Hin].
  { apply Hdone; auto; [congruence|]. apply in_range_past. lia. }
  (* more blocks were staged and more are waiting: go round again *)
  assert (Hloaded : loaded <> []).
  { intros Hl. destruct (Hprogress Hl) as [H0|[H0|H0]].
    - unfold chunk_load_size in H0. lia.
    - congruence.
    - rewrite Hl, app_nil_r in Hin. lia. }
  destruct (IH (n - p)
               (mk_reader s2 (set_read_pos (read_pos curr + p) curr) curr1 lend
                          (zlen (encode_stream (passed ++ loaded))) cend)
               (passed ++ loaded) rest' gb loaded)
    as (n' & r' & todo' & Hloop & Hrep & Hn' & Hdrop' & Hcap);
    cbn [_data_stream _prev_blocks _curr_blocks _local_end _compressed_pos
         _compressed_end]; auto; try lia.
  - assert (length rest = length loaded + length rest')%nat
      by (rewrite Hrest, length_app; reflexivity).
    destruct loaded; [congruence|]. simpl in *. lia.
  - congruence.
  - cbn [set_read_pos read_pos available_decompressed_size]. unfold p. lia.
  - exists n', r', todo'. split; [exact Hloop|]. split; [exact Hrep|].
    split; [exact Hn'|]. split; [|exact Hcap].
    rewrite Hdrop'. exact Hdrop.
Qed.



Lemma skip_bytes_refines (r : reader) (todo : list byte) (n : Z) :
  reader_rep all r todo ->
  0 <= n < 2 ^ 64 ->
  exists r',
    skip_bytes P n r = Ok r'
    /\ reader_rep all r' (zdrop n todo).
Proof.
  intros (passed & rest & pb & gb & Hall & Hdata & Hpos & Heof & Hcpos & Hend
          & Hprev & Hpdone & Hcurr & Htodo) Hn.
  unfold skip_bytes.
  destruct (skip_bytes_loop_valid (S (length (stream_data (_data_stream r)))) n r
              passed rest pb gb)
    as (n' & r1 & todo1 & Hloop & Hrep & Hn' & Hdrop & Hcap); auto.
  { rewrite Hdata. pose proof (blocks_in_stream passed rest Hall). lia. }
  rewrite Hloop. cbn [bind]. rewrite <- Htodo in Hdrop.
  destruct Hrep as (passed1 & rest1 & pb1 & gb1 & Hall1 & Hdata1 & Hpos1 & Heof1
                    & Hcpos1 & Hend1 & Hprev1 & Hpdone1 & Hcurr1 & Htodo1).
  destruct (group_rep_sizes (_curr_blocks r1) gb1 Hcurr1) as (_ & _ & _ & _ & Hrem1 & _).
  pose proof (gr_read_pos all _ gb1 Hcurr1) as Hrp1.
  pose proof (zlen_group_data _ gb1 Hcurr1) as Hgd1.
  set (k := Z.min n' (remaining_size (_curr_blocks r1))).
  destruct (consume_group_rep (_curr_blocks r1) gb1 k Hcurr1) as (Hcons & Hg' & Hdata');
    [unfold k; lia|].
  rewrite Hcons. cbn [bind].
  eexists. split; [reflexivity|].
  exists passed1, rest1, pb1, gb1.
  cbn [_data_stream _prev_blocks _curr_blocks _local_end _compressed_pos
       _compressed_end].
  repeat (split; [assumption|]).
  rewrite Hdata', <- Hdrop, Htodo1.
  rewrite <- (zdrop_app_le k) by (unfold k; lia).
  rewrite <- Htodo1.
  destruct (Z.le_gt_cases n' (remaining_size (_curr_blocks r1))) as [Hfit|Hover].
  - unfold k. rewrite Z.min_l by lia. reflexivity.
  - assert (Hshort : zlen todo1 <= remaining_size (_curr_blocks r1))
      by (destruct Hcap; [lia|assumption]).
    rewrite (zdrop_all n') by lia.
    symmetry. apply zdrop_all. unfold k. lia.
Qed.

(** ** The constructor *)

Lemma new_blocks_rep : group_rep all new_blocks [].
Proof.
  constructor;
    first [reflexivity | discriminate | (exists [], all; reflexivity) | (cbn; lia)].
Qed.

Lemma shift_virtual_offset (c l : Z) :
  0 <= c -> 0 <= l < 65536 ->
  Z.shiftr (Z.shiftl c 16 + l) 16 = c /\ Z.land (Z.shiftl c 16 + l) 65535 = l.
Proof.
  intros Hc Hl. rewrite Z.shiftl_mul_pow2 by lia. change (2 ^ 16) with 65536.
  split.
  - rewrite Z.shiftr_div_pow2 by lia. change (2 ^ 16) with 65536.
    rewrite Z.add_comm, Z.div_add by lia. rewrite Z.div_small by lia. lia.
  - change 65535 with (Z.ones 16). rewrite Z.land_ones by lia.
    change (2 ^ 16) with 65536.
    rewrite Z.add_comm, Z.mod_add by lia. apply Z.mod_small. lia.
Qed.

Lemma constructor_valid (passed rest : list bgzf_block) (cend lend : Z) :
  all = passed ++ rest ->
  end_inside cend lend all ->
  0 <= cend -> lend < 65536 ->
  exists r,
    bgzip_data_chunk_reader P (open_stream (encode_stream all))
      (Z.shiftl (zlen (encode_stream passed)) 16) (Z.shiftl cend 16 + lend)
    = Ok r
    /\ reader_rep all r (in_range cend lend (zlen (encode_stream passed)) rest)
    /\ _compressed_end r = cend
    /\ _local_end r = lend.
Proof.
  intros Hall Hend Hc Hl. pose proof (proj1 Hend) as Hl0.
  pose proof (zlen_nonneg (encode_stream passed)) as Hp0.
  destruct (shift_virtual_offset cend lend Hc (conj Hl0 Hl)) as [Hce Hle].
  destruct (shift_virtual_offset (zlen (encode_stream passed)) 0 Hp0) as [Hcb Hlb];
    [lia|].
  rewrite Z.add_0_r in Hcb, Hlb.
  unfold bgzip_data_chunk_reader.
  cbn [_data_stream _prev_blocks _curr_blocks _local_end _compressed_pos
       _compressed_end].
  rewrite Hce, Hle, Hcb, Hlb.
  assert (Hopen : open_stream (encode_stream all)
                  = stream_at [] (encode_stream passed ++ encode_stream rest))
    by (rewrite Hall, encode_stream_app; reflexivity).
  rewrite Hopen, (stream_seekg_at _ [] _ _ eq_refl). cbn [bind app].
  destruct (read_next_compressed_chunk_valid chunk_load_size
              (stream_at (encode_stream passed) (encode_stream rest))
              new_blocks new_blocks lend cend passed rest [] [] Hend Hall)
    as (loaded & rest' & s' & curr' & Hrun & Hrest & Hd' & Hp' & He' & Hg' & Hrp'
        & Hfl' & Hsplit & _); auto using new_blocks_rep.
  { cbn [stream_at stream_data]. rewrite Hall, encode_stream_app. reflexivity. }
  { cbn [stream_at stream_eof]. discriminate. }
  rewrite Hrun. cbn [bind]. change (0 >? 0) with false. cbn match.
  eexists. split; [reflexivity|]. split; [|split; reflexivity].
  exists (passed ++ loaded), rest', [], loaded.
  cbn [_data_stream _prev_blocks _curr_blocks _local_end _compressed_pos
       _compressed_end].
  split; [rewrite Hall, Hrest, app_assoc; reflexivity|].
  repeat (split; [first [assumption|reflexivity|apply new_blocks_rep]|]).
  rewrite <- Hsplit. unfold group_data. rewrite Hrp', zdrop_0. reflexivity.
Qed.

Lemma in_range_whole (cend lend pos : Z) (rest : list bgzf_block) :
  Forall valid_block rest ->
  pos + zlen (encode_stream rest) <= cend ->
  in_range cend lend pos rest = contents rest.
Proof.
  intros Hv. revert pos. induction Hv as [|b rest Hb Hv IH]; intros pos Hle.
  - reflexivity.
  - rewrite encode_stream_cons, zlen_app, zlen_encode_block in Hle by exact Hb.
    pose proof (blk_size_lower b). pose proof (zlen_nonneg (blk_payload b)).
    pose proof (zlen_nonneg (encode_stream rest)).
    cbn [in_range].
    destruct (Z.gtb_spec pos cend); [lia|].
    destruct (Z.eqb_spec pos cend); [lia|].
    rewrite IH by lia. reflexivity.
Qed.

(** ** A sequence of get_next_chunk calls *)

Lemma ztake_add {A} (n m : Z) (l : list A) :
  0 <= n -> 0 <= m -> ztake n l ++ ztake m (zdrop n l) = ztake (n + m) l.
Proof.
  intros Hn Hm. rewrite <- (ztake_zdrop n l) at 3.
  destruct (Z.le_gt_cases n (zlen l)).
  - rewrite <- (zlen_ztake n l) at 3 by lia. rewrite ztake_app_more by lia. reflexivity.
  - rewrite (zdrop_all n) by lia. rewrite !ztake_0 || idtac.
    rewrite (ztake_all n) by lia. rewrite app_nil_r.
    unfold ztake at 1. cbn [firstn].
    rewrite ztake_all by lia.
    destruct (Z.to_nat m); rewrite app_nil_r; reflexivity.
Qed.

Lemma sum_sizes_nonneg (sizes : list Z) :
  Forall (fun n => 0 <= n) sizes -> 0 <= sum_sizes sizes.
Proof. induction 1; cbn [sum_sizes fold_right]; [lia|]. fold (sum_sizes l). lia. Qed.

Lemma read_chunks_refines (sizes : list Z) :
  Forall (fun n => 0 <= n) sizes ->
  forall (r : reader) (todo : list byte),
    reader_rep all r todo ->
    exists chunks r',
      read_chunks P sizes r = Ok (chunks, r')
      /\ reader_rep all r' (zdrop (sum_sizes sizes) todo)
      /\ concat chunks = ztake (sum_sizes sizes) todo
      /\ (sum_sizes sizes <= zlen todo -> map zlen chunks = sizes).
Proof.
  induction 1 as [|n sizes Hn Hsizes IH]; intros r todo Hrep.
  - exists [], r. repeat split; auto.
  - cbn [read_chunks sum_sizes fold_right]. fold (sum_sizes sizes).
    pose proof (sum_sizes_nonneg sizes Hsizes) as Hsum.
    destruct (get_next_chunk_refines r todo n Hrep Hn) as (r1 & Hget & Hrep1).
    rewrite Hget. cbn [bind].
    destruct (IH r1 _ Hrep1) as (chunks & r' & Hrun & Hrep' & Hcat & Hlen).
    rewrite Hrun. cbn [bind].
    exists (ztake n todo :: chunks), r'. split; [reflexivity|].
    split; [rewrite zdrop_zdrop in Hrep' by lia;
            replace (n + sum_sizes sizes) with (sum_sizes sizes + n) by lia;
            exact Hrep'|].
    split; [cbn [concat]; rewrite Hcat; apply ztake_add; lia|].
    intros Hfit. cbn [map]. rewrite zlen_ztake by lia.
    rewrite Hlen; [reflexivity|]. rewrite zlen_zdrop by lia. lia.
Qed.



(** ** The virtual end *)



Lemma end_inside_whole_file : end_inside (2 ^ 48 - 1) 65535 all.
Proof.
  split; [lia|]. intros passed b rest Hall Hlen. exfalso.
  destruct Hfile as [_ Hvalid _ Hsize].
  assert (Hvb : valid_block b).
  { rewrite Hall in Hvalid. apply Forall_app in Hvalid. destruct Hvalid as [_ Hv].
    inversion Hv; assumption. }
  rewrite Hall, encode_stream_app, encode_stream_cons, !zlen_app,
    zlen_encode_block in Hsize by exact Hvb.
  pose proof (blk_size_lower b). pose proof (zlen_nonneg (blk_payload b)).
  pose proof (zlen_nonneg (encode_stream rest)). lia.
Qed.





(** ** Every reader of the file is represented *)

Lemma constructor_reaches_rep (passed rest : list bgzf_block) (cend lend lp : Z) :
  all = passed ++ rest ->
  end_inside cend lend all ->
  0 <= cend -> lend < 65536 -> 0 <= lp < 65536 ->
  match bgzip_data_chunk_reader P (open_stream (encode_stream all))
          (Z.shiftl (zlen (encode_stream passed)) 16 + lp)
          (Z.shiftl cend 16 + lend) with
  | Ok r =>
      reader_rep all r (zdrop lp (in_range cend lend (zlen (encode_stream passed)) rest))
  | Err e => is_bounds_error e = true
  end.
Proof.
  intros Hall Hend Hc Hl Hlp. pose proof (proj1 Hend) as Hl0.
  pose proof (zlen_nonneg (encode_stream passed)) as Hp0.
  destruct (shift_virtual_offset cend lend Hc (conj Hl0 Hl)) as [Hce Hle].
  destruct (shift_virtual_offset (zlen (encode_stream passed)) lp Hp0 Hlp) as [Hcb Hlb].
  unfold bgzip_data_chunk_reader.
  cbn [_data_stream _prev_blocks _curr_blocks _local_end _compressed_pos
       _compressed_end].
  rewrite Hce, Hle, Hcb, Hlb.
  assert (Hopen : open_stream (encode_stream all)
                  = stream_at [] (encode_stream passed ++ encode_stream rest))
    by (rewrite Hall, encode_stream_app; reflexivity).
  rewrite Hopen, (stream_seekg_at _ [] _ _ eq_refl). cbn [bind app].
  destruct (read_next_compressed_chunk_valid chunk_load_size
              (stream_at (encode_stream passed) (encode_stream rest))
              new_blocks new_blocks lend cend passed rest [] [] Hend Hall)
    as (loaded & rest' & s' & curr' & Hrun & Hrest & Hd' & Hp' & He' & Hg' & Hrp'
        & Hfl' & Hsplit & _); auto using new_blocks_rep.
  { cbn [stream_at stream_data]. rewrite Hall, encode_stream_app. reflexivity. }
  { cbn [stream_at stream_eof]. discriminate. }
  rewrite Hrun. cbn [bind _curr_blocks _data_stream _prev_blocks _local_end
                     _compressed_pos _compressed_end].
  assert (Hdata : group_data curr' loaded
                  = ztake (available_decompressed_size curr') (contents loaded))
    by (unfold group_data; rewrite Hrp', zdrop_0; reflexivity).
  assert (Hall' : all = (passed ++ loaded) ++ rest')
    by (rewrite Hall, Hrest, app_assoc; reflexivity).
  destruct (Z.gtb_spec lp 0) as [Hpos|Hzero].
  - destruct (_ && _); cbn [CUDF_EXPECTS bind]; [|reflexivity].
    destruct (group_rep_sizes curr' loaded Hg') as (_ & _ & _ & Hcsz & Hrem & _).
    pose proof (zlen_group_data curr' loaded Hg') as Hgd.
    pose proof (gr_available all curr' loaded Hg') as Hav.
    rewrite consume_bytes_spec, Hrem, Hrp', Z.sub_0_r.
    destruct (Z.leb_spec lp (available_decompressed_size curr')) as [Hfit|];
      [|reflexivity].
    destruct (consume_group_rep curr' loaded lp Hg') as (_ & Hg2 & Hd2);
      [rewrite Hrp'; lia|].
    rewrite Hrp' in Hg2, Hd2. rewrite wrap64_small by lia.
    exists (passed ++ loaded), rest', [], loaded.
    cbn [_data_stream _prev_blocks _curr_blocks _local_end _compressed_pos
         _compressed_end].
    split; [exact Hall'|].
    repeat (split; [first [assumption|reflexivity|apply new_blocks_rep]|]).
    rewrite Hd2, <- Hsplit, <- Hdata. apply zdrop_app_le.
    rewrite Hgd, Hrp'. lia.
  - assert (lp = 0) by lia. subst lp. rewrite zdrop_0.
    exists (passed ++ loaded), rest', [], loaded.
    cbn [_data_stream _prev_blocks _curr_blocks _local_end _compressed_pos
         _compressed_end].
    split; [exact Hall'|].
    repeat (split; [first [assumption|reflexivity|apply new_blocks_rep]|]).
    rewrite <- Hsplit, Hdata. reflexivity.
Qed.

Lemma reachable_reader_rep (r : reader) :
  reachable_reader P all r -> exists todo, reader_rep all r todo.
Proof.
  induction 1 as [passed rest cend lend lp r Hall Hend Hc Hl Hlp Hctor
                 |r n data r' _ [todo IH] Hn Hget
                 |r n r' _ [todo IH] Hn Hskip].
  - pose proof (constructor_reaches_rep passed rest cend lend lp Hall Hend Hc Hl Hlp)
      as Hrep.
    rewrite Hctor in Hrep. eexists. exact Hrep.
  - destruct (get_next_chunk_refines r todo n IH Hn) as (r1 & Hget1 & Hrep).
    rewrite Hget in Hget1. injection Hget1 as _ <-. eexists. exact Hrep.
  - destruct (skip_bytes_refines r todo n IH Hn) as (r1 & Hskip1 & Hrep).
    rewrite Hskip in Hskip1. injection Hskip1 as <-. eexists. exact Hrep.
Qed.

End File.

(* ------------------------------------------------------------------ *)
(** * The reader on a well-formed file: the properties of the specification *)

Lemma example_file_valid : valid_file run_length_platform example_file.
Proof.
  constructor.
  - reflexivity.
  - repeat constructor; try reflexivity; try (intros f []);
      try (vm_compute; discriminate).
  - intros b [<-|[<-|[<-|[]]]]; reflexivity.
  - vm_compute. reflexivity.
Qed.

(** C1: for a file of well-formed blocks that the backend decompresses
    correctly, a reader over the whole file, asked for chunks whose sizes add
    up to the length of the data, returns chunks of exactly these sizes whose
    concatenation is the original data, whatever the sizes. *)
Theorem round_trip (P : platform) (all : list bgzf_block) (sizes : list Z) :
  valid_file P all ->
  Forall (fun n => 0 <= n) sizes ->
  sum_sizes sizes = zlen (contents all) ->
  exists r chunks r',
    bgzip_data_chunk_reader P (open_stream (encode_stream all)) 0 whole_file = Ok r
    /\ read_chunks P sizes r = Ok (chunks, r')
    /\ concat chunks = contents all
    /\ map zlen chunks = sizes.
Proof.
  intros Hfile Hsizes Hsum.
  destruct (constructor_valid P all Hfile [] all (2 ^ 48 - 1) 65535 eq_refl
              (end_inside_whole_file P all Hfile)) as (r & Hctor & Hrep & _);
    [lia|lia|].
  change (Z.shiftl (zlen (encode_stream [])) 16) with 0 in Hctor.
  change (Z.shiftl (2 ^ 48 - 1) 16 + 65535) with whole_file in Hctor.
  rewrite in_range_whole in Hrep.
  2:{ apply (vf_blocks P all Hfile). }
  2:{ pose proof (vf_size P all Hfile). cbn [encode_stream map concat].
      rewrite zlen_nil. lia. }
  destruct (read_chunks_refines P all Hfile sizes Hsizes r _ Hrep)
    as (chunks & r' & Hrun & _ & Hcat & Hlen).
  exists r, chunks, r'. split; [exact Hctor|]. split; [exact Hrun|].
  split; [rewrite Hcat, Hsum; apply ztake_all; lia|].
  apply Hlen. lia.
Qed.

Lemma round_trip_witness :
  exists r chunks r',
    bgzip_data_chunk_reader run_length_platform
      (open_stream (encode_stream example_file)) 0 whole_file = Ok r
    /\ read_chunks run_length_platform [1; 0; 7; 5] r = Ok (chunks, r')
    /\ concat chunks = contents example_file
    /\ map zlen chunks = [1; 0; 7; 5].
Proof.
  apply round_trip.
  - exact example_file_valid.
  - repeat constructor; lia.
  - reflexivity.
Defined.

Lemma example_reader_reachable (r : reader) :
  bgzip_data_chunk_reader run_length_platform
    (open_stream (encode_stream example_file)) 0 whole_file = Ok r ->
  reachable_reader run_length_platform example_file r.
Proof.
  intros Hctor.
  apply (reach_constructed run_length_platform example_file [] example_file
           (2 ^ 48 - 1) 65535 0 r eq_refl
           (end_inside_whole_file _ _ example_file_valid));
    [lia|lia|lia|exact Hctor].
Qed.



(** C8 (as amended): in every state a reader reaches on a well-formed
    file, skip_bytes(n) raises no error; it moves the logical read position
    forward by exactly n when at least n bytes in range remain, and to the
    end of the range otherwise, so that the next chunk is what follows the
    skipped bytes. *)
Theorem skip_bytes_on_valid_file (P : platform) (all : list bgzf_block)
        (r : reader) (n : Z) :
  valid_file P all ->
  reachable_reader P all r ->
  0 <= n < 2 ^ 64 ->
  exists todo r',
    reader_rep all r todo
    /\ skip_bytes P n r = Ok r'
    /\ reader_rep all r' (zdrop n todo)
    /\ zlen (zdrop n todo) = zlen todo - Z.min n (zlen todo)
    /\ forall m, 0 <= m ->
         exists data r'',
           get_next_chunk P m r' = Ok (data, r'')
           /\ data = ztake m (zdrop n todo).
Proof.
  intros Hfile Hreach Hn.
  destruct (reachable_reader_rep P all Hfile r Hreach) as [todo Hrep].
  destruct (skip_bytes_refines P all Hfile r todo n Hrep Hn) as (r' & Hskip & Hrep').
  exists todo, r'. split; [exact Hrep|]. split; [exact Hskip|]. split; [exact Hrep'|].
  pose proof (zlen_nonneg todo) as Ht.
  split.
  - destruct (Z.le_gt_cases n (zlen todo)).
    + rewrite zlen_zdrop by lia. lia.
    + rewrite zdrop_all by lia. rewrite zlen_nil. lia.
  - intros m Hm.
    destruct (get_next_chunk_refines P all Hfile r' _ m Hrep' Hm) as (r'' & Hget & _).
    exists (ztake m (zdrop n todo)), r''. split; [exact Hget|reflexivity].
Qed.

Lemma skip_bytes_on_valid_file_witness :
  exists r r',
    bgzip_data_chunk_reader run_length_platform
      (open_stream (encode_stream example_file)) 0 whole_file = Ok r
    /\ skip_bytes run_length_platform 9 r = Ok r'
    /\ read_pos (_curr_blocks r') = 9.
Proof.
  destruct (bgzip_data_chunk_reader run_length_platform
              (open_stream (encode_stream example_file)) 0 whole_file)
    as [r|e] eqn:Hctor; [|vm_compute in Hctor; discriminate Hctor].
  destruct (skip_bytes_on_valid_file run_length_platform example_file r 9
              example_file_valid (example_reader_reachable r Hctor))
    as (todo & r' & _ & Hskip & _); [lia|].
  exists r, r'. split; [reflexivity|]. split; [exact Hskip|].
  vm_compute in Hctor. injection Hctor as <-.
  vm_compute in Hskip. injection Hskip as <-. reflexivity.
Defined.

(** C8 as stated fails: skip_bytes loads the next chunk, and the parser's
    checks fail there as anywhere else.  On a stream whose first block
    announces 2^24 bytes and whose second header is malformed, the reader is
    constructed, and skipping 2^24 + 1 bytes raises "malformed BGZIP
    header". *)
Lemma skip_bytes_raises_counterexample :
  match bgzip_data_chunk_reader stored_platform (open_stream broken_stream)
                                0 whole_file with
  | Ok r => skip_bytes stored_platform (2 ^ 24 + 1) r
            = Err (logic_error "malformed BGZIP header")
  | Err _ => False
  end.
Proof. vm_compute. reflexivity. Qed.




(* ------------------------------------------------------------------ *)
(** * The invariants at work on the example file *)

Lemma read_pos_invariant_witness :
  match bgzip_data_chunk_reader run_length_platform
          (open_stream (encode_stream example_file)) 0 whole_file with
  | Ok r =>
      reader_pos_inv r
      /\ match get_next_chunk run_length_platform 4 r with
         | Ok (_, r') => reader_pos_inv r' /\ read_pos (_curr_blocks r') = 4
         | Err _ => False
         end
  | Err _ => False
  end.
Proof.
  destruct (read_pos_invariant run_length_platform)
    as (Hctor & _ & _ & _ & _ & Hget & _).
  specialize (Hctor (open_stream (encode_stream example_file)) 0 whole_file).
  destruct (bgzip_data_chunk_reader run_length_platform
              (open_stream (encode_stream example_file)) 0 whole_file)
    as [r|e] eqn:E; [|vm_compute in E; discriminate E].
  split; [exact Hctor|].
  assert (H4 : 0 <= 4) by lia.
  specialize (Hget r 4 Hctor H4).
  vm_compute in E. injection E as <-.
  destruct (get_next_chunk run_length_platform 4 _) as [[data r']|e] eqn:E';
    [|vm_compute in E'; discriminate E'].
  split; [exact Hget|].
  vm_compute in E'. injection E' as _ <-. reflexivity.
Defined.


(* ------------------------------------------------------------------ *)
(** * The fuel of the loops is enough

    Every iteration of a loop moves the get position of the stream forward,
    and a read past the end of the file raises: the loops end, on any
    stream, before the fuel derived from the size of the file is used up. *)

Lemma bind_no_fuel {A B} (m : result A) (k : A -> result B) :
  m <> Err out_of_fuel ->
  (forall a, m = Ok a -> k a <> Err out_of_fuel) ->
  bind m k <> Err out_of_fuel.
Proof.
  intros Hm Hk. destruct m as [a|e]; cbn [bind]; [apply Hk; reflexivity|].
  intros [= ->]. apply Hm. reflexivity.
Qed.

Lemma expects_no_fuel (c : bool) (msg : String.string) :
  CUDF_EXPECTS c msg <> Err out_of_fuel.
Proof. destruct c; discriminate. Qed.

Lemma stream_read_no_fuel (n : Z) (s : istream) :
  stream_read n s <> Err out_of_fuel.
Proof.
  unfold stream_read.
  repeat match goal with
         | |- context [if ?c then _ else _] => destruct c
         end; discriminate.
Qed.

Lemma stream_seekg_no_fuel (off : Z) (s : istream) :
  stream_seekg_cur off s <> Err out_of_fuel.
Proof. unfold stream_seekg_cur. destruct (_ <? 0); discriminate. Qed.

Lemma stream_peek_no_fuel (s : istream) : stream_peek s <> Err out_of_fuel.
Proof.
  unfold stream_peek.
  repeat match goal with
         | |- context [if ?c then _ else _] => destruct c
         end; discriminate.
Qed.

Lemma consume_bytes_no_fuel (size : Z) (g : decompression_blocks) :
  consume_bytes size g <> Err out_of_fuel.
Proof. rewrite consume_bytes_spec. destruct (_ <=? _); discriminate. Qed.

Lemma read_block_no_fuel (h : bgzip_header) (s : istream) (g : decompression_blocks) :
  read_block h s g <> Err out_of_fuel.
Proof.
  unfold read_block. destruct (_ <=? _); [discriminate|].
  apply bind_no_fuel; [apply stream_read_no_fuel|]. intros [bytes s'] _. discriminate.
Qed.

Lemma read_footer_no_fuel (P : platform) (s : istream) :
  read_footer P s <> Err out_of_fuel.
Proof.
  unfold read_footer.
  apply bind_no_fuel; [apply stream_read_no_fuel|]. intros [bytes s'] _. discriminate.
Qed.

Lemma read_header_loop_fuel (P : platform) (fuel : nat) (xl off : Z)
      (buffer : list byte) (s : istream) :
  0 <= stream_pos s ->
  Z.max 0 (stream_size s - stream_pos s) < 4 * Z.of_nat fuel ->
  read_header_loop P fuel xl off buffer s <> Err out_of_fuel.
Proof.
  revert off buffer s. induction fuel as [|fuel IH]; intros off buffer s Hpos Hfuel;
    [lia|].
  cbn [read_header_loop]. destruct (off <? xl); [|discriminate].
  apply bind_no_fuel; [apply expects_no_fuel|]. intros _ _.
  apply bind_no_fuel; [apply stream_read_no_fuel|]. intros [b4 s1] Hr4.
  apply stream_read_ok in Hr4; [|exact Hpos].
  destruct Hr4 as (_ & _ & _ & -> & Hsz). specialize (Hsz ltac:(lia)).
  destruct (_ && _).
  - apply bind_no_fuel; [apply expects_no_fuel|]. intros _ _.
    apply bind_no_fuel; [apply stream_read_no_fuel|]. intros [b2 s2] _.
    apply bind_no_fuel; [apply stream_seekg_no_fuel|]. intros s3 _. discriminate.
  - apply bind_no_fuel; [apply stream_seekg_no_fuel|]. intros s3 Hsk.
    apply stream_seekg_ok in Hsk. destruct Hsk as [-> Hsk].
    cbn [stream_pos stream_data] in Hsk.
    pose proof (read_int_range (host_byte_order P) 2
                  (skipn 2 (buffer_store b4 buffer))) as Hri.
    apply IH; unfold stream_size in *; cbn [stream_pos stream_data] in *; lia.
Qed.

Lemma read_header_fuel_enough (P : platform) (s : istream) :
  0 <= stream_pos s -> read_header P s <> Err out_of_fuel.
Proof.
  intros Hpos. unfold read_header.
  apply bind_no_fuel; [apply stream_read_no_fuel|]. intros [buffer s1] Hr.
  apply stream_read_ok in Hr; [|exact Hpos]. destruct Hr as (_ & _ & _ & -> & _).
  apply bind_no_fuel; [apply expects_no_fuel|]. intros _ _.
  apply read_header_loop_fuel; unfold stream_size, zlen;
    cbn [stream_pos stream_data]; lia.
Qed.

(** One pass through the body of the accumulation loop. *)
Lemma read_chunk_loop_fuel (P : platform) (fuel : nat) (n : Z) (r : reader) :
  0 <= stream_pos (_data_stream r) ->
  Z.max 0 (stream_size (_data_stream r) - stream_pos (_data_stream r))
  < Z.of_nat fuel ->
  read_chunk_loop P fuel n r <> Err out_of_fuel.
Proof.
  revert r. induction fuel as [|fuel IH]; intros r Hpos Hfuel; [lia|].
  cbn [read_chunk_loop]. destruct (_ <? n); [|discriminate].
  destruct (stream_eof (_data_stream r)); [discriminate|].
  apply bind_no_fuel; [apply stream_peek_no_fuel|]. intros s0 Hpeek.
  apply stream_peek_ok in Hpeek. destruct Hpeek as (_ & Hd0 & Hp0 & _).
  destruct (_ || _); [discriminate|].
  apply bind_no_fuel; [apply read_header_fuel_enough; lia|]. intros [header s1] Hrh.
  apply read_header_ok in Hrh; [|lia]. destruct Hrh as (_ & _ & Hd1 & Hp1 & _).
  apply bind_no_fuel; [apply read_block_no_fuel|]. intros [curr s2] Hrb.
  assert (Hs2 : stream_data s2 = stream_data s1 /\ stream_pos s1 <= stream_pos s2).
  { revert Hrb. unfold read_block. destruct (_ <=? _); [discriminate|].
    destruct (stream_read (data_size header) s1) as [[bytes s2']|e] eqn:Hr;
      cbn [bind]; [|discriminate].
    intros [= _ <-]. apply stream_read_ok in Hr; [|lia].
    destruct Hr as (Hn & _ & _ & -> & _). cbn [stream_data stream_pos]. split; [auto|lia]. }
  destruct Hs2 as [Hd2 Hp2].
  apply bind_no_fuel; [apply read_footer_no_fuel|]. intros [footer s3] Hrf.
  apply read_footer_ok in Hrf; [|lia]. destruct Hrf as (_ & -> & Hsz).
  destruct (_ =? _); [discriminate|].
  apply IH; cbn [_data_stream stream_pos stream_data]; unfold stream_size in *;
    cbn [stream_data]; rewrite ?Hd2, ?Hd1, ?Hd0 in *; lia.
Qed.

Lemma read_next_compressed_chunk_fuel_enough (P : platform) (n : Z) (r : reader) :
  0 <= stream_pos (_data_stream r) ->
  read_next_compressed_chunk P n r <> Err out_of_fuel.
Proof.
  intros Hpos. unfold read_next_compressed_chunk.
  apply read_chunk_loop_fuel; cbn [_data_stream]; [exact Hpos|].
  unfold stream_size, zlen. lia.
Qed.

(** What a pass of the accumulation loop does to the stream: it never moves
    back, and it stays where it was only at the end of the file or past the
    end of the range. *)
Lemma read_chunk_loop_progress (P : platform) (fuel : nat) (n : Z) (r r' : reader) :
  0 <= stream_pos (_data_stream r) ->
  hd_error (h_decompressed_offsets (_curr_blocks r)) = Some 0 ->
  read_chunk_loop P fuel n r = Ok r' ->
  stream_data (_data_stream r') = stream_data (_data_stream r)
  /\ stream_pos (_data_stream r) <= stream_pos (_data_stream r')
  /\ _compressed_end r' = _compressed_end r
  /\ _prev_blocks r' = _prev_blocks r
  /\ hd_error (h_decompressed_offsets (_curr_blocks r')) = Some 0
  /\ (decompressed_size (_curr_blocks r) < n ->
      stream_pos (_data_stream r') = stream_pos (_data_stream r) ->
      stream_eof (_data_stream r') = true \/ _compressed_pos r' > _compressed_end r')
  /\ (stream_pos (_data_stream r) < stream_pos (_data_stream r') ->
      stream_pos (_data_stream r) + 24 <= stream_pos (_data_stream r')
      /\ stream_pos (_data_stream r') <= stream_size (_data_stream r')).
Proof.
  revert r. induction fuel as [|fuel IH]; intros r Hpos Hhd; [discriminate|].
  cbn [read_chunk_loop].
  destruct (Z.ltb_spec (decompressed_size (_curr_blocks r)) n) as [Hlt|Hge].
  2:{ intros [= <-]. repeat split; auto; lia. }
  destruct (stream_eof (_data_stream r)) eqn:He.
  { intros [= <-]. repeat split; auto; lia. }
  destruct (stream_peek (_data_stream r)) as [s0|e] eqn:Hpeek; cbn [bind];
    [|discriminate].
  apply stream_peek_ok in Hpeek. destruct Hpeek as (_ & Hd0 & Hp0 & _).
  destruct (stream_eof s0) eqn:He0; cbn [orb].
  { intros [= <-]. cbn [_data_stream _compressed_end _prev_blocks _curr_blocks
                        _compressed_pos].
    repeat split; auto; lia. }
  destruct (Z.gtb_spec (_compressed_pos r) (_compressed_end r)) as [Hpast|Hin].
  { intros [= <-]. cbn [_data_stream _compressed_end _prev_blocks _curr_blocks
                        _compressed_pos].
    repeat split; auto; lia. }
  destruct (read_header P s0) as [[header s1]|e] eqn:Hrh; cbn [bind]; [|discriminate].
  apply read_header_ok in Hrh; [|lia]. destruct Hrh as (_ & _ & Hd1 & Hp1 & _).
  destruct (read_block header s1 (_curr_blocks r)) as [[curr s2]|e] eqn:Hrb;
    cbn [bind]; [|discriminate].
  assert (Hs2 : stream_data s2 = stream_data s1 /\ stream_pos s1 <= stream_pos s2).
  { revert Hrb. unfold read_block. destruct (_ <=? _); [discriminate|].
    destruct (stream_read (data_size header) s1) as [[bytes s2']|e] eqn:Hr;
      cbn [bind]; [|discriminate].
    intros [= _ <-]. apply stream_read_ok in Hr; [|lia].
    destruct Hr as (Hn & _ & _ & -> & _). cbn [stream_data stream_pos]. split; [auto|lia]. }
  destruct Hs2 as [Hd2 Hp2].
  apply read_block_scalars in Hrb. destruct Hrb as (_ & _ & _ & Hdo & _).
  destruct (read_footer P s2) as [[footer s3]|e] eqn:Hrf; cbn [bind]; [|discriminate].
  apply read_footer_ok in Hrf; [|lia]. destruct Hrf as (_ & -> & Hsz).
  assert (Hhd' : forall a,
             hd_error (h_decompressed_offsets
                         (set_available a (add_block_offsets header footer curr)))
             = Some 0).
  { intros a. cbn [set_available add_block_offsets h_decompressed_offsets].
    apply hd_error_snoc. rewrite Hdo. exact Hhd. }
  assert (Hsize : stream_size (mk_istream (stream_data s2) (stream_pos s2 + 8) false)
                  = stream_size s2) by reflexivity.
  destruct (_ =? _).
  - intros [= <-]. cbn [_data_stream _compressed_end _prev_blocks _curr_blocks
                        _compressed_pos stream_data stream_pos].
    rewrite Hsize. unfold stream_size in *.
    split; [congruence|]. split; [lia|]. split; [reflexivity|].
    split; [reflexivity|]. split; [apply Hhd'|]. split; lia.
  - intros Hloop. apply IH in Hloop;
      cbn [_data_stream _compressed_end _prev_blocks _curr_blocks _compressed_pos
           stream_data stream_pos] in *; [|lia|apply Hhd'].
    destruct Hloop as (Hd' & Hp' & Hce & Hpv & Hh & _ & Hadv).
    split; [congruence|]. split; [lia|]. split; [exact Hce|]. split; [exact Hpv|].
    split; [exact Hh|]. split; [lia|]. intros _.
    split; [lia|].
    destruct (Z.eq_dec (stream_pos (_data_stream r')) (stream_pos s2 + 8)) as [Heq|Hne].
    + unfold stream_size in *. rewrite Hd', Heq. lia.
    + apply Hadv. lia.
Qed.

Lemma skip_bytes_loop_fuel (P : platform) (fuel : nat) (n : Z) (r : reader) :
  0 <= stream_pos (_data_stream r) ->
  heads_zero r ->
  Z.max 0 (stream_size (_data_stream r) - stream_pos (_data_stream r))
  < Z.of_nat fuel ->
  skip_bytes_loop P fuel n r <> Err out_of_fuel.
Proof.
  revert n r. induction fuel as [|fuel IH]; intros n r Hpos [Hhp Hhc] Hfuel; [lia|].
  cbn [skip_bytes_loop]. destruct (n >? _); [|discriminate].
  apply bind_no_fuel; [apply consume_bytes_no_fuel|]. intros curr Hcons.
  apply consume_bytes_fields in Hcons. destruct Hcons as [-> _].
  apply bind_no_fuel; [apply read_next_compressed_chunk_fuel_enough; exact Hpos|].
  intros r1 Hnext. unfold read_next_compressed_chunk in Hnext.
  cbn [_data_stream _prev_blocks _curr_blocks _local_end _compressed_pos
       _compressed_end] in Hnext.
  assert (Hreset : hd_error (h_decompressed_offsets (reset (_prev_blocks r))) = Some 0).
  { unfold reset. cbn [h_decompressed_offsets]. rewrite (vec_resize_one _ Hhp).
    reflexivity. }
  apply read_chunk_loop_progress in Hnext; cbn [_data_stream _curr_blocks]; auto.
  cbn [_data_stream _prev_blocks _curr_blocks _compressed_end] in Hnext.
  destruct Hnext as (Hd1 & Hp1 & Hce & Hpv & Hh1 & Hstay & Hadv).
  destruct (stream_eof (_data_stream r1)) eqn:He1; [discriminate|].
  apply bind_no_fuel; [apply stream_peek_no_fuel|]. intros s2 Hpeek.
  apply stream_peek_ok in Hpeek. destruct Hpeek as (_ & Hd2 & Hp2 & _).
  cbn [_data_stream _compressed_pos _compressed_end].
  destruct (stream_eof s2) eqn:He2; cbn [orb]; [discriminate|].
  destruct (Z.gtb_spec (_compressed_pos r1) (_compressed_end r1)) as [Hpast|Hin];
    [discriminate|].
  assert (Hmoved : stream_pos (_data_stream r) < stream_pos (_data_stream r1)).
  { destruct (Z.eq_dec (stream_pos (_data_stream r1)) (stream_pos (_data_stream r)))
      as [Heq|Hne]; [|lia].
    destruct Hstay as [Hs|Hs]; [| |congruence|lia]; [|exact Heq].
    unfold decompressed_size, reset. cbn [h_decompressed_offsets].
    rewrite (vec_resize_one _ Hhp). cbn [last]. unfold chunk_load_size. lia. }
  specialize (Hadv Hmoved). destruct Hadv as [Hadv1 Hadv2].
  apply IH; cbn [_data_stream _prev_blocks _curr_blocks].
  - lia.
  - split; [rewrite Hpv; cbn [set_read_pos h_decompressed_offsets]; exact Hhc|exact Hh1].
  - unfold stream_size in *. rewrite Hd2, Hp2. rewrite Hd1 in *. lia.
Qed.

Lemma skip_bytes_fuel_enough (P : platform) (n : Z) (r : reader) :
  0 <= stream_pos (_data_stream r) ->
  heads_zero r ->
  skip_bytes P n r <> Err out_of_fuel.
Proof.
  intros Hpos Hh. unfold skip_bytes.
  apply bind_no_fuel.
  - apply skip_bytes_loop_fuel; auto. unfold stream_size, zlen. lia.
  - intros [n' r'] _. apply bind_no_fuel; [apply consume_bytes_no_fuel|].
    intros curr _. discriminate.
Qed.

Lemma get_next_chunk_fuel_enough (P : platform) (n : Z) (r : reader) :
  0 <= stream_pos (_data_stream r) ->
  get_next_chunk P n r <> Err out_of_fuel.
Proof.
  intros Hpos. unfold get_next_chunk. destruct (_ <=? _).
  - apply bind_no_fuel; [apply consume_bytes_no_fuel|]. intros curr _. discriminate.
  - apply bind_no_fuel; [apply read_next_compressed_chunk_fuel_enough; exact Hpos|].
    intros r1 _. apply bind_no_fuel; [apply consume_bytes_no_fuel|]. intros prev _.
    apply bind_no_fuel; [apply consume_bytes_no_fuel|]. intros curr _. discriminate.
Qed.

Lemma constructor_fuel_enough (P : platform) (bytes : list byte) (vb ve : Z) :
  bgzip_data_chunk_reader P (open_stream bytes) vb ve <> Err out_of_fuel.
Proof.
  unfold bgzip_data_chunk_reader.
  cbn [_data_stream _prev_blocks _curr_blocks _local_end _compressed_pos
       _compressed_end].
  apply bind_no_fuel; [apply stream_seekg_no_fuel|]. intros s Hsk.
  apply stream_seekg_ok in Hsk. destruct Hsk as [-> Hsk].
  apply bind_no_fuel;
    [apply read_next_compressed_chunk_fuel_enough; cbn [_data_stream stream_pos]; lia|].
  intros r _. destruct (_ >? 0); [|discriminate].
  apply bind_no_fuel; [apply expects_no_fuel|]. intros _ _.
  apply bind_no_fuel; [apply consume_bytes_no_fuel|]. intros curr _. discriminate.
Qed.

(* ------------------------------------------------------------------ *)
(** * Further properties of the parser and of the block groups *)

Lemma read_header_loop_position (P : platform) (fuel : nat) (xl : Z) :
  forall (off : Z) (buffer : list byte) (s s' : istream) (h : bgzip_header),
    0 <= stream_pos s ->
    0 <= off < 65536 ->
    read_header_loop P fuel xl off buffer s = Ok (h, s') ->
    exists k, 0 <= k /\ stream_pos s' = stream_pos s + (xl - off) + 65536 * k.
Proof.
  induction fuel as [|fuel IH]; intros off buffer s s' h Hpos Hoff;
    cbn [read_header_loop]; [discriminate|].
  destruct (off <? xl); [|discriminate].
  destruct (Z.geb_spec (xl - off) 4) as [Hrem|]; cbn [CUDF_EXPECTS bind];
    [|discriminate].
  destruct (stream_read 4 s) as [[b4 s1]|e] eqn:Hr4; cbn [bind]; [|discriminate].
  apply stream_read_ok in Hr4; [|exact Hpos].
  destruct Hr4 as (_ & _ & _ & -> & _).
  destruct (_ && _).
  - destruct (_ =? 2); cbn [CUDF_EXPECTS bind]; [|discriminate].
    destruct (stream_read 2 _) as [[b2 s2]|e] eqn:Hr2; cbn [bind]; [|discriminate].
    apply stream_read_ok in Hr2; [|simpl; lia].
    destruct Hr2 as (_ & _ & _ & -> & _). cbn [stream_data stream_pos] in *.
    destruct (stream_seekg_cur _ _) as [s3|e] eqn:Hsk; cbn [bind]; [|discriminate].
    apply stream_seekg_ok in Hsk. destruct Hsk as [-> Hsk].
    cbn [stream_data stream_pos] in *.
    intros [= _ <-]. cbn [stream_pos]. exists 0. lia.
  - destruct (stream_seekg_cur _ _) as [s3|e] eqn:Hsk; cbn [bind]; [|discriminate].
    apply stream_seekg_ok in Hsk. destruct Hsk as [-> Hsk].
    cbn [stream_data stream_pos] in *.
    pose proof (read_int_range (host_byte_order P) 2
                  (skipn 2 (buffer_store b4 buffer))) as Hri.
    change (256 ^ Z.of_nat 2) with 65536 in Hri.
    set (sub := read_int (host_byte_order P) 2 (skipn 2 (buffer_store b4 buffer))) in *.
    intros Hloop. apply IH in Hloop; [|cbn [stream_pos]; lia|].
    + cbn [stream_pos] in Hloop. destruct Hloop as (k & Hk & ->).
      assert (Hw : wrap16 (wrap16 (off + 4) + sub) = (off + 4 + sub) mod 65536).
      { unfold wrap16. change (2 ^ 16) with 65536.
        rewrite Z.add_mod_idemp_l by lia. reflexivity. }
      rewrite Hw.
      pose proof (Z.div_mod (off + 4 + sub) 65536 ltac:(lia)) as Hdm.
      assert (0 <= (off + 4 + sub) / 65536) by (apply Z.div_pos; lia).
      exists (k + (off + 4 + sub) / 65536). lia.
    + unfold wrap16. change (2 ^ 16) with 65536.
      apply Z.mod_pos_bound. lia.
Qed.

(** X1: whenever read_header returns, on any stream and any host, the
    header it returns has 1 <= block_size <= 65536 and
    0 <= extra_length <= 65535, the eofbit is clear, and the stream stands
    12 + extra_length bytes behind where it stood, plus a multiple of 65536
    (the 16-bit counter of the scan wraps when the subfield lengths overrun
    the extra field). *)
Theorem read_header_returns (P : platform) (s s' : istream) (h : bgzip_header) :
  0 <= stream_pos s ->
  read_header P s = Ok (h, s') ->
  0 <= extra_length h <= 65535
  /\ 1 <= block_size h <= 65536
  /\ stream_data s' = stream_data s
  /\ stream_eof s' = false
  /\ exists k, 0 <= k
       /\ stream_pos s' = stream_pos s + 12 + extra_length h + 65536 * k.
Proof.
  intros Hpos Hrun.
  destruct (read_header_ok P s s' h Hpos Hrun) as (Hx & Hb & Hd & _ & He).
  split; [exact Hx|]. split; [exact Hb|]. split; [exact Hd|]. split; [exact He|].
  unfold read_header in Hrun.
  destruct (stream_read 12 s) as [[buffer s1]|e] eqn:Hr; cbn [bind] in Hrun;
    [|discriminate].
  apply stream_read_ok in Hr; [|exact Hpos]. destruct Hr as (_ & _ & _ & -> & _).
  destruct (forallb _ _); cbn [CUDF_EXPECTS bind] in Hrun; [|discriminate].
  pose proof Hrun as Hxl.
  apply read_header_loop_ok in Hxl; [|cbn [stream_pos]; lia].
  destruct Hxl as (Hxl & _).
  apply read_header_loop_position in Hrun; [|cbn [stream_pos]; lia|lia].
  cbn [stream_pos] in Hrun. destruct Hrun as (k & Hk & ->).
  exists k. split; [exact Hk|]. rewrite Hxl. lia.
Qed.

Lemma read_header_returns_witness :
  exists h s',
    read_header stored_platform (open_stream (encode_block stored_block)) = Ok (h, s')
    /\ block_size h = 29
    /\ stream_pos s' = 18.
Proof.
  destruct (read_header stored_platform (open_stream (encode_block stored_block)))
    as [[h s']|e] eqn:Hrun; [|vm_compute in Hrun; discriminate Hrun].
  assert (Hpos : 0 <= stream_pos (open_stream (encode_block stored_block)))
    by (cbn [open_stream stream_pos]; lia).
  pose proof (read_header_returns stored_platform _ s' h Hpos Hrun) as H.
  exists h, s'. split; [reflexivity|].
  vm_compute in Hrun. injection Hrun as <- <-. split; reflexivity.
Defined.

(** X2: read_footer needs eight bytes and looks at the last four only: on
    a stream with fewer than eight bytes left it raises the stream's I/O
    error; otherwise it returns the native value of bytes 4..7 whatever the
    four CRC bytes in front of them are, and moves the stream by eight. *)
Theorem read_footer_ignores_crc (P : platform) :
  (forall s, Z.max 0 (stream_size s - stream_pos s) < 8 ->
             read_footer P s = Err ios_failure)
  /\ (forall d crc isize t,
         length crc = 4%nat -> length isize = 4%nat ->
         read_footer P (stream_at d (crc ++ isize ++ t))
         = Ok (mk_footer (native_value (host_byte_order P) isize),
               stream_at (d ++ crc ++ isize) t)).
Proof.
  split.
  - intros s Hshort. unfold read_footer, stream_read.
    destruct (stream_eof s); [reflexivity|]. cbn [Z.ltb Z.compare].
    destruct (Z.leb_spec 8 (Z.max 0 (stream_size s - stream_pos s))); [lia|].
    reflexivity.
  - intros d crc isize t Hcrc Hisize. unfold read_footer.
    replace (crc ++ isize ++ t) with ((crc ++ isize) ++ t)
      by (rewrite <- app_assoc; reflexivity).
    rewrite (stream_read_at 8 d (crc ++ isize) t)
      by (unfold zlen; rewrite length_app, Hcrc, Hisize; reflexivity).
    cbn [bind]. unfold read_int.
    rewrite (skipn_app_exact 4 crc isize Hcrc).
    rewrite firstn_all2 by lia. reflexivity.
Qed.

(** X3: read_block either raises an error, and then a length error of the
    host vector or the stream's I/O error, never a format error, or appends
    exactly data_size bytes of the stream to the host buffer and moves the
    stream by as many; a header whose data_size is negative (a block that
    declares itself shorter than its own header and footer) always raises. *)
Theorem read_block_appends (h : bgzip_header) (s : istream)
        (g : decompression_blocks) :
  0 <= stream_pos s ->
  zlen (h_compressed_blocks g) = compressed_size g ->
  compressed_size g < 2 ^ 63 ->
  data_size h < 2 ^ 63 ->
  match read_block h s g with
  | Ok (g', s') =>
      0 <= data_size h
      /\ h_compressed_blocks g'
         = h_compressed_blocks g
             ++ ztake (data_size h) (zdrop (stream_pos s) (stream_data s))
      /\ zlen (h_compressed_blocks g') = compressed_size g + data_size h
      /\ stream_pos s' = stream_pos s + data_size h
      /\ h_compressed_offsets g' = h_compressed_offsets g
      /\ h_decompressed_offsets g' = h_decompressed_offsets g
  | Err e => e = length_error \/ e = ios_failure
  end
  /\ (data_size h < 0 -> exists e, read_block h s g = Err e).
Proof.
  intros Hpos Hsize Hc Hd. split.
  - destruct (read_block h s g) as [[g' s']|e] eqn:Hrun.
    + destruct (read_block_scalars _ _ _ _ _ Hrun) as (_ & _ & Hco & Hdo & _).
      destruct (read_block_ok h s s' g g' Hpos Hsize Hc Hd Hrun)
        as (bytes & Hread & Hds & Hlen & _ & Happ).
      apply stream_read_ok in Hread; [|exact Hpos].
      destruct Hread as (_ & _ & Hbytes & -> & _).
      split; [exact Hds|]. split; [rewrite Happ, Hbytes; reflexivity|].
      split; [rewrite Happ, zlen_app; lia|].
      split; [reflexivity|]. split; [exact Hco|exact Hdo].
    + unfold read_block in Hrun.
      destruct (2 ^ 63 <=? _); [injection Hrun as <-; left; reflexivity|].
      unfold stream_read in Hrun.
      repeat match type of Hrun with
             | context [if ?c then _ else _] => destruct c
             end; cbn [bind] in Hrun; try discriminate;
        injection Hrun as <-; right; reflexivity.
  - intros Hneg. unfold read_block.
    destruct (2 ^ 63 <=? _); [eexists; reflexivity|].
    unfold stream_read. destruct (stream_eof s); [eexists; reflexivity|].
    destruct (Z.ltb_spec (data_size h) 0); [eexists; reflexivity|lia].
Qed.

Lemma read_block_appends_witness :
  exists g' s',
    read_block (mk_header 29 6) (stream_at [x00] [x78; x79; x7a; x00]) new_blocks
    = Ok (g', s')
    /\ h_compressed_blocks g' = [x78; x79; x7a]
    /\ stream_pos s' = 4.
Proof.
  assert (Hpos : 0 <= stream_pos (stream_at [x00] [x78; x79; x7a; x00]))
    by (vm_compute; discriminate).
  assert (Hc : compressed_size new_blocks < 2 ^ 63) by (vm_compute; reflexivity).
  assert (Hd : data_size (mk_header 29 6) < 2 ^ 63) by (vm_compute; reflexivity).
  pose proof (read_block_appends (mk_header 29 6) (stream_at [x00] [x78; x79; x7a; x00])
                new_blocks Hpos eq_refl Hc Hd) as [H _].
  destruct (read_block (mk_header 29 6) (stream_at [x00] [x78; x79; x7a; x00]) new_blocks)
    as [[g' s']|e] eqn:Hrun; [|vm_compute in Hrun; discriminate Hrun].
  destruct H as (_ & Hbuf & _ & Hp & _).
  exists g', s'. split; [reflexivity|]. split; [exact Hbuf|exact Hp].
Defined.

(** X4: reset brings every group the reader can build back to the state of
    a newly constructed group: the tables keep their leading 0, everything
    else is emptied. *)
Theorem reset_restores_new_blocks (P : platform) (g : decompression_blocks) :
  reachable_blocks P g -> reset g = new_blocks.
Proof.
  intros Hreach. apply reachable_blocks_inv in Hreach.
  unfold reset, new_blocks.
  rewrite (vec_resize_one _ (bi_compressed_head g Hreach)).
  rewrite (vec_resize_one _ (bi_decompressed_head g Hreach)).
  reflexivity.
Qed.

Lemma reset_restores_new_blocks_witness :
  reset (fst (decompress stored_platform (set_available 7 new_blocks))) = new_blocks.
Proof.
  apply (reset_restores_new_blocks stored_platform).
  apply reach_decompress. apply reach_available. apply reach_new.
Defined.

(** X5: consume_bytes adds up: consuming a bytes and then b bytes is
    consuming a + b bytes at once, and takes a + b off remaining_size. *)
Theorem consume_bytes_additive (g g1 g2 : decompression_blocks) (a b : Z) :
  pos_inv g -> 0 <= a -> 0 <= b ->
  consume_bytes a g = Ok g1 ->
  consume_bytes b g1 = Ok g2 ->
  consume_bytes (a + b) g = Ok g2
  /\ remaining_size g2 = remaining_size g - (a + b).
Proof.
  intros Hinv Ha Hb H1 H2.
  pose proof (consume_bytes_pos_inv a g g1 Hinv Ha H1) as Hinv1.
  pose proof (consume_bytes_pos_inv b g1 g2 Hinv1 Hb H2) as Hinv2.
  apply consume_bytes_fields in H1. destruct H1 as [-> Hle1].
  apply consume_bytes_fields in H2. destruct H2 as [-> Hle2].
  rewrite (pos_inv_remaining _ Hinv1) in Hle2.
  rewrite (pos_inv_remaining _ Hinv2).
  rewrite (pos_inv_remaining _ Hinv) in *.
  unfold pos_inv in *. cbn [set_read_pos read_pos available_decompressed_size] in *.
  rewrite (wrap64_small (read_pos g + a)) in * by lia.
  rewrite (wrap64_small (read_pos g + a + b)) in * by lia.
  rewrite consume_bytes_spec, (pos_inv_remaining g) by (unfold pos_inv; lia).
  destruct (Z.leb_spec (a + b) (available_decompressed_size g - read_pos g)); [|lia].
  rewrite (wrap64_small (read_pos g + (a + b))) by lia.
  split; [|lia]. rewrite Z.add_assoc. reflexivity.
Qed.

Lemma consume_bytes_additive_witness :
  consume_bytes (3 + 4) (set_available 10 new_blocks)
  = Ok (set_read_pos 7 (set_available 10 new_blocks)).
Proof.
  refine (proj1 (consume_bytes_additive (set_available 10 new_blocks)
                   (set_read_pos 3 (set_available 10 new_blocks))
                   (set_read_pos 7 (set_available 10 new_blocks)) 3 4 _ _ _ _ _)).
  - unfold pos_inv. simpl. lia.
  - lia.
  - lia.
  - reflexivity.
  - reflexivity.
Defined.

Lemma read_footer_ignores_crc_witness :
  read_footer stored_platform
    (stream_at [] ([xde; xad; xbe; xef] ++ [x03; x00; x00; x00] ++ []))
  = Ok (mk_footer 3, stream_at [xde; xad; xbe; xef; x03; x00; x00; x00] []).
Proof.
  rewrite (proj2 (read_footer_ignores_crc stored_platform) [] [xde; xad; xbe; xef]
             [x03; x00; x00; x00] [] eq_refl eq_refl).
  reflexivity.
Defined.

(* ------------------------------------------------------------------ *)
(** * The accumulation loop on an arbitrary stream *)

(** An invariant of the reader that peek() and one pass through the body
    of the loop preserve holds when the loop returns. *)
Section LoopInvariant.
Variable P : platform.
Variable n : Z.
Variable I : reader -> Prop.

Hypothesis I_peek :
  forall r s0, I r -> stream_peek (_data_stream r) = Ok s0 -> I (with_stream s0 r).

Hypothesis I_block :
  forall r header s1 curr s2 footer s3,
    I r ->
    decompressed_size (_curr_blocks r) < n ->
    read_header P (_data_stream r) = Ok (header, s1) ->
    read_block header s1 (_curr_blocks r) = Ok (curr, s2) ->
    read_footer P s2 = Ok (footer, s3) ->
    I (with_block header footer curr s3 r).

Lemma read_chunk_loop_invariant (fuel : nat) (r r' : reader) :
  I r -> read_chunk_loop P fuel n r = Ok r' -> I r'.
Proof.
  revert r. induction fuel as [|fuel IH]; intros r Hr; [discriminate|].
  cbn [read_chunk_loop].
  destruct (Z.ltb_spec (decompressed_size (_curr_blocks r)) n) as [Hlt|Hge].
  2:{ intros [= <-]. exact Hr. }
  destruct (stream_eof (_data_stream r)) eqn:He.
  { intros [= <-]. exact Hr. }
  destruct (stream_peek (_data_stream r)) as [s0|e] eqn:Hpeek; cbn [bind];
    [|discriminate].
  pose proof (I_peek r s0 Hr Hpeek) as Hr0.
  destruct (stream_eof s0 || (_compressed_pos r >? _compressed_end r)).
  { intros [= <-]. exact Hr0. }
  destruct (read_header P s0) as [[header s1]|e] eqn:Hrh; cbn [bind]; [|discriminate].
  destruct (read_block header s1 (_curr_blocks r)) as [[curr s2]|e] eqn:Hrb;
    cbn [bind]; [|discriminate].
  destruct (read_footer P s2) as [[footer s3]|e] eqn:Hrf; cbn [bind]; [|discriminate].
  pose proof (I_block (with_stream s0 r) header s1 curr s2 footer s3 Hr0 Hlt Hrh Hrb Hrf)
    as Hr3.
  unfold with_block, with_stream in Hr3.
  cbn [_data_stream _prev_blocks _curr_blocks _local_end _compressed_pos
       _compressed_end] in Hr3.
  destruct (_compressed_pos r =? _compressed_end r).
  - intros [= <-]. exact Hr3.
  - intros Hloop. exact (IH _ Hr3 Hloop).
Qed.

End LoopInvariant.

(** The stream after read_block. *)
Lemma read_block_stream (h : bgzip_header) (s s' : istream)
      (g g' : decompression_blocks) :
  0 <= stream_pos s ->
  read_block h s g = Ok (g', s') ->
  0 <= data_size h
  /\ s' = mk_istream (stream_data s) (stream_pos s + data_size h) false.
Proof.
  intros Hpos. unfold read_block. destruct (_ <=? _); [discriminate|].
  destruct (stream_read (data_size h) s) as [[bytes s2]|e] eqn:Hr; cbn [bind];
    [|discriminate].
  intros [= _ <-]. apply stream_read_ok in Hr; [|exact Hpos].
  destruct Hr as (Hn & _ & _ & -> & _). split; [exact Hn|reflexivity].
Qed.





(* ------------------------------------------------------------------ *)
(** * Construction on files that are no BGZIP files, and on empty ranges *)

Lemma reset_new_blocks : reset new_blocks = new_blocks.
Proof. reflexivity. Qed.

(** X7: a file that does not carry the BGZIP magic at the begin offset is
    refused by the constructor with the format error of read_header, on any
    host and whatever follows the four bytes, as long as the begin offset is
    not behind the end of the range. *)
Theorem wrong_magic_refused (P : platform) (d m t : list byte) (lp ve : Z) :
  length m = 4%nat ->
  magic_ok m = false ->
  8 <= zlen t ->
  0 <= lp < 65536 ->
  zlen d <= Z.shiftr ve 16 ->
  bgzip_data_chunk_reader P (open_stream (d ++ m ++ t))
                          (Z.shiftl (zlen d) 16 + lp) ve
  = Err (logic_error "malformed BGZIP header").
Proof.
  intros Hm Hmagic Ht Hlp Hend.
  pose proof (zlen_nonneg d) as Hd.
  destruct (shift_virtual_offset (zlen d) lp Hd Hlp) as [Hs _].
  unfold bgzip_data_chunk_reader.
  cbn [_data_stream _prev_blocks _curr_blocks _local_end _compressed_pos
       _compressed_end].
  rewrite Hs. unfold stream_seekg_cur, open_stream. cbn [stream_pos stream_data].
  destruct (Z.ltb_spec (0 + zlen d) 0) as [|_]; [lia|]. cbn [bind].
  unfold read_next_compressed_chunk.
  cbn [_data_stream _prev_blocks _curr_blocks _local_end _compressed_pos
       _compressed_end stream_data read_chunk_loop].
  rewrite reset_new_blocks.
  change (decompressed_size new_blocks <? chunk_load_size) with true.
  cbn [stream_eof]. unfold stream_peek. cbn [stream_eof stream_pos stream_data].
  unfold stream_size. cbn [stream_data].
  assert (Hmz : zlen m = 4) by (unfold zlen; rewrite Hm; reflexivity).
  destruct (Z.leb_spec (zlen (d ++ m ++ t)) (0 + zlen d)) as [Habs|_];
    [rewrite !zlen_app in Habs; lia|].
  cbn [bind stream_eof orb].
  destruct (Z.gtb_spec (zlen d) (Z.shiftr ve 16)) as [|_]; [lia|].
  change (0 + zlen d) with (zlen d).
  fold (stream_at d (m ++ t)).
  rewrite <- (ztake_zdrop 8 t), app_assoc.
  unfold read_header.
  rewrite (stream_read_at 12 d (m ++ ztake 8 t) (zdrop 8 t))
    by (rewrite zlen_app, zlen_ztake; lia).
  cbn [bind]. rewrite (combine_app_r expected_header m) by (rewrite Hm; reflexivity).
  fold (magic_ok m). rewrite Hmagic. reflexivity.
Qed.

Lemma wrong_magic_refused_witness :
  bgzip_data_chunk_reader stored_platform
    (open_stream ([] ++ [x1f; x8b; x08; x00] ++ zero_bytes 8))
    (Z.shiftl (zlen (@nil byte)) 16 + 0) whole_file
  = Err (logic_error "malformed BGZIP header").
Proof.
  apply (wrong_magic_refused stored_platform [] [x1f; x8b; x08; x00] (zero_bytes 8)
           0 whole_file).
  - reflexivity.
  - reflexivity.
  - vm_compute. discriminate.
  - lia.
  - vm_compute. discriminate.
Defined.









(* ------------------------------------------------------------------ *)
(** * Readers over arbitrary files *)

Lemma read_next_compressed_chunk_stream_inv (P : platform) (bytes : list byte)
      (n : Z) (r r' : reader) :
  stream_inv bytes r ->
  read_next_compressed_chunk P n r = Ok r' ->
  stream_inv bytes r'
  /\ stream_pos (_data_stream r) <= stream_pos (_data_stream r')
  /\ _prev_blocks r' = _curr_blocks r.
Proof.
  intros (Hd & Hpos & Hhp & Hhc) Hrun. unfold read_next_compressed_chunk in Hrun.
  cbn [_data_stream _prev_blocks _curr_blocks _local_end _compressed_pos
       _compressed_end] in Hrun.
  apply read_chunk_loop_progress in Hrun;
    cbn [_data_stream _prev_blocks _curr_blocks] in *; [|exact Hpos|].
  - destruct Hrun as (Hd' & Hp' & _ & Hprev & Hh' & _).
    split; [|split; [exact Hp'|exact Hprev]].
    split; [congruence|]. split; [lia|]. split; [rewrite Hprev; exact Hhc|exact Hh'].
  - unfold reset. cbn [h_decompressed_offsets]. rewrite (vec_resize_one _ Hhp).
    reflexivity.
Qed.

Lemma consume_bytes_offsets (size : Z) (g g' : decompression_blocks) :
  consume_bytes size g = Ok g' ->
  h_decompressed_offsets g' = h_decompressed_offsets g
  /\ h_compressed_offsets g' = h_compressed_offsets g.
Proof.
  intros H. apply consume_bytes_fields in H. destruct H as [-> _]. split; reflexivity.
Qed.

Lemma decompress_offsets (P : platform) (g : decompression_blocks) :
  h_decompressed_offsets (fst (decompress P g)) = h_decompressed_offsets g.
Proof. destruct (decompress_scalars P g) as (_ & _ & _ & _ & H & _). exact H. Qed.

Lemma get_next_chunk_stream_inv (P : platform) (bytes : list byte) (n : Z)
      (r r' : reader) (data : list byte) :
  stream_inv bytes r ->
  get_next_chunk P n r = Ok (data, r') ->
  stream_inv bytes r'.
Proof.
  intros Hinv. unfold get_next_chunk. destruct (_ <=? _).
  - destruct (consume_bytes _ _) as [curr|e] eqn:Hc; cbn [bind]; [|discriminate].
    intros [= _ <-]. destruct Hinv as (Hd & Hpos & Hhp & Hhc).
    apply consume_bytes_offsets in Hc. destruct Hc as [Hc _].
    unfold stream_inv, heads_zero. cbn [_data_stream _prev_blocks _curr_blocks].
    rewrite Hc, decompress_offsets. auto.
  - destruct (read_next_compressed_chunk P n r) as [r1|e] eqn:Hnext; cbn [bind];
      [|discriminate].
    destruct (read_next_compressed_chunk_stream_inv P bytes n r r1 Hinv Hnext)
      as ((Hd & Hpos & Hhp & Hhc) & _ & _).
    destruct (consume_bytes _ (fst (decompress P (_prev_blocks r1)))) as [prev|e]
      eqn:Hcp; cbn [bind]; [|discriminate].
    destruct (consume_bytes _ (fst (decompress P (_curr_blocks r1)))) as [curr|e]
      eqn:Hcc; cbn [bind]; [|discriminate].
    intros [= _ <-].
    apply consume_bytes_offsets in Hcp. destruct Hcp as [Hcp _].
    apply consume_bytes_offsets in Hcc. destruct Hcc as [Hcc _].
    unfold stream_inv, heads_zero. cbn [_data_stream _prev_blocks _curr_blocks].
    rewrite Hcp, Hcc, !decompress_offsets. auto.
Qed.

Lemma skip_bytes_loop_stream_inv (P : platform) (bytes : list byte) (fuel : nat) :
  forall (n n' : Z) (r r' : reader),
    stream_inv bytes r ->
    skip_bytes_loop P fuel n r = Ok (n', r') ->
    stream_inv bytes r'.
Proof.
  induction fuel as [|fuel IH]; intros n n' r r' Hinv; [discriminate|].
  cbn [skip_bytes_loop]. destruct (_ >? _); [|intros [= _ <-]; exact Hinv].
  destruct (consume_bytes _ _) as [curr|e] eqn:Hc; cbn [bind]; [|discriminate].
  apply consume_bytes_offsets in Hc. destruct Hc as [Hc _].
  destruct (read_next_compressed_chunk P _ _) as [r1|e] eqn:Hnext; cbn [bind];
    [|discriminate].
  apply (read_next_compressed_chunk_stream_inv P bytes) in Hnext.
  2:{ destruct Hinv as (Hd & Hpos & Hhp & Hhc). unfold stream_inv, heads_zero.
      cbn [_data_stream _prev_blocks _curr_blocks]. rewrite Hc. auto. }
  destruct Hnext as (Hinv1 & _ & _).
  destruct (stream_eof (_data_stream r1)); [intros [= _ <-]; exact Hinv1|].
  destruct (stream_peek (_data_stream r1)) as [s|e] eqn:Hpeek; cbn [bind];
    [|discriminate].
  apply stream_peek_ok in Hpeek. destruct Hpeek as (_ & Hd2 & Hp2 & _).
  assert (Hinv2 : stream_inv bytes
                    (mk_reader s (_prev_blocks r1) (_curr_blocks r1) (_local_end r1)
                               (_compressed_pos r1) (_compressed_end r1))).
  { destruct Hinv1 as (Hd & Hpos & Hh). unfold stream_inv, heads_zero in *.
    cbn [_data_stream _prev_blocks _curr_blocks]. rewrite Hd2, Hp2. auto. }
  cbn [_compressed_pos _compressed_end].
  destruct (_ || _); [intros [= _ <-]; exact Hinv2|].
  intros Hloop. exact (IH _ _ _ _ Hinv2 Hloop).
Qed.

Lemma skip_bytes_stream_inv (P : platform) (bytes : list byte) (n : Z)
      (r r' : reader) :
  stream_inv bytes r -> skip_bytes P n r = Ok r' -> stream_inv bytes r'.
Proof.
  intros Hinv. unfold skip_bytes.
  destruct (skip_bytes_loop P _ n r) as [[n1 r1]|e] eqn:Hloop; cbn [bind];
    [|discriminate].
  apply (skip_bytes_loop_stream_inv P bytes) in Hloop; [|exact Hinv].
  destruct (consume_bytes _ _) as [curr|e] eqn:Hc; cbn [bind]; [|discriminate].
  apply consume_bytes_offsets in Hc. destruct Hc as [Hc _].
  intros [= <-]. destruct Hloop as (Hd & Hpos & Hhp & Hhc).
  unfold stream_inv, heads_zero. cbn [_data_stream _prev_blocks _curr_blocks].
  rewrite Hc. auto.
Qed.

Lemma constructor_stream_inv (P : platform) (bytes : list byte) (vb ve : Z)
      (r : reader) :
  bgzip_data_chunk_reader P (open_stream bytes) vb ve = Ok r -> stream_inv bytes r.
Proof.
  unfold bgzip_data_chunk_reader.
  cbn [_data_stream _prev_blocks _curr_blocks _local_end _compressed_pos
       _compressed_end].
  destruct (stream_seekg_cur _ _) as [s|e] eqn:Hsk; cbn [bind]; [|discriminate].
  apply stream_seekg_ok in Hsk. destruct Hsk as [-> Hsk].
  cbn [open_stream stream_pos stream_data] in *.
  destruct (read_next_compressed_chunk P _ _) as [r1|e] eqn:Hnext; cbn [bind];
    [|discriminate].
  apply (read_next_compressed_chunk_stream_inv P bytes) in Hnext.
  2:{ unfold stream_inv, heads_zero.
      cbn [_data_stream _prev_blocks _curr_blocks stream_data stream_pos]. auto. }
  destruct Hnext as (Hinv1 & _ & _).
  destruct (_ >? 0); [|intros [= <-]; exact Hinv1].
  destruct (CUDF_EXPECTS _ _); cbn [bind]; [|discriminate].
  destruct (consume_bytes _ _) as [curr|e] eqn:Hc; cbn [bind]; [|discriminate].
  apply consume_bytes_offsets in Hc. destruct Hc as [Hc _].
  intros [= <-]. destruct Hinv1 as (Hd & Hpos & Hhp & Hhc).
  unfold stream_inv, heads_zero. cbn [_data_stream _prev_blocks _curr_blocks].
  rewrite Hc. auto.
Qed.

Lemma reader_of_stream_inv (P : platform) (bytes : list byte) (r : reader) :
  reader_of P bytes r -> stream_inv bytes r.
Proof.
  induction 1 as [vb ve r _ _ Hctor|r n data r' _ IH _ Hget|r n r' _ IH _ Hskip].
  - exact (constructor_stream_inv P bytes vb ve r Hctor).
  - exact (get_next_chunk_stream_inv P bytes n r r' data IH Hget).
  - exact (skip_bytes_stream_inv P bytes n r r' IH Hskip).
Qed.

(** X9: every loop of the reader ends, whatever the file holds: the
    constructor, and get_next_chunk and skip_bytes in every state a reader
    reaches on the file, return or raise before the fuel of their loops (one
    pass per byte of the file, plus one) is used up; read_header does on any
    stream. *)
Theorem reader_terminates (P : platform) (bytes : list byte) :
  (forall s, 0 <= stream_pos s -> read_header P s <> Err out_of_fuel)
  /\ (forall vb ve,
         bgzip_data_chunk_reader P (open_stream bytes) vb ve <> Err out_of_fuel)
  /\ (forall r n, reader_of P bytes r ->
         get_next_chunk P n r <> Err out_of_fuel
         /\ skip_bytes P n r <> Err out_of_fuel).
Proof.
  split; [intros s Hpos; apply read_header_fuel_enough; exact Hpos|].
  split; [intros vb ve; apply constructor_fuel_enough|].
  intros r n Hr. apply reader_of_stream_inv in Hr. destruct Hr as (_ & Hpos & Hh).
  split.
  - apply get_next_chunk_fuel_enough. exact Hpos.
  - apply skip_bytes_fuel_enough; [exact Hpos|exact Hh].
Qed.

Lemma reader_terminates_witness :
  exists r,
    bgzip_data_chunk_reader stored_platform (open_stream broken_stream) 0 whole_file
    = Ok r
    /\ skip_bytes stored_platform (2 ^ 24 + 1) r <> Err out_of_fuel.
Proof.
  destruct (bgzip_data_chunk_reader stored_platform (open_stream broken_stream)
                                    0 whole_file)
    as [r|e] eqn:Hctor; [|vm_compute in Hctor; discriminate Hctor].
  exists r. split; [reflexivity|].
  apply (proj2 (proj2 (reader_terminates stored_platform broken_stream))).
  apply (of_constructor stored_platform broken_stream 0 whole_file r);
    [lia|unfold whole_file; lia|exact Hctor].
Defined.

(* ------------------------------------------------------------------ *)
(** * Ranges of a well-formed file *)

Lemma read_chunks_exact (P : platform) (all : list bgzf_block) (sizes : list Z) :
  valid_file P all ->
  Forall (fun n => 0 <= n) sizes ->
  forall (r : reader) (todo : list byte),
    reader_rep all r todo ->
    exists r',
      read_chunks P sizes r = Ok (chunks_of sizes todo, r')
      /\ reader_rep all r' (zdrop (sum_sizes sizes) todo).
Proof.
  intros Hfile. induction 1 as [|n sizes Hn Hs IH]; intros r todo Hrep;
    cbn [read_chunks chunks_of sum_sizes fold_right].
  - exists r. split; [reflexivity|exact Hrep].
  - destruct (get_next_chunk_refines P all Hfile r todo n Hrep Hn) as (r1 & -> & Hrep1).
    cbn [bind].
    destruct (IH r1 _ Hrep1) as (r' & -> & Hrep'). cbn [bind].
    exists r'. split; [reflexivity|].
    fold (sum_sizes sizes). rewrite zdrop_zdrop in Hrep'.
    + rewrite Z.add_comm. exact Hrep'.
    + apply sum_sizes_nonneg. exact Hs.
    + exact Hn.
Qed.

(** X10: on a well-formed file skip_bytes(n) leaves the reader where
    get_next_chunk(n) leaves it, as far as a caller can tell: the same
    requests after either return the same chunks. *)
Theorem skip_bytes_like_get_next_chunk (P : platform) (all : list bgzf_block)
        (r : reader) (n : Z) (sizes : list Z) :
  valid_file P all ->
  reachable_reader P all r ->
  0 <= n < 2 ^ 64 ->
  Forall (fun m => 0 <= m) sizes ->
  exists data r1 r2 chunks r1' r2',
    get_next_chunk P n r = Ok (data, r1)
    /\ skip_bytes P n r = Ok r2
    /\ read_chunks P sizes r1 = Ok (chunks, r1')
    /\ read_chunks P sizes r2 = Ok (chunks, r2').
Proof.
  intros Hfile Hreach Hn Hsizes.
  destruct (reachable_reader_rep P all Hfile r Hreach) as [todo Hrep].
  destruct (get_next_chunk_refines P all Hfile r todo n Hrep) as (r1 & Hget & Hrep1);
    [lia|].
  destruct (skip_bytes_refines P all Hfile r todo n Hrep Hn) as (r2 & Hskip & Hrep2).
  destruct (read_chunks_exact P all sizes Hfile Hsizes r1 _ Hrep1) as (r1' & Hrun1 & _).
  destruct (read_chunks_exact P all sizes Hfile Hsizes r2 _ Hrep2) as (r2' & Hrun2 & _).
  exists (ztake n todo), r1, r2, (chunks_of sizes (zdrop n todo)), r1', r2'.
  auto.
Qed.

Lemma skip_bytes_like_get_next_chunk_witness :
  exists r r1 r2 data r1' r2',
    bgzip_data_chunk_reader run_length_platform
      (open_stream (encode_stream example_file)) 0 whole_file = Ok r
    /\ get_next_chunk run_length_platform 4 r = Ok (data, r1)
    /\ skip_bytes run_length_platform 4 r = Ok r2
    /\ read_chunks run_length_platform [8; 3] r1
       = Ok ([repeat x61 6 ++ [x78; x79]; [x7a]], r1')
    /\ read_chunks run_length_platform [8; 3] r2
       = Ok ([repeat x61 6 ++ [x78; x79]; [x7a]], r2').
Proof.
  destruct (bgzip_data_chunk_reader run_length_platform
              (open_stream (encode_stream example_file)) 0 whole_file)
    as [r|e] eqn:Hctor; [|vm_compute in Hctor; discriminate Hctor].
  assert (Hsizes : Forall (fun m => 0 <= m) [8; 3]) by (repeat constructor; lia).
  assert (Hn : 0 <= 4 < 2 ^ 64) by lia.
  destruct (skip_bytes_like_get_next_chunk run_length_platform example_file r 4 [8; 3]
              example_file_valid (example_reader_reachable r Hctor) Hn Hsizes)
    as (data & r1 & r2 & chunks & r1' & r2' & Hget & Hskip & Hrun1 & Hrun2).
  exists r, r1, r2, data, r1', r2'.
  split; [reflexivity|]. split; [exact Hget|]. split; [exact Hskip|].
  assert (Hchunks : chunks = [repeat x61 6 ++ [x78; x79]; [x7a]]).
  { vm_compute in Hctor. injection Hctor as <-.
    vm_compute in Hskip. injection Hskip as <-.
    vm_compute in Hrun2. injection Hrun2 as <- _. reflexivity. }
  rewrite <- Hchunks. split; [exact Hrun1|exact Hrun2].
Defined.

Lemma in_range_app (cend lend : Z) (b c : list bgzf_block) :
  Forall valid_block b ->
  forall pos,
    pos + zlen (encode_stream b) <= cend ->
    in_range cend lend pos (b ++ c)
    = contents b ++ in_range cend lend (pos + zlen (encode_stream b)) c.
Proof.
  induction 1 as [|x b Hx _ IH]; intros pos Hle.
  - cbn [app contents map concat encode_stream]. rewrite zlen_nil, Z.add_0_r.
    reflexivity.
  - rewrite encode_stream_cons, zlen_app, (zlen_encode_block x Hx) in *.
    pose proof (blk_size_lower x) as Hlow.
    pose proof (zlen_nonneg (blk_payload x)) as Hpay.
    pose proof (zlen_nonneg (encode_stream b)) as Hrest.
    cbn [app in_range].
    destruct (Z.gtb_spec pos cend) as [|_]; [lia|].
    destruct (Z.eqb_spec pos cend) as [|_]; [lia|].
    rewrite IH by lia.
    change (contents (x :: b)) with (blk_content x ++ contents b).
    rewrite <- app_assoc, Z.add_assoc. reflexivity.
Qed.

Lemma in_range_at_end (cend : Z) (c : list bgzf_block) :
  in_range cend 0 cend c = [].
Proof.
  destruct c as [|x c]; [reflexivity|]. cbn [in_range].
  destruct (Z.gtb_spec cend cend) as [|_]; [lia|].
  rewrite Z.eqb_refl. reflexivity.
Qed.

Lemma zlen_in_range (cend lend pos : Z) (rest : list bgzf_block) :
  zlen (in_range cend lend pos rest) <= zlen (contents rest).
Proof.
  revert pos. induction rest as [|x rest IH]; intros pos; cbn [in_range].
  - reflexivity.
  - change (contents (x :: rest)) with (blk_content x ++ contents rest).
    rewrite zlen_app. pose proof (zlen_nonneg (contents rest)).
    pose proof (zlen_nonneg (blk_content x)).
    destruct (pos >? cend); [rewrite zlen_nil; lia|].
    destruct (pos =? cend).
    + unfold ztake, zlen. rewrite length_firstn. unfold zlen in *. lia.
    + rewrite zlen_app. specialize (IH (pos + blk_size x)). lia.
Qed.

Lemma end_inside_zero (cend : Z) (all : list bgzf_block) : end_inside cend 0 all.
Proof. split; [lia|]. intros. apply zlen_nonneg. Qed.

(** X11: a range of a well-formed file can be read in two parts that meet
    at the start of a block: the bytes of [begin, mid) are the contents of
    the blocks between the two offsets, and followed by the bytes of
    [mid, end) they are the bytes of [begin, end). *)
Theorem ranges_meet_at_block_start (P : platform) (all a b c : list bgzf_block)
        (cend lend n : Z) :
  valid_file P all ->
  all = a ++ b ++ c ->
  end_inside cend lend all ->
  lend < 65536 ->
  zlen (encode_stream (a ++ b)) <= cend ->
  zlen (contents all) <= n ->
  let s := open_stream (encode_stream all) in
  let vbegin := Z.shiftl (zlen (encode_stream a)) 16 in
  let vmid := Z.shiftl (zlen (encode_stream (a ++ b))) 16 in
  let vend := Z.shiftl cend 16 + lend in
  exists r1 r2 r12 d2 r1' r2' r12',
    bgzip_data_chunk_reader P s vbegin vmid = Ok r1
    /\ bgzip_data_chunk_reader P s vmid vend = Ok r2
    /\ bgzip_data_chunk_reader P s vbegin vend = Ok r12
    /\ get_next_chunk P n r1 = Ok (contents b, r1')
    /\ get_next_chunk P n r2 = Ok (d2, r2')
    /\ get_next_chunk P n r12 = Ok (contents b ++ d2, r12').
Proof.
  intros Hfile Hall Hend Hlend Hmid Hn s vbegin vmid vend.
  pose proof (vf_blocks P all Hfile) as Hvalid.
  assert (Hvb : Forall valid_block b).
  { apply (Forall_segment valid_block all a b c Hvalid Hall). }
  assert (Hn0 : 0 <= n) by (pose proof (zlen_nonneg (contents all)); lia).
  pose proof (zlen_nonneg (encode_stream (a ++ b))) as Hab.
  assert (Hsplit : zlen (encode_stream (a ++ b))
                   = zlen (encode_stream a) + zlen (encode_stream b))
    by (rewrite encode_stream_app, zlen_app; reflexivity).
  assert (Hcont : zlen (contents all)
                  = zlen (contents a) + zlen (contents b) + zlen (contents c))
    by (rewrite Hall, !contents_app, !zlen_app; lia).
  pose proof (zlen_nonneg (contents a)) as Hca.
  pose proof (zlen_nonneg (contents b)) as Hcb.
  pose proof (zlen_nonneg (contents c)) as Hcc.
  (* the first part *)
  destruct (constructor_valid P all Hfile a (b ++ c) (zlen (encode_stream (a ++ b))) 0
              Hall (end_inside_zero _ all) Hab ltac:(lia))
    as (r1 & Hc1 & Hrep1 & _).
  rewrite Z.add_0_r in Hc1.
  rewrite Hsplit in Hrep1 at 1.
  rewrite (in_range_app _ 0 b c Hvb) in Hrep1 by lia.
  rewrite <- Hsplit, in_range_at_end, app_nil_r in Hrep1.
  destruct (get_next_chunk_refines P all Hfile r1 _ n Hrep1 Hn0) as (r1' & Hg1 & _).
  rewrite ztake_all in Hg1 by lia.
  (* the second part *)
  assert (Hall2 : all = (a ++ b) ++ c) by (rewrite <- app_assoc; exact Hall).
  destruct Hend as [Hlend0 Hinside].
  destruct (constructor_valid P all Hfile (a ++ b) c cend lend Hall2
              (conj Hlend0 Hinside) ltac:(lia) Hlend)
    as (r2 & Hc2 & Hrep2 & _).
  destruct (get_next_chunk_refines P all Hfile r2 _ n Hrep2 Hn0) as (r2' & Hg2 & _).
  pose proof (zlen_in_range cend lend (zlen (encode_stream (a ++ b))) c) as Hlen2.
  rewrite ztake_all in Hg2 by lia.
  (* the whole range *)
  destruct (constructor_valid P all Hfile a (b ++ c) cend lend Hall
              (conj Hlend0 Hinside) ltac:(lia) Hlend)
    as (r12 & Hc12 & Hrep12 & _).
  rewrite (in_range_app cend lend b c Hvb) in Hrep12 by lia.
  rewrite <- Hsplit in Hrep12.
  destruct (get_next_chunk_refines P all Hfile r12 _ n Hrep12 Hn0) as (r12' & Hg12 & _).
  rewrite ztake_all in Hg12 by (rewrite zlen_app; lia).
  exists r1, r2, r12, (in_range cend lend (zlen (encode_stream (a ++ b))) c),
         r1', r2', r12'.
  repeat split; assumption.
Qed.

Lemma ranges_meet_at_block_start_witness :
  exists r1 r2 r12 r1' r2' r12',
    bgzip_data_chunk_reader run_length_platform
      (open_stream (encode_stream example_file)) 0 (Z.shiftl 28 16) = Ok r1
    /\ bgzip_data_chunk_reader run_length_platform
         (open_stream (encode_stream example_file)) (Z.shiftl 28 16) whole_file = Ok r2
    /\ bgzip_data_chunk_reader run_length_platform
         (open_stream (encode_stream example_file)) 0 whole_file = Ok r12
    /\ get_next_chunk run_length_platform 20 r1 = Ok (repeat x61 10, r1')
    /\ get_next_chunk run_length_platform 20 r2 = Ok ([x78; x79; x7a], r2')
    /\ get_next_chunk run_length_platform 20 r12
       = Ok (repeat x61 10 ++ [x78; x79; x7a], r12').
Proof.
  assert (Hall : example_file = [] ++ [run_block] ++ [stored_block; eof_block])
    by reflexivity.
  assert (Hlend : 65535 < 65536) by lia.
  assert (Hmid : zlen (encode_stream ([] ++ [run_block])) <= 2 ^ 48 - 1)
    by (vm_compute; discriminate).
  assert (Hn : zlen (contents example_file) <= 20) by (vm_compute; discriminate).
  destruct (ranges_meet_at_block_start run_length_platform example_file
              [] [run_block] [stored_block; eof_block] (2 ^ 48 - 1) 65535 20
              example_file_valid Hall
              (end_inside_whole_file run_length_platform example_file example_file_valid)
              Hlend Hmid Hn)
    as (r1 & r2 & r12 & d2 & r1' & r2' & r12' & Hc1 & Hc2 & Hc12 & Hg1 & Hg2 & Hg12).
  exists r1, r2, r12, r1', r2', r12'.
  split; [exact Hc1|]. split; [exact Hc2|]. split; [exact Hc12|].
  split; [exact Hg1|].
  assert (Hd2 : d2 = [x78; x79; x7a]).
  { vm_compute in Hc2. injection Hc2 as <-.
    vm_compute in Hg2. injection Hg2 as <- _. reflexivity. }
  rewrite <- Hd2. split; [exact Hg2|exact Hg12].
Defined.

(* ------------------------------------------------------------------ *)
(** * The data chunk source and its factories *)

Lemma virtual_offset_parts (v : Z) :
  0 <= v ->
  Z.shiftl (Z.shiftr v 16) 16 + Z.land v 65535 = v
  /\ 0 <= Z.land v 65535 < 65536
  /\ 0 <= Z.shiftr v 16.
Proof.
  intros Hv. rewrite Z.shiftl_mul_pow2, Z.shiftr_div_pow2 by lia.
  change 65535 with (Z.ones 16). rewrite Z.land_ones by lia.
  change (2 ^ 16) with 65536.
  pose proof (Z.div_mod v 65536 ltac:(lia)).
  pose proof (Z.mod_pos_bound v 65536 ltac:(lia)).
  assert (0 <= v / 65536) by (apply Z.div_pos; lia).
  lia.
Qed.

Lemma end_inside_past_end (all : list bgzf_block) (cend lend : Z) :
  Forall valid_block all ->
  0 <= lend ->
  zlen (encode_stream all) <= cend ->
  end_inside cend lend all.
Proof.
  intros Hvalid Hlend Hpast. split; [exact Hlend|].
  intros passed b rest Hall Hlen. exfalso.
  assert (Hvb : valid_block b).
  { rewrite Hall in Hvalid. apply Forall_app in Hvalid. destruct Hvalid as [_ Hv].
    inversion Hv; assumption. }
  rewrite Hall, encode_stream_app, encode_stream_cons, !zlen_app,
    zlen_encode_block in Hpast by exact Hvb.
  pose proof (blk_size_lower b). pose proof (zlen_nonneg (blk_payload b)).
  pose proof (zlen_nonneg (encode_stream rest)). lia.
Qed.

(** X12: create_reader raises the stream's I/O error for a file that cannot
    be opened, before anything is parsed; for a well-formed file, a source
    made with virtual_begin 0 and a virtual_end at or behind the end of the
    file delivers the whole data, in chunks of the requested sizes, and so
    does the source that make_source_from_bgzip_file(filename) makes. *)
Theorem create_reader_whole_file (P : platform) (fs : file_system)
        (filename : String.string) :
  (fs filename = None ->
   forall vb ve,
     create_reader P fs (make_source_from_bgzip_file_range filename vb ve)
     = Err ios_failure)
  /\ (forall all sizes,
         valid_file P all ->
         fs filename = Some (encode_stream all) ->
         Forall (fun n => 0 <= n) sizes ->
         sum_sizes sizes = zlen (contents all) ->
         (forall ve,
             0 <= ve ->
             zlen (encode_stream all) <= Z.shiftr ve 16 ->
             exists r r',
               create_reader P fs (make_source_from_bgzip_file_range filename 0 ve)
               = Ok r
               /\ read_chunks P sizes r = Ok (chunks_of sizes (contents all), r'))
         /\ (exists r r',
                create_reader P fs (make_source_from_bgzip_file filename) = Ok r
                /\ read_chunks P sizes r = Ok (chunks_of sizes (contents all), r'))
         /\ concat (chunks_of sizes (contents all)) = contents all
         /\ map zlen (chunks_of sizes (contents all)) = sizes).
Proof.
  split.
  - intros Hnone vb ve. unfold create_reader, make_source_from_bgzip_file_range.
    cbn [_filename]. rewrite Hnone. reflexivity.
  - intros all sizes Hfile Hsome Hsizes Hsum.
    assert (Hranged :
              forall ve, 0 <= ve -> zlen (encode_stream all) <= Z.shiftr ve 16 ->
                exists r r',
                  create_reader P fs (make_source_from_bgzip_file_range filename 0 ve)
                  = Ok r
                  /\ read_chunks P sizes r = Ok (chunks_of sizes (contents all), r')).
    { intros ve Hve Hpast.
      destruct (virtual_offset_parts ve Hve) as (Hparts & Hland & Hshift).
      unfold create_reader, make_source_from_bgzip_file_range.
      cbn [_filename _virtual_begin _virtual_end]. rewrite Hsome.
      destruct (constructor_valid P all Hfile [] all (Z.shiftr ve 16) (Z.land ve 65535)
                  eq_refl
                  (end_inside_past_end all _ _ (vf_blocks P all Hfile)
                     (proj1 Hland) Hpast)
                  Hshift (proj2 Hland))
        as (r & Hctor & Hrep & _).
      rewrite Hparts in Hctor. change (Z.shiftl (zlen (encode_stream [])) 16) with 0 in Hctor.
      change (zlen (encode_stream [])) with 0 in Hrep.
      rewrite in_range_whole in Hrep by (try apply (vf_blocks P all Hfile); lia).
      destruct (read_chunks_exact P all sizes Hfile Hsizes r _ Hrep) as (r' & Hrun & _).
      exists r, r'. split; [exact Hctor|exact Hrun]. }
    split; [exact Hranged|]. split.
    + apply (Hranged (2 ^ 64 - 1)); [lia|].
      change (Z.shiftr (2 ^ 64 - 1) 16) with (2 ^ 48 - 1).
      pose proof (vf_size P all Hfile). lia.
    + destruct (Hranged (2 ^ 64 - 1)) as (r & r' & Hctor & Hrun); [lia| |].
      { change (Z.shiftr (2 ^ 64 - 1) 16) with (2 ^ 48 - 1).
        pose proof (vf_size P all Hfile). lia. }
      unfold create_reader, make_source_from_bgzip_file_range in Hctor.
      cbn [_filename _virtual_begin _virtual_end] in Hctor. rewrite Hsome in Hctor.
      assert (Hrep : reader_rep all r (contents all)).
      { destruct (constructor_valid P all Hfile [] all (2 ^ 48 - 1) 65535 eq_refl
                    (end_inside_whole_file P all Hfile) ltac:(lia) ltac:(lia))
          as (r0 & Hctor0 & Hrep0 & _).
        change (Z.shiftl (zlen (encode_stream [])) 16) with 0 in Hctor0.
        change (Z.shiftl (2 ^ 48 - 1) 16 + 65535) with (2 ^ 64 - 1) in Hctor0.
        rewrite Hctor in Hctor0. injection Hctor0 as <-.
        change (zlen (encode_stream [])) with 0 in Hrep0.
        rewrite in_range_whole in Hrep0;
          [exact Hrep0|apply (vf_blocks P all Hfile)|].
        pose proof (vf_size P all Hfile). lia. }
      destruct (read_chunks_refines P all Hfile sizes Hsizes r _ Hrep)
        as (chunks & r2 & Hrun2 & _ & Hcat & Hlens).
      rewrite Hrun in Hrun2. injection Hrun2 as <- _.
      split.
      * rewrite Hcat, Hsum. apply ztake_all. lia.
      * apply Hlens. lia.
Qed.

Lemma create_reader_whole_file_witness :
  let fs := fun name : String.string =>
              if String.eqb name "data.bgz" then Some (encode_stream example_file)
              else None in
  create_reader run_length_platform fs
    (make_source_from_bgzip_file_range "missing.bgz" 0 5) = Err ios_failure
  /\ exists r r',
       create_reader run_length_platform fs (make_source_from_bgzip_file "data.bgz")
       = Ok r
       /\ read_chunks run_length_platform [6; 7] r
          = Ok (chunks_of [6; 7] (contents example_file), r').
Proof.
  intros fs.
  pose proof (create_reader_whole_file run_length_platform fs "missing.bgz") as [Hm _].
  pose proof (create_reader_whole_file run_length_platform fs "data.bgz") as [_ Hd].
  split; [apply Hm; reflexivity|].
  assert (Hsizes : Forall (fun n => 0 <= n) [6; 7]) by (repeat constructor; lia).
  destruct (Hd example_file [6; 7] example_file_valid eq_refl Hsizes eq_refl)
    as (_ & Hdefault & _).
  exact Hdefault.
Defined.

(* ------------------------------------------------------------------ *)
(** * Host-to-device copies *)

(** X13: copy_to_device leaves the device vector an exact copy of the host
    vector, whatever it held and however long it was before, and this is
    what decompress puts into the device copies of the compressed blocks
    and of the two offset tables. *)
Theorem copy_to_device_copies (P : platform) (g : decompression_blocks) :
  (forall (A : Type) (d : A) (host device : list A),
      copy_to_device d host device = host)
  /\ (is_decompressed g = false ->
      d_compressed_blocks (fst (decompress P g))
      = copy_to_device x00 (h_compressed_blocks g) (d_compressed_blocks g)
      /\ d_compressed_offsets (fst (decompress P g))
         = copy_to_device 0 (h_compressed_offsets g) (d_compressed_offsets g)
      /\ d_decompressed_offsets (fst (decompress P g))
         = copy_to_device 0 (h_decompressed_offsets g) (d_decompressed_offsets g)).
Proof.
  assert (Hcopy : forall (A : Type) (d : A) (host device : list A),
             copy_to_device d host device = host).
  { intros A d host device. unfold copy_to_device, memcpy_over.
    rewrite zdrop_all by (rewrite zlen_vec_resize; [lia|apply zlen_nonneg]).
    apply app_nil_r. }
  split; [exact Hcopy|]. intros Hflag. rewrite !Hcopy.
  unfold decompress. rewrite Hflag.
  destruct (decompressed_size g >? 0); [destruct (nvcomp_all_enabled P)|];
    repeat match goal with
           | |- context [run_backend ?a ?b ?c ?d] => destruct (run_backend a b c d)
           end; cbn; auto.
Qed.

Lemma copy_to_device_copies_witness :
  d_compressed_offsets (fst (decompress stored_platform (set_available 3 new_blocks)))
  = copy_to_device 0 [0] [].
Proof.
  exact (proj1 (proj2 (proj2 (copy_to_device_copies stored_platform
                                (set_available 3 new_blocks)) eq_refl))).
Defined.

(* ------------------------------------------------------------------ *)
(** * The spans handed to the decompression backend *)

Lemma map_fst_transform (X Y : list (Z * Z)) :
  length X = length Y ->
  map fst (map bgzip_nvcomp_transform_functor (combine X Y)) = map span_between X.
Proof.
  revert Y. induction X as [|[a b] X IH]; intros [|[c d] Y]; cbn; try discriminate;
    [reflexivity|].
  intros [= H]. rewrite IH by exact H. reflexivity.
Qed.

Lemma map_snd_transform (X Y : list (Z * Z)) :
  length X = length Y ->
  map snd (map bgzip_nvcomp_transform_functor (combine X Y)) = map span_between Y.
Proof.
  revert Y. induction X as [|[a b] X IH]; intros [|[c d] Y]; cbn; try discriminate;
    [reflexivity|].
  intros [= H]. rewrite IH by exact H. reflexivity.
Qed.

Lemma length_combine_tl {A} (l : list A) :
  length (combine l (tl l)) = (length l - 1)%nat.
Proof. rewrite length_combine. destruct l; cbn [tl length]; lia. Qed.

Lemma last_default {A} (l : list A) (d d' : A) : l <> [] -> last l d = last l d'.
Proof.
  induction l as [|x l IH]; intros Hne; [congruence|].
  destruct l as [|y l]; [reflexivity|].
  change (last (x :: y :: l) d) with (last (y :: l) d).
  change (last (x :: y :: l) d') with (last (y :: l) d').
  apply IH. discriminate.
Qed.

Lemma nondecreasing_last (l : list Z) (x : Z) :
  nondecreasingb (x :: l) = true -> x <= last (x :: l) x.
Proof.
  revert x. induction l as [|y l IH]; intros x Hmono; [cbn; lia|].
  cbn [nondecreasingb] in Hmono. apply andb_prop in Hmono.
  destruct Hmono as [Hxy Hmono]. apply Z.leb_le in Hxy.
  change (last (x :: y :: l) x) with (last (y :: l) x).
  rewrite (last_default (y :: l) x y) by discriminate.
  specialize (IH y Hmono). lia.
Qed.

(** The spans between the entries of a table of offsets that never
    decreases. *)
Lemma tiles_offsets (l : list Z) :
  forall a,
    hd_error l = Some a ->
    nondecreasingb l = true ->
    last l a < 2 ^ 64 ->
    0 <= a ->
    tiles a (map span_between (combine l (tl l))) (last l a).
Proof.
  induction l as [|x l IH]; intros a Hhd Hmono Hlast Ha; [discriminate|].
  injection Hhd as ->. destruct l as [|y l].
  - cbn. reflexivity.
  - pose proof Hmono as Hmono'.
    cbn [nondecreasingb] in Hmono. apply andb_prop in Hmono.
    destruct Hmono as [Hxy Hmono]. apply Z.leb_le in Hxy.
    change (last (a :: y :: l) a) with (last (y :: l) a) in *.
    rewrite (last_default (y :: l) a y) in * by discriminate.
    pose proof (nondecreasing_last l y Hmono) as Hy.
    specialize (IH y eq_refl Hmono Hlast ltac:(lia)).
    cbn [tl combine map tiles span_between fst snd].
    rewrite wrap64_small by lia.
    split; [reflexivity|]. split; [lia|].
    replace (a + (y - a)) with y by lia. exact IH.
Qed.

Lemma decompress_spans (P : platform) (g : decompression_blocks) :
  is_decompressed g = false ->
  length (h_compressed_offsets g) = length (h_decompressed_offsets g) ->
  num_blocks g = zlen (h_compressed_offsets g) - 1 ->
  d_compressed_spans (fst (decompress P g))
  = map span_between (combine (h_compressed_offsets g) (tl (h_compressed_offsets g)))
  /\ d_decompressed_spans (fst (decompress P g))
     = map span_between
           (combine (h_decompressed_offsets g) (tl (h_decompressed_offsets g))).
Proof.
  intros Hflag Hlen Hnum.
  assert (Hspans :
            map bgzip_nvcomp_transform_functor
                (offset_it (h_compressed_offsets g) (h_decompressed_offsets g)
                           (num_blocks g))
            = map bgzip_nvcomp_transform_functor
                  (combine (combine (h_compressed_offsets g)
                                    (tl (h_compressed_offsets g)))
                           (combine (h_decompressed_offsets g)
                                    (tl (h_decompressed_offsets g))))).
  { unfold offset_it. destruct (h_compressed_offsets g) as [|c co] eqn:Hco.
    - cbn [combine]. unfold ztake. rewrite firstn_nil. reflexivity.
    - rewrite ztake_all; [reflexivity|].
      unfold zlen in *. rewrite length_combine, !length_combine_tl, <- Hlen.
      rewrite Nat.min_id, Hnum. cbn [length]. lia. }
  assert (Hboth : length (combine (h_compressed_offsets g) (tl (h_compressed_offsets g)))
                  = length (combine (h_decompressed_offsets g)
                                    (tl (h_decompressed_offsets g))))
    by (rewrite !length_combine_tl, Hlen; reflexivity).
  rewrite <- (map_fst_transform _ _ Hboth), <- (map_snd_transform _ _ Hboth), <- Hspans.
  unfold decompress. rewrite Hflag.
  destruct (decompressed_size g >? 0); [destruct (nvcomp_all_enabled P)|];
    repeat match goal with
           | |- context [run_backend ?a ?b ?c ?d] => destruct (run_backend a b c d)
           end; cbn [fst d_compressed_spans d_decompressed_spans]; auto.
Qed.

(** X14: the spans that decompress hands to the backend cut both buffers
    into the blocks of the group: for every group the reader can build, of
    fewer than 2^32 blocks and not yet decompressed, there is one compressed
    and one decompressed span per block, the compressed spans lie one behind
    the other from offset 0 to the end of the host buffer, and the
    decompressed spans from offset 0 to decompressed_size, without gap or
    overlap. *)
Theorem spans_tile_buffers (P : platform) (g : decompression_blocks) :
  reachable_blocks P g ->
  zlen (h_compressed_offsets g) <= 2 ^ 32 ->
  is_decompressed g = false ->
  let g' := fst (decompress P g) in
  zlen (d_compressed_spans g') = num_blocks g
  /\ zlen (d_decompressed_spans g') = num_blocks g
  /\ tiles 0 (d_compressed_spans g') (zlen (h_compressed_blocks g))
  /\ tiles 0 (d_decompressed_spans g') (decompressed_size g).
Proof.
  intros Hreach Hlen Hflag g'.
  pose proof (reachable_blocks_inv P g Hreach) as Hinv.
  destruct (reachable_decompressed_offsets P g Hreach Hlen) as (Hdmono & Hdsize).
  destruct Hinv as [Hsame Hch Hdh Hcmono Hhost Hcsize].
  assert (Hne : (1 <= length (h_compressed_offsets g))%nat).
  { destruct (h_compressed_offsets g); [discriminate|cbn; lia]. }
  assert (Hnum : num_blocks g = zlen (h_compressed_offsets g) - 1).
  { unfold num_blocks. apply wrap64_small. unfold zlen in *. lia. }
  destruct (decompress_spans P g Hflag Hsame Hnum) as [Hc Hd].
  subst g'. rewrite Hc, Hd, Hhost.
  split; [unfold zlen in *; rewrite length_map, length_combine_tl; lia|].
  split; [unfold zlen in *; rewrite length_map, length_combine_tl; lia|].
  split.
  - apply tiles_offsets; [exact Hch|exact Hcmono| |lia].
    fold (compressed_size g). lia.
  - apply tiles_offsets; [exact Hdh|exact Hdmono| |lia].
    fold (decompressed_size g). unfold zlen in *. nia.
Qed.

Lemma spans_tile_buffers_witness :
  match read_header run_length_platform (open_stream (encode_stream example_file)) with
  | Ok (header, s1) =>
      match read_block header s1 new_blocks with
      | Ok (g, s2) =>
          match read_footer run_length_platform s2 with
          | Ok (footer, _) =>
              tiles 0
                (d_decompressed_spans
                   (fst (decompress run_length_platform
                           (add_block_offsets header footer g))))
                10
          | Err _ => False
          end
      | Err _ => False
      end
  | Err _ => False
  end.
Proof.
  destruct (read_header run_length_platform (open_stream (encode_stream example_file)))
    as [[header s1]|e] eqn:Hrh; [|vm_compute in Hrh; discriminate Hrh].
  destruct (read_block header s1 new_blocks) as [[g s2]|e] eqn:Hrb;
    [|vm_compute in Hrh; injection Hrh as <- <-; vm_compute in Hrb; discriminate Hrb].
  destruct (read_footer run_length_platform s2) as [[footer s3]|e] eqn:Hrf;
    [|vm_compute in Hrh; injection Hrh as <- <-; vm_compute in Hrb;
      injection Hrb as <- <-; vm_compute in Hrf; discriminate Hrf].
  assert (Hreach : reachable_blocks run_length_platform (add_block_offsets header footer g)).
  { apply (reach_block run_length_platform new_blocks header footer
             (open_stream (encode_stream example_file)) s1 g s2 s3);
      [apply reach_new|cbn; lia|exact Hrh|exact Hrb|exact Hrf]. }
  vm_compute in Hrh. injection Hrh as <- <-.
  vm_compute in Hrb. injection Hrb as <- <-.
  vm_compute in Hrf. injection Hrf as <- <-.
  assert (Hlen : zlen (h_compressed_offsets
                         (add_block_offsets (mk_header 28 6) (mk_footer 10)
                            (append_payload [x61; x0a] new_blocks))) <= 2 ^ 32)
    by (vm_compute; discriminate).
  pose proof (spans_tile_buffers run_length_platform _ Hreach Hlen eq_refl)
    as (_ & _ & _ & H).
  exact H.
Defined.

Lemma combine_tl_snoc {A} (l : list A) (x d : A) :
  l <> [] ->
  combine (l ++ [x]) (tl (l ++ [x])) = combine l (tl l) ++ [(last l d, x)].
Proof.
  induction l as [|a l IH]; [congruence|]. intros _. destruct l as [|b l].
  - reflexivity.
  - change (combine ((a :: b :: l) ++ [x]) (tl ((a :: b :: l) ++ [x])))
      with ((a, b) :: combine ((b :: l) ++ [x]) (tl ((b :: l) ++ [x]))).
    rewrite IH by discriminate. reflexivity.
Qed.

Lemma read_block_max (h : bgzip_header) (s s' : istream)
      (g g' : decompression_blocks) :
  read_block h s g = Ok (g', s') ->
  max_decompressed_size g' = max_decompressed_size g.
Proof.
  unfold read_block. destruct (_ <=? _); [discriminate|].
  destruct (stream_read _ _) as [[bytes s2]|e]; cbn [bind]; [|discriminate].
  intros [= <- _]. reflexivity.
Qed.

(** The largest decompressed size seen bounds the step between any two
    consecutive decompressed offsets. *)
Lemma reachable_max_decompressed (P : platform) (g : decompression_blocks) :
  reachable_blocks P g ->
  zlen (h_compressed_offsets g) <= 2 ^ 32 ->
  0 <= max_decompressed_size g < 2 ^ 32
  /\ Forall (fun be => 0 <= snd be - fst be <= max_decompressed_size g)
            (combine (h_decompressed_offsets g) (tl (h_decompressed_offsets g))).
Proof.
  induction 1 as [|g Hg IH|g header footer s0 s1 g' s2 s3 Hg IH Hpos Hrh Hrb Hrf
                  |g a Hg IH|g size g' Hg IH Hcons|g Hg IH]; intros Hlen.
  - cbn. split; [lia|constructor].
  - pose proof (reachable_blocks_inv P g Hg) as Hinv.
    unfold reset. cbn [max_decompressed_size h_decompressed_offsets].
    rewrite (vec_resize_one _ (bi_decompressed_head g Hinv)). cbn.
    split; [lia|constructor].
  - pose proof (read_block_scalars _ _ _ _ _ Hrb) as (_ & _ & Hco & Hdo & _).
    pose proof (read_block_max _ _ _ _ _ Hrb) as Hmax.
    cbn [add_block_offsets h_compressed_offsets] in Hlen.
    rewrite zlen_app, Hco in Hlen. change (zlen [_]) with 1 in Hlen.
    destruct (IH ltac:(lia)) as (Hm & Hall).
    destruct (reachable_decompressed_offsets P g Hg ltac:(lia)) as (_ & Hds).
    pose proof (reachable_blocks_inv P g Hg) as Hinv.
    apply read_header_ok in Hrh; [|exact Hpos]. destruct Hrh as (_ & _ & _ & Hp1 & _).
    apply read_block_stream in Hrb; [|lia]. destruct Hrb as (Hdata & ->).
    apply read_footer_ok in Hrf; [|cbn [stream_pos]; lia]. destruct Hrf as (Hf & _).
    cbn [add_block_offsets max_decompressed_size h_decompressed_offsets].
    rewrite Hmax, Hdo. split; [lia|].
    rewrite (combine_tl_snoc _ _ 0)
      by (apply (hd_error_nonempty _ 0), (bi_decompressed_head g Hinv)).
    apply Forall_app. split.
    + eapply Forall_impl; [|exact Hall]. intros be Hbe. cbn beta in *. lia.
    + constructor; [|constructor]. cbn [fst snd].
      assert (Hd : decompressed_size g' = decompressed_size g)
        by (unfold decompressed_size; rewrite Hdo; reflexivity).
      rewrite Hd. fold (decompressed_size g).
      rewrite wrap64_small by nia. lia.
  - exact (IH Hlen).
  - apply consume_bytes_fields in Hcons. destruct Hcons as [-> _]. exact (IH Hlen).
  - destruct (decompress_scalars P g) as (_ & _ & _ & Hco & Hdo & Hmax).
    rewrite Hco in Hlen. rewrite Hdo, Hmax. exact (IH Hlen).
Qed.

(** X15: what decompress launches.  For a group the reader can build, of
    fewer than 2^32 blocks and not yet decompressed: nothing when the group
    decompresses to no byte; otherwise one call of the backend the platform
    selects, over all blocks of the group; and the maximal block size that
    nvcomp's batched_decompress is given is at least the size of every
    decompressed span of the batch, the total size their sum
    (decompressed_size). *)
Theorem decompress_launches (P : platform) (g : decompression_blocks) :
  reachable_blocks P g ->
  zlen (h_compressed_offsets g) <= 2 ^ 32 ->
  is_decompressed g = false ->
  match snd (decompress P g) with
  | [] => decompressed_size g = 0
  | [batched_decompress blocks max_size total_size] =>
      nvcomp_all_enabled P = true
      /\ blocks = num_blocks g
      /\ total_size = decompressed_size g
      /\ 0 < total_size
      /\ Forall (fun sp => 0 <= snd sp <= max_size)
                (d_decompressed_spans (fst (decompress P g)))
  | [gpuinflate blocks] =>
      nvcomp_all_enabled P = false
      /\ blocks = num_blocks g
      /\ 0 < decompressed_size g
  | _ => False
  end.
Proof.
  intros Hreach Hlen Hflag.
  pose proof (reachable_blocks_inv P g Hreach) as Hinv.
  destruct (reachable_decompressed_offsets P g Hreach Hlen) as (_ & Hdsize).
  destruct (reachable_max_decompressed P g Hreach Hlen) as (Hmax & Hsteps).
  assert (Hne : (1 <= length (h_compressed_offsets g))%nat).
  { pose proof (bi_compressed_head g Hinv).
    destruct (h_compressed_offsets g); [discriminate|cbn; lia]. }
  assert (Hnum : num_blocks g = zlen (h_compressed_offsets g) - 1).
  { unfold num_blocks. apply wrap64_small. unfold zlen in *. lia. }
  destruct (decompress_spans P g Hflag (bi_same_length g Hinv) Hnum) as [Hc Hd].
  assert (Hcount : zlen (d_compressed_spans (fst (decompress P g))) = num_blocks g).
  { rewrite Hc, Hnum. unfold zlen. rewrite length_map, length_combine_tl. lia. }
  assert (Hbound : Forall (fun sp => 0 <= snd sp <= max_decompressed_size g)
                          (d_decompressed_spans (fst (decompress P g)))).
  { rewrite Hd. apply Forall_map. eapply Forall_impl; [|exact Hsteps].
    intros [b e] Hbe. cbn [fst snd span_between] in *.
    rewrite wrap64_small by lia. exact Hbe. }
  revert Hcount Hbound. unfold decompress. rewrite Hflag.
  destruct (Z.gtb_spec (decompressed_size g) 0) as [Hpos|Hzero].
  - destruct (nvcomp_all_enabled P);
      repeat match goal with
             | |- context [run_backend ?a ?b ?c ?d] => destruct (run_backend a b c d)
             end; cbn [fst snd d_compressed_spans d_decompressed_spans];
      intros Hcount Hbound.
    + split; [reflexivity|]. split; [exact Hcount|]. split; [reflexivity|].
      split; [lia|exact Hbound].
    + split; [reflexivity|]. split; [exact Hcount|lia].
  - cbn [snd]. intros _ _. lia.
Qed.

Lemma decompress_launches_witness :
  match read_header run_length_platform (open_stream (encode_stream example_file)) with
  | Ok (header, s1) =>
      match read_block header s1 new_blocks with
      | Ok (g, s2) =>
          match read_footer run_length_platform s2 with
          | Ok (footer, _) =>
              match snd (decompress run_length_platform
                           (add_block_offsets header footer g)) with
              | [batched_decompress blocks max_size total_size] =>
                  blocks = 1 /\ max_size = 10 /\ total_size = 10
              | _ => False
              end
          | Err _ => False
          end
      | Err _ => False
      end
  | Err _ => False
  end.
Proof.
  destruct (read_header run_length_platform (open_stream (encode_stream example_file)))
    as [[header s1]|e] eqn:Hrh; [|vm_compute in Hrh; discriminate Hrh].
  destruct (read_block header s1 new_blocks) as [[g s2]|e] eqn:Hrb;
    [|vm_compute in Hrh; injection Hrh as <- <-; vm_compute in Hrb; discriminate Hrb].
  destruct (read_footer run_length_platform s2) as [[footer s3]|e] eqn:Hrf;
    [|vm_compute in Hrh; injection Hrh as <- <-; vm_compute in Hrb;
      injection Hrb as <- <-; vm_compute in Hrf; discriminate Hrf].
  assert (Hreach : reachable_blocks run_length_platform (add_block_offsets header footer g)).
  { apply (reach_block run_length_platform new_blocks header footer
             (open_stream (encode_stream example_file)) s1 g s2 s3);
      [apply reach_new|cbn; lia|exact Hrh|exact Hrb|exact Hrf]. }
  vm_compute in Hrh. injection Hrh as <- <-.
  vm_compute in Hrb. injection Hrb as <- <-.
  vm_compute in Hrf. injection Hrf as <- <-.
  assert (Hlen : zlen (h_compressed_offsets
                         (add_block_offsets (mk_header 28 6) (mk_footer 10)
                            (append_payload [x61; x0a] new_blocks))) <= 2 ^ 32)
    by (vm_compute; discriminate).
  pose proof (decompress_launches run_length_platform _ Hreach Hlen eq_refl) as H.
  destruct (snd (decompress run_length_platform _)) as [|[b m t|b] [|c2 cs]] eqn:Hcalls;
    try (vm_compute in Hcalls; discriminate Hcalls).
  destruct H as (_ & Hb & Ht & _ & _).
  vm_compute in Hcalls. injection Hcalls as _ Hm _.
  split; [exact Hb|]. split; [symmetry; exact Hm|exact Ht].
Defined.

(* ------------------------------------------------------------------ *)
(** * Truncated files

    What the parser does on a file of which only the first [c] bytes are
    there, against what it does on the whole file: the same, until a read
    runs into the cut and raises the stream's error. *)

Section Truncated.
Variable P : platform.
Variable c : Z.

Lemma truncate_stream_size (s : istream) :
  0 <= c <= stream_size s -> stream_size (truncate_stream c s) = c.
Proof.
  intros Hc. unfold stream_size, truncate_stream in *. cbn [stream_data].
  apply zlen_ztake. exact Hc.
Qed.

Lemma stream_read_truncated (n : Z) (s s1 : istream) (bytes : list byte) :
  0 <= stream_pos s ->
  0 <= c <= stream_size s ->
  stream_read n s = Ok (bytes, s1) ->
  (stream_read n (truncate_stream c s) = Ok (bytes, truncate_stream c s1)
   /\ (0 < n -> stream_pos s1 <= c))
  \/ stream_read n (truncate_stream c s) = Err ios_failure.
Proof.
  intros Hpos Hc Hread. pose proof (truncate_stream_size s Hc) as Hsize.
  unfold stream_read in *. rewrite Hsize.
  cbn [truncate_stream stream_eof stream_pos stream_data].
  destruct (stream_eof s); [discriminate|].
  destruct (Z.ltb_spec n 0) as [|Hn]; [discriminate|].
  destruct (n <=? Z.max 0 (stream_size s - stream_pos s)); [|discriminate].
  injection Hread as <- <-.
  destruct (Z.leb_spec n (Z.max 0 (c - stream_pos s))) as [Hfit|]; [|right; reflexivity].
  left. cbn [stream_pos stream_data stream_eof]. split; [|lia].
  f_equal. f_equal.
  destruct (Z.eq_dec n 0) as [->|Hn0]; [reflexivity|].
  apply slice_of_take; lia.
Qed.

Lemma stream_seekg_truncated (off : Z) (s s1 : istream) :
  stream_seekg_cur off s = Ok s1 ->
  stream_seekg_cur off (truncate_stream c s) = Ok (truncate_stream c s1).
Proof.
  unfold stream_seekg_cur. cbn [truncate_stream stream_pos stream_data].
  destruct (_ <? 0); [discriminate|]. intros [= <-]. reflexivity.
Qed.

Lemma stream_peek_truncated (s s0 : istream) :
  0 <= c <= stream_size s ->
  stream_pos s < c ->
  stream_peek s = Ok s0 ->
  s0 = s /\ stream_peek (truncate_stream c s) = Ok (truncate_stream c s).
Proof.
  intros Hc Hpos. pose proof (truncate_stream_size s Hc) as Hsize.
  unfold stream_peek. rewrite Hsize.
  cbn [truncate_stream stream_eof stream_pos stream_data].
  destruct (stream_eof s); [discriminate|].
  destruct (Z.leb_spec (stream_size s) (stream_pos s)); [lia|].
  destruct (Z.leb_spec c (stream_pos s)); [lia|].
  intros [= <-]. split; reflexivity.
Qed.

Lemma read_header_loop_truncated (fuel : nat) :
  forall (fuel' : nat) (xl off : Z) (buffer : list byte) (s s1 : istream)
         (h : bgzip_header),
    0 <= stream_pos s ->
    0 <= c <= stream_size s ->
    read_header_loop P fuel xl off buffer s = Ok (h, s1) ->
    read_header_loop P fuel' xl off buffer (truncate_stream c s)
    = Ok (h, truncate_stream c s1)
    \/ read_header_loop P fuel' xl off buffer (truncate_stream c s) = Err ios_failure
    \/ read_header_loop P fuel' xl off buffer (truncate_stream c s) = Err out_of_fuel.
Proof.
  induction fuel as [|fuel IH]; intros fuel' xl off buffer s s1 h Hpos Hc;
    cbn [read_header_loop]; [discriminate|].
  destruct fuel' as [|fuel']; cbn [read_header_loop]; [auto|].
  destruct (off <? xl); [|discriminate].
  destruct (xl - off >=? 4); cbn [CUDF_EXPECTS bind]; [|discriminate].
  destruct (stream_read 4 s) as [[b4 s4]|e] eqn:Hr4; cbn [bind]; [|discriminate].
  pose proof (stream_read_ok _ _ _ _ Hpos Hr4) as (_ & _ & _ & Hs4 & _).
  destruct (stream_read_truncated 4 s s4 b4 Hpos Hc Hr4) as [[-> _]| ->];
    cbn [bind]; [|auto].
  assert (Hpos4 : 0 <= stream_pos s4) by (rewrite Hs4; cbn [stream_pos]; lia).
  assert (Hc4 : 0 <= c <= stream_size s4) by (rewrite Hs4; exact Hc).
  destruct (_ && _).
  - destruct (_ =? 2); cbn [CUDF_EXPECTS bind]; [|discriminate].
    destruct (stream_read 2 s4) as [[b2 s2]|e] eqn:Hr2; cbn [bind]; [|discriminate].
    destruct (stream_read_truncated 2 s4 s2 b2 Hpos4 Hc4 Hr2) as [[-> _]| ->];
      cbn [bind]; [|auto].
    destruct (stream_seekg_cur _ s2) as [s3|e] eqn:Hsk; cbn [bind]; [|discriminate].
    rewrite (stream_seekg_truncated _ _ _ Hsk). cbn [bind].
    intros [= <- <-]. left. reflexivity.
  - destruct (stream_seekg_cur _ s4) as [s3|e] eqn:Hsk; cbn [bind]; [|discriminate].
    rewrite (stream_seekg_truncated _ _ _ Hsk). cbn [bind].
    apply stream_seekg_ok in Hsk. destruct Hsk as [Hs3 Hsk].
    intros Hloop. apply IH; [rewrite Hs3; cbn [stream_pos]; exact Hsk| |exact Hloop].
    rewrite Hs3. exact Hc4.
Qed.

Lemma read_header_truncated (s s1 : istream) (h : bgzip_header) :
  0 <= stream_pos s ->
  0 <= c <= stream_size s ->
  read_header P s = Ok (h, s1) ->
  read_header P (truncate_stream c s) = Ok (h, truncate_stream c s1)
  \/ read_header P (truncate_stream c s) = Err ios_failure.
Proof.
  intros Hpos Hc Hrun.
  pose proof (read_header_fuel_enough P (truncate_stream c s) Hpos) as Hfuel.
  revert Hrun Hfuel. unfold read_header.
  destruct (stream_read 12 s) as [[buffer s12]|e] eqn:Hr; cbn [bind]; [|discriminate].
  pose proof (stream_read_ok _ _ _ _ Hpos Hr) as (_ & _ & _ & Hs12 & _).
  destruct (stream_read_truncated 12 s s12 buffer Hpos Hc Hr) as [[-> _]| ->];
    cbn [bind]; [|auto].
  destruct (forallb _ _); cbn [CUDF_EXPECTS bind]; [|discriminate].
  intros Hloop Hfuel.
  apply (read_header_loop_truncated _ (S (length (stream_data (truncate_stream c s12)))))
    in Hloop.
  - destruct Hloop as [Hl|[Hl|Hl]]; [left; exact Hl|right; exact Hl|].
    contradiction.
  - rewrite Hs12. cbn [stream_pos]. lia.
  - rewrite Hs12. exact Hc.
Qed.

Lemma read_block_truncated (h : bgzip_header) (s s1 : istream)
      (g g' : decompression_blocks) :
  0 <= stream_pos s ->
  0 <= c <= stream_size s ->
  read_block h s g = Ok (g', s1) ->
  read_block h (truncate_stream c s) g = Ok (g', truncate_stream c s1)
  \/ read_block h (truncate_stream c s) g = Err ios_failure.
Proof.
  intros Hpos Hc. unfold read_block. destruct (_ <=? _); [discriminate|].
  destruct (stream_read (data_size h) s) as [[bytes s2]|e] eqn:Hr; cbn [bind];
    [|discriminate].
  destruct (stream_read_truncated _ s s2 bytes Hpos Hc Hr) as [[-> _]| ->];
    cbn [bind]; [|auto].
  intros [= <- <-]. left. reflexivity.
Qed.

Lemma read_footer_truncated (s s1 : istream) (f : bgzip_footer) :
  0 <= stream_pos s ->
  0 <= c <= stream_size s ->
  read_footer P s = Ok (f, s1) ->
  (read_footer P (truncate_stream c s) = Ok (f, truncate_stream c s1)
   /\ stream_pos s1 <= c)
  \/ read_footer P (truncate_stream c s) = Err ios_failure.
Proof.
  intros Hpos Hc. unfold read_footer.
  destruct (stream_read 8 s) as [[buffer s2]|e] eqn:Hr; cbn [bind]; [|discriminate].
  destruct (stream_read_truncated 8 s s2 buffer Hpos Hc Hr) as [[-> Hend]| ->];
    cbn [bind]; [|auto].
  intros [= <- <-]. left. split; [reflexivity|]. apply Hend. lia.
Qed.

(** The reader stays in step with the reader on the whole file as long as
    the blocks it reads end before the cut; [B] holds of the stream of the
    whole file whenever the accumulation loop is about to look for a
    block. *)
Variable B : istream -> Prop.

Hypothesis B_bound :
  forall s, B s -> 0 <= stream_pos s /\ stream_pos s <> c /\ 0 <= c <= stream_size s.

Hypothesis B_peek : forall s s0, B s -> stream_peek s = Ok s0 -> B s0.

Hypothesis B_block :
  forall s0 h s1 g g' s2 f s3,
    B s0 ->
    read_header P s0 = Ok (h, s1) ->
    read_block h s1 g = Ok (g', s2) ->
    read_footer P s2 = Ok (f, s3) ->
    B s3.

Lemma read_chunk_loop_keeps (n : Z) (fuel : nat) (r r1 : reader) :
  B (_data_stream r) -> read_chunk_loop P fuel n r = Ok r1 -> B (_data_stream r1).
Proof.
  apply (read_chunk_loop_invariant P n (fun r0 => B (_data_stream r0))).
  - intros r0 s0 Hb Hpeek. unfold with_stream. cbn [_data_stream].
    exact (B_peek _ _ Hb Hpeek).
  - intros r0 header s1 curr s2 footer s3 Hb _ Hrh Hrb Hrf.
    unfold with_block. cbn [_data_stream].
    exact (B_block _ _ _ _ _ _ _ _ Hb Hrh Hrb Hrf).
Qed.

Lemma read_chunk_loop_truncated (n : Z) (fuel : nat) :
  forall (fuel' : nat) (r r1 : reader),
    B (_data_stream r) ->
    stream_pos (_data_stream r) < c ->
    read_chunk_loop P fuel n r = Ok r1 ->
    (read_chunk_loop P fuel' n (truncate_reader c r) = Ok (truncate_reader c r1)
     /\ stream_pos (_data_stream r1) < c)
    \/ read_chunk_loop P fuel' n (truncate_reader c r) = Err ios_failure
    \/ read_chunk_loop P fuel' n (truncate_reader c r) = Err out_of_fuel.
Proof.
  induction fuel as [|fuel IH]; intros fuel' r r1 Hb Hlt; cbn [read_chunk_loop];
    [discriminate|].
  destruct fuel' as [|fuel']; cbn [read_chunk_loop]; [auto|].
  destruct (B_bound _ Hb) as (Hpos & _ & Hc).
  unfold truncate_reader, with_stream.
  cbn [_data_stream _prev_blocks _curr_blocks _local_end _compressed_pos
       _compressed_end truncate_stream stream_eof].
  destruct (_ <? n); [|intros [= <-]; left; split; [reflexivity|exact Hlt]].
  destruct (stream_eof (_data_stream r)) eqn:He;
    [intros [= <-]; left; split; [reflexivity|exact Hlt]|].
  destruct (stream_peek (_data_stream r)) as [s0|e] eqn:Hpeek; cbn [bind];
    [|discriminate].
  pose proof (B_peek _ _ Hb Hpeek) as Hb0.
  destruct (stream_peek_truncated _ _ Hc Hlt Hpeek) as [-> Hpeek'].
  fold (truncate_stream c (_data_stream r)). rewrite Hpeek'. cbn [bind].
  cbn [truncate_stream stream_eof]. rewrite He. cbn [orb].
  destruct (_compressed_pos r >? _compressed_end r).
  { intros [= <-]. left. split; [|exact Hlt]. unfold truncate_reader, with_stream.
    cbn [_data_stream _prev_blocks _curr_blocks _local_end _compressed_pos
         _compressed_end]. reflexivity. }
  fold (truncate_stream c (_data_stream r)).
  destruct (read_header P (_data_stream r)) as [[header s1]|e] eqn:Hrh; cbn [bind];
    [|discriminate].
  pose proof (read_header_ok _ _ _ _ Hpos Hrh) as (_ & _ & Hd1 & Hp1 & _).
  destruct (read_header_truncated _ _ _ Hpos Hc Hrh) as [-> | ->]; cbn [bind]; [|auto].
  destruct (read_block header s1 (_curr_blocks r)) as [[curr s2]|e] eqn:Hrb;
    cbn [bind]; [|discriminate].
  assert (Hpos1 : 0 <= stream_pos s1) by lia.
  assert (Hc1 : 0 <= c <= stream_size s1) by (unfold stream_size in *; rewrite Hd1; exact Hc).
  pose proof (read_block_stream _ _ _ _ _ Hpos1 Hrb) as (Hds & Hs2).
  destruct (read_block_truncated _ _ _ _ _ Hpos1 Hc1 Hrb) as [-> | ->]; cbn [bind];
    [|auto].
  destruct (read_footer P s2) as [[footer s3]|e] eqn:Hrf; cbn [bind]; [|discriminate].
  assert (Hpos2 : 0 <= stream_pos s2) by (rewrite Hs2; cbn [stream_pos]; lia).
  assert (Hc2 : 0 <= c <= stream_size s2) by (rewrite Hs2; exact Hc1).
  pose proof (B_block _ _ _ _ _ _ _ _ Hb0 Hrh Hrb Hrf) as Hb3.
  destruct (read_footer_truncated _ _ _ Hpos2 Hc2 Hrf) as [[-> Hend] | ->]; cbn [bind];
    [|auto].
  assert (Hlt3 : stream_pos s3 < c) by (destruct (B_bound _ Hb3) as (_ & Hne & _); lia).
  destruct (_compressed_pos r =? _compressed_end r).
  - intros [= <-]. left. split; [reflexivity|exact Hlt3].
  - intros Hloop.
    apply (IH fuel') in Hloop; cbn [_data_stream]; [|exact Hb3|exact Hlt3].
    exact Hloop.
Qed.

Lemma read_next_compressed_chunk_truncated (n : Z) (r r1 : reader) :
  B (_data_stream r) ->
  stream_pos (_data_stream r) < c ->
  read_next_compressed_chunk P n r = Ok r1 ->
  (read_next_compressed_chunk P n (truncate_reader c r) = Ok (truncate_reader c r1)
   /\ stream_pos (_data_stream r1) < c
   /\ B (_data_stream r1))
  \/ read_next_compressed_chunk P n (truncate_reader c r) = Err ios_failure.
Proof.
  intros Hb Hlt Hrun. destruct (B_bound _ Hb) as (Hpos & _ & _).
  pose proof (read_next_compressed_chunk_fuel_enough P n (truncate_reader c r) Hpos)
    as Hfuel.
  revert Hrun Hfuel. unfold read_next_compressed_chunk. intros Hrun.
  pose proof Hrun as Hb1. apply read_chunk_loop_keeps in Hb1; [|exact Hb].
  apply (read_chunk_loop_truncated n _
           (S (length (stream_data (_data_stream (truncate_reader c r))))))
    in Hrun; [|exact Hb|exact Hlt].
  unfold truncate_reader, with_stream in *.
  cbn [_data_stream _prev_blocks _curr_blocks _local_end _compressed_pos
       _compressed_end] in *.
  intros Hfuel. destruct Hrun as [[Hrun Hlt1]|[Hrun|Hrun]].
  - left. split; [exact Hrun|]. split; [exact Hlt1|exact Hb1].
  - right. exact Hrun.
  - contradiction.
Qed.

Lemma get_next_chunk_truncated (n : Z) (r r1 : reader) (data : list byte) :
  B (_data_stream r) ->
  stream_pos (_data_stream r) < c ->
  get_next_chunk P n r = Ok (data, r1) ->
  (get_next_chunk P n (truncate_reader c r) = Ok (data, truncate_reader c r1)
   /\ stream_pos (_data_stream r1) < c
   /\ B (_data_stream r1))
  \/ get_next_chunk P n (truncate_reader c r) = Err ios_failure.
Proof.
  intros Hb Hlt. unfold get_next_chunk.
  change (_curr_blocks (truncate_reader c r)) with (_curr_blocks r).
  destruct (n <=? remaining_size (_curr_blocks r)).
  - destruct (consume_bytes _ _) as [curr|e]; cbn [bind]; [|discriminate].
    intros [= <- <-]. left. cbn [_data_stream]. split; [reflexivity|].
    split; [exact Hlt|exact Hb].
  - destruct (read_next_compressed_chunk P n r) as [r2|e] eqn:Hnext; cbn [bind];
      [|discriminate].
    destruct (read_next_compressed_chunk_truncated n r r2 Hb Hlt Hnext)
      as [(-> & Hlt2 & Hb2)| ->]; cbn [bind]; [|right; reflexivity].
    change (_prev_blocks (truncate_reader c r2)) with (_prev_blocks r2).
    change (_curr_blocks (truncate_reader c r2)) with (_curr_blocks r2).
    destruct (consume_bytes _ (fst (decompress P (_prev_blocks r2)))) as [prev|e];
      cbn [bind]; [|discriminate].
    destruct (consume_bytes _ (fst (decompress P (_curr_blocks r2)))) as [curr|e];
      cbn [bind]; [|discriminate].
    intros [= <- <-]. left. cbn [_data_stream]. split; [reflexivity|].
    split; [exact Hlt2|exact Hb2].
Qed.

Lemma read_chunks_truncated (sizes : list Z) :
  forall (r r1 : reader) (chunks : list (list byte)),
    B (_data_stream r) ->
    stream_pos (_data_stream r) < c ->
    read_chunks P sizes r = Ok (chunks, r1) ->
    (read_chunks P sizes (truncate_reader c r) = Ok (chunks, truncate_reader c r1)
     /\ stream_pos (_data_stream r1) < c)
    \/ read_chunks P sizes (truncate_reader c r) = Err ios_failure.
Proof.
  induction sizes as [|n sizes IH]; intros r r1 chunks Hb Hlt; cbn [read_chunks].
  - intros [= <- <-]. left. split; [reflexivity|exact Hlt].
  - destruct (get_next_chunk P n r) as [[chunk r2]|e] eqn:Hget; cbn [bind];
      [|discriminate].
    destruct (get_next_chunk_truncated n r r2 chunk Hb Hlt Hget)
      as [(-> & Hlt2 & Hb2)| ->]; cbn [bind]; [|right; reflexivity].
    destruct (read_chunks P sizes r2) as [[chunks2 r3]|e] eqn:Hrest; cbn [bind];
      [|discriminate].
    intros [= <- <-].
    destruct (IH r2 r3 chunks2 Hb2 Hlt2 Hrest) as [[-> Hlt3]| ->]; cbn [bind].
    + left. split; [reflexivity|exact Hlt3].
    + right. reflexivity.
Qed.

Lemma constructor_whole_begin (bytes : list byte) (ve : Z) :
  bgzip_data_chunk_reader P (open_stream bytes) 0 ve
  = (r <- read_next_compressed_chunk P chunk_load_size
            (mk_reader (open_stream bytes) new_blocks new_blocks
                       (Z.land ve 65535) 0 (Z.shiftr ve 16)) ;;
     Ok r).
Proof. reflexivity. Qed.

Lemma constructor_truncated (bytes : list byte) (ve : Z) (r : reader) :
  B (open_stream bytes) ->
  0 < c ->
  bgzip_data_chunk_reader P (open_stream bytes) 0 ve = Ok r ->
  (bgzip_data_chunk_reader P (open_stream (ztake c bytes)) 0 ve
   = Ok (truncate_reader c r)
   /\ stream_pos (_data_stream r) < c
   /\ B (_data_stream r))
  \/ bgzip_data_chunk_reader P (open_stream (ztake c bytes)) 0 ve = Err ios_failure.
Proof.
  intros Hb Hc. rewrite !constructor_whole_begin.
  change (mk_reader (open_stream (ztake c bytes)) new_blocks new_blocks
                    (Z.land ve 65535) 0 (Z.shiftr ve 16))
    with (truncate_reader c
            (mk_reader (open_stream bytes) new_blocks new_blocks
                       (Z.land ve 65535) 0 (Z.shiftr ve 16))).
  destruct (read_next_compressed_chunk P chunk_load_size
              (mk_reader (open_stream bytes) new_blocks new_blocks
                         (Z.land ve 65535) 0 (Z.shiftr ve 16)))
    as [r1|e] eqn:Hnext; cbn [bind]; [|discriminate].
  intros [= <-].
  apply read_next_compressed_chunk_truncated in Hnext;
    cbn [_data_stream open_stream stream_pos]; [|exact Hb|exact Hc].
  destruct Hnext as [(-> & Hlt1 & Hb1)| ->]; cbn [bind].
  - left. split; [reflexivity|]. split; [exact Hlt1|exact Hb1].
  - right. reflexivity.
Qed.

End Truncated.

Lemma get_next_chunk_range_end (P : platform) (n : Z) (r r1 : reader)
      (data : list byte) :
  get_next_chunk P n r = Ok (data, r1) -> _compressed_end r1 = _compressed_end r.
Proof.
  unfold get_next_chunk. destruct (_ <=? _).
  - destruct (consume_bytes _ _) as [curr|e]; cbn [bind]; [|discriminate].
    intros [= _ <-]. reflexivity.
  - destruct (read_next_compressed_chunk P n r) as [r2|e] eqn:Hnext; cbn [bind];
      [|discriminate].
    destruct (consume_bytes _ (fst (decompress P (_prev_blocks r2)))) as [prev|e];
      cbn [bind]; [|discriminate].
    destruct (consume_bytes _ (fst (decompress P (_curr_blocks r2)))) as [curr|e];
      cbn [bind]; [|discriminate].
    intros [= _ <-]. cbn [_compressed_end].
    unfold read_next_compressed_chunk in Hnext.
    refine (read_chunk_loop_invariant P n
              (fun r0 => _compressed_end r0 = _compressed_end r) _ _ _ _ _ _ Hnext).
    + intros r0 s0 H _. exact H.
    + intros r0 header s1 curr0 s2 footer s3 H _ _ _ _. exact H.
    + reflexivity.
Qed.

(** How the accumulation loop ends when no block starts at the end of the
    range: with enough data, at the end of the file, or past the end of
    the range. *)
Section LoopExit.
Variable P : platform.
Variable n : Z.
Variable I : reader -> Prop.

Hypothesis I_peek :
  forall r s0, I r -> stream_peek (_data_stream r) = Ok s0 -> I (with_stream s0 r).

Hypothesis I_block :
  forall r header s1 curr s2 footer s3,
    I r ->
    decompressed_size (_curr_blocks r) < n ->
    read_header P (_data_stream r) = Ok (header, s1) ->
    read_block header s1 (_curr_blocks r) = Ok (curr, s2) ->
    read_footer P s2 = Ok (footer, s3) ->
    I (with_block header footer curr s3 r).

Hypothesis I_end : forall r, I r -> _compressed_pos r <> _compressed_end r.

Lemma read_chunk_loop_exit (fuel : nat) (r r' : reader) :
  I r ->
  read_chunk_loop P fuel n r = Ok r' ->
  I r'
  /\ (n <= decompressed_size (_curr_blocks r')
      \/ stream_eof (_data_stream r') = true
      \/ _compressed_end r' < _compressed_pos r').
Proof.
  revert r. induction fuel as [|fuel IH]; intros r Hr; [discriminate|].
  cbn [read_chunk_loop].
  destruct (Z.ltb_spec (decompressed_size (_curr_blocks r)) n) as [Hlt|Hge].
  2:{ intros [= <-]. split; [exact Hr|]. left. exact Hge. }
  destruct (stream_eof (_data_stream r)) eqn:He.
  { intros [= <-]. split; [exact Hr|]. right. left. exact He. }
  destruct (stream_peek (_data_stream r)) as [s0|e] eqn:Hpeek; cbn [bind];
    [|discriminate].
  pose proof (I_peek r s0 Hr Hpeek) as Hr0.
  destruct (stream_eof s0) eqn:He0; cbn [orb].
  { intros [= <-]. split; [exact Hr0|]. right. left. exact He0. }
  destruct (Z.gtb_spec (_compressed_pos r) (_compressed_end r)) as [Hpast|Hin].
  { intros [= <-]. split; [exact Hr0|]. right. right. cbn. lia. }
  destruct (read_header P s0) as [[header s1]|e] eqn:Hrh; cbn [bind]; [|discriminate].
  destruct (read_block header s1 (_curr_blocks r)) as [[curr s2]|e] eqn:Hrb;
    cbn [bind]; [|discriminate].
  destruct (read_footer P s2) as [[footer s3]|e] eqn:Hrf; cbn [bind]; [|discriminate].
  pose proof (I_block (with_stream s0 r) header s1 curr s2 footer s3 Hr0 Hlt Hrh Hrb Hrf)
    as Hr3.
  unfold with_block, with_stream in Hr3.
  cbn [_data_stream _prev_blocks _curr_blocks _local_end _compressed_pos
       _compressed_end] in Hr3.
  destruct (Z.eqb_spec (_compressed_pos r) (_compressed_end r)) as [Heq|_].
  - exfalso. exact (I_end _ Hr0 Heq).
  - intros Hloop. exact (IH _ Hr3 Hloop).
Qed.

End LoopExit.

Lemma read_header_at_end (P : platform) (s : istream) :
  stream_size s <= stream_pos s -> read_header P s = Err ios_failure.
Proof.
  intros Hend. unfold read_header, stream_read.
  destruct (stream_eof s); [reflexivity|]. cbn [Z.ltb Z.compare].
  destruct (Z.leb_spec 12 (Z.max 0 (stream_size s - stream_pos s))); [lia|].
  reflexivity.
Qed.

Lemma offsets_from_head (a : Z) (cs : list (list byte)) :
  hd_error (offsets_from a cs) = Some a.
Proof. destruct cs; reflexivity. Qed.

Section Cut.
Variable P : platform.
Variable all : list bgzf_block.
Hypothesis Hfile : valid_file P all.

(** Reading the block at which the stream stands. *)
Lemma block_step (done rest : list bgzf_block) (x : bgzf_block)
      (s0 s1 s2 s3 : istream) (h : bgzip_header) (f : bgzip_footer)
      (g g' : decompression_blocks) :
  all = done ++ x :: rest ->
  stream_data s0 = encode_stream all ->
  stream_pos s0 = zlen (encode_stream done) ->
  read_header P s0 = Ok (h, s1) ->
  read_block h s1 g = Ok (g', s2) ->
  read_footer P s2 = Ok (f, s3) ->
  h = mk_header (blk_size x) (blk_xlen x)
  /\ f = mk_footer (zlen (blk_content x))
  /\ stream_data s3 = encode_stream all
  /\ stream_pos s3 = zlen (encode_stream (done ++ [x]))
  /\ stream_eof s3 = false.
Proof.
  intros Hall Hdata Hpos Hrh Hrb Hrf.
  pose proof (vf_host P all Hfile) as Hle.
  assert (Hvx : valid_block x).
  { pose proof (vf_blocks P all Hfile) as Hv. rewrite Hall in Hv.
    apply Forall_app in Hv. destruct Hv as [_ Hv]. inversion Hv; assumption. }
  assert (He : stream_eof s0 = false).
  { destruct (stream_eof s0) eqn:He; [|reflexivity].
    unfold read_header, stream_read in Hrh. rewrite He in Hrh. discriminate. }
  rewrite Hall in Hdata.
  rewrite (stream_at_rep s0 done (x :: rest) Hdata Hpos He) in Hrh.
  rewrite encode_stream_cons in Hrh. unfold encode_block in Hrh.
  rewrite <- !app_assoc in Hrh.
  rewrite (read_header_valid_block P x _ _ Hle Hvx) in Hrh.
  injection Hrh as <- <-.
  apply read_block_stream in Hrb;
    [|unfold stream_at; cbn [stream_pos]; apply zlen_nonneg].
  destruct Hrb as (_ & ->).
  rewrite data_size_valid_block in Hrf.
  unfold stream_at in Hrf at 1 2. cbn [stream_data stream_pos] in Hrf.
  assert (Hs2 : mk_istream
                  ((encode_stream done ++ encode_header x)
                     ++ blk_payload x ++ encode_footer x ++ encode_stream rest)
                  (zlen (encode_stream done ++ encode_header x) + zlen (blk_payload x))
                  false
                = stream_at ((encode_stream done ++ encode_header x) ++ blk_payload x)
                            (encode_footer x ++ encode_stream rest)).
  { unfold stream_at. rewrite !zlen_app, <- !app_assoc. reflexivity. }
  rewrite Hs2, (read_footer_valid_block P x _ _ Hle Hvx) in Hrf.
  injection Hrf as <- <-.
  split; [reflexivity|]. split; [reflexivity|].
  unfold stream_at. cbn [stream_data stream_pos stream_eof].
  rewrite Hall, !encode_stream_app, encode_stream_cons.
  change (encode_stream [x]) with (encode_block x ++ []).
  unfold encode_block. rewrite app_nil_r, <- !app_assoc.
  split; [reflexivity|]. split; [|reflexivity].
  rewrite !zlen_app. lia.
Qed.

Lemma at_block_start_peek (s s0 : istream) :
  at_block_start all s -> stream_peek s = Ok s0 -> at_block_start all s0.
Proof.
  intros (done & rest & Hall & Hdata & Hpos) Hpeek.
  apply stream_peek_ok in Hpeek. destruct Hpeek as (_ & Hd & Hp & _).
  exists done, rest. rewrite Hd, Hp. auto.
Qed.

Lemma at_block_start_block (s0 s1 s2 s3 : istream) (h : bgzip_header)
      (f : bgzip_footer) (g g' : decompression_blocks) :
  at_block_start all s0 ->
  read_header P s0 = Ok (h, s1) ->
  read_block h s1 g = Ok (g', s2) ->
  read_footer P s2 = Ok (f, s3) ->
  at_block_start all s3.
Proof.
  intros (done & rest & Hall & Hdata & Hpos) Hrh Hrb Hrf.
  destruct rest as [|x rest].
  - rewrite read_header_at_end in Hrh; [discriminate|].
    unfold stream_size. rewrite Hdata, Hpos, Hall, app_nil_r. lia.
  - destruct (block_step done rest x s0 s1 s2 s3 h f g g' Hall Hdata Hpos Hrh Hrb Hrf)
      as (_ & _ & Hd3 & Hp3 & _).
    exists (done ++ [x]), rest. rewrite <- app_assoc. auto.
Qed.

(** Asked for more than is left, get_next_chunk reads the file to its
    end. *)
Lemma get_next_chunk_past_end (r r1 : reader) (todo data : list byte) (n : Z) :
  reader_rep all r todo ->
  _compressed_end r = 2 ^ 48 - 1 ->
  zlen todo < n ->
  get_next_chunk P n r = Ok (data, r1) ->
  stream_eof (_data_stream r1) = true.
Proof.
  intros (passed & rest & pb & gb & Hall & Hdata & Hpos & Heof & Hcp & Hend & Hgp
          & Hrp & Hgc & Htodo) Hce Hshort.
  pose proof (vf_blocks P all Hfile) as Hvalid.
  pose proof (vf_size P all Hfile) as Hsize.
  assert (Hvrest : Forall valid_block rest).
  { rewrite Hall in Hvalid. apply Forall_app in Hvalid. tauto. }
  assert (Hlen : zlen (encode_stream all)
                 = zlen (encode_stream passed) + zlen (encode_stream rest))
    by (rewrite Hall, encode_stream_app, zlen_app; reflexivity).
  rewrite Hce, Hcp, in_range_whole in Htodo by (try exact Hvrest; lia).
  destruct (group_rep_sizes P all Hfile _ _ Hgc) as (_ & _ & _ & _ & Hrem & _).
  pose proof (zlen_group_data all _ _ Hgc) as Hgd.
  assert (Htl : zlen todo = remaining_size (_curr_blocks r) + zlen (contents rest)).
  { rewrite Htodo, zlen_app, Hgd, Hrem. reflexivity. }
  pose proof (zlen_nonneg (contents rest)) as Hcr.
  assert (Hcontents : zlen (contents rest) < 2 ^ 64).
  { destruct (stream_sizes rest Hvrest) as [Hs1 Hs2].
    pose proof (zlen_nonneg (payloads rest)). pose proof (zlen_nonneg (encode_stream passed)).
    nia. }
  assert (Hr0 : 0 <= remaining_size (_curr_blocks r))
    by (unfold remaining_size; apply wrap64_range).
  unfold get_next_chunk.
  destruct (Z.leb_spec n (remaining_size (_curr_blocks r))) as [|_]; [lia|].
  destruct (read_next_compressed_chunk P n r) as [r2|e] eqn:Hnext; cbn [bind];
    [|discriminate].
  destruct (consume_bytes _ (fst (decompress P (_prev_blocks r2)))) as [prev|e];
    cbn [bind]; [|discriminate].
  destruct (consume_bytes _ (fst (decompress P (_curr_blocks r2)))) as [curr|e];
    cbn [bind]; [|discriminate].
  intros [= _ <-]. cbn [_data_stream].
  unfold read_next_compressed_chunk in Hnext.
  set (I := fun r0 : reader =>
              exists done left,
                all = done ++ left
                /\ stream_data (_data_stream r0) = encode_stream all
                /\ stream_pos (_data_stream r0) = zlen (encode_stream done)
                /\ _compressed_pos r0 = zlen (encode_stream done)
                /\ _compressed_end r0 = 2 ^ 48 - 1
                /\ 0 <= decompressed_size (_curr_blocks r0)
                /\ decompressed_size (_curr_blocks r0) + zlen (contents left)
                   <= zlen (contents rest)).
  assert (Hexit : I r2
                  /\ (n <= decompressed_size (_curr_blocks r2)
                      \/ stream_eof (_data_stream r2) = true
                      \/ _compressed_end r2 < _compressed_pos r2)).
  { refine (read_chunk_loop_exit P n I _ _ _ _ _ _ _ Hnext).
    - intros r0 s0 (done & left & H1 & H2 & H3 & H4 & H5 & H6 & H7) Hpeek.
      apply stream_peek_ok in Hpeek. destruct Hpeek as (_ & Hd & Hp & _).
      exists done, left. unfold with_stream.
      cbn [_data_stream _curr_blocks _compressed_pos _compressed_end].
      rewrite Hd, Hp. auto 10.
    - intros r0 header s1 curr0 s2 footer s3
             (done & left & H1 & H2 & H3 & H4 & H5 & H6 & H7) Hlt Hrh Hrb Hrf.
      destruct left as [|x left].
      { rewrite read_header_at_end in Hrh; [discriminate|].
        unfold stream_size. rewrite H2, H3, H1, app_nil_r. lia. }
      pose proof (read_block_scalars _ _ _ _ _ Hrb) as (_ & _ & _ & Hdo & _).
      destruct (block_step done left x _ _ _ _ _ _ _ _ H1 H2 H3 Hrh Hrb Hrf)
        as (-> & -> & Hd3 & Hp3 & _).
      assert (Hvx : valid_block x).
      { rewrite H1 in Hvalid. apply Forall_app in Hvalid. destruct Hvalid as [_ Hv].
        inversion Hv; assumption. }
      change (contents (x :: left)) with (blk_content x ++ contents left) in H7.
      rewrite zlen_app in H7.
      pose proof (zlen_nonneg (blk_content x)). pose proof (zlen_nonneg (contents left)).
      exists (done ++ [x]), left. unfold with_block.
      cbn [_data_stream _curr_blocks _compressed_pos _compressed_end block_size].
      split; [rewrite <- app_assoc; exact H1|]. split; [exact Hd3|].
      split; [exact Hp3|].
      assert (Hstep : zlen (encode_stream (done ++ [x]))
                      = zlen (encode_stream done) + blk_size x).
      { rewrite encode_stream_snoc, zlen_app, (zlen_encode_block x Hvx). reflexivity. }
      assert (Hin : zlen (encode_stream (done ++ [x])) <= zlen (encode_stream all)).
      { rewrite H1. replace (done ++ x :: left) with ((done ++ [x]) ++ left)
          by (rewrite <- app_assoc; reflexivity).
        rewrite (encode_stream_app (done ++ [x]) left), zlen_app.
        pose proof (zlen_nonneg (encode_stream left)). lia. }
      pose proof (zlen_nonneg (encode_stream done)).
      pose proof (blk_size_lower x). pose proof (zlen_nonneg (blk_payload x)).
      split; [rewrite H4, Hstep; apply wrap64_small; lia|].
      split; [exact H5|].
      unfold decompressed_size.
      cbn [set_available add_block_offsets h_decompressed_offsets decompressed_size_field].
      rewrite last_last.
      assert (Hd : decompressed_size curr0 = decompressed_size (_curr_blocks r0))
        by (unfold decompressed_size; rewrite Hdo; reflexivity).
      rewrite Hd. rewrite wrap64_small by lia. lia.
    - intros r0 (done & left & H1 & H2 & H3 & H4 & H5 & H6 & H7).
      rewrite H4, H5. pose proof (zlen_nonneg (encode_stream left)).
      rewrite H1, encode_stream_app, zlen_app in Hsize. lia.
    - exists passed, rest.
      cbn [_data_stream _curr_blocks _compressed_pos _compressed_end].
      assert (Hzero : decompressed_size (reset (_prev_blocks r)) = 0).
      { unfold decompressed_size, reset. cbn [h_decompressed_offsets].
        rewrite (vec_resize_one (h_decompressed_offsets (_prev_blocks r)));
          [reflexivity|].
        rewrite (gr_doffsets _ _ _ Hgp). apply offsets_from_head. }
      rewrite Hzero. repeat split; auto; lia. }
  destruct Hexit as ((done & left & H1 & H2 & H3 & H4 & H5 & H6 & H7) & Hexit).
  pose proof (zlen_nonneg (contents left)).
  pose proof (zlen_nonneg (encode_stream left)).
  rewrite H1, encode_stream_app, zlen_app in Hsize.
  destruct Hexit as [Hfull|[Heof2|Hpast]]; [lia|exact Heof2|lia].
Qed.

End Cut.

Section CutInside.
Variable P : platform.
Variables all passed rest : list bgzf_block.
Variable b : bgzf_block.
Variable c : Z.
Hypothesis Hfile : valid_file P all.
Hypothesis Hall : all = passed ++ b :: rest.
Hypothesis Hcut :
  zlen (encode_stream passed) < c < zlen (encode_stream (passed ++ [b])).

(** A block start lies before the cut, with the cut block still to come, or
    behind the cut block. *)
Lemma block_start_sides (done left : list bgzf_block) :
  all = done ++ left ->
  (exists l, passed = done ++ l /\ left = l ++ b :: rest)
  \/ zlen (encode_stream (passed ++ [b])) <= zlen (encode_stream done).
Proof.
  intros H. rewrite Hall in H. symmetry in H. apply app_eq_app in H.
  destruct H as [l [[H1 H2]|[H1 H2]]].
  - destruct l as [|y l].
    + left. exists []. rewrite app_nil_r in H1. cbn [app] in H2.
      split; [rewrite app_nil_r; symmetry; exact H1|symmetry; exact H2].
    + right. cbn [app] in H2. injection H2 as <- _. rewrite H1.
      replace (passed ++ b :: l) with ((passed ++ [b]) ++ l)
        by (rewrite <- app_assoc; reflexivity).
      rewrite (encode_stream_app (passed ++ [b]) l), zlen_app.
      pose proof (zlen_nonneg (encode_stream l)). lia.
  - left. exists l. split; [exact H1|exact H2].
Qed.

Lemma at_block_start_bound (s : istream) :
  at_block_start all s ->
  0 <= stream_pos s /\ stream_pos s <> c /\ 0 <= c <= stream_size s.
Proof.
  intros (done & left & Hdone & Hdata & Hpos).
  pose proof (zlen_nonneg (encode_stream done)) as Hd.
  pose proof (zlen_nonneg (encode_stream passed)) as Hp.
  assert (Hsize : zlen (encode_stream (passed ++ [b])) <= stream_size s).
  { unfold stream_size. rewrite Hdata, Hall.
    replace (passed ++ b :: rest) with ((passed ++ [b]) ++ rest)
      by (rewrite <- app_assoc; reflexivity).
    rewrite (encode_stream_app (passed ++ [b]) rest), zlen_app.
    pose proof (zlen_nonneg (encode_stream rest)). lia. }
  rewrite Hpos. split; [exact Hd|]. split; [|lia].
  destruct (block_start_sides done left Hdone) as [(l & Hl & _)|Hbehind]; [|lia].
  rewrite Hl, encode_stream_app, zlen_app in Hcut.
  pose proof (zlen_nonneg (encode_stream l)). lia.
Qed.

Lemma reader_rep_at_block_start (r : reader) (todo : list byte) :
  reader_rep all r todo -> at_block_start all (_data_stream r).
Proof.
  intros (done & left & pb & gb & Hdone & Hdata & Hpos & _).
  exists done, left. auto.
Qed.

(** One get_next_chunk on the truncated file, in step with the reader on
    the whole file. *)
Lemma get_next_chunk_cut (r : reader) (todo : list byte) (n : Z) :
  reader_rep all r todo ->
  _compressed_end r = 2 ^ 48 - 1 ->
  stream_pos (_data_stream r) < c ->
  0 <= n ->
  get_next_chunk P n (truncate_reader c r) = Err ios_failure
  \/ exists r1,
       get_next_chunk P n (truncate_reader c r)
       = Ok (ztake n todo, truncate_reader c r1)
       /\ reader_rep all r1 (zdrop n todo)
       /\ _compressed_end r1 = 2 ^ 48 - 1
       /\ stream_pos (_data_stream r1) < c
       /\ n <= zlen todo.
Proof.
  intros Hrep Hce Hlt Hn.
  destruct (get_next_chunk_refines P all Hfile r todo n Hrep Hn) as (r1 & Hget & Hrep1).
  destruct (get_next_chunk_truncated P c (at_block_start all) at_block_start_bound
              (at_block_start_peek all)
              (fun s0 h s1 g g' s2 f s3 =>
                 at_block_start_block P all Hfile s0 s1 s2 s3 h f g g')
              n r r1 _ (reader_rep_at_block_start r todo Hrep) Hlt Hget)
    as [(Hcut1 & Hlt1 & _)|Herr]; [|left; exact Herr].
  right. exists r1. split; [exact Hcut1|]. split; [exact Hrep1|].
  split; [rewrite (get_next_chunk_range_end P n r r1 _ Hget); exact Hce|].
  split; [exact Hlt1|].
  destruct (Z.le_gt_cases n (zlen todo)) as [|Hshort]; [assumption|]. exfalso.
  pose proof (get_next_chunk_past_end P all Hfile r r1 todo _ n Hrep Hce
                ltac:(lia) Hget) as Heof.
  destruct Hrep1 as (done & left & pb & gb & Hdone & Hdata & Hpos & Hend & _).
  specialize (Hend Heof). subst left. rewrite app_nil_r in Hdone. subst done.
  destruct (at_block_start_bound (_data_stream r1)) as (_ & _ & _ & Hsize).
  { exists all, []. rewrite app_nil_r. auto. }
  unfold stream_size in Hsize. rewrite Hdata in Hsize. lia.
Qed.

Lemma read_chunks_cut (sizes : list Z) :
  Forall (fun n => 0 <= n) sizes ->
  forall (r : reader) (todo : list byte),
    reader_rep all r todo ->
    _compressed_end r = 2 ^ 48 - 1 ->
    stream_pos (_data_stream r) < c ->
    read_chunks P sizes (truncate_reader c r) = Err ios_failure
    \/ exists r1,
         read_chunks P sizes (truncate_reader c r)
         = Ok (chunks_of sizes todo, truncate_reader c r1)
         /\ reader_rep all r1 (zdrop (sum_sizes sizes) todo)
         /\ _compressed_end r1 = 2 ^ 48 - 1
         /\ stream_pos (_data_stream r1) < c
         /\ map zlen (chunks_of sizes todo) = sizes
         /\ sum_sizes sizes <= zlen todo.
Proof.
  induction 1 as [|n sizes Hn Hs IH]; intros r todo Hrep Hce Hlt;
    cbn [read_chunks chunks_of sum_sizes fold_right map].
  - right. exists r. split; [reflexivity|]. split; [exact Hrep|].
    split; [exact Hce|]. split; [exact Hlt|]. split; [reflexivity|apply zlen_nonneg].
  - destruct (get_next_chunk_cut r todo n Hrep Hce Hlt Hn)
      as [->|(r1 & -> & Hrep1 & Hce1 & Hlt1 & Hfull)]; cbn [bind];
      [left; reflexivity|].
    destruct (IH r1 _ Hrep1 Hce1 Hlt1)
      as [->|(r2 & -> & Hrep2 & Hce2 & Hlt2 & Hlens & Hsum)]; cbn [bind];
      [left; reflexivity|].
    right. exists r2. split; [reflexivity|].
    pose proof (sum_sizes_nonneg sizes Hs) as Hs0. fold (sum_sizes sizes).
    rewrite zdrop_zdrop in Hrep2 by lia.
    rewrite zlen_zdrop in Hsum by lia.
    split; [rewrite Z.add_comm; exact Hrep2|]. split; [exact Hce2|].
    split; [exact Hlt2|]. split; [|lia].
    rewrite Hlens, zlen_ztake by lia. reflexivity.
Qed.

End CutInside.

(** X16: a file that is cut inside a block is never taken for a complete
    one.  On a well-formed file of which only the first c bytes are there,
    with c strictly inside a block, constructing a reader on the whole
    range and reading chunks either raises the stream's I/O error, or
    returns chunks that are all of the requested sizes, hold the data of the
    whole file in order, and add up to no more than the data of the blocks
    in front of the cut: no request ever comes back short or empty, and no
    format error is raised. *)
Theorem truncated_file_raises (P : platform) (all passed rest : list bgzf_block)
        (b : bgzf_block) (c : Z) (sizes : list Z) :
  valid_file P all ->
  all = passed ++ b :: rest ->
  zlen (encode_stream passed) < c < zlen (encode_stream (passed ++ [b])) ->
  Forall (fun n => 0 <= n) sizes ->
  match read_file P (ztake c (encode_stream all)) sizes with
  | Ok chunks =>
      chunks = chunks_of sizes (contents all)
      /\ map zlen chunks = sizes
      /\ sum_sizes sizes <= zlen (contents passed)
  | Err e => e = ios_failure
  end.
Proof.
  intros Hfile Hall Hcut Hsizes. unfold read_file.
  pose proof (zlen_nonneg (encode_stream passed)) as Hp0.
  pose proof (vf_blocks P all Hfile) as Hvalid.
  pose proof (vf_size P all Hfile) as Hsize.
  destruct (constructor_valid P all Hfile [] all (2 ^ 48 - 1) 65535 eq_refl
              (end_inside_whole_file P all Hfile) ltac:(lia) ltac:(lia))
    as (r & Hctor & Hrep & Hce & _).
  change (Z.shiftl (zlen (encode_stream [])) 16) with 0 in Hctor.
  change (Z.shiftl (2 ^ 48 - 1) 16 + 65535) with whole_file in Hctor.
  change (zlen (encode_stream [])) with 0 in Hrep.
  rewrite in_range_whole in Hrep by (try exact Hvalid; lia).
  destruct (constructor_truncated P c (at_block_start all)
              (at_block_start_bound all passed rest b c Hall Hcut)
              (at_block_start_peek all)
              (fun s0 h s1 g g' s2 f s3 =>
                 at_block_start_block P all Hfile s0 s1 s2 s3 h f g g')
              (encode_stream all) whole_file r)
    as [(-> & Hlt & _)| ->]; cbn [bind]; [|lia|exact Hctor| |reflexivity].
  { exists [], all. auto. }
  destruct (read_chunks_cut P all passed rest b c Hfile Hall Hcut sizes Hsizes r _
              Hrep Hce Hlt)
    as [->|(r1 & -> & Hrep1 & Hce1 & Hlt1 & Hlens & Hsum)]; cbn [bind]; [reflexivity|].
  split; [reflexivity|]. split; [exact Hlens|].
  (* what was delivered lies in the blocks the stream has passed *)
  destruct Hrep1 as (done & left & pb & gb & Hdone & Hdata & Hpos & _ & Hcp & _ & _ & _
                     & Hgc & Htodo).
  destruct (block_start_sides all passed rest b Hall done left Hdone)
    as [(l & Hl & Hleft)|Hbehind]; [|lia].
  assert (Hvleft : Forall valid_block left).
  { rewrite Hdone in Hvalid. apply Forall_app in Hvalid. tauto. }
  assert (Hlen : zlen (encode_stream all)
                 = zlen (encode_stream done) + zlen (encode_stream left))
    by (rewrite Hdone, encode_stream_app, zlen_app; reflexivity).
  rewrite Hce1, Hcp, in_range_whole in Htodo by (try exact Hvleft; lia).
  apply (f_equal zlen) in Htodo.
  pose proof (sum_sizes_nonneg sizes Hsizes) as Hs0.
  rewrite zlen_zdrop, zlen_app in Htodo by lia.
  pose proof (zlen_nonneg (group_data (_curr_blocks r1) gb)).
  assert (Hall_c : zlen (contents all) = zlen (contents done) + zlen (contents left))
    by (rewrite Hdone, contents_app, zlen_app; reflexivity).
  assert (Hpassed_c : zlen (contents passed) = zlen (contents done) + zlen (contents l))
    by (rewrite Hl, contents_app, zlen_app; reflexivity).
  pose proof (zlen_nonneg (contents l)).
  lia.
Qed.

Lemma truncated_file_raises_witness :
  read_file run_length_platform (ztake 30 (encode_stream example_file)) [4; 6]
  = Err ios_failure.
Proof.
  assert (Hcut : zlen (encode_stream [run_block]) < 30
                 < zlen (encode_stream ([run_block] ++ [stored_block])))
    by (vm_compute; split; reflexivity).
  assert (Hsizes : Forall (fun n => 0 <= n) [4; 6]) by (repeat constructor; lia).
  pose proof (truncated_file_raises run_length_platform example_file
                [run_block] [eof_block] stored_block 30 [4; 6]
                example_file_valid eq_refl Hcut Hsizes) as H.
  destruct (read_file run_length_platform (ztake 30 (encode_stream example_file)) [4; 6])
    as [chunks|e] eqn:Hrun.
  - vm_compute in Hrun. discriminate Hrun.
  - rewrite H. reflexivity.
Defined.

(* ------------------------------------------------------------------ *)
(** * The parser on a big-endian host *)

Lemma le_bytes_2_big_endian (z : Z) :
  0 <= z <= 65535 ->
  read_int big_endian 2 (le_bytes 2 z) = z / 256 + 256 * (z mod 256).
Proof.
  intros Hz. unfold read_int, native_value. cbn [le_bytes firstn rev app].
  rewrite !le_value_cons. cbn [le_value]. rewrite !byte_val_of.
  assert (0 <= z / 256 < 256) by (split; [apply Z.div_pos; lia|apply Z.div_lt_upper_bound; lia]).
  rewrite (Z.mod_small (z / 256)) by lia. lia.
Qed.

(** X17: on a big-endian host read_header refuses every well-formed block
    whose first extra subfield is the BC subfield (what BGZIP writers
    produce) with a format error: XLEN and the subfield length are read
    byte-swapped, so that either the extra field is found too short or the
    BC subfield is found to declare 512 bytes instead of 2. *)
Theorem big_endian_host_refuses (P : platform) (b : bgzf_block) (d t : list byte) :
  host_byte_order P = big_endian ->
  valid_block b ->
  blk_pre b = [] ->
  read_header P (stream_at d (encode_header b ++ t))
  = Err (logic_error
           (if blk_xlen b / 256 + 256 * (blk_xlen b mod 256) <? 4
            then "invalid extra field length"
            else "malformed BGZIP extra subfield")).
Proof.
  intros Hbe Hv Hpre.
  pose proof (blk_size_lower b) as Hlow. pose proof (vb_size b Hv) as Hup.
  pose proof (zlen_nonneg (blk_payload b)) as Hpay.
  pose proof (subfields_size_nonneg (blk_post b)) as Hpost.
  assert (Hx : 6 <= blk_xlen b <= 65535).
  { unfold blk_size, blk_xlen in *. rewrite Hpre in *.
    change (subfields_size []) with 0 in *. lia. }
  unfold encode_header, blk_subfields. rewrite Hpre. cbn [app map concat].
  unfold encode_subfield at 1. unfold bc_subfield. cbn [sf_id1 sf_id2 sf_data].
  rewrite zlen_le_bytes. change (le_bytes 2 (Z.of_nat 2)) with [x02; x00].
  set (tail := le_bytes 2 (blk_size b - 1)
                 ++ concat (map encode_subfield (blk_post b))).
  set (m := map byte_of expected_header).
  replace ((m ++ blk_fixed b ++ le_bytes 2 (blk_xlen b)
              ++ (x42 :: x43 :: [x02; x00] ++ le_bytes 2 (blk_size b - 1))
              ++ concat (map encode_subfield (blk_post b))) ++ t)
    with ((m ++ blk_fixed b ++ le_bytes 2 (blk_xlen b))
            ++ ([x42; x43; x02; x00] ++ (tail ++ t))).
  2:{ subst tail. cbn [app]. rewrite <- !app_assoc. cbn [app]. rewrite <- !app_assoc.
      reflexivity. }
  unfold read_header.
  rewrite (stream_read_at 12 d (m ++ blk_fixed b ++ le_bytes 2 (blk_xlen b))).
  2:{ rewrite !zlen_app, zlen_le_bytes. unfold zlen. rewrite (vb_fixed b Hv).
      reflexivity. }
  cbn [bind]. rewrite (combine_app_r expected_header m) by reflexivity.
  change (forallb (fun '(e, b0) => e =? byte_val b0) (combine expected_header m))
    with true.
  cbn [CUDF_EXPECTS bind].
  assert (Hskip : skipn 10 (m ++ blk_fixed b ++ le_bytes 2 (blk_xlen b))
                  = le_bytes 2 (blk_xlen b)).
  { rewrite app_assoc. apply skipn_app_exact. rewrite length_app, (vb_fixed b Hv).
    reflexivity. }
  rewrite Hbe, Hskip, le_bytes_2_big_endian by lia.
  set (E := blk_xlen b / 256 + 256 * (blk_xlen b mod 256)).
  assert (HE : 0 < E).
  { subst E. pose proof (Z.div_mod (blk_xlen b) 256 ltac:(lia)).
    pose proof (Z.mod_pos_bound (blk_xlen b) 256 ltac:(lia)).
    assert (0 <= blk_xlen b / 256) by (apply Z.div_pos; lia). lia. }
  cbn [read_header_loop].
  destruct (Z.ltb_spec 0 E) as [_|]; [|lia].
  rewrite Z.sub_0_r.
  destruct (Z.ltb_spec E 4) as [Hshort|Hlong].
  - destruct (Z.geb_spec E 4) as [|_]; [lia|]. reflexivity.
  - destruct (Z.geb_spec E 4) as [_|]; [|lia]. cbn [CUDF_EXPECTS bind].
    rewrite (stream_read_at 4 _ [x42; x43; x02; x00]) by reflexivity.
    cbn [bind]. rewrite nth_buffer_store_0, nth_buffer_store_1.
    change ((byte_val x42 =? 66) && (byte_val x43 =? 67)) with true. cbv iota.
    assert (Hsub : read_int big_endian 2
                     (skipn 2 (buffer_store [x42; x43; x02; x00]
                                 (m ++ blk_fixed b ++ le_bytes 2 (blk_xlen b))))
                   = 512).
    { unfold buffer_store. cbn [app skipn length]. reflexivity. }
    rewrite Hbe, Hsub. reflexivity.
Qed.

Lemma big_endian_host_refuses_witness :
  read_header (mk_platform big_endian true run_length_decode run_length_decode)
    (stream_at [] (encode_header stored_block ++ zero_bytes 11))
  = Err (logic_error "malformed BGZIP extra subfield").
Proof.
  exact (big_endian_host_refuses
           (mk_platform big_endian true run_length_decode run_length_decode)
           stored_block [] (zero_bytes 11) eq_refl
           (Forall_inv (Forall_inv_tail (vf_blocks _ _ example_file_valid)))
           eq_refl).
Defined.

(* ------------------------------------------------------------------ *)
(** * A virtual end that points into the compressed bytes of a block *)

(** X18: when the compressed part of virtual_end is no block start but
    lies strictly inside the compressed bytes of a block of a well-formed
    file, the reader delivers that block whole, whatever the local part of
    virtual_end is: the range ends with the last block that starts before
    the compressed end offset. *)
Theorem virtual_end_inside_compressed_block (P : platform)
        (all a rest : list bgzf_block) (b : bgzf_block) (cend lend n : Z) :
  valid_file P all ->
  all = a ++ b :: rest ->
  zlen (encode_stream a) < cend < zlen (encode_stream (a ++ [b])) ->
  0 <= lend < 65536 ->
  zlen (contents all) <= n ->
  exists r r',
    bgzip_data_chunk_reader P (open_stream (encode_stream all)) 0
                            (Z.shiftl cend 16 + lend) = Ok r
    /\ get_next_chunk P n r = Ok (contents (a ++ [b]), r').
Proof.
  intros Hfile Hall Hcend Hlend Hn.
  pose proof (vf_blocks P all Hfile) as Hvalid.
  pose proof (zlen_nonneg (encode_stream a)) as Ha0.
  assert (Hend : end_inside cend lend all).
  { split; [lia|]. intros done x left Hdone Hlen. exfalso.
    destruct (block_start_sides all a rest b Hall done (x :: left) Hdone)
      as [(l & Hl & _)|Hbehind]; [|lia].
    rewrite Hl, encode_stream_app, zlen_app in Hcend.
    pose proof (zlen_nonneg (encode_stream l)). lia. }
  destruct (constructor_valid P all Hfile [] all cend lend eq_refl Hend
              ltac:(lia) ltac:(lia))
    as (r & Hctor & Hrep & _).
  change (Z.shiftl (zlen (encode_stream [])) 16) with 0 in Hctor.
  change (zlen (encode_stream [])) with 0 in Hrep.
  assert (Hva : Forall valid_block a /\ valid_block b).
  { rewrite Hall in Hvalid. apply Forall_app in Hvalid. destruct Hvalid as [Hv1 Hv2].
    split; [exact Hv1|inversion Hv2; assumption]. }
  destruct Hva as [Hva Hvb].
  assert (Hrange : in_range cend lend 0 all = contents (a ++ [b])).
  { rewrite Hall, (in_range_app cend lend a (b :: rest) Hva) by lia.
    rewrite contents_app. f_equal. cbn [in_range]. rewrite Z.add_0_l.
    rewrite encode_stream_snoc, zlen_app, (zlen_encode_block b Hvb) in Hcend.
    destruct (Z.gtb_spec (zlen (encode_stream a)) cend) as [|_]; [lia|].
    destruct (Z.eqb_spec (zlen (encode_stream a)) cend) as [|_]; [lia|].
    rewrite in_range_past by lia.
    cbn [contents map concat]. reflexivity. }
  rewrite Hrange in Hrep.
  assert (Hn0 : 0 <= n) by (pose proof (zlen_nonneg (contents all)); lia).
  destruct (get_next_chunk_refines P all Hfile r _ n Hrep Hn0) as (r' & Hget & _).
  rewrite ztake_all in Hget.
  - exists r, r'. split; [exact Hctor|exact Hget].
  - rewrite Hall in Hn.
    replace (a ++ b :: rest) with ((a ++ [b]) ++ rest) in Hn
      by (rewrite <- app_assoc; reflexivity).
    rewrite (contents_app (a ++ [b]) rest), zlen_app in Hn.
    pose proof (zlen_nonneg (contents rest)). lia.
Qed.

Lemma virtual_end_inside_compressed_block_witness :
  exists r r',
    bgzip_data_chunk_reader run_length_platform
      (open_stream (encode_stream example_file)) 0 (Z.shiftl 40 16 + 1) = Ok r
    /\ get_next_chunk run_length_platform 100 r
       = Ok (contents ([run_block] ++ [stored_block]), r').
Proof.
  assert (Hcend : zlen (encode_stream [run_block]) < 40
                  < zlen (encode_stream ([run_block] ++ [stored_block])))
    by (vm_compute; split; reflexivity).
  assert (Hn : zlen (contents example_file) <= 100) by (vm_compute; discriminate).
  exact (virtual_end_inside_compressed_block run_length_platform example_file
           [run_block] [eof_block] stored_block 40 1 100
           example_file_valid eq_refl Hcend ltac:(lia) Hn).
Defined.

(* ------------------------------------------------------------------ *)
(** * The size of a chunk, on any file *)

Lemma size_bound_same (size : Z) (g g' : decompression_blocks) :
  available_decompressed_size g' = available_decompressed_size g ->
  h_decompressed_offsets g' = h_decompressed_offsets g ->
  size_bound size g -> size_bound size g'.
Proof. unfold size_bound, blocks_held. intros -> ->. auto. Qed.

Lemma consume_decompress_fields (P : platform) (size : Z)
      (g g' : decompression_blocks) :
  consume_bytes size (fst (decompress P g)) = Ok g' ->
  available_decompressed_size g' = available_decompressed_size g
  /\ h_decompressed_offsets g' = h_decompressed_offsets g.
Proof.
  intros H. apply consume_bytes_fields in H. destruct H as [-> _].
  destruct (decompress_scalars P g) as (_ & Ha & _ & _ & Ho & _).
  cbn [set_read_pos available_decompressed_size h_decompressed_offsets]. auto.
Qed.

Lemma read_next_compressed_chunk_size_bound (P : platform) (bytes : list byte)
      (n : Z) (r r1 : reader) :
  stream_inv bytes r ->
  0 <= _local_end r < 2 ^ 32 ->
  read_next_compressed_chunk P n r = Ok r1 ->
  size_bound (zlen bytes) (_curr_blocks r1) /\ _local_end r1 = _local_end r.
Proof.
  intros (Hdata & Hpos & Hhp & Hhc) Hle Hrun.
  unfold read_next_compressed_chunk in Hrun.
  cbn [_data_stream _prev_blocks _curr_blocks _local_end _compressed_pos
       _compressed_end] in Hrun.
  set (I := fun r0 : reader =>
              stream_data (_data_stream r0) = bytes
              /\ 0 <= stream_pos (_data_stream r0)
              /\ _local_end r0 = _local_end r
              /\ 0 <= blocks_held (_curr_blocks r0)
              /\ 0 <= available_decompressed_size (_curr_blocks r0)
                 <= 2 ^ 32 * blocks_held (_curr_blocks r0)
              /\ 24 * blocks_held (_curr_blocks r0) <= stream_pos (_data_stream r0)
              /\ (0 < blocks_held (_curr_blocks r0) ->
                  stream_pos (_data_stream r0) <= zlen bytes)).
  assert (Hfinal : I r1).
  { refine (read_chunk_loop_invariant P n I _ _ _ _ _ _ Hrun).
    - intros r0 s0 (H1 & H2 & H3 & H4 & H5 & H6 & H7) Hpeek.
      apply stream_peek_ok in Hpeek. destruct Hpeek as (_ & Hd & Hp & _).
      unfold I, with_stream. cbn [_data_stream _curr_blocks _local_end].
      rewrite Hd, Hp. auto 10.
    - intros r0 header s1 curr s2 footer s3 (H1 & H2 & H3 & H4 & H5 & H6 & H7)
             _ Hrh Hrb Hrf.
      apply read_header_ok in Hrh; [|exact H2]. destruct Hrh as (_ & _ & Hd1 & Hp1 & _).
      pose proof (read_block_scalars _ _ _ _ _ Hrb) as (_ & Hav & _ & Hdo & _).
      apply read_block_stream in Hrb; [|lia]. destruct Hrb as (Hds & ->).
      apply read_footer_ok in Hrf; [|cbn [stream_pos]; lia].
      destruct Hrf as (Hf & -> & Hend).
      unfold stream_size in Hend. cbn [stream_data stream_pos] in Hend.
      unfold I, with_block, blocks_held in *.
      cbn [_data_stream _curr_blocks _local_end stream_data stream_pos set_available
           add_block_offsets h_decompressed_offsets available_decompressed_size].
      rewrite Hdo, Hav, zlen_app. change (zlen [_]) with 1.
      rewrite Hd1, H1 in *.
      assert (Hadd : 0 <= (if _compressed_pos r0 =? _compressed_end r0
                           then _local_end r0 else decompressed_size_field footer)
                     < 2 ^ 32) by (destruct (_ =? _); lia).
      pose proof (wrap64_range (available_decompressed_size (_curr_blocks r0)
                                + (if _compressed_pos r0 =? _compressed_end r0
                                   then _local_end r0
                                   else decompressed_size_field footer))) as Hw.
      assert (Hwle : wrap64 (available_decompressed_size (_curr_blocks r0)
                             + (if _compressed_pos r0 =? _compressed_end r0
                                then _local_end r0
                                else decompressed_size_field footer))
                     <= available_decompressed_size (_curr_blocks r0)
                        + (if _compressed_pos r0 =? _compressed_end r0
                           then _local_end r0
                           else decompressed_size_field footer)).
      { unfold wrap64. apply Z.mod_le; lia. }
      repeat split; try reflexivity; try lia.
    - unfold I, blocks_held. cbn [_data_stream _curr_blocks _local_end].
      unfold reset. cbn [h_decompressed_offsets available_decompressed_size].
      rewrite (vec_resize_one _ Hhp). change (zlen [0] - 1) with 0.
      repeat split; auto; lia. }
  destruct Hfinal as (H1 & H2 & H3 & H4 & H5 & H6 & H7).
  split; [|exact H3]. unfold size_bound. split; [exact H4|]. split; [lia|].
  destruct (Z.eq_dec (blocks_held (_curr_blocks r1)) 0) as [->|Hne].
  - pose proof (zlen_nonneg bytes). lia.
  - assert (Hp : 0 < blocks_held (_curr_blocks r1)) by lia. specialize (H7 Hp). lia.
Qed.

Lemma new_blocks_group_bound (size : Z) : 0 <= size -> group_bound size new_blocks.
Proof.
  intros H. split; [apply new_blocks_pos_inv|]. unfold size_bound, blocks_held. cbn. lia.
Qed.

Lemma get_next_chunk_bounded (P : platform) (bytes : list byte) (n : Z)
      (r r1 : reader) (data : list byte) :
  bounded_reader bytes r ->
  0 <= n ->
  get_next_chunk P n r = Ok (data, r1) ->
  bounded_reader bytes r1.
Proof.
  intros (Hinv & [Hpp Hbp] & [Hpc Hbc] & Hle) Hn Hget.
  pose proof (get_next_chunk_stream_inv P bytes n r r1 data Hinv Hget) as Hinv1.
  pose proof (get_next_chunk_pos_inv P n r r1 data (conj Hpp Hpc) Hn Hget) as [Hpp1 Hpc1].
  split; [exact Hinv1|].
  revert Hget. unfold get_next_chunk. destruct (_ <=? _).
  - destruct (consume_bytes _ _) as [curr|e] eqn:Hc; cbn [bind]; [|discriminate].
    intros [= _ <-]. cbn [_prev_blocks _curr_blocks _local_end] in *.
    destruct (consume_decompress_fields P _ _ _ Hc) as [Ha Ho].
    split; [split; assumption|]. split; [|exact Hle].
    split; [exact Hpc1|]. exact (size_bound_same _ _ _ Ha Ho Hbc).
  - destruct (read_next_compressed_chunk P n r) as [r2|e] eqn:Hnext; cbn [bind];
      [|discriminate].
    destruct (read_next_compressed_chunk_size_bound P bytes n r r2 Hinv Hle Hnext)
      as [Hb2 Hle2].
    destruct (read_next_compressed_chunk_stream_inv P bytes n r r2 Hinv Hnext)
      as (_ & _ & Hprev2).
    destruct (consume_bytes _ (fst (decompress P (_prev_blocks r2)))) as [prev|e]
      eqn:Hcp; cbn [bind]; [|discriminate].
    destruct (consume_bytes _ (fst (decompress P (_curr_blocks r2)))) as [curr|e]
      eqn:Hcc; cbn [bind]; [|discriminate].
    intros [= _ <-]. cbn [_prev_blocks _curr_blocks _local_end] in *.
    destruct (consume_decompress_fields P _ _ _ Hcp) as [Hap Hop].
    destruct (consume_decompress_fields P _ _ _ Hcc) as [Hac Hoc].
    rewrite Hprev2 in Hap, Hop.
    split; [split; [exact Hpp1|exact (size_bound_same _ _ _ Hap Hop Hbc)]|].
    split; [split; [exact Hpc1|exact (size_bound_same _ _ _ Hac Hoc Hb2)]|].
    rewrite Hle2. exact Hle.
Qed.

Lemma skip_bytes_loop_bounded (P : platform) (bytes : list byte) (fuel : nat) :
  forall (n n' : Z) (r r' : reader),
    bounded_reader bytes r ->
    0 <= n ->
    skip_bytes_loop P fuel n r = Ok (n', r') ->
    bounded_reader bytes r'.
Proof.
  induction fuel as [|fuel IH]; intros n n' r r' Hb Hn; [discriminate|].
  cbn [skip_bytes_loop]. destruct (Z.gtb_spec n (remaining_size (_curr_blocks r)));
    [|intros [= _ <-]; exact Hb].
  destruct Hb as (Hinv & [Hpp Hbp] & [Hpc Hbc] & Hle).
  assert (Hrem : 0 <= remaining_size (_curr_blocks r))
    by (unfold remaining_size; apply wrap64_range).
  destruct (consume_bytes _ _) as [curr|e] eqn:Hc; cbn [bind]; [|discriminate].
  pose proof (consume_bytes_pos_inv _ _ _ Hpc Hrem Hc) as Hpc'.
  pose proof (consume_bytes_offsets _ _ _ Hc) as [Ho _].
  assert (Ha : available_decompressed_size curr
               = available_decompressed_size (_curr_blocks r)).
  { apply consume_bytes_fields in Hc. destruct Hc as [-> _]. reflexivity. }
  destruct (read_next_compressed_chunk P _ _) as [r1|e] eqn:Hnext; cbn [bind];
    [|discriminate].
  assert (Hinv0 : stream_inv bytes
                    (mk_reader (_data_stream r) (_prev_blocks r) curr (_local_end r)
                               (_compressed_pos r) (_compressed_end r))).
  { destruct Hinv as (Hd & Hpos & Hhp & Hhc). unfold stream_inv, heads_zero.
    cbn [_data_stream _prev_blocks _curr_blocks]. rewrite Ho. auto. }
  destruct (read_next_compressed_chunk_size_bound P bytes _ _ r1 Hinv0 Hle Hnext)
    as [Hb1 Hle1].
  destruct (read_next_compressed_chunk_stream_inv P bytes _ _ r1 Hinv0 Hnext)
    as (Hinv1 & _ & Hprev1).
  apply read_next_compressed_chunk_pos_inv in Hnext; [|exact Hpc'].
  destruct Hnext as ([Hpp1 Hpc1] & _ & _).
  cbn [_prev_blocks _curr_blocks _local_end] in *.
  assert (Hbounded1 : bounded_reader bytes r1).
  { split; [exact Hinv1|]. split; [split; [exact Hpp1|]|].
    - rewrite Hprev1. exact (size_bound_same _ _ _ Ha Ho Hbc).
    - split; [split; assumption|]. rewrite Hle1. exact Hle. }
  assert (Hn1 : 0 <= wrap64 (n - remaining_size (_curr_blocks r)))
    by apply wrap64_range.
  destruct (stream_eof (_data_stream r1)); [intros [= _ <-]; exact Hbounded1|].
  destruct (stream_peek (_data_stream r1)) as [s|e] eqn:Hpeek; cbn [bind];
    [|discriminate].
  apply stream_peek_ok in Hpeek. destruct Hpeek as (_ & Hd2 & Hp2 & _).
  assert (Hbounded2 : bounded_reader bytes
                        (mk_reader s (_prev_blocks r1) (_curr_blocks r1) (_local_end r1)
                                   (_compressed_pos r1) (_compressed_end r1))).
  { destruct Hbounded1 as ((Hd & Hpos & Hh) & Hg1 & Hg2 & Hl).
    split; [|auto]. unfold stream_inv, heads_zero in *.
    cbn [_data_stream _prev_blocks _curr_blocks]. rewrite Hd2, Hp2. auto. }
  cbn [_compressed_pos _compressed_end].
  destruct (_ || _); [intros [= _ <-]; exact Hbounded2|].
  intros Hloop. exact (IH _ _ _ _ Hbounded2 Hn1 Hloop).
Qed.

Lemma skip_bytes_bounded (P : platform) (bytes : list byte) (n : Z) (r r' : reader) :
  bounded_reader bytes r -> 0 <= n -> skip_bytes P n r = Ok r' ->
  bounded_reader bytes r'.
Proof.
  intros Hb Hn Hskip.
  destruct Hb as (Hinv & [Hpp Hbp] & [Hpc Hbc] & Hle).
  pose proof (skip_bytes_stream_inv P bytes n r r' Hinv Hskip) as Hinv'.
  pose proof (skip_bytes_pos_inv P n r r' (conj Hpp Hpc) Hn Hskip) as [Hpp' Hpc'].
  revert Hskip. unfold skip_bytes.
  destruct (skip_bytes_loop P _ n r) as [[n1 r1]|e] eqn:Hloop; cbn [bind];
    [|discriminate].
  apply (skip_bytes_loop_bounded P bytes) in Hloop;
    [|split; [exact Hinv|split; [split; assumption|split; [split; assumption|exact Hle]]]
     |exact Hn].
  destruct Hloop as (_ & [_ Hbp1] & [_ Hbc1] & Hle1).
  destruct (consume_bytes _ _) as [curr|e] eqn:Hc; cbn [bind]; [|discriminate].
  pose proof (consume_bytes_offsets _ _ _ Hc) as [Ho _].
  assert (Ha : available_decompressed_size curr
               = available_decompressed_size (_curr_blocks r1)).
  { apply consume_bytes_fields in Hc. destruct Hc as [-> _]. reflexivity. }
  intros [= <-]. cbn [_prev_blocks _curr_blocks _local_end] in *.
  split; [exact Hinv'|]. split; [split; assumption|].
  split; [split; [exact Hpc'|exact (size_bound_same _ _ _ Ha Ho Hbc1)]|exact Hle1].
Qed.

Lemma constructor_bounded (P : platform) (bytes : list byte) (vb ve : Z) (r : reader) :
  0 <= ve ->
  bgzip_data_chunk_reader P (open_stream bytes) vb ve = Ok r ->
  bounded_reader bytes r.
Proof.
  intros Hve Hctor.
  pose proof (constructor_stream_inv P bytes vb ve r Hctor) as Hinv.
  pose proof (constructor_pos_inv P _ vb ve r Hctor) as [Hpp Hpc].
  split; [exact Hinv|].
  revert Hctor. unfold bgzip_data_chunk_reader.
  cbn [_data_stream _prev_blocks _curr_blocks _local_end _compressed_pos
       _compressed_end].
  destruct (stream_seekg_cur _ _) as [s|e] eqn:Hsk; cbn [bind]; [|discriminate].
  apply stream_seekg_ok in Hsk. destruct Hsk as [-> Hsk].
  cbn [open_stream stream_pos stream_data] in *.
  destruct (virtual_offset_parts ve Hve) as (_ & Hland & _).
  destruct (read_next_compressed_chunk P _ _) as [r1|e] eqn:Hnext; cbn [bind];
    [|discriminate].
  assert (Hinv0 : stream_inv bytes
                    (mk_reader (mk_istream bytes (0 + Z.shiftr vb 16) false)
                               new_blocks new_blocks (Z.land ve 65535)
                               (Z.shiftr vb 16) (Z.shiftr ve 16))).
  { unfold stream_inv, heads_zero.
    cbn [_data_stream _prev_blocks _curr_blocks stream_data stream_pos]. auto. }
  destruct (read_next_compressed_chunk_size_bound P bytes _ _ r1 Hinv0
              ltac:(cbn [_local_end]; lia) Hnext) as [Hb1 Hle1].
  destruct (read_next_compressed_chunk_stream_inv P bytes _ _ r1 Hinv0 Hnext)
    as (_ & _ & Hprev1).
  cbn [_prev_blocks _curr_blocks _local_end] in *.
  assert (Hprev_bound : size_bound (zlen bytes) (_prev_blocks r1)).
  { rewrite Hprev1. apply new_blocks_group_bound. apply zlen_nonneg. }
  destruct (_ >? 0).
  - destruct (CUDF_EXPECTS _ _); cbn [bind]; [|discriminate].
    destruct (consume_bytes _ _) as [curr|e] eqn:Hc; cbn [bind]; [|discriminate].
    pose proof (consume_bytes_offsets _ _ _ Hc) as [Ho _].
    assert (Ha : available_decompressed_size curr
                 = available_decompressed_size (_curr_blocks r1)).
    { apply consume_bytes_fields in Hc. destruct Hc as [-> _]. reflexivity. }
    intros [= <-]. cbn [_prev_blocks _curr_blocks _local_end] in *.
    split; [split; assumption|].
    split; [split; [exact Hpc|exact (size_bound_same _ _ _ Ha Ho Hb1)]|].
    rewrite Hle1. lia.
  - intros [= <-]. split; [split; assumption|]. split; [split; assumption|].
    rewrite Hle1. lia.
Qed.

Lemma reader_of_bounded (P : platform) (bytes : list byte) (r : reader) :
  reader_of P bytes r -> bounded_reader bytes r.
Proof.
  induction 1 as [vb ve r _ Hve Hctor|r n data r' _ IH Hn Hget|r n r' _ IH Hn Hskip].
  - apply (constructor_bounded P bytes vb ve r); [lia|exact Hctor].
  - apply (get_next_chunk_bounded P bytes n r r' data IH); [lia|exact Hget].
  - apply (skip_bytes_bounded P bytes n r r' IH); [lia|exact Hskip].
Qed.

Lemma zlen_ztake_le {A} (n : Z) (l : list A) : 0 <= n -> zlen (ztake n l) <= n.
Proof. intros Hn. unfold zlen, ztake. rewrite length_firstn. lia. Qed.

Lemma zlen_write_at_inside (off : Z) (bytes buf : list byte) :
  0 <= off ->
  off + zlen bytes <= zlen buf ->
  zlen (write_at off bytes buf) = zlen buf.
Proof.
  intros Hoff Hfit. pose proof (zlen_nonneg bytes) as Hb. unfold write_at.
  rewrite !zlen_app, zlen_ztake, zlen_zdrop by lia. lia.
Qed.

Lemma consume_bytes_remaining (size : Z) (g g' : decompression_blocks) :
  pos_inv g -> 0 <= size ->
  consume_bytes size g = Ok g' ->
  remaining_size g' = remaining_size g - size.
Proof.
  intros Hinv Hsize Hc.
  pose proof (consume_bytes_pos_inv size g g' Hinv Hsize Hc) as Hinv'.
  rewrite (pos_inv_remaining g Hinv), (pos_inv_remaining g' Hinv').
  apply consume_bytes_fields in Hc. destruct Hc as [-> Hle].
  rewrite (pos_inv_remaining g Hinv) in Hle.
  unfold pos_inv in Hinv. cbn [set_read_pos available_decompressed_size read_pos].
  rewrite wrap64_small by lia. lia.
Qed.

Lemma size_bound_available (size : Z) (g : decompression_blocks) :
  size < 2 ^ 32 -> size_bound size g -> available_decompressed_size g < 2 ^ 60.
Proof. unfold size_bound. intros Hsize (H1 & H2 & H3). nia. Qed.

(** The size of the buffer that get_next_chunk returns, from the host side
    of the reader alone. *)
Lemma get_next_chunk_sizes (P : platform) (bytes : list byte) (r r1 : reader)
      (n : Z) (data : list byte) :
  zlen bytes < 2 ^ 32 ->
  bounded_reader bytes r ->
  0 <= n ->
  get_next_chunk P n r = Ok (data, r1) ->
  (n <= remaining_size (_curr_blocks r)
   /\ zlen data = n
   /\ _data_stream r1 = _data_stream r)
  \/ (remaining_size (_curr_blocks r) < n
      /\ zlen data = Z.min n (remaining_size (_curr_blocks r)
                              + available_decompressed_size (_curr_blocks r1))
      /\ (zlen data < n ->
          remaining_size (_prev_blocks r1) = 0
          /\ remaining_size (_curr_blocks r1) = 0)).
Proof.
  intros Hsize (Hinv & [Hpp Hbp] & [Hpc Hbc] & Hle) Hn.
  unfold get_next_chunk.
  destruct (Z.leb_spec n (remaining_size (_curr_blocks r))) as [Henough|Hmore].
  - destruct (consume_bytes _ _) as [curr|e] eqn:Hc; cbn [bind]; [|discriminate].
    intros [= <- <-]. cbn [_data_stream]. left.
    split; [exact Henough|]. split; [|reflexivity].
    rewrite zlen_write_at_inside; rewrite ?zlen_vec_resize; try lia.
    unfold memcpy_from. pose proof (zlen_ztake_le n
      (zdrop (read_pos (fst (decompress P (_curr_blocks r))))
             (d_decompressed_blocks (fst (decompress P (_curr_blocks r)))))).
    lia.
  - destruct (read_next_compressed_chunk P n r) as [r2|e] eqn:Hnext; cbn [bind];
      [|discriminate].
    destruct (read_next_compressed_chunk_size_bound P bytes n r r2 Hinv Hle Hnext)
      as [Hb2 _].
    apply read_next_compressed_chunk_pos_inv in Hnext; [|exact Hpc].
    destruct Hnext as ([Hpp2 Hpc2] & Hrp2 & Hprev2).
    set (prev := fst (decompress P (_prev_blocks r2))).
    set (curr := fst (decompress P (_curr_blocks r2))).
    assert (Hremp : remaining_size prev = remaining_size (_curr_blocks r))
      by (subst prev; rewrite decompress_remaining, Hprev2; reflexivity).
    assert (Hremc : remaining_size curr = available_decompressed_size (_curr_blocks r2)).
    { subst curr. rewrite decompress_remaining, (pos_inv_remaining _ Hpc2), Hrp2. lia. }
    pose proof (size_bound_available _ _ Hsize Hbc) as Hap.
    pose proof (size_bound_available _ _ Hsize Hb2) as Hac.
    assert (Hrp0 : 0 <= remaining_size (_curr_blocks r) < 2 ^ 60).
    { rewrite (pos_inv_remaining _ Hpc). unfold pos_inv in Hpc. lia. }
    assert (Hrc0 : 0 <= available_decompressed_size (_curr_blocks r2))
      by (unfold pos_inv in Hpc2; lia).
    rewrite Hremp, Hremc.
    rewrite (wrap64_small (remaining_size (_curr_blocks r)
                           + available_decompressed_size (_curr_blocks r2))) by lia.
    set (R := Z.min n (remaining_size (_curr_blocks r)
                       + available_decompressed_size (_curr_blocks r2))).
    assert (HR : remaining_size (_curr_blocks r) <= R <= n) by (subst R; lia).
    rewrite (wrap64_small (R - remaining_size (_curr_blocks r))) by lia.
    destruct (consume_bytes _ prev) as [prev'|e] eqn:Hcp; cbn [bind]; [|discriminate].
    destruct (consume_bytes _ curr) as [curr'|e] eqn:Hcc; cbn [bind]; [|discriminate].
    intros [= <- <-]. cbn [_prev_blocks _curr_blocks].
    assert (Hlen : zlen (write_at (remaining_size (_curr_blocks r))
                           (memcpy_from (d_decompressed_blocks curr) (read_pos curr)
                                        (R - remaining_size (_curr_blocks r)))
                           (write_at 0
                              (memcpy_from (d_decompressed_blocks prev) (read_pos prev)
                                           (remaining_size (_curr_blocks r)))
                              (vec_resize R x00 []))) = R).
    { pose proof (zlen_ztake_le (remaining_size (_curr_blocks r))
                    (zdrop (read_pos prev) (d_decompressed_blocks prev))
                    ltac:(lia)) as H1.
      pose proof (zlen_ztake_le (R - remaining_size (_curr_blocks r))
                    (zdrop (read_pos curr) (d_decompressed_blocks curr))
                    ltac:(lia)) as H2.
      unfold memcpy_from.
      assert (Hfirst : zlen (write_at 0
                               (ztake (remaining_size (_curr_blocks r))
                                      (zdrop (read_pos prev) (d_decompressed_blocks prev)))
                               (vec_resize R x00 [])) = R).
      { rewrite zlen_write_at_inside; rewrite ?zlen_vec_resize; lia. }
      rewrite zlen_write_at_inside; rewrite ?Hfirst; lia. }
    destruct (consume_decompress_fields P _ _ _ Hcc) as [Hacc _]. fold curr in Hcc.
    right. split; [exact Hmore|]. rewrite Hlen, Hacc.
    split; [reflexivity|]. intros Hshort.
    apply consume_bytes_remaining in Hcp;
      [|subst prev; apply decompress_pos_inv; exact Hpp2|lia].
    apply consume_bytes_remaining in Hcc;
      [|subst curr; apply decompress_pos_inv; exact Hpc2|lia].
    rewrite Hcp, Hcc, Hremp, Hremc. subst R. lia.
Qed.

(** X19: the size of a chunk, on any file of less than 4 GiB, well-formed
    or not, and whatever the decompression backend writes: whenever
    get_next_chunk(n) returns, in a state a reader reaches on the file, the
    buffer holds at most n bytes; it holds exactly n, and the stream is not
    touched, when the current group has n bytes left; and it holds fewer
    than n only when both groups are used up afterwards. *)
Theorem get_next_chunk_length (P : platform) (bytes : list byte) (r r1 : reader)
        (n : Z) (data : list byte) :
  zlen bytes < 2 ^ 32 ->
  reader_of P bytes r ->
  0 <= n < 2 ^ 64 ->
  get_next_chunk P n r = Ok (data, r1) ->
  zlen data <= n
  /\ (n <= remaining_size (_curr_blocks r) ->
      zlen data = n /\ _data_stream r1 = _data_stream r)
  /\ (zlen data < n ->
      remaining_size (_prev_blocks r1) = 0 /\ remaining_size (_curr_blocks r1) = 0).
Proof.
  intros Hsize Hreach Hn Hget.
  pose proof (reader_of_bounded P bytes r Hreach) as Hb.
  destruct (get_next_chunk_sizes P bytes r r1 n data Hsize Hb ltac:(lia) Hget)
    as [(Henough & Hlen & Hstream)|(Hmore & Hlen & Hused)].
  - split; [lia|]. split; [auto|lia].
  - split; [lia|]. split; [lia|exact Hused].
Qed.

Lemma get_next_chunk_length_witness :
  exists r data r1,
    bgzip_data_chunk_reader stored_platform (open_stream (encode_stream example_file))
                            0 whole_file
    = Ok r
    /\ get_next_chunk stored_platform 5 r = Ok (data, r1)
    /\ zlen data = 5.
Proof.
  destruct (bgzip_data_chunk_reader stored_platform
              (open_stream (encode_stream example_file)) 0 whole_file)
    as [r|e] eqn:Hctor; [|vm_compute in Hctor; discriminate Hctor].
  destruct (get_next_chunk stored_platform 5 r) as [[data r1]|e] eqn:Hget;
    [|vm_compute in Hctor; injection Hctor as <-; vm_compute in Hget;
      discriminate Hget].
  exists r, data, r1. split; [reflexivity|]. split; [exact Hget|].
  assert (Hsize : zlen (encode_stream example_file) < 2 ^ 32)
    by (vm_compute; reflexivity).
  assert (Hreach : reader_of stored_platform (encode_stream example_file) r).
  { apply (of_constructor stored_platform (encode_stream example_file) 0 whole_file r);
      [lia|unfold whole_file; lia|exact Hctor]. }
  destruct (get_next_chunk_length stored_platform (encode_stream example_file) r r1 5
              data Hsize Hreach ltac:(lia) Hget) as (_ & Hexact & _).
  apply Hexact. vm_compute in Hctor. injection Hctor as <-. vm_compute. discriminate.
Defined.

(* ------------------------------------------------------------------ *)
(** * What the reader takes from the decompression backend *)

Lemma same_host_fields (g g' : decompression_blocks) :
  same_host g g' ->
  h_compressed_blocks g = h_compressed_blocks g'
  /\ h_compressed_offsets g = h_compressed_offsets g'
  /\ h_decompressed_offsets g = h_decompressed_offsets g'
  /\ compressed_size_with_headers g = compressed_size_with_headers g'
  /\ max_decompressed_size g = max_decompressed_size g'
  /\ available_decompressed_size g = available_decompressed_size g'
  /\ read_pos g = read_pos g'
  /\ is_decompressed g = is_decompressed g'.
Proof.
  unfold same_host, host_view. intros [= H1 H2 H3 H4 H5 H6 H7 H8]. auto 10.
Qed.

Lemma same_host_intro (g g' : decompression_blocks) :
  h_compressed_blocks g = h_compressed_blocks g' ->
  h_compressed_offsets g = h_compressed_offsets g' ->
  h_decompressed_offsets g = h_decompressed_offsets g' ->
  compressed_size_with_headers g = compressed_size_with_headers g' ->
  max_decompressed_size g = max_decompressed_size g' ->
  available_decompressed_size g = available_decompressed_size g' ->
  read_pos g = read_pos g' ->
  is_decompressed g = is_decompressed g' ->
  same_host g g'.
Proof.
  unfold same_host, host_view. intros -> -> -> -> -> -> -> ->. reflexivity.
Qed.

Lemma same_host_refl (g : decompression_blocks) : same_host g g.
Proof. reflexivity. Qed.

Lemma same_host_remaining (g g' : decompression_blocks) :
  same_host g g' -> remaining_size g = remaining_size g'.
Proof.
  intros H. apply same_host_fields in H. destruct H as (_ & _ & _ & _ & _ & Ha & Hr & _).
  unfold remaining_size. rewrite Ha, Hr. reflexivity.
Qed.

Lemma same_host_decompressed_size (g g' : decompression_blocks) :
  same_host g g' -> decompressed_size g = decompressed_size g'.
Proof.
  intros H. apply same_host_fields in H. destruct H as (_ & _ & Ho & _).
  unfold decompressed_size. rewrite Ho. reflexivity.
Qed.

Lemma reset_same_host (g g' : decompression_blocks) :
  same_host g g' -> same_host (reset g) (reset g').
Proof.
  intros H. apply same_host_fields in H. destruct H as (_ & Hc & Hd & _).
  apply same_host_intro; cbn [reset h_compressed_blocks h_compressed_offsets
    h_decompressed_offsets compressed_size_with_headers max_decompressed_size
    available_decompressed_size read_pos is_decompressed]; congruence.
Qed.

Lemma decompress_same_host (P P' : platform) (g g' : decompression_blocks) :
  same_host g g' -> same_host (fst (decompress P g)) (fst (decompress P' g')).
Proof.
  intros H. apply same_host_fields in H.
  destruct H as (H1 & H2 & H3 & H4 & H5 & H6 & H7 & H8).
  destruct (decompress_scalars P g) as (Gr & Ga & Gb & Gc & Gd & Gm).
  destruct (decompress_scalars P' g') as (Gr' & Ga' & Gb' & Gc' & Gd' & Gm').
  apply same_host_intro; rewrite ?decompress_sets_flag; try congruence.
  unfold decompress. destruct (is_decompressed g) eqn:Hf, (is_decompressed g') eqn:Hf';
    try discriminate; cbn [fst]; [exact H4|].
  destruct (decompressed_size g >? 0), (decompressed_size g' >? 0);
    try destruct (nvcomp_all_enabled P); try destruct (nvcomp_all_enabled P');
    repeat match goal with
           | |- context [run_backend ?a ?b ?c ?d] => destruct (run_backend a b c d)
           end; cbn [fst compressed_size_with_headers]; exact H4.
Qed.

Lemma consume_bytes_same_host (size : Z) (g g' : decompression_blocks) :
  same_host g g' ->
  same_outcome same_host (consume_bytes size g) (consume_bytes size g').
Proof.
  intros H. rewrite !consume_bytes_spec, (same_host_remaining g g' H).
  apply same_host_fields in H. destruct H as (H1 & H2 & H3 & H4 & H5 & H6 & H7 & H8).
  destruct (_ <=? _); cbn [same_outcome]; [|reflexivity].
  apply same_host_intro; cbn [set_read_pos h_compressed_blocks h_compressed_offsets
    h_decompressed_offsets compressed_size_with_headers max_decompressed_size
    available_decompressed_size read_pos is_decompressed]; congruence.
Qed.

Lemma read_block_same_host (h : bgzip_header) (s : istream)
      (g g' : decompression_blocks) :
  same_host g g' ->
  same_outcome (fun a a' => same_host (fst a) (fst a') /\ snd a = snd a')
               (read_block h s g) (read_block h s g').
Proof.
  intros H. apply same_host_fields in H.
  destruct H as (H1 & H2 & H3 & H4 & H5 & H6 & H7 & H8).
  unfold read_block, compressed_size. rewrite H1, H2.
  destruct (_ <=? _); cbn [same_outcome]; [reflexivity|].
  destruct (stream_read _ _) as [[bytes s1]|e]; cbn [bind same_outcome fst snd];
    [|reflexivity].
  split; [|reflexivity].
  apply same_host_intro; cbn [h_compressed_blocks h_compressed_offsets
    h_decompressed_offsets compressed_size_with_headers max_decompressed_size
    available_decompressed_size read_pos is_decompressed]; congruence.
Qed.

Lemma staged_same_host (h : bgzip_header) (f : bgzip_footer) (x : Z)
      (g g' : decompression_blocks) :
  same_host g g' ->
  same_host
    (set_available (wrap64 (available_decompressed_size (add_block_offsets h f g) + x))
                   (add_block_offsets h f g))
    (set_available (wrap64 (available_decompressed_size (add_block_offsets h f g') + x))
                   (add_block_offsets h f g')).
Proof.
  intros H. apply same_host_fields in H.
  destruct H as (H1 & H2 & H3 & H4 & H5 & H6 & H7 & H8).
  apply same_host_intro; unfold compressed_size, decompressed_size;
    cbn [set_available add_block_offsets h_compressed_blocks h_compressed_offsets
         h_decompressed_offsets compressed_size_with_headers max_decompressed_size
         available_decompressed_size read_pos is_decompressed];
    unfold compressed_size, decompressed_size; congruence.
Qed.

Section SameHost.
Variables P P' : platform.
Hypothesis Hhost : host_byte_order P = host_byte_order P'.

Lemma read_header_loop_host (fuel : nat) :
  forall (xl off : Z) (buffer : list byte) (s : istream),
    read_header_loop P fuel xl off buffer s = read_header_loop P' fuel xl off buffer s.
Proof.
  induction fuel as [|fuel IH]; intros xl off buffer s; cbn [read_header_loop];
    [reflexivity|].
  destruct (off <? xl); [|reflexivity].
  destruct (xl - off >=? 4); cbn [CUDF_EXPECTS bind]; [|reflexivity].
  destruct (stream_read 4 s) as [[b4 s4]|e]; cbn [bind]; [|reflexivity].
  rewrite <- Hhost. destruct (_ && _).
  - reflexivity.
  - destruct (stream_seekg_cur _ s4) as [s3|e]; cbn [bind]; [|reflexivity].
    apply IH.
Qed.

Lemma read_header_host (s : istream) : read_header P s = read_header P' s.
Proof.
  unfold read_header. destruct (stream_read 12 s) as [[buffer s1]|e]; cbn [bind];
    [|reflexivity].
  destruct (CUDF_EXPECTS _ _); cbn [bind]; [|reflexivity].
  rewrite <- Hhost. apply read_header_loop_host.
Qed.

Lemma read_footer_host (s : istream) : read_footer P s = read_footer P' s.
Proof. unfold read_footer. rewrite Hhost. reflexivity. Qed.

Lemma read_chunk_loop_same_host (n : Z) (fuel : nat) :
  forall r r',
    same_host_reader r r' ->
    same_outcome same_host_reader
                 (read_chunk_loop P fuel n r) (read_chunk_loop P' fuel n r').
Proof.
  induction fuel as [|fuel IH]; intros r r' Hrel; cbn [read_chunk_loop];
    [reflexivity|].
  pose proof Hrel as (Hs & Hp & Hc & Hl & Hcp & Hce).
  rewrite (same_host_decompressed_size _ _ Hc), Hs, Hl, Hcp, Hce.
  destruct (_ <? n); [|exact Hrel].
  destruct (stream_eof (_data_stream r')); [exact Hrel|].
  destruct (stream_peek (_data_stream r')) as [s0|e]; cbn [bind same_outcome];
    [|reflexivity].
  destruct (stream_eof s0 || (_compressed_pos r' >? _compressed_end r')).
  { cbn [same_outcome]. unfold same_host_reader.
    cbn [_data_stream _prev_blocks _curr_blocks _local_end _compressed_pos
         _compressed_end]. auto 10. }
  rewrite read_header_host.
  destruct (read_header P' s0) as [[header s1]|e]; cbn [bind same_outcome];
    [|reflexivity].
  pose proof (read_block_same_host header s1 _ _ Hc) as Hrb.
  destruct (read_block header s1 (_curr_blocks r)) as [[g1 s2]|e1],
           (read_block header s1 (_curr_blocks r')) as [[g1' s2']|e1'];
    cbn [same_outcome fst snd] in Hrb; try contradiction; cbn [bind same_outcome];
    [|exact Hrb].
  destruct Hrb as [Hg1 <-].
  rewrite read_footer_host.
  destruct (read_footer P' s2) as [[footer s3]|e]; cbn [bind same_outcome];
    [|reflexivity].
  destruct (_compressed_pos r' =? _compressed_end r').
  - cbn [same_outcome]. unfold same_host_reader.
    cbn [_data_stream _prev_blocks _curr_blocks _local_end _compressed_pos
         _compressed_end].
    split; [reflexivity|]. split; [exact Hp|].
    split; [apply staged_same_host; exact Hg1|]. auto.
  - apply IH. unfold same_host_reader.
    cbn [_data_stream _prev_blocks _curr_blocks _local_end _compressed_pos
         _compressed_end].
    split; [reflexivity|]. split; [exact Hp|].
    split; [apply staged_same_host; exact Hg1|]. auto.
Qed.

Lemma read_next_compressed_chunk_same_host (n : Z) (r r' : reader) :
  same_host_reader r r' ->
  same_outcome same_host_reader
               (read_next_compressed_chunk P n r) (read_next_compressed_chunk P' n r').
Proof.
  intros Hrel. pose proof Hrel as (Hs & Hp & Hc & Hl & Hcp & Hce).
  unfold read_next_compressed_chunk.
  cbn [_data_stream _prev_blocks _curr_blocks _local_end _compressed_pos
       _compressed_end].
  rewrite Hs. apply read_chunk_loop_same_host. unfold same_host_reader.
  cbn [_data_stream _prev_blocks _curr_blocks _local_end _compressed_pos
       _compressed_end].
  split; [reflexivity|]. split; [exact Hc|]. split; [apply reset_same_host; exact Hp|].
  auto.
Qed.

Lemma get_next_chunk_same_host (n : Z) (r r' : reader) :
  same_host_reader r r' ->
  same_outcome (fun a a' => same_host_reader (snd a) (snd a'))
               (get_next_chunk P n r) (get_next_chunk P' n r').
Proof.
  intros Hrel. pose proof Hrel as (Hs & Hp & Hc & Hl & Hcp & Hce).
  unfold get_next_chunk. rewrite (same_host_remaining _ _ Hc).
  destruct (_ <=? _).
  - pose proof (consume_bytes_same_host n _ _ (decompress_same_host P P' _ _ Hc)) as Hcons.
    destruct (consume_bytes n (fst (decompress P (_curr_blocks r)))) as [g1|e1],
             (consume_bytes n (fst (decompress P' (_curr_blocks r')))) as [g1'|e1'];
      cbn [same_outcome] in Hcons; try contradiction; cbn [bind same_outcome snd];
      [|exact Hcons].
    unfold same_host_reader.
    cbn [_data_stream _prev_blocks _curr_blocks _local_end _compressed_pos
         _compressed_end]. auto 10.
  - pose proof (read_next_compressed_chunk_same_host n r r' Hrel) as Hnext.
    destruct (read_next_compressed_chunk P n r) as [r2|e2],
             (read_next_compressed_chunk P' n r') as [r2'|e2'];
      cbn [same_outcome] in Hnext; try contradiction; cbn [bind same_outcome];
      [|exact Hnext].
    destruct Hnext as (Hs2 & Hp2 & Hc2 & Hl2 & Hcp2 & Hce2).
    pose proof (decompress_same_host P P' _ _ Hp2) as Hdp.
    pose proof (decompress_same_host P P' _ _ Hc2) as Hdc.
    rewrite (same_host_remaining _ _ Hdp), (same_host_remaining _ _ Hdc).
    pose proof (consume_bytes_same_host
                  (remaining_size (fst (decompress P' (_prev_blocks r2')))) _ _ Hdp)
      as Hcp'.
    destruct (consume_bytes _ (fst (decompress P (_prev_blocks r2)))) as [gp|ep],
             (consume_bytes _ (fst (decompress P' (_prev_blocks r2')))) as [gp'|ep'];
      cbn [same_outcome] in Hcp'; try contradiction; cbn [bind same_outcome];
      [|exact Hcp'].
    match goal with
    | |- context [consume_bytes ?k (fst (decompress P (_curr_blocks r2)))] =>
        pose proof (consume_bytes_same_host k _ _ Hdc) as Hcc'
    end.
    destruct (consume_bytes _ (fst (decompress P (_curr_blocks r2)))) as [gc|ec],
             (consume_bytes _ (fst (decompress P' (_curr_blocks r2')))) as [gc'|ec'];
      cbn [same_outcome] in Hcc'; try contradiction; cbn [bind same_outcome snd];
      [|exact Hcc'].
    unfold same_host_reader.
    cbn [_data_stream _prev_blocks _curr_blocks _local_end _compressed_pos
         _compressed_end]. auto 10.
Qed.

Lemma constructor_same_host (s : istream) (vb ve : Z) :
  same_outcome same_host_reader
               (bgzip_data_chunk_reader P s vb ve) (bgzip_data_chunk_reader P' s vb ve).
Proof.
  unfold bgzip_data_chunk_reader.
  cbn [_data_stream _prev_blocks _curr_blocks _local_end _compressed_pos
       _compressed_end].
  destruct (stream_seekg_cur _ s) as [s1|e]; cbn [bind same_outcome]; [|reflexivity].
  match goal with
  | |- context [read_next_compressed_chunk P ?k ?r0] =>
      pose proof (read_next_compressed_chunk_same_host k r0 r0) as Hnext
  end.
  assert (Hrefl : forall r0, same_host_reader r0 r0)
    by (intros r0; unfold same_host_reader; auto 10 using same_host_refl).
  specialize (Hnext (Hrefl _)).
  destruct (read_next_compressed_chunk P _ _) as [r2|e2],
           (read_next_compressed_chunk P' _ _) as [r2'|e2'];
    cbn [same_outcome] in Hnext; try contradiction; cbn [bind same_outcome];
    [|exact Hnext].
  pose proof Hnext as (Hs2 & Hp2 & Hc2 & Hl2 & Hcp2 & Hce2).
  destruct (_ >? 0); [|exact Hnext].
  destruct (same_host_fields _ _ Hc2) as (_ & Ho & _). rewrite Ho.
  destruct (CUDF_EXPECTS _ _); cbn [bind same_outcome]; [|reflexivity].
  pose proof (consume_bytes_same_host (Z.land vb 65535) _ _ Hc2) as Hcons.
  destruct (consume_bytes _ (_curr_blocks r2)) as [g1|e1],
           (consume_bytes _ (_curr_blocks r2')) as [g1'|e1'];
    cbn [same_outcome] in Hcons; try contradiction; cbn [bind same_outcome];
    [|exact Hcons].
  unfold same_host_reader.
  cbn [_data_stream _prev_blocks _curr_blocks _local_end _compressed_pos
       _compressed_end]. auto 10.
Qed.

Lemma read_chunks_same_host (bytes : list byte) (sizes : list Z) :
  zlen bytes < 2 ^ 32 ->
  Forall (fun n => 0 <= n) sizes ->
  forall r r',
    bounded_reader bytes r ->
    bounded_reader bytes r' ->
    same_host_reader r r' ->
    same_outcome (fun a a' => map zlen (fst a) = map zlen (fst a')
                              /\ same_host_reader (snd a) (snd a'))
                 (read_chunks P sizes r) (read_chunks P' sizes r').
Proof.
  intros Hsize. induction 1 as [|n sizes Hn _ IH]; intros r r' Hb Hb' Hrel;
    cbn [read_chunks].
  - cbn [same_outcome fst snd map]. auto.
  - pose proof (get_next_chunk_same_host n r r' Hrel) as Hget.
    destruct (get_next_chunk P n r) as [[d r1]|e1] eqn:Hg,
             (get_next_chunk P' n r') as [[d' r1']|e1'] eqn:Hg';
      cbn [same_outcome snd] in Hget; try contradiction; cbn [bind same_outcome];
      [|exact Hget].
    pose proof (get_next_chunk_bounded P bytes n r r1 d Hb Hn Hg) as Hb1.
    pose proof (get_next_chunk_bounded P' bytes n r' r1' d' Hb' Hn Hg') as Hb1'.
    assert (Hlen : zlen d = zlen d').
    { destruct Hrel as (_ & _ & Hc & _). destruct Hget as (_ & _ & Hc1 & _).
      pose proof (same_host_remaining _ _ Hc) as Hrem.
      destruct (same_host_fields _ _ Hc1) as (_ & _ & _ & _ & _ & Hav & _).
      destruct (get_next_chunk_sizes P bytes r r1 n d Hsize Hb Hn Hg)
        as [(H1 & H2 & _)|(H1 & H2 & _)],
         (get_next_chunk_sizes P' bytes r' r1' n d' Hsize Hb' Hn Hg')
        as [(H1' & H2' & _)|(H1' & H2' & _)]; lia. }
    specialize (IH r1 r1' Hb1 Hb1' Hget).
    destruct (read_chunks P sizes r1) as [[cs r2]|e2],
             (read_chunks P' sizes r1') as [[cs' r2']|e2'];
      cbn [same_outcome fst snd] in IH; try contradiction;
      cbn [bind same_outcome fst snd map]; [|exact IH].
    destruct IH as [Hcs Hrel2]. split; [rewrite Hlen, Hcs; reflexivity|exact Hrel2].
Qed.

End SameHost.

(** X20: the reader never consults the decompression backend.  On any file
    of less than 4 GiB, two platforms with the same byte order, whatever
    their backends produce, end every run of a constructor followed by
    get_next_chunk calls alike: with the same error, or with chunks of the
    same sizes and readers that differ in their device buffers only.  A
    failed decompression is never reported. *)
Theorem backend_never_consulted (P P' : platform) (bytes : list byte)
        (vb ve : Z) (sizes : list Z) :
  host_byte_order P = host_byte_order P' ->
  zlen bytes < 2 ^ 32 ->
  0 <= ve ->
  Forall (fun n => 0 <= n) sizes ->
  same_outcome (fun a a' => map zlen (fst a) = map zlen (fst a')
                            /\ same_host_reader (snd a) (snd a'))
               (read_range P bytes vb ve sizes) (read_range P' bytes vb ve sizes).
Proof.
  intros Hhost Hsize Hve Hsizes. unfold read_range.
  pose proof (constructor_same_host P P' Hhost (open_stream bytes) vb ve) as Hctor.
  destruct (bgzip_data_chunk_reader P (open_stream bytes) vb ve) as [r|e] eqn:Hc,
           (bgzip_data_chunk_reader P' (open_stream bytes) vb ve) as [r'|e'] eqn:Hc';
    cbn [same_outcome] in Hctor; try contradiction; cbn [bind]; [|exact Hctor].
  apply (read_chunks_same_host P P' Hhost bytes sizes Hsize Hsizes).
  - exact (constructor_bounded P bytes vb ve r Hve Hc).
  - exact (constructor_bounded P' bytes vb ve r' Hve Hc').
  - exact Hctor.
Qed.

Lemma backend_never_consulted_witness :
  match read_range run_length_platform (encode_stream example_file) 0 whole_file [5; 20],
        read_range stored_platform (encode_stream example_file) 0 whole_file [5; 20]
  with
  | Ok (chunks, _), Ok (chunks', _) => map zlen chunks = map zlen chunks'
  | _, _ => False
  end.
Proof.
  assert (Hsize : zlen (encode_stream example_file) < 2 ^ 32)
    by (vm_compute; reflexivity).
  assert (Hsizes : Forall (fun n => 0 <= n) [5; 20]) by (repeat constructor; lia).
  pose proof (backend_never_consulted run_length_platform stored_platform
                (encode_stream example_file) 0 whole_file [5; 20] eq_refl Hsize
                ltac:(unfold whole_file; lia) Hsizes) as H.
  destruct (read_range run_length_platform (encode_stream example_file) 0 whole_file
                       [5; 20]) as [[chunks r]|e] eqn:Hrun;
    [|vm_compute in Hrun; discriminate Hrun].
  destruct (read_range stored_platform (encode_stream example_file) 0 whole_file
                       [5; 20]) as [[chunks' r']|e'];
    cbn [same_outcome fst snd] in H; [|contradiction].
  exact (proj1 H).
Defined.
